(** * pik: header field lists and the PNG metadata bridge

    A shallow embedding of [headers.h] (the field lists of the tile, group,
    pass and file headers) and of the metadata part of [codec_png.cc]
    (base16 text chunks, eXIf chunks), with the properties the
    specification states about them. *)

From Stdlib Require Import String Ascii.
From Stdlib Require Import Strings.Byte.
From Stdlib Require Import ZArith List Bool Lia PeanoNat.
Import ListNotations.

Local Open Scope string_scope.
Local Open Scope list_scope.
Local Open Scope Z_scope.

(** ** Status

    [Status] is a success flag; [PIK_FAILURE(msg)] is the failed status
    carrying its diagnostic, a plain [return false] carries none. *)

Inductive Status : Type :=
| StatusOk
| StatusFailure (message : string).

Definition PIK_FAILURE (message : string) : Status := StatusFailure message.

Definition StatusFalse : Status := StatusFailure EmptyString.

Definition IsOk (s : Status) : bool :=
  match s with StatusOk => true | StatusFailure _ => false end.

(** ** Characters, C strings and byte buffers *)

(** A C string is the list of its characters before the terminating NUL. *)
Definition cstring : Type := list ascii.

Definition cstr (s : string) : cstring := list_ascii_of_string s.

(** The code of a character. *)
Definition code (c : ascii) : Z := Z.of_N (N_of_ascii c).

Definition char_of (z : Z) : ascii := ascii_of_N (Z.to_N (z mod 256)).

Definition ascii_eqb (a b : ascii) : bool := Ascii.eqb a b.

Definition newline : ascii := "010"%char.

(** [PaddedBytes]: a resizable buffer of [uint8_t]. *)
Definition PaddedBytes : Type := list byte.

Definition u8 (b : byte) : Z := Z.of_N (Byte.to_N b).

(** [static_cast<uint8_t>(z)]. *)
Definition to_u8 (z : Z) : byte :=
  match Byte.of_N (Z.to_N (z mod 256)) with
  | Some b => b
  | None => x00
  end.

Fixpoint cstring_eqb (a b : cstring) : bool :=
  match a, b with
  | [], [] => true
  | x :: a', y :: b' => ascii_eqb x y && cstring_eqb a' b'
  | _, _ => false
  end.

(** [strncmp(a, b, n) == 0] on NUL-terminated strings. *)
Definition strncmp_eq (a b : cstring) (n : nat) : bool :=
  cstring_eqb (firstn n a) (firstn n b).

(** [strstr(haystack, needle) != nullptr]. *)
Fixpoint is_prefix (needle s : cstring) : bool :=
  match needle, s with
  | [], _ => true
  | x :: needle', y :: s' => ascii_eqb x y && is_prefix needle' s'
  | _ :: _, [] => false
  end.

Fixpoint strstr (haystack needle : cstring) : bool :=
  is_prefix needle haystack ||
  match haystack with
  | [] => false
  | _ :: rest => strstr rest needle
  end.

(** [isspace] in the C locale. *)
Definition isspace (c : ascii) : bool :=
  let n := code c in (n =? 32) || ((9 <=? n) && (n <=? 13)).

Definition isdigit (c : ascii) : bool :=
  let n := code c in (48 <=? n) && (n <=? 57).

(** ** printf and scanf, as far as the metadata header uses them *)

Module Stdio.

(** Decimal digits of an [unsigned long], most significant first. The
    fuel bounds the number of digits; 20 suffice below [2^64]. *)
Fixpoint decimal_digits (fuel : nat) (n : Z) (acc : cstring) : cstring :=
  match fuel with
  | O => acc
  | S fuel' =>
      let acc' := char_of (48 + n mod 10) :: acc in
      if n / 10 =? 0 then acc' else decimal_digits fuel' (n / 10) acc'
  end.

Definition print_lu (n : Z) : cstring := decimal_digits 20 n [].

(** [%<width>lu]: right-justified, padded with spaces to [width]. *)
Definition print_lu_width (width : nat) (n : Z) : cstring :=
  let digits := print_lu n in
  repeat " "%char (width - length digits) ++ digits.

(** [snprintf(buf, size, ...)] keeps at most [size - 1] characters. *)
Definition snprintf (size : nat) (text : cstring) : cstring :=
  firstn (size - 1) text.

(** The directives of a scanf format. Of the conversions, those of the
    metadata header are covered: [%8lu] and [%n]. *)
Inductive directive : Type :=
| DSpace
| DLiteral (c : ascii)
| DULong (width : nat)
| DCount.

(** Parses a format string. [%%] skips white space, as every conversion
    specification but [%c], [%[] and [%n] does, and then matches a percent
    sign. [None]: the format holds a conversion specification other than
    [%%], [%8lu] or [%n] (an assignment-suppressing [%*d], say), which
    this model of [sscanf] does not cover. *)
Fixpoint parse_format (fuel : nat) (format : cstring) : option (list directive) :=
  match fuel with
  | O => None
  | S fuel' =>
      match format with
      | [] => Some []
      | "%"%char :: "%"%char :: rest =>
          option_map (fun ds => DSpace :: DLiteral "%"%char :: ds)
                     (parse_format fuel' rest)
      | "%"%char :: "8"%char :: "l"%char :: "u"%char :: rest =>
          option_map (cons (DULong 8)) (parse_format fuel' rest)
      | "%"%char :: "n"%char :: rest =>
          option_map (cons DCount) (parse_format fuel' rest)
      | "%"%char :: _ => None
      | c :: rest =>
          option_map (cons (if isspace c then DSpace else DLiteral c))
                     (parse_format fuel' rest)
      end
  end.

Fixpoint skip_space (input : cstring) : cstring :=
  match input with
  | c :: rest => if isspace c then skip_space rest else input
  | [] => []
  end.

(** The longest run of at most [width] leading digits, and the rest. *)
Fixpoint take_digits (width : nat) (input : cstring) : cstring * cstring :=
  match width, input with
  | S width', c :: rest =>
      if isdigit c
      then let '(ds, rest') := take_digits width' rest in (c :: ds, rest')
      else ([], input)
  | _, _ => ([], input)
  end.

Definition digits_value (ds : cstring) : Z :=
  fold_left (fun acc c => 10 * acc + (code c - 48)) ds 0.

(** The optional sign of a number: whether it is a minus, the width left
    and the input after it. *)
Definition scan_sign (width : nat) (input : cstring) : bool * nat * cstring :=
  match width, input with
  | S width', "-"%char :: rest => (true, width', rest)
  | S width', "+"%char :: rest => (false, width', rest)
  | _, _ => (false, width, input)
  end.

(** An optionally signed decimal integer of at most [width] characters,
    converted as [strtoul] does (a minus sign negates modulo [2^64]).
    Returns the value and the rest of the input, or [None] when no digit
    is found. *)
Definition scan_lu (width : nat) (input : cstring) : option (Z * cstring) :=
  let '(negative, width, input) := scan_sign width (skip_space input) in
  match take_digits width input with
  | ([], _) => None
  | (ds, rest) =>
      let v := digits_value ds in
      Some (if negative then (- v) mod 2 ^ 64 else v, rest)
  end.

(** The state of one [sscanf] call: the values stored so far by [%8lu]
    and by [%n], in the order of the argument list. *)
Record scan_state : Type := {
  assigned : list Z;
  counts : list Z
}.

(** Runs the directives over the input; [consumed] counts the characters
    read so far. The run stops at the first directive that fails. *)
Fixpoint run_directives (ds : list directive) (input : cstring) (consumed : Z)
    (st : scan_state) : scan_state :=
  match ds with
  | [] => st
  | DSpace :: ds' =>
      let rest := skip_space input in
      run_directives ds' rest
        (consumed + Z.of_nat (length input - length rest)) st
  | DLiteral c :: ds' =>
      match input with
      | c' :: rest =>
          if ascii_eqb c c' then run_directives ds' rest (consumed + 1) st
          else st
      | [] => st
      end
  | DULong width :: ds' =>
      match scan_lu width input with
      | Some (v, rest) =>
          run_directives ds' rest
            (consumed + Z.of_nat (length input - length rest))
            {| assigned := assigned st ++ [v]; counts := counts st |}
      | None => st
      end
  | DCount :: ds' =>
      run_directives ds' input consumed
        {| assigned := assigned st; counts := counts st ++ [consumed] |}
  end.

End Stdio.

(** ** codec_png.cc: metadata in PNG text chunks *)

(** The metadata blobs the adapter fills and reads ([metadata.h] declares
    more; these are the members [codec_png.cc] touches). *)
Record Metadata : Type := {
  exif : PaddedBytes;
  iptc : PaddedBytes;
  xmp : PaddedBytes
}.

(** The members of LodePNG's [LodePNGInfo] the adapter touches: the text
    chunks and the international text chunks, as (key, string) pairs in the
    order they were added. *)
Record LodePNGInfo : Type := {
  text : list (cstring * cstring);
  itext : list (cstring * cstring)
}.

Definition bytes_of_cstring (s : cstring) : PaddedBytes := map byte_of_ascii s.

(** [std::string(data, size).c_str()]: the characters before the first
    NUL. *)
Fixpoint c_str (b : PaddedBytes) : cstring :=
  match b with
  | [] => []
  | x :: b' =>
      match x with
      | x00 => []
      | _ => ascii_of_byte x :: c_str b'
      end
  end.

Module MetadataReaderPNG.

(** [DecodeNibble]: the status and the value stored in [*nibble]. *)
Definition DecodeNibble (c : ascii) : Status * Z :=
  if (code "a" <=? code c) && (code c <=? code "f") then
    (StatusOk, 10 + code c - code "a")
  else if (code "0" <=? code c) && (code c <=? code "9") then
    (StatusOk, code c - code "0")
  else
    (PIK_FAILURE "Invalid metadata nibble", 0).

Definition kKey : cstring := cstr "Raw profile type ".

Definition kMaxTypeLen : nat := 20.

(** The format built by [snprintf(format, sizeof(format), "\n%s\n%%8lu%%n",
    type)], with [sizeof(format) = 10 + kMaxTypeLen]. *)
Definition header_format (type : cstring) : cstring :=
  Stdio.snprintf (10 + kMaxTypeLen)
    (newline :: type ++ newline :: cstr "%8lu%n").

Definition is_conversion (d : Stdio.directive) : bool :=
  match d with
  | Stdio.DULong _ | Stdio.DCount => true
  | _ => false
  end.

(** [sscanf(encoded, format, &bytes_to_decode, &header_len)]. The outer
    [None] is a call without a result here: the type, copied from the key,
    brought conversion specifications of its own into the format, so that
    the conversions do not match the two arguments (undefined in C), or
    the format is one [Stdio.parse_format] does not cover. The inner
    [None] is [fields != 1]; otherwise [bytes_to_decode] and
    [header_len]. *)
Definition sscanf_header (encoded format : cstring) : option (option (Z * Z)) :=
  match Stdio.parse_format (S (length format)) format with
  | None => None
  | Some ds =>
      match filter is_conversion ds with
      | [Stdio.DULong _; Stdio.DCount] =>
          let st := Stdio.run_directives ds encoded 0
                      {| Stdio.assigned := []; Stdio.counts := [] |} in
          match Stdio.assigned st, Stdio.counts st with
          | [bytes_to_decode], [header_len] =>
              Some (Some (bytes_to_decode, header_len))
          | _, _ => Some None
          end
      | _ => None
      end
  end.

(** The decoding loop, [remaining = bytes_to_decode - i] iterations from
    index [i]. [pos] is the text from the read position to the end of
    [encoded], so that [pos + k >= encoded_end] reads [length pos <= k]. *)
Fixpoint DecodeBase16_loop (remaining : nat) (i : Z) (pos : cstring)
    (bytes : PaddedBytes) : Status * cstring * PaddedBytes :=
  match remaining with
  | O => (StatusOk, pos, bytes)
  | S remaining' =>
      let line :=
        if i mod 36 =? 0 then
          if (length pos <=? 1)%nat then inl (PIK_FAILURE "Truncated base16 1")
          else match pos with
               | c :: pos' =>
                   if ascii_eqb c newline then inr pos'
                   else inl (PIK_FAILURE "Expected newline")
               | [] => inl (PIK_FAILURE "Truncated base16 1")
               end
        else inr pos in
      match line with
      | inl failure => (failure, pos, bytes)
      | inr pos =>
          if (length pos <=? 2)%nat then
            (PIK_FAILURE "Truncated base16 2", pos, bytes)
          else
            match pos with
            | c0 :: c1 :: pos' =>
                match DecodeNibble c0, DecodeNibble c1 with
                | (StatusOk, nibble0), (StatusOk, nibble1) =>
                    DecodeBase16_loop remaining' (i + 1) pos'
                      (bytes ++ [to_u8 (Z.shiftl nibble1 4 + nibble0)])
                | (StatusFailure m, _), _ => (StatusFailure m, pos, bytes)
                | _, (StatusFailure m, _) => (StatusFailure m, pos, bytes)
                end
            | _ => (PIK_FAILURE "Truncated base16 2", pos, bytes)
            end
      end
  end.

(** [DecodeBase16(key, encoded, &type, &bytes)], called with an empty
    [type] and empty [bytes]: the status and the two outputs. [None]: see
    [sscanf_header]. *)
Definition DecodeBase16 (key encoded : cstring)
    : option (Status * cstring * PaddedBytes) :=
  if negb (strncmp_eq key kKey (length kKey)) then Some (StatusFalse, [], [])
  else
    let type := skipn (length kKey) key in
    if (kMaxTypeLen <? length type)%nat then
      Some (PIK_FAILURE "Type too long", type, [])
    else
      match sscanf_header encoded (header_format type) with
      | None => None
      | Some None => Some (PIK_FAILURE "Failed to decode metadata header", type, [])
      | Some (Some (bytes_to_decode, header_len)) =>
          let pos := skipn (Z.to_nat header_len) encoded in
          let '(status, pos, bytes) :=
            DecodeBase16_loop (Z.to_nat bytes_to_decode) 0 pos [] in
          match status with
          | StatusFailure _ => Some (status, type, bytes)
          | StatusOk =>
              if negb (length pos =? 1)%nat then
                Some (PIK_FAILURE "Too many encoded bytes", type, bytes)
              else
                match pos with
                | c :: _ =>
                    if ascii_eqb c newline then Some (StatusOk, type, bytes)
                    else Some (PIK_FAILURE "Incorrect metadata terminator", type, bytes)
                | [] => Some (PIK_FAILURE "Too many encoded bytes", type, bytes)
                end
          end
      end.

(** The loop of [Decode] over the text chunks. *)
Fixpoint Decode_text (chunks : list (cstring * cstring)) (metadata : Metadata)
    : option Metadata :=
  match chunks with
  | [] => Some metadata
  | (key, value) :: chunks' =>
      match DecodeBase16 key value with
      | None => None
      | Some (StatusOk, type, bytes) =>
          if cstring_eqb type (cstr "exif") then
            Decode_text chunks'
              {| exif := bytes; iptc := iptc metadata; xmp := xmp metadata |}
          else if cstring_eqb type (cstr "iptc") then
            Decode_text chunks'
              {| exif := exif metadata; iptc := bytes; xmp := xmp metadata |}
          else if cstring_eqb type (cstr "xmp") then
            Decode_text chunks'
              {| exif := exif metadata; iptc := iptc metadata;
                 xmp := bytes_of_cstring value |}
          else Decode_text chunks' metadata
      | Some (StatusFailure _, _, _) => Decode_text chunks' metadata
      end
  end.

(** The loop of [Decode] over the international text chunks. *)
Fixpoint Decode_itext (chunks : list (cstring * cstring)) (metadata : Metadata)
    : Metadata :=
  match chunks with
  | [] => metadata
  | (key, value) :: chunks' =>
      Decode_itext chunks'
        (if strstr key (cstr "XML:com.adobe.xmp") then
           {| exif := exif metadata; iptc := iptc metadata;
              xmp := bytes_of_cstring value |}
         else metadata)
  end.

(** [Decode(info, metadata)]: always returns true. *)
Definition Decode (info : LodePNGInfo) (metadata : Metadata)
    : option (Status * Metadata) :=
  match Decode_text (text info) (Decode_itext (itext info) metadata) with
  | Some metadata' => Some (StatusOk, metadata')
  | None => None
  end.

End MetadataReaderPNG.

Module MetadataWriterPNG.

Definition EncodeNibble (nibble : Z) : ascii :=
  if nibble <? 10 then char_of (code "0" + nibble)
  else char_of (code "a" + nibble - 10).

(** The loop of [EncodeBase16] from index [i] on. *)
Fixpoint EncodeBase16_loop (i : Z) (bytes : PaddedBytes) (base16 : cstring)
    : cstring :=
  match bytes with
  | [] => base16
  | b :: bytes' =>
      let base16 := if i mod 36 =? 0 then base16 ++ [newline] else base16 in
      let base16 := base16 ++ [EncodeNibble (Z.land (u8 b) 15)] in
      let base16 := base16 ++ [EncodeNibble (Z.shiftr (u8 b) 4)] in
      EncodeBase16_loop (i + 1) bytes' base16
  end.

Definition DivCeil (a b : Z) : Z := (a + b - 1) / b.

Definition base16_size (bytes : PaddedBytes) : Z :=
  2 * Z.of_nat (length bytes) + DivCeil (Z.of_nat (length bytes)) 36 + 1.

(** [lodepng_add_text(info, key, str)], which fails only for want of
    memory. *)
Definition lodepng_add_text (info : LodePNGInfo) (key str : cstring)
    : LodePNGInfo :=
  {| text := text info ++ [(key, str)]; itext := itext info |}.

Definition lodepng_add_itext (info : LodePNGInfo) (key str : cstring)
    : LodePNGInfo :=
  {| text := text info; itext := itext info ++ [(key, str)] |}.

(** The key and the string [EncodeBase16] hands to [lodepng_add_text]. *)
Definition EncodeBase16_chunk (type : cstring) (bytes : PaddedBytes)
    : cstring * cstring :=
  let base16 := EncodeBase16_loop 0 bytes [] ++ [newline] in
  let key := Stdio.snprintf 30 (cstr "Raw profile type " ++ type) in
  let header :=
    Stdio.snprintf 30
      (newline :: type ++ newline ::
       Stdio.print_lu_width 8 (Z.of_nat (length bytes))) in
  (key, header ++ base16).

Definition EncodeBase16 (type : cstring) (bytes : PaddedBytes)
    (info : LodePNGInfo) : Status * LodePNGInfo :=
  let '(key, encoded) := EncodeBase16_chunk type bytes in
  (StatusOk, lodepng_add_text info key encoded).

Definition Encode (metadata : Metadata) (info : LodePNGInfo)
    : Status * LodePNGInfo :=
  let info :=
    match exif metadata with
    | [] => info
    | _ => snd (EncodeBase16 (cstr "exif") (exif metadata) info)
    end in
  let info :=
    match iptc metadata with
    | [] => info
    | _ => snd (EncodeBase16 (cstr "iptc") (iptc metadata) info)
    end in
  let info :=
    match xmp metadata with
    | [] => info
    | _ => lodepng_add_itext info (cstr "XML:com.adobe.xmp")
             (c_str (xmp metadata))
    end in
  (StatusOk, info).

End MetadataWriterPNG.

(** ** codec_png.cc: metadata and colour chunks *)

(** A PNG chunk as LodePNG's accessors present it: its type, its payload
    and whether [lodepng_chunk_check_crc] accepts it. *)
Record Chunk : Type := {
  chunk_type : cstring;
  chunk_payload : PaddedBytes;
  chunk_crc_ok : bool
}.

Module ColorEncodingReaderPNG.

(** The scan of the profile name in [DecodeICC], [80 - i] iterations
    left: the failure, or the position after the terminating NUL. *)
Fixpoint DecodeICC_name (left : nat) (pos : PaddedBytes) : Status + PaddedBytes :=
  match left with
  | O => inl (PIK_FAILURE "ICC profile name too long")
  | S left' =>
      match pos with
      | [] => inl (PIK_FAILURE "Not enough bytes for ICC name")
      | x00 :: pos' => inr pos'
      | _ :: pos' => DecodeICC_name left' pos'
      end
  end.

(** The status of [DecodeICC]; the profile it stores is kept in the reader,
    not in the metadata. *)
Definition DecodeICC (payload : PaddedBytes) : Status :=
  match payload with
  | [] => PIK_FAILURE "Empty ICC payload"
  | x00 :: _ => PIK_FAILURE "Expected ICC name"
  | _ =>
      match DecodeICC_name 80 payload with
      | inl failure => failure
      | inr [] => PIK_FAILURE "Not enough bytes for ICC method"
      | inr (x00 :: _) => StatusOk
      | inr (_ :: _) => PIK_FAILURE "Unsupported ICC method"
      end
  end.

Definition DecodeSRGB (payload : PaddedBytes) : Status :=
  if negb (length payload =? 1)%nat then PIK_FAILURE "Wrong sRGB size"
  else StatusOk.

Definition DecodeGAMA (payload : PaddedBytes) : Status :=
  if negb (length payload =? 4)%nat then PIK_FAILURE "Wrong gAMA size"
  else StatusOk.

Definition DecodeCHRM (payload : PaddedBytes) : Status :=
  if negb (length payload =? 32)%nat then PIK_FAILURE "Wrong cHRM size"
  else StatusOk.

(** If we already have EXIF, keep the larger one. *)
Definition DecodeEXIF (payload : PaddedBytes) (metadata : Metadata)
    : Status * Metadata :=
  if (length payload <? length (exif metadata))%nat then (StatusOk, metadata)
  else (StatusOk,
        {| exif := payload; iptc := iptc metadata; xmp := xmp metadata |}).

Definition is_colorimetry_or_metadata (type : cstring) : bool :=
  cstring_eqb type (cstr "eXIf") || cstring_eqb type (cstr "iCCP") ||
  cstring_eqb type (cstr "sRGB") || cstring_eqb type (cstr "gAMA") ||
  cstring_eqb type (cstr "cHRM").

(** [Decode(bytes, metadata)], over the chunks that follow the PNG magic
    header. A chunk of one of the five types that ends the buffer is a
    truncated chunk and ends the loop; a CRC mismatch repeats the loop on
    the same chunk, so the call does not return ([None]). *)
Fixpoint Decode (chunks : list Chunk) (metadata : Metadata)
    : option (Status * Metadata) :=
  match chunks with
  | [] => Some (StatusOk, metadata)
  | chunk :: chunks' =>
      let type := chunk_type chunk in
      let payload := chunk_payload chunk in
      if is_colorimetry_or_metadata type then
        match chunks' with
        | [] => Some (StatusOk, metadata)
        | _ :: _ =>
            if negb (chunk_crc_ok chunk) then None
            else if cstring_eqb type (cstr "eXIf") then
              match DecodeEXIF payload metadata with
              | (StatusOk, metadata') => Decode chunks' metadata'
              | (failure, metadata') => Some (failure, metadata')
              end
            else
              let status :=
                if cstring_eqb type (cstr "iCCP") then DecodeICC payload
                else if cstring_eqb type (cstr "sRGB") then DecodeSRGB payload
                else if cstring_eqb type (cstr "gAMA") then DecodeGAMA payload
                else DecodeCHRM payload in
              match status with
              | StatusOk => Decode chunks' metadata
              | failure => Some (failure, metadata)
              end
        end
      else Decode chunks' metadata
  end.

End ColorEncodingReaderPNG.

(** ** Bit streams

    The bit reader and writer are collaborators of the header layer; a
    stream is the list of its bits in the order they are written. *)

Definition Bits : Type := list bool.

(** The [n] low bits of [v], least significant first. *)
Fixpoint bits_of_Z (n : nat) (v : Z) : Bits :=
  match n with
  | O => []
  | S n' => Z.odd v :: bits_of_Z n' (Z.div2 v)
  end.

Fixpoint Z_of_bits (bits : Bits) : Z :=
  match bits with
  | [] => 0
  | b :: bits' => Z.b2z b + 2 * Z_of_bits bits'
  end.

Definition is_u32 (v : Z) : bool := (0 <=? v) && (v <? 2 ^ 32).

Definition is_u64 (v : Z) : bool := (0 <=? v) && (v <? 2 ^ 64).

(** ** The field visitor protocol

    Every [VisitFields] is a template over its visitor: it is a sequence
    of calls of the visitor's operations, each of which may read or
    replace the field it is handed, and whose results steer the calls
    that follow. [Fields A] is such a sequence ending in a value of [A];
    a visitor interprets the calls. *)

Inductive BytesEncoding : Type := kRaw.

Inductive VisitorOp : Type -> Type :=
| OpBool (default : bool) (field : bool) : VisitorOp bool
| OpU32 (distribution : Z) (default : Z) (field : Z) : VisitorOp Z
| OpU64 (default : Z) (field : Z) : VisitorOp Z
| OpEnum (distribution : Z) (valid : Z -> bool) (default : Z) (field : Z)
    : VisitorOp Z
| OpBytes (encoding : BytesEncoding) (field : PaddedBytes) : VisitorOp PaddedBytes
| OpConditional (condition : bool) : VisitorOp bool
| OpAllDefault {T : Type} (all_default : bool) (defaults : T) (fields : T)
    : VisitorOp (bool * T)
| OpBeginExtensions (field : Z) : VisitorOp Z
| OpEndExtensions : VisitorOp Status
| OpSetSizeWhenReading (n : nat) (field : list Z) : VisitorOp (list Z)
| OpBeginNested : VisitorOp unit
| OpEndNested : VisitorOp unit.

Inductive Fields (A : Type) : Type :=
| Return (a : A)
| Call {X : Type} (op : VisitorOp X) (k : X -> Fields A).

Arguments Return {A} a.
Arguments Call {A X} op k.

Fixpoint bind {A B : Type} (m : Fields A) (f : A -> Fields B) : Fields B :=
  match m with
  | Return a => f a
  | Call op k => Call op (fun x => bind (k x) f)
  end.

Definition call {X : Type} (op : VisitorOp X) : Fields X := Call op Return.

Declare Scope fields_scope.
Delimit Scope fields_scope with fields.
Notation "x <- m ;; f" := (bind m (fun x => f))
  (at level 61, m at next level, right associativity) : fields_scope.
Notation "' pat <- m ;; f" := (bind m (fun x => match x with pat => f end))
  (at level 61, pat pattern, m at next level, right associativity) : fields_scope.
Notation "m ;;; f" := (bind m (fun _ => f))
  (at level 61, right associativity) : fields_scope.

(** The operations, as a field list calls them. The field is the current
    value of the member whose address the C++ passes; the result is the
    value of that member after the call. *)
Definition Bool (default field : bool) : Fields bool :=
  call (OpBool default field).
Definition U32 (distribution default field : Z) : Fields Z :=
  call (OpU32 distribution default field).
Definition U64 (default field : Z) : Fields Z :=
  call (OpU64 default field).
Definition Enum (distribution : Z) (valid : Z -> bool) (default field : Z)
    : Fields Z :=
  call (OpEnum distribution valid default field).
Definition Bytes (encoding : BytesEncoding) (field : PaddedBytes)
    : Fields PaddedBytes :=
  call (OpBytes encoding field).
Definition Conditional (condition : bool) : Fields bool :=
  call (OpConditional condition).
Definition AllDefault {T : Type} (all_default : bool) (defaults fields : T)
    : Fields (bool * T) :=
  call (OpAllDefault all_default defaults fields).
Definition BeginExtensions (field : Z) : Fields Z :=
  call (OpBeginExtensions field).
Definition EndExtensions : Fields Status := call OpEndExtensions.
Definition SetSizeWhenReading (n : nat) (field : list Z) : Fields (list Z) :=
  call (OpSetSizeWhenReading n field).

(** [VisitNested(&child)]: the child's own field list, between the
    visitor's entering and leaving the nested header. *)
Definition VisitNested {T : Type} (VisitFields : T -> Fields (Status * T))
    (child : T) : Fields (Status * T) :=
  Call OpBeginNested (fun _ =>
    bind (VisitFields child) (fun r =>
      Call OpEndNested (fun _ => Return r))).

(** A visitor: a state and what each operation does to it. *)
Class Visitor (V : Type) : Type :=
  visit : forall X : Type, VisitorOp X -> V -> X * V.

Arguments visit {V _ X} op v.

(** [Visit] runs a field list against a visitor. *)
Fixpoint Visit {V : Type} `{Visitor V} {A : Type} (fields : Fields A) (v : V)
    : A * V :=
  match fields with
  | Return a => (a, v)
  | Call op k => let '(x, v') := visit op v in Visit (k x) v'
  end.

(** The operations a run performs, in order. *)
Inductive Event : Type :=
| EvBool | EvU32 | EvU64 | EvEnum | EvBytes | EvConditional | EvAllDefault
| EvBeginExtensions | EvEndExtensions | EvSetSizeWhenReading
| EvBeginNested | EvEndNested.

Definition event_of {X : Type} (op : VisitorOp X) : Event :=
  match op with
  | OpBool _ _ => EvBool
  | OpU32 _ _ _ => EvU32
  | OpU64 _ _ => EvU64
  | OpEnum _ _ _ _ => EvEnum
  | OpBytes _ _ => EvBytes
  | OpConditional _ => EvConditional
  | OpAllDefault _ _ _ => EvAllDefault
  | OpBeginExtensions _ => EvBeginExtensions
  | OpEndExtensions => EvEndExtensions
  | OpSetSizeWhenReading _ _ => EvSetSizeWhenReading
  | OpBeginNested => EvBeginNested
  | OpEndNested => EvEndNested
  end.

Fixpoint Trace {V : Type} `{Visitor V} {A : Type} (fields : Fields A) (v : V)
    : list Event :=
  match fields with
  | Return _ => []
  | Call op k => let '(x, v') := visit op v in event_of op :: Trace (k x) v'
  end.

Definition Event_eqb (a b : Event) : bool :=
  match a, b with
  | EvBool, EvBool | EvU32, EvU32 | EvU64, EvU64 | EvEnum, EvEnum
  | EvBytes, EvBytes | EvConditional, EvConditional
  | EvAllDefault, EvAllDefault | EvBeginExtensions, EvBeginExtensions
  | EvEndExtensions, EvEndExtensions
  | EvSetSizeWhenReading, EvSetSizeWhenReading
  | EvBeginNested, EvBeginNested | EvEndNested, EvEndNested => true
  | _, _ => false
  end.

(** The events of the header itself: those outside every nested header. *)
Fixpoint own_events (depth : nat) (events : list Event) : list Event :=
  match events with
  | [] => []
  | EvBeginNested :: rest => own_events (S depth) rest
  | EvEndNested :: rest => own_events (pred depth) rest
  | e :: rest =>
      match depth with
      | O => e :: own_events depth rest
      | S _ => own_events depth rest
      end
  end.

Definition count_event (e : Event) (events : list Event) : nat :=
  length (filter (Event_eqb e) events).

(** ** The compressed-integer coder *)

Module U32Coder.

(** Modelled from the spec: the coder of [U32] and [Enum] fields, whose
    source ([fields.h]) is not part of the sources at hand. A field's
    distribution is a table of up to four alternatives; an alternative is a
    literal constant that needs no stored bits, or a bit width with an
    additive offset. *)
Inductive Alternative : Type :=
| Literal (value : Z)
| Stored (bit_width : nat) (offset : Z).

Definition Distribution : Type := list Alternative.

Definition ValueBits (a : Alternative) : nat :=
  match a with
  | Literal _ => O
  | Stored bit_width _ => bit_width
  end.

(** Whether the alternative represents [v] without loss. *)
Definition CanRepresent (a : Alternative) (v : Z) : bool :=
  match a with
  | Literal value => v =? value
  | Stored bit_width offset =>
      (offset <=? v) && (v <? offset + 2 ^ Z.of_nat bit_width)
  end.

(** The alternatives that represent [v], each with its selector. *)
Definition Candidates (d : Distribution) (v : Z) : list (nat * Alternative) :=
  filter (fun c => CanRepresent (snd c) v) (combine (seq 0 4) d).

Definition Cheaper (best : option (nat * Alternative)) (c : nat * Alternative)
    : option (nat * Alternative) :=
  match best with
  | None => Some c
  | Some b => if (ValueBits (snd c) <? ValueBits (snd b))%nat then Some c else best
  end.

(** Modelled from the spec: the encoder selects, among the alternatives
    that can represent the value, the one requiring the fewest bits (the
    first of them on a tie). The value is a [uint32_t]. *)
Definition ChooseEncoding (d : Distribution) (v : Z) : option (nat * Alternative) :=
  if is_u32 v then fold_left Cheaper (Candidates d v) None else None.

(** Modelled from the spec: the number of bits of the encoding, when the
    value has one. *)
Definition CanEncode (d : Distribution) (v : Z) : option Z :=
  match ChooseEncoding d v with
  | Some (_, a) => Some (2 + Z.of_nat (ValueBits a))
  | None => None
  end.

(** Modelled from the spec: a 2-bit selector, then the value bits if the
    alternative is not a literal. *)
Definition Write (d : Distribution) (v : Z) : option Bits :=
  match ChooseEncoding d v with
  | Some (selector, Literal _) => Some (bits_of_Z 2 (Z.of_nat selector))
  | Some (selector, Stored bit_width offset) =>
      Some (bits_of_Z 2 (Z.of_nat selector) ++ bits_of_Z bit_width (v - offset))
  | None => None
  end.

(** Modelled from the spec: the decoder reads the selector, then the value
    bits, and reconstructs the field as offset + stored bits (in
    [uint32_t] arithmetic). The result is the status, the value and the
    rest of the stream. *)
Definition Read (d : Distribution) (bits : Bits) : Status * Z * Bits :=
  match bits with
  | b0 :: b1 :: bits' =>
      match nth_error d (Z.to_nat (Z_of_bits [b0; b1])) with
      | Some (Literal value) => (StatusOk, value mod 2 ^ 32, bits')
      | Some (Stored bit_width offset) =>
          if (length bits' <? bit_width)%nat then
            (PIK_FAILURE "TruncatedStream", 0, [])
          else
            (StatusOk,
             (offset + Z_of_bits (firstn bit_width bits')) mod 2 ^ 32,
             skipn bit_width bits')
      | None => (PIK_FAILURE "InvalidSelector", 0, bits')
      end
  | _ => (PIK_FAILURE "TruncatedStream", 0, [])
  end.

End U32Coder.

(** ** What the field lists take from headers that are not at hand *)

(** The constants of [field_encodings.h], the table each packed
    distribution descriptor stands for, the coder of [U64] fields, the
    number of tiles per group, and the nested headers of [gaborish.h],
    [epf.h] and [metadata.h]. The packing of a distribution into its
    32-bit descriptor is left open: [Distribution_of] is any unpacking. *)
Class Externals : Type := {
  kU32RawBits : Z;
  kU32Direct3Plus4 : Z;
  kU32Direct2348 : Z;
  Distribution_of : Z -> U32Coder.Distribution;
  (** The distribution of the extension bit count. *)
  kExtensionBitsDistribution : Z;
  (** The variable-length coder of 64-bit values: every value below
      [2^64] is read back, whatever follows it. *)
  U64_Write : Z -> Bits;
  U64_Read : Bits -> option (Z * Bits);
  U64_Read_Write :
    forall v rest, is_u64 v = true -> U64_Read (U64_Write v ++ rest) = Some (v, rest);
  kNumTilesPerGroup : nat;
  (** [GaborishStrength]: its valid values, and [k750] among them. *)
  GaborishStrength_valid : Z -> bool;
  k750 : Z;
  EpfParams : Type;
  EpfParams_Default : EpfParams;
  EpfParams_VisitFields : EpfParams -> Fields (Status * EpfParams);
  Metadata_Default : Metadata;
  Metadata_VisitFields : Metadata -> Fields (Status * Metadata)
}.

(** ** The visitors *)

Definition first_failure (old new : Status) : Status :=
  match old with
  | StatusOk => new
  | StatusFailure _ => old
  end.

Fixpoint bits_of_bytes (bytes : PaddedBytes) : Bits :=
  match bytes with
  | [] => []
  | b :: bytes' => bits_of_Z 8 (u8 b) ++ bits_of_bytes bytes'
  end.

Fixpoint bytes_of_bits (n : nat) (bits : Bits) : PaddedBytes :=
  match n with
  | O => []
  | S n' => to_u8 (Z_of_bits (firstn 8 bits)) :: bytes_of_bits n' (skipn 8 bits)
  end.

(** [std::vector::resize(n)]. *)
Definition resize (n : nat) (v : list Z) : list Z :=
  firstn n v ++ repeat 0 (n - length v).

Section Visitors.

Context `{Externals}.

(** Modelled from the spec: the encoding visitor (its source is not at
    hand). It appends the bits of every field it visits to [storage];
    [w_extension_bits] is the extension bit count its caller passes (from
    [CanEncode]), written for the header being encoded, and zero for the
    headers nested in it, which define no extension yet. *)
Record WriteVisitor : Type := {
  storage : Bits;
  w_ok : Status;
  w_extension_bits : Z;
  w_depth : nat
}.

Definition w_append (bits : Bits) (v : WriteVisitor) : WriteVisitor :=
  {| storage := storage v ++ bits; w_ok := w_ok v;
     w_extension_bits := w_extension_bits v; w_depth := w_depth v |}.

Definition w_fail (message : string) (v : WriteVisitor) : WriteVisitor :=
  {| storage := storage v; w_ok := first_failure (w_ok v) (PIK_FAILURE message);
     w_extension_bits := w_extension_bits v; w_depth := w_depth v |}.

Definition w_set_depth (depth : nat) (v : WriteVisitor) : WriteVisitor :=
  {| storage := storage v; w_ok := w_ok v;
     w_extension_bits := w_extension_bits v; w_depth := depth |}.

Definition w_U32 (distribution field : Z) (v : WriteVisitor) : WriteVisitor :=
  match U32Coder.Write (Distribution_of distribution) field with
  | Some bits => w_append bits v
  | None => w_fail "UnrepresentableFieldValue" v
  end.

Definition WriteVisitor_visit (X : Type) (op : VisitorOp X) (v : WriteVisitor)
    : X * WriteVisitor :=
  match op in VisitorOp X return X * WriteVisitor with
  | OpBool _ field => (field, w_append [field] v)
  | OpU32 distribution _ field => (field, w_U32 distribution field v)
  | OpU64 _ field => (field, w_append (U64_Write field) v)
  | OpEnum distribution valid _ field =>
      (field,
       if valid field then w_U32 distribution field v
       else w_fail "UnrepresentableFieldValue" v)
  | OpBytes _ field =>
      (field,
       w_append (U64_Write (Z.of_nat (length field)) ++ bits_of_bytes field) v)
  | OpConditional condition => (condition, v)
  | OpAllDefault all_default _ fields =>
      ((all_default, fields), w_append [all_default] v)
  | OpBeginExtensions field =>
      (field,
       w_U32 kExtensionBitsDistribution
         (match w_depth v with O => w_extension_bits v | S _ => 0 end) v)
  | OpEndExtensions => (StatusOk, v)
  | OpSetSizeWhenReading _ field => (field, v)
  | OpBeginNested => (tt, w_set_depth (S (w_depth v)) v)
  | OpEndNested => (tt, w_set_depth (pred (w_depth v)) v)
  end.

#[export] Instance WriteVisitor_Visitor : Visitor WriteVisitor :=
  WriteVisitor_visit.

(** Modelled from the spec: the decoding visitor (its source is not at
    hand). [reader] is what is left of the stream; [r_extensions] holds,
    for every extension region that is open, its declared bit count and
    the length of the stream where the region begins. *)
Record ReadVisitor : Type := {
  reader : Bits;
  r_ok : Status;
  r_extensions : list (Z * nat)
}.

Definition r_set_reader (bits : Bits) (v : ReadVisitor) : ReadVisitor :=
  {| reader := bits; r_ok := r_ok v; r_extensions := r_extensions v |}.

Definition r_fail (failure : Status) (v : ReadVisitor) : ReadVisitor :=
  {| reader := reader v; r_ok := first_failure (r_ok v) failure;
     r_extensions := r_extensions v |}.

Definition r_set_extensions (e : list (Z * nat)) (v : ReadVisitor) : ReadVisitor :=
  {| reader := reader v; r_ok := r_ok v; r_extensions := e |}.

(** Reads [n] bits; on a stream that ends before, the visitor fails. *)
Definition r_ReadBits (n : nat) (v : ReadVisitor) : Bits * ReadVisitor :=
  if (length (reader v) <? n)%nat then
    (repeat false n, r_fail (PIK_FAILURE "TruncatedStream") (r_set_reader [] v))
  else (firstn n (reader v), r_set_reader (skipn n (reader v)) v).

Definition r_U32 (distribution : Z) (v : ReadVisitor) : Z * ReadVisitor :=
  let '(status, value, rest) :=
    U32Coder.Read (Distribution_of distribution) (reader v) in
  (value, r_fail status (r_set_reader rest v)).

Definition r_U64 (v : ReadVisitor) : Z * ReadVisitor :=
  match U64_Read (reader v) with
  | Some (value, rest) => (value, r_set_reader rest v)
  | None => (0, r_fail (PIK_FAILURE "TruncatedStream") (r_set_reader [] v))
  end.

Definition r_EndExtensions (v : ReadVisitor) : Status * ReadVisitor :=
  match r_extensions v with
  | [] => (StatusOk, v)
  | (count, begin) :: open =>
      let v := r_set_extensions open v in
      let consumed := Z.of_nat (begin - length (reader v)) in
      if count <? consumed then
        (PIK_FAILURE "ExtensionLengthMismatch",
         r_fail (PIK_FAILURE "ExtensionLengthMismatch") v)
      else
        let skip := Z.to_nat (count - consumed) in
        if (length (reader v) <? skip)%nat then
          (PIK_FAILURE "TruncatedStream",
           r_fail (PIK_FAILURE "TruncatedStream") (r_set_reader [] v))
        else (StatusOk, r_set_reader (skipn skip (reader v)) v)
  end.

Definition ReadVisitor_visit (X : Type) (op : VisitorOp X) (v : ReadVisitor)
    : X * ReadVisitor :=
  match op in VisitorOp X return X * ReadVisitor with
  | OpBool _ _ =>
      let '(bits, v) := r_ReadBits 1 v in
      (match bits with b :: _ => b | [] => false end, v)
  | OpU32 distribution _ _ => r_U32 distribution v
  | OpU64 _ _ => r_U64 v
  | OpEnum distribution valid _ _ =>
      let '(value, v) := r_U32 distribution v in
      (value,
       if valid value then v else r_fail (PIK_FAILURE "InvalidEnumValue") v)
  | OpBytes _ _ =>
      let '(size, v) := r_U64 v in
      let '(bits, v) := r_ReadBits (8 * Z.to_nat size) v in
      (bytes_of_bits (Z.to_nat size) bits, v)
  | OpConditional condition => (condition, v)
  | OpAllDefault _ defaults fields =>
      let '(bits, v) := r_ReadBits 1 v in
      match bits with
      | true :: _ => ((true, defaults), v)
      | _ => ((false, fields), v)
      end
  | OpBeginExtensions _ =>
      let '(count, v) := r_U32 kExtensionBitsDistribution v in
      (count,
       r_set_extensions ((count, length (reader v)) :: r_extensions v) v)
  | OpEndExtensions => r_EndExtensions v
  | OpSetSizeWhenReading n field => (resize n field, v)
  | OpBeginNested => (tt, v)
  | OpEndNested => (tt, v)
  end.

#[export] Instance ReadVisitor_Visitor : Visitor ReadVisitor :=
  ReadVisitor_visit.

(** Modelled from the spec: the size and validity oracle (its source is
    not at hand), a dry run of the encoding visitor that counts bits
    instead of writing them. [c_begin] holds the count at the beginning
    of every open extension region; when a region ends, the bits counted
    since are its payload, and the bits of that count are added. *)
Record CanEncodeVisitor : Type := {
  encoded_bits : Z;
  c_ok : Status;
  c_extension_bits : Z;
  c_depth : nat;
  c_begin : list Z
}.

Definition c_add (bits : Z) (v : CanEncodeVisitor) : CanEncodeVisitor :=
  {| encoded_bits := encoded_bits v + bits; c_ok := c_ok v;
     c_extension_bits := c_extension_bits v; c_depth := c_depth v;
     c_begin := c_begin v |}.

Definition c_fail (message : string) (v : CanEncodeVisitor) : CanEncodeVisitor :=
  {| encoded_bits := encoded_bits v;
     c_ok := first_failure (c_ok v) (PIK_FAILURE message);
     c_extension_bits := c_extension_bits v; c_depth := c_depth v;
     c_begin := c_begin v |}.

Definition c_set_depth (depth : nat) (v : CanEncodeVisitor) : CanEncodeVisitor :=
  {| encoded_bits := encoded_bits v; c_ok := c_ok v;
     c_extension_bits := c_extension_bits v; c_depth := depth;
     c_begin := c_begin v |}.

Definition c_U32 (distribution field : Z) (v : CanEncodeVisitor)
    : CanEncodeVisitor :=
  match U32Coder.CanEncode (Distribution_of distribution) field with
  | Some bits => c_add bits v
  | None => c_fail "UnrepresentableFieldValue" v
  end.

Definition c_EndExtensions (v : CanEncodeVisitor) : CanEncodeVisitor :=
  match c_begin v with
  | [] => v
  | begin :: open =>
      let extension_bits := encoded_bits v - begin in
      c_U32 kExtensionBitsDistribution extension_bits
        {| encoded_bits := encoded_bits v; c_ok := c_ok v;
           c_extension_bits :=
             match c_depth v with
             | O => extension_bits
             | S _ => c_extension_bits v
             end;
           c_depth := c_depth v; c_begin := open |}
  end.

Definition CanEncodeVisitor_visit (X : Type) (op : VisitorOp X)
    (v : CanEncodeVisitor) : X * CanEncodeVisitor :=
  match op in VisitorOp X return X * CanEncodeVisitor with
  | OpBool _ field => (field, c_add 1 v)
  | OpU32 distribution _ field => (field, c_U32 distribution field v)
  | OpU64 _ field => (field, c_add (Z.of_nat (length (U64_Write field))) v)
  | OpEnum distribution valid _ field =>
      (field,
       if valid field then c_U32 distribution field v
       else c_fail "UnrepresentableFieldValue" v)
  | OpBytes _ field =>
      (field,
       c_add (Z.of_nat (length (U64_Write (Z.of_nat (length field))))
              + 8 * Z.of_nat (length field)) v)
  | OpConditional condition => (condition, v)
  | OpAllDefault all_default _ fields => ((all_default, fields), c_add 1 v)
  | OpBeginExtensions field =>
      (field,
       {| encoded_bits := encoded_bits v; c_ok := c_ok v;
          c_extension_bits := c_extension_bits v; c_depth := c_depth v;
          c_begin := encoded_bits v :: c_begin v |})
  | OpEndExtensions => (StatusOk, c_EndExtensions v)
  | OpSetSizeWhenReading _ field => (field, v)
  | OpBeginNested => (tt, c_set_depth (S (c_depth v)) v)
  | OpEndNested => (tt, c_set_depth (pred (c_depth v)) v)
  end.

#[export] Instance CanEncodeVisitor_Visitor : Visitor CanEncodeVisitor :=
  CanEncodeVisitor_visit.

(** Modelled from the spec: the three entry points of a header type with
    field list [VisitFields] (declared in [headers.h], defined elsewhere).
    A failure of the field list itself comes first, then the visitor's. *)
Definition final_status (s ok : Status) : Status :=
  match s with
  | StatusOk => ok
  | StatusFailure _ => s
  end.

(** The status, [extension_bits] and [total_bits]. *)
Definition CanEncodeFields {T : Type} (VisitFields : T -> Fields (Status * T))
    (h : T) : Status * Z * Z :=
  let '((s, _), v) :=
    Visit (VisitFields h)
      {| encoded_bits := 0; c_ok := StatusOk; c_extension_bits := 0;
         c_depth := O; c_begin := [] |} in
  (final_status s (c_ok v), c_extension_bits v, encoded_bits v).

(** The status, the header as the visitor leaves it, and the rest of the
    stream. *)
Definition ReadFields {T : Type} (VisitFields : T -> Fields (Status * T))
    (bits : Bits) (h : T) : Status * T * Bits :=
  let '((s, h'), v) :=
    Visit (VisitFields h)
      {| reader := bits; r_ok := StatusOk; r_extensions := [] |} in
  (final_status s (r_ok v), h', reader v).

(** The status and the storage after the header is written behind the bits
    it holds already. *)
Definition WriteFields {T : Type} (VisitFields : T -> Fields (Status * T))
    (h : T) (extension_bits : Z) (storage0 : Bits) : Status * Bits :=
  let '((s, _), v) :=
    Visit (VisitFields h)
      {| storage := storage0; w_ok := StatusOk;
         w_extension_bits := extension_bits; w_depth := O |} in
  (final_status s (w_ok v), storage v).

End Visitors.

(** ** headers.h *)

Definition wrap32 (z : Z) : Z := z mod 2 ^ 32.

(** [a[i] = x] on an array: nothing lies outside it. *)
Fixpoint set_nth {A : Type} (i : nat) (x : A) (l : list A) : list A :=
  match l, i with
  | [], _ => []
  | _ :: l', O => x :: l'
  | y :: l', S i' => y :: set_nth i' x l'
  end.

Fixpoint list_eqb {A : Type} (eqb : A -> A -> bool) (a b : list A) : bool :=
  match a, b with
  | [], [] => true
  | x :: a', y :: b' => eqb x y && list_eqb eqb a' b'
  | _, _ => false
  end.

(** The end of every field list with an extension region. *)
Definition VisitExtensions {T : Type} (get : T -> Z) (set : Z -> T -> T) (h : T)
    : Fields (Status * T) :=
  (e <- BeginExtensions (get h) ;;
   let h := set e h in
   s <- EndExtensions ;;
   Return (s, h))%fields.

Definition kNumProjectiveTransformParams : nat := 8.

Module ProjectiveTransformParams.
Section WithExternals.
Context `{Externals}.

Record t : Type := { corner_coords : list Z }.

(** Modelled from the spec: a header is constructed with every field at
    the default its field list names (the constructors are declared in
    [headers.h] and defined elsewhere). *)
Definition Default : t :=
  {| corner_coords := repeat 1 kNumProjectiveTransformParams |}.

Definition AllDefaultFields (p : t) : bool :=
  list_eqb Z.eqb (corner_coords p) (corner_coords Default).

(** The loop of [VisitFields], [n] iterations from index [i]. *)
Fixpoint VisitFields_loop (n i : nat) (p : t) : Fields t :=
  match n with
  | O => Return p
  | S n' =>
      (c <- U32 (wrap32 (kU32RawBits + 8)) 1 (nth i (corner_coords p) 0) ;;
       VisitFields_loop n' (S i)
         {| corner_coords := set_nth i c (corner_coords p) |})%fields
  end.

Definition VisitFields (p : t) : Fields (Status * t) :=
  (p <- VisitFields_loop kNumProjectiveTransformParams 0 p ;;
   Return (StatusOk, p))%fields.

End WithExternals.
End ProjectiveTransformParams.

Module TileHeader.
Section WithExternals.
Context `{Externals}.

Record t : Type := {
  all_default : bool;
  have_projective_transform : bool;
  projective_transform_params : ProjectiveTransformParams.t;
  extensions : Z
}.

Definition Default : t :=
  {| all_default := true;
     have_projective_transform := false;
     projective_transform_params := ProjectiveTransformParams.Default;
     extensions := 0 |}.

(** Modelled from the spec: whether every field equals its default. *)
Definition AllDefaultFields (h : t) : bool :=
  negb (have_projective_transform h) &&
  ProjectiveTransformParams.AllDefaultFields (projective_transform_params h) &&
  (extensions h =? 0).

Definition set_all_default (b : bool) (h : t) : t :=
  {| all_default := b;
     have_projective_transform := have_projective_transform h;
     projective_transform_params := projective_transform_params h;
     extensions := extensions h |}.

Definition set_have_projective_transform (b : bool) (h : t) : t :=
  {| all_default := all_default h;
     have_projective_transform := b;
     projective_transform_params := projective_transform_params h;
     extensions := extensions h |}.

Definition set_projective_transform_params (p : ProjectiveTransformParams.t)
    (h : t) : t :=
  {| all_default := all_default h;
     have_projective_transform := have_projective_transform h;
     projective_transform_params := p;
     extensions := extensions h |}.

Definition set_extensions (e : Z) (h : t) : t :=
  {| all_default := all_default h;
     have_projective_transform := have_projective_transform h;
     projective_transform_params := projective_transform_params h;
     extensions := e |}.

Definition VisitFields (h : t) : Fields (Status * t) :=
  ('(all_default, h) <- AllDefault (AllDefaultFields h) Default h ;;
   let h := set_all_default all_default h in
   if all_default then Return (StatusOk, h) else
   b <- Bool false (have_projective_transform h) ;;
   let h := set_have_projective_transform b h in
   c <- Conditional (have_projective_transform h) ;;
   '(s, h) <-
     (if c then
        '(s, p) <- VisitNested ProjectiveTransformParams.VisitFields
                     (projective_transform_params h) ;;
        Return (s, set_projective_transform_params p h)
      else Return (StatusOk, h)) ;;
   if negb (IsOk s) then Return (s, h) else
   VisitExtensions extensions set_extensions h)%fields.

End WithExternals.
End TileHeader.

Module Alpha.
Section WithExternals.
Context `{Externals}.

Record t : Type := {
  bytes_per_alpha : Z;
  encoded : PaddedBytes
}.

Definition Default : t := {| bytes_per_alpha := 1; encoded := [] |}.

Definition AllDefaultFields (a : t) : bool :=
  (bytes_per_alpha a =? 1) &&
  match encoded a with [] => true | _ :: _ => false end.

Definition VisitFields (a : t) : Fields (Status * t) :=
  (b <- U32 0x84828180 1 (bytes_per_alpha a) ;;
   let a := {| bytes_per_alpha := b; encoded := encoded a |} in
   e <- Bytes kRaw (encoded a) ;;
   let a := {| bytes_per_alpha := bytes_per_alpha a; encoded := e |} in
   Return (StatusOk, a))%fields.

End WithExternals.
End Alpha.

Module GroupHeader.
Section WithExternals.
Context `{Externals}.

Record t : Type := {
  all_default : bool;
  nonserialized_have_alpha : bool;
  alpha : Alpha.t;
  tile_headers : list TileHeader.t;
  extensions : Z
}.

Definition Default : t :=
  {| all_default := true;
     nonserialized_have_alpha := false;
     alpha := Alpha.Default;
     tile_headers := repeat TileHeader.Default kNumTilesPerGroup;
     extensions := 0 |}.

(** Modelled from the spec: whether every field equals its default. *)
Definition AllDefaultFields (h : t) : bool :=
  Alpha.AllDefaultFields (alpha h) &&
  forallb TileHeader.AllDefaultFields (tile_headers h) &&
  (length (tile_headers h) =? kNumTilesPerGroup)%nat &&
  (extensions h =? 0).

Definition set_all_default (b : bool) (h : t) : t :=
  {| all_default := b;
     nonserialized_have_alpha := nonserialized_have_alpha h;
     alpha := alpha h; tile_headers := tile_headers h;
     extensions := extensions h |}.

Definition set_nonserialized_have_alpha (b : bool) (h : t) : t :=
  {| all_default := all_default h;
     nonserialized_have_alpha := b;
     alpha := alpha h; tile_headers := tile_headers h;
     extensions := extensions h |}.

Definition set_alpha (a : Alpha.t) (h : t) : t :=
  {| all_default := all_default h;
     nonserialized_have_alpha := nonserialized_have_alpha h;
     alpha := a; tile_headers := tile_headers h;
     extensions := extensions h |}.

Definition set_tile_headers (l : list TileHeader.t) (h : t) : t :=
  {| all_default := all_default h;
     nonserialized_have_alpha := nonserialized_have_alpha h;
     alpha := alpha h; tile_headers := l;
     extensions := extensions h |}.

Definition set_extensions (e : Z) (h : t) : t :=
  {| all_default := all_default h;
     nonserialized_have_alpha := nonserialized_have_alpha h;
     alpha := alpha h; tile_headers := tile_headers h;
     extensions := e |}.

(** The defaults a decoder fills in; the caller's flag is not a field of
    the stream and stays. *)
Definition Defaults (h : t) : t :=
  set_nonserialized_have_alpha (nonserialized_have_alpha h) Default.

(** The loop over the tile headers, [n] iterations from index [i]; an
    error of a tile header ends it. *)
Fixpoint VisitFields_loop (n i : nat) (h : t) : Fields (Status * t) :=
  match n with
  | O => Return (StatusOk, h)
  | S n' =>
      ('(s, tile) <- VisitNested TileHeader.VisitFields
                       (nth i (tile_headers h) TileHeader.Default) ;;
       let h := set_tile_headers (set_nth i tile (tile_headers h)) h in
       if negb (IsOk s) then Return (s, h) else VisitFields_loop n' (S i) h)%fields
  end.

Definition VisitFields (h : t) : Fields (Status * t) :=
  ('(all_default, h) <- AllDefault (AllDefaultFields h) (Defaults h) h ;;
   let h := set_all_default all_default h in
   if all_default then Return (StatusOk, h) else
   c <- Conditional (nonserialized_have_alpha h) ;;
   '(s, h) <-
     (if c then
        '(s, a) <- VisitNested Alpha.VisitFields (alpha h) ;;
        Return (s, set_alpha a h)
      else Return (StatusOk, h)) ;;
   if negb (IsOk s) then Return (s, h) else
   '(s, h) <- VisitFields_loop kNumTilesPerGroup 0 h ;;
   if negb (IsOk s) then Return (s, h) else
   VisitExtensions extensions set_extensions h)%fields.

End WithExternals.
End GroupHeader.

(** [enum class ImageEncoding : uint32_t]. A member of that type holds
    any 32-bit value; the declared ones are these three. *)
Module ImageEncoding.
Definition kPasses : Z := 0.
Definition kProgressive : Z := 1.
Definition kLossless : Z := 2.
Definition valid (v : Z) : bool :=
  (v =? kPasses) || (v =? kProgressive) || (v =? kLossless).
End ImageEncoding.

Module FrameInfo.
Section WithExternals.
Context `{Externals}.

Record t : Type := {
  all_default : bool;
  duration : Z;
  have_timecode : bool;
  timecode : Z;
  is_keyframe : bool
}.

Definition Default : t :=
  {| all_default := true;
     duration := 0;
     have_timecode := false;
     timecode := 0;
     is_keyframe := false |}.

(** Modelled from the spec: whether every field equals its default. *)
Definition AllDefaultFields (h : t) : bool :=
  (duration h =? 0) && negb (have_timecode h) && (timecode h =? 0) &&
  negb (is_keyframe h).

Definition set_all_default (x : bool) (h : t) : t :=
  {| all_default := x;
     duration := duration h;
     have_timecode := have_timecode h;
     timecode := timecode h;
     is_keyframe := is_keyframe h |}.

Definition set_duration (x : Z) (h : t) : t :=
  {| all_default := all_default h;
     duration := x;
     have_timecode := have_timecode h;
     timecode := timecode h;
     is_keyframe := is_keyframe h |}.

Definition set_have_timecode (x : bool) (h : t) : t :=
  {| all_default := all_default h;
     duration := duration h;
     have_timecode := x;
     timecode := timecode h;
     is_keyframe := is_keyframe h |}.

Definition set_timecode (x : Z) (h : t) : t :=
  {| all_default := all_default h;
     duration := duration h;
     have_timecode := have_timecode h;
     timecode := x;
     is_keyframe := is_keyframe h |}.

Definition set_is_keyframe (x : bool) (h : t) : t :=
  {| all_default := all_default h;
     duration := duration h;
     have_timecode := have_timecode h;
     timecode := timecode h;
     is_keyframe := x |}.

Definition VisitFields (h : t) : Fields (Status * t) :=
  ('(all_default, h) <- AllDefault (AllDefaultFields h) Default h ;;
   let h := set_all_default all_default h in
   if all_default then Return (StatusOk, h) else
   d <- U32 0x20088180 0 (duration h) ;;
   let h := set_duration d h in
   b <- Bool false (have_timecode h) ;;
   let h := set_have_timecode b h in
   c <- Conditional (have_timecode h) ;;
   h <- (if c then
           x <- U32 (wrap32 (kU32RawBits + 32)) 0 (timecode h) ;;
           Return (set_timecode x h)
         else Return h) ;;
   b <- Bool false (is_keyframe h) ;;
   let h := set_is_keyframe b h in
   Return (StatusOk, h))%fields.

End WithExternals.
End FrameInfo.

Module PassHeader.
Section WithExternals.
Context `{Externals}.

(** [enum Flags]. *)
Definition kGradientMap : Z := 1.
Definition kGrayscaleOpt : Z := 2.
Definition kNoise : Z := 4.

Record t : Type := {
  size : Z;
  has_alpha : bool;
  is_last : bool;
  frame : FrameInfo.t;
  encoding : Z;
  lossless_grayscale : bool;
  lossless_16_bits : bool;
  resampling_factor2 : Z;
  flags : Z;
  gaborish : Z;
  predict_lf : bool;
  predict_hf : bool;
  have_adaptive_reconstruction : bool;
  epf_params : EpfParams;
  nonserialized_num_groups : nat;
  group_sizes : list Z;
  extensions : Z
}.

Definition Default : t :=
  {| size := 0;
     has_alpha := false;
     is_last := true;
     frame := FrameInfo.Default;
     encoding := ImageEncoding.kPasses;
     lossless_grayscale := false;
     lossless_16_bits := false;
     resampling_factor2 := 2;
     flags := 0;
     gaborish := k750;
     predict_lf := true;
     predict_hf := true;
     have_adaptive_reconstruction := false;
     epf_params := EpfParams_Default;
     nonserialized_num_groups := O;
     group_sizes := [];
     extensions := 0 |}.

Definition set_size (x : Z) (h : t) : t :=
  {| size := x;
     has_alpha := has_alpha h;
     is_last := is_last h;
     frame := frame h;
     encoding := encoding h;
     lossless_grayscale := lossless_grayscale h;
     lossless_16_bits := lossless_16_bits h;
     resampling_factor2 := resampling_factor2 h;
     flags := flags h;
     gaborish := gaborish h;
     predict_lf := predict_lf h;
     predict_hf := predict_hf h;
     have_adaptive_reconstruction := have_adaptive_reconstruction h;
     epf_params := epf_params h;
     nonserialized_num_groups := nonserialized_num_groups h;
     group_sizes := group_sizes h;
     extensions := extensions h |}.

Definition set_has_alpha (x : bool) (h : t) : t :=
  {| size := size h;
     has_alpha := x;
     is_last := is_last h;
     frame := frame h;
     encoding := encoding h;
     lossless_grayscale := lossless_grayscale h;
     lossless_16_bits := lossless_16_bits h;
     resampling_factor2 := resampling_factor2 h;
     flags := flags h;
     gaborish := gaborish h;
     predict_lf := predict_lf h;
     predict_hf := predict_hf h;
     have_adaptive_reconstruction := have_adaptive_reconstruction h;
     epf_params := epf_params h;
     nonserialized_num_groups := nonserialized_num_groups h;
     group_sizes := group_sizes h;
     extensions := extensions h |}.

Definition set_is_last (x : bool) (h : t) : t :=
  {| size := size h;
     has_alpha := has_alpha h;
     is_last := x;
     frame := frame h;
     encoding := encoding h;
     lossless_grayscale := lossless_grayscale h;
     lossless_16_bits := lossless_16_bits h;
     resampling_factor2 := resampling_factor2 h;
     flags := flags h;
     gaborish := gaborish h;
     predict_lf := predict_lf h;
     predict_hf := predict_hf h;
     have_adaptive_reconstruction := have_adaptive_reconstruction h;
     epf_params := epf_params h;
     nonserialized_num_groups := nonserialized_num_groups h;
     group_sizes := group_sizes h;
     extensions := extensions h |}.

Definition set_frame (x : FrameInfo.t) (h : t) : t :=
  {| size := size h;
     has_alpha := has_alpha h;
     is_last := is_last h;
     frame := x;
     encoding := encoding h;
     lossless_grayscale := lossless_grayscale h;
     lossless_16_bits := lossless_16_bits h;
     resampling_factor2 := resampling_factor2 h;
     flags := flags h;
     gaborish := gaborish h;
     predict_lf := predict_lf h;
     predict_hf := predict_hf h;
     have_adaptive_reconstruction := have_adaptive_reconstruction h;
     epf_params := epf_params h;
     nonserialized_num_groups := nonserialized_num_groups h;
     group_sizes := group_sizes h;
     extensions := extensions h |}.

Definition set_encoding (x : Z) (h : t) : t :=
  {| size := size h;
     has_alpha := has_alpha h;
     is_last := is_last h;
     frame := frame h;
     encoding := x;
     lossless_grayscale := lossless_grayscale h;
     lossless_16_bits := lossless_16_bits h;
     resampling_factor2 := resampling_factor2 h;
     flags := flags h;
     gaborish := gaborish h;
     predict_lf := predict_lf h;
     predict_hf := predict_hf h;
     have_adaptive_reconstruction := have_adaptive_reconstruction h;
     epf_params := epf_params h;
     nonserialized_num_groups := nonserialized_num_groups h;
     group_sizes := group_sizes h;
     extensions := extensions h |}.

Definition set_lossless_grayscale (x : bool) (h : t) : t :=
  {| size := size h;
     has_alpha := has_alpha h;
     is_last := is_last h;
     frame := frame h;
     encoding := encoding h;
     lossless_grayscale := x;
     lossless_16_bits := lossless_16_bits h;
     resampling_factor2 := resampling_factor2 h;
     flags := flags h;
     gaborish := gaborish h;
     predict_lf := predict_lf h;
     predict_hf := predict_hf h;
     have_adaptive_reconstruction := have_adaptive_reconstruction h;
     epf_params := epf_params h;
     nonserialized_num_groups := nonserialized_num_groups h;
     group_sizes := group_sizes h;
     extensions := extensions h |}.

Definition set_lossless_16_bits (x : bool) (h : t) : t :=
  {| size := size h;
     has_alpha := has_alpha h;
     is_last := is_last h;
     frame := frame h;
     encoding := encoding h;
     lossless_grayscale := lossless_grayscale h;
     lossless_16_bits := x;
     resampling_factor2 := resampling_factor2 h;
     flags := flags h;
     gaborish := gaborish h;
     predict_lf := predict_lf h;
     predict_hf := predict_hf h;
     have_adaptive_reconstruction := have_adaptive_reconstruction h;
     epf_params := epf_params h;
     nonserialized_num_groups := nonserialized_num_groups h;
     group_sizes := group_sizes h;
     extensions := extensions h |}.

Definition set_resampling_factor2 (x : Z) (h : t) : t :=
  {| size := size h;
     has_alpha := has_alpha h;
     is_last := is_last h;
     frame := frame h;
     encoding := encoding h;
     lossless_grayscale := lossless_grayscale h;
     lossless_16_bits := lossless_16_bits h;
     resampling_factor2 := x;
     flags := flags h;
     gaborish := gaborish h;
     predict_lf := predict_lf h;
     predict_hf := predict_hf h;
     have_adaptive_reconstruction := have_adaptive_reconstruction h;
     epf_params := epf_params h;
     nonserialized_num_groups := nonserialized_num_groups h;
     group_sizes := group_sizes h;
     extensions := extensions h |}.

Definition set_flags (x : Z) (h : t) : t :=
  {| size := size h;
     has_alpha := has_alpha h;
     is_last := is_last h;
     frame := frame h;
     encoding := encoding h;
     lossless_grayscale := lossless_grayscale h;
     lossless_16_bits := lossless_16_bits h;
     resampling_factor2 := resampling_factor2 h;
     flags := x;
     gaborish := gaborish h;
     predict_lf := predict_lf h;
     predict_hf := predict_hf h;
     have_adaptive_reconstruction := have_adaptive_reconstruction h;
     epf_params := epf_params h;
     nonserialized_num_groups := nonserialized_num_groups h;
     group_sizes := group_sizes h;
     extensions := extensions h |}.

Definition set_gaborish (x : Z) (h : t) : t :=
  {| size := size h;
     has_alpha := has_alpha h;
     is_last := is_last h;
     frame := frame h;
     encoding := encoding h;
     lossless_grayscale := lossless_grayscale h;
     lossless_16_bits := lossless_16_bits h;
     resampling_factor2 := resampling_factor2 h;
     flags := flags h;
     gaborish := x;
     predict_lf := predict_lf h;
     predict_hf := predict_hf h;
     have_adaptive_reconstruction := have_adaptive_reconstruction h;
     epf_params := epf_params h;
     nonserialized_num_groups := nonserialized_num_groups h;
     group_sizes := group_sizes h;
     extensions := extensions h |}.

Definition set_predict_lf (x : bool) (h : t) : t :=
  {| size := size h;
     has_alpha := has_alpha h;
     is_last := is_last h;
     frame := frame h;
     encoding := encoding h;
     lossless_grayscale := lossless_grayscale h;
     lossless_16_bits := lossless_16_bits h;
     resampling_factor2 := resampling_factor2 h;
     flags := flags h;
     gaborish := gaborish h;
     predict_lf := x;
     predict_hf := predict_hf h;
     have_adaptive_reconstruction := have_adaptive_reconstruction h;
     epf_params := epf_params h;
     nonserialized_num_groups := nonserialized_num_groups h;
     group_sizes := group_sizes h;
     extensions := extensions h |}.

Definition set_predict_hf (x : bool) (h : t) : t :=
  {| size := size h;
     has_alpha := has_alpha h;
     is_last := is_last h;
     frame := frame h;
     encoding := encoding h;
     lossless_grayscale := lossless_grayscale h;
     lossless_16_bits := lossless_16_bits h;
     resampling_factor2 := resampling_factor2 h;
     flags := flags h;
     gaborish := gaborish h;
     predict_lf := predict_lf h;
     predict_hf := x;
     have_adaptive_reconstruction := have_adaptive_reconstruction h;
     epf_params := epf_params h;
     nonserialized_num_groups := nonserialized_num_groups h;
     group_sizes := group_sizes h;
     extensions := extensions h |}.

Definition set_have_adaptive_reconstruction (x : bool) (h : t) : t :=
  {| size := size h;
     has_alpha := has_alpha h;
     is_last := is_last h;
     frame := frame h;
     encoding := encoding h;
     lossless_grayscale := lossless_grayscale h;
     lossless_16_bits := lossless_16_bits h;
     resampling_factor2 := resampling_factor2 h;
     flags := flags h;
     gaborish := gaborish h;
     predict_lf := predict_lf h;
     predict_hf := predict_hf h;
     have_adaptive_reconstruction := x;
     epf_params := epf_params h;
     nonserialized_num_groups := nonserialized_num_groups h;
     group_sizes := group_sizes h;
     extensions := extensions h |}.

Definition set_epf_params (x : EpfParams) (h : t) : t :=
  {| size := size h;
     has_alpha := has_alpha h;
     is_last := is_last h;
     frame := frame h;
     encoding := encoding h;
     lossless_grayscale := lossless_grayscale h;
     lossless_16_bits := lossless_16_bits h;
     resampling_factor2 := resampling_factor2 h;
     flags := flags h;
     gaborish := gaborish h;
     predict_lf := predict_lf h;
     predict_hf := predict_hf h;
     have_adaptive_reconstruction := have_adaptive_reconstruction h;
     epf_params := x;
     nonserialized_num_groups := nonserialized_num_groups h;
     group_sizes := group_sizes h;
     extensions := extensions h |}.

Definition set_nonserialized_num_groups (x : nat) (h : t) : t :=
  {| size := size h;
     has_alpha := has_alpha h;
     is_last := is_last h;
     frame := frame h;
     encoding := encoding h;
     lossless_grayscale := lossless_grayscale h;
     lossless_16_bits := lossless_16_bits h;
     resampling_factor2 := resampling_factor2 h;
     flags := flags h;
     gaborish := gaborish h;
     predict_lf := predict_lf h;
     predict_hf := predict_hf h;
     have_adaptive_reconstruction := have_adaptive_reconstruction h;
     epf_params := epf_params h;
     nonserialized_num_groups := x;
     group_sizes := group_sizes h;
     extensions := extensions h |}.

Definition set_group_sizes (x : list Z) (h : t) : t :=
  {| size := size h;
     has_alpha := has_alpha h;
     is_last := is_last h;
     frame := frame h;
     encoding := encoding h;
     lossless_grayscale := lossless_grayscale h;
     lossless_16_bits := lossless_16_bits h;
     resampling_factor2 := resampling_factor2 h;
     flags := flags h;
     gaborish := gaborish h;
     predict_lf := predict_lf h;
     predict_hf := predict_hf h;
     have_adaptive_reconstruction := have_adaptive_reconstruction h;
     epf_params := epf_params h;
     nonserialized_num_groups := nonserialized_num_groups h;
     group_sizes := x;
     extensions := extensions h |}.

Definition set_extensions (x : Z) (h : t) : t :=
  {| size := size h;
     has_alpha := has_alpha h;
     is_last := is_last h;
     frame := frame h;
     encoding := encoding h;
     lossless_grayscale := lossless_grayscale h;
     lossless_16_bits := lossless_16_bits h;
     resampling_factor2 := resampling_factor2 h;
     flags := flags h;
     gaborish := gaborish h;
     predict_lf := predict_lf h;
     predict_hf := predict_hf h;
     have_adaptive_reconstruction := have_adaptive_reconstruction h;
     epf_params := epf_params h;
     nonserialized_num_groups := nonserialized_num_groups h;
     group_sizes := group_sizes h;
     extensions := x |}.

(** The loop over [group_sizes]. *)
Fixpoint VisitGroupSizes (group_sizes : list Z) : Fields (list Z) :=
  match group_sizes with
  | [] => Return []
  | group_size_bits :: rest =>
      (x <- U32 0x150F0E0C 0 group_size_bits ;;
       rest <- VisitGroupSizes rest ;;
       Return (x :: rest))%fields
  end.

Definition VisitFields (h : t) : Fields (Status * t) :=
  (x <- U64 0 (size h) ;;
   let h := set_size x h in
   b <- Bool false (has_alpha h) ;;
   let h := set_has_alpha b h in
   b <- Bool true (is_last h) ;;
   let h := set_is_last b h in
   c <- Conditional (is_last h) ;;
   '(s, h) <-
     (if c then
        '(s, f) <- VisitNested FrameInfo.VisitFields (frame h) ;;
        Return (s, set_frame f h)
      else Return (StatusOk, h)) ;;
   if negb (IsOk s) then Return (s, h) else
   x <- Enum kU32Direct3Plus4 ImageEncoding.valid ImageEncoding.kPasses
          (encoding h) ;;
   let h := set_encoding x h in
   c <- Conditional (encoding h =? ImageEncoding.kPasses) ;;
   '(s, h) <-
     (if c then
        x <- U32 0x20181008 0 (flags h) ;;
        let h := set_flags x h in
        x <- Enum kU32Direct3Plus4 GaborishStrength_valid k750 (gaborish h) ;;
        let h := set_gaborish x h in
        b <- Bool true (predict_lf h) ;;
        let h := set_predict_lf b h in
        b <- Bool true (predict_hf h) ;;
        let h := set_predict_hf b h in
        b <- Bool false (have_adaptive_reconstruction h) ;;
        let h := set_have_adaptive_reconstruction b h in
        c <- Conditional (have_adaptive_reconstruction h) ;;
        if c then
          '(s, e) <- VisitNested EpfParams_VisitFields (epf_params h) ;;
          Return (s, set_epf_params e h)
        else Return (StatusOk, h)
      else Return (StatusOk, h)) ;;
   if negb (IsOk s) then Return (s, h) else
   c <- Conditional (negb (encoding h =? ImageEncoding.kProgressive)) ;;
   h <-
     (if c then
        x <- U32 kU32Direct2348 2 (resampling_factor2 h) ;;
        let h := set_resampling_factor2 x h in
        l <- SetSizeWhenReading (nonserialized_num_groups h) (group_sizes h) ;;
        let h := set_group_sizes l h in
        l <- VisitGroupSizes (group_sizes h) ;;
        Return (set_group_sizes l h)
      else Return h) ;;
   c <- Conditional (encoding h =? ImageEncoding.kLossless) ;;
   h <-
     (if c then
        b <- Bool false (lossless_grayscale h) ;;
        let h := set_lossless_grayscale b h in
        b <- Bool false (lossless_16_bits h) ;;
        Return (set_lossless_16_bits b h)
      else Return h) ;;
   VisitExtensions extensions set_extensions h)%fields.

End WithExternals.
End PassHeader.

Module Preview.

Record t : Type := {
  all_default : bool;
  size_bits : Z;
  xsize : Z;
  ysize : Z
}.

Definition Default : t :=
  {| all_default := true;
     size_bits := 0;
     xsize := 0;
     ysize := 0 |}.

(** Modelled from the spec: whether every field equals its default. *)
Definition AllDefaultFields (h : t) : bool :=
  (size_bits h =? 0) && (xsize h =? 0) && (ysize h =? 0).

Definition set_all_default (x : bool) (h : t) : t :=
  {| all_default := x;
     size_bits := size_bits h;
     xsize := xsize h;
     ysize := ysize h |}.

Definition set_size_bits (x : Z) (h : t) : t :=
  {| all_default := all_default h;
     size_bits := x;
     xsize := xsize h;
     ysize := ysize h |}.

Definition set_xsize (x : Z) (h : t) : t :=
  {| all_default := all_default h;
     size_bits := size_bits h;
     xsize := x;
     ysize := ysize h |}.

Definition set_ysize (x : Z) (h : t) : t :=
  {| all_default := all_default h;
     size_bits := size_bits h;
     xsize := xsize h;
     ysize := x |}.

Definition VisitFields (h : t) : Fields (Status * t) :=
  ('(all_default, h) <- AllDefault (AllDefaultFields h) Default h ;;
   let h := set_all_default all_default h in
   if all_default then Return (StatusOk, h) else
   x <- U32 0x1C14100C 0 (size_bits h) ;;
   let h := set_size_bits x h in
   x <- U32 0x0D0B0907 0 (xsize h) ;;
   let h := set_xsize x h in
   x <- U32 0x0D0B0907 0 (ysize h) ;;
   let h := set_ysize x h in
   Return (StatusOk, h))%fields.

End Preview.

Module Animation.

Record t : Type := {
  all_default : bool;
  num_loops : Z;
  ticks_numerator : Z;
  ticks_denominator : Z
}.

Definition Default : t :=
  {| all_default := true;
     num_loops := 0;
     ticks_numerator := 0;
     ticks_denominator := 1 |}.

(** Modelled from the spec: whether every field equals its default. *)
Definition AllDefaultFields (h : t) : bool :=
  (num_loops h =? 0) && (ticks_numerator h =? 0) && (ticks_denominator h =? 1).

Definition set_all_default (x : bool) (h : t) : t :=
  {| all_default := x;
     num_loops := num_loops h;
     ticks_numerator := ticks_numerator h;
     ticks_denominator := ticks_denominator h |}.

Definition set_num_loops (x : Z) (h : t) : t :=
  {| all_default := all_default h;
     num_loops := x;
     ticks_numerator := ticks_numerator h;
     ticks_denominator := ticks_denominator h |}.

Definition set_ticks_numerator (x : Z) (h : t) : t :=
  {| all_default := all_default h;
     num_loops := num_loops h;
     ticks_numerator := x;
     ticks_denominator := ticks_denominator h |}.

Definition set_ticks_denominator (x : Z) (h : t) : t :=
  {| all_default := all_default h;
     num_loops := num_loops h;
     ticks_numerator := ticks_numerator h;
     ticks_denominator := x |}.

Definition VisitFields (h : t) : Fields (Status * t) :=
  ('(all_default, h) <- AllDefault (AllDefaultFields h) Default h ;;
   let h := set_all_default all_default h in
   if all_default then Return (StatusOk, h) else
   x <- U32 0x20100380 0 (num_loops h) ;;
   let h := set_num_loops x h in
   x <- U32 0x20140981 0 (ticks_numerator h) ;;
   let h := set_ticks_numerator x h in
   x <- U32 0x20140981 1 (ticks_denominator h) ;;
   let h := set_ticks_denominator x h in
   Return (StatusOk, h))%fields.

End Animation.

Module FileHeader.
Section WithExternals.
Context `{Externals}.

Definition kSignature : Z := 0x0A4D4CD7.

Record t : Type := {
  signature : Z;
  xsize_minus_1 : Z;
  ysize_minus_1 : Z;
  metadata : Metadata;
  preview : Preview.t;
  animation : Animation.t;
  extensions : Z
}.

Definition Default : t :=
  {| signature := kSignature;
     xsize_minus_1 := 0;
     ysize_minus_1 := 0;
     metadata := Metadata_Default;
     preview := Preview.Default;
     animation := Animation.Default;
     extensions := 0 |}.

Definition set_signature (x : Z) (h : t) : t :=
  {| signature := x;
     xsize_minus_1 := xsize_minus_1 h;
     ysize_minus_1 := ysize_minus_1 h;
     metadata := metadata h;
     preview := preview h;
     animation := animation h;
     extensions := extensions h |}.

Definition set_xsize_minus_1 (x : Z) (h : t) : t :=
  {| signature := signature h;
     xsize_minus_1 := x;
     ysize_minus_1 := ysize_minus_1 h;
     metadata := metadata h;
     preview := preview h;
     animation := animation h;
     extensions := extensions h |}.

Definition set_ysize_minus_1 (x : Z) (h : t) : t :=
  {| signature := signature h;
     xsize_minus_1 := xsize_minus_1 h;
     ysize_minus_1 := x;
     metadata := metadata h;
     preview := preview h;
     animation := animation h;
     extensions := extensions h |}.

Definition set_metadata (x : Metadata) (h : t) : t :=
  {| signature := signature h;
     xsize_minus_1 := xsize_minus_1 h;
     ysize_minus_1 := ysize_minus_1 h;
     metadata := x;
     preview := preview h;
     animation := animation h;
     extensions := extensions h |}.

Definition set_preview (x : Preview.t) (h : t) : t :=
  {| signature := signature h;
     xsize_minus_1 := xsize_minus_1 h;
     ysize_minus_1 := ysize_minus_1 h;
     metadata := metadata h;
     preview := x;
     animation := animation h;
     extensions := extensions h |}.

Definition set_animation (x : Animation.t) (h : t) : t :=
  {| signature := signature h;
     xsize_minus_1 := xsize_minus_1 h;
     ysize_minus_1 := ysize_minus_1 h;
     metadata := metadata h;
     preview := preview h;
     animation := x;
     extensions := extensions h |}.

Definition set_extensions (x : Z) (h : t) : t :=
  {| signature := signature h;
     xsize_minus_1 := xsize_minus_1 h;
     ysize_minus_1 := ysize_minus_1 h;
     metadata := metadata h;
     preview := preview h;
     animation := animation h;
     extensions := x |}.

Definition VisitFields (h : t) : Fields (Status * t) :=
  (x <- U32 (wrap32 (kU32RawBits + 32)) kSignature (signature h) ;;
   let h := set_signature x h in
   if negb (signature h =? kSignature) then
     Return (PIK_FAILURE "Signature mismatch", h)
   else
   x <- U32 0x200D0B09 0 (xsize_minus_1 h) ;;
   let h := set_xsize_minus_1 x h in
   x <- U32 0x200D0B09 0 (ysize_minus_1 h) ;;
   let h := set_ysize_minus_1 x h in
   '(s, m) <- VisitNested Metadata_VisitFields (metadata h) ;;
   let h := set_metadata m h in
   if negb (IsOk s) then Return (s, h) else
   '(s, p) <- VisitNested Preview.VisitFields (preview h) ;;
   let h := set_preview p h in
   if negb (IsOk s) then Return (s, h) else
   '(s, a) <- VisitNested Animation.VisitFields (animation h) ;;
   let h := set_animation a h in
   if negb (IsOk s) then Return (s, h) else
   VisitExtensions extensions set_extensions h)%fields.

(** [xsize()] and [ysize()]: the sum is taken in [uint32_t] and widened to
    [size_t] afterwards. *)
Definition xsize (h : t) : Z := wrap32 (xsize_minus_1 h + 1).
Definition ysize (h : t) : Z := wrap32 (ysize_minus_1 h + 1).

End WithExternals.
End FileHeader.

(** ** The entry points of headers.h *)

Section EntryPoints.
Context `{Externals}.

Definition CanEncodeTileHeader := CanEncodeFields TileHeader.VisitFields.
Definition CanEncodeGroupHeader := CanEncodeFields GroupHeader.VisitFields.
Definition CanEncodePassHeader := CanEncodeFields PassHeader.VisitFields.
Definition CanEncodeFileHeader := CanEncodeFields FileHeader.VisitFields.

Definition ReadTileHeader := ReadFields TileHeader.VisitFields.
Definition ReadGroupHeader := ReadFields GroupHeader.VisitFields.
Definition ReadPassHeader := ReadFields PassHeader.VisitFields.
Definition ReadFileHeader := ReadFields FileHeader.VisitFields.

Definition WriteTileHeader := WriteFields TileHeader.VisitFields.
Definition WriteGroupHeader := WriteFields GroupHeader.VisitFields.
Definition WritePassHeader := WriteFields PassHeader.VisitFields.
Definition WriteFileHeader := WriteFields FileHeader.VisitFields.

End EntryPoints.

(** ** codec_png.cc: colour type and bit depth *)

(** LodePNG's [LodePNGColorType]. [LCT_unexpected] stands for every value
    of a [colortype] member that is none of the five colour types: the
    [default] case of a switch over them. *)
Inductive LodePNGColorType : Type :=
| LCT_GREY
| LCT_RGB
| LCT_PALETTE
| LCT_GREY_ALPHA
| LCT_RGBA
| LCT_unexpected.

(** The members of LodePNG's [LodePNGColorMode] the adapter reads. The
    palette holds four bytes (R, G, B, A) per entry. *)
Record LodePNGColorMode : Type := {
  colortype : LodePNGColorType;
  palette : PaddedBytes;
  palettesize : nat;
  key_defined : Z
}.

(** [mode.palette[index]]. *)
Definition palette_at (mode : LodePNGColorMode) (index : nat) : Z :=
  u8 (nth index (palette mode) x00).

(** The loop of [CheckGray] over the palette, [left] entries from entry
    [i] on: the value [*is_gray] ends with. *)
Fixpoint CheckGray_loop (left i : nat) (mode : LodePNGColorMode) : bool :=
  match left with
  | O => true
  | S left' =>
      if negb (palette_at mode (i * 4) =? palette_at mode (i * 4 + 1)) ||
         negb (palette_at mode (i * 4) =? palette_at mode (i * 4 + 2))
      then false
      else CheckGray_loop left' (S i) mode
  end.

(** [CheckGray(mode, &is_gray)]: the status and [*is_gray]. *)
Definition CheckGray (mode : LodePNGColorMode) : Status * bool :=
  match colortype mode with
  | LCT_GREY | LCT_GREY_ALPHA => (StatusOk, true)
  | LCT_RGB | LCT_RGBA => (StatusOk, false)
  | LCT_PALETTE => (StatusOk, CheckGray_loop (palettesize mode) 0 mode)
  | LCT_unexpected => (PIK_FAILURE "Unexpected PNG color type", false)
  end.

(** The loop of [CheckAlpha] over the palette: the value [*has_alpha]
    ends with. *)
Fixpoint CheckAlpha_loop (left i : nat) (mode : LodePNGColorMode) : bool :=
  match left with
  | O => false
  | S left' =>
      if negb (palette_at mode (i * 4 + 3) =? 255) then true
      else CheckAlpha_loop left' (S i) mode
  end.

(** [CheckAlpha(mode, &has_alpha)]: the status and [*has_alpha]. *)
Definition CheckAlpha (mode : LodePNGColorMode) : Status * bool :=
  if negb (key_defined mode =? 0) then (StatusOk, true)
  else
    match colortype mode with
    | LCT_GREY | LCT_RGB => (StatusOk, false)
    | LCT_GREY_ALPHA | LCT_RGBA => (StatusOk, true)
    | LCT_PALETTE => (StatusOk, CheckAlpha_loop (palettesize mode) 0 mode)
    | LCT_unexpected => (PIK_FAILURE "Unexpected PNG color type", false)
    end.

Definition MakeType (is_gray has_alpha : bool) : LodePNGColorType :=
  if is_gray then (if has_alpha then LCT_GREY_ALPHA else LCT_GREY)
  else (if has_alpha then LCT_RGBA else LCT_RGB).

(** ** codec_png.cc: the chunk loop, iteration by iteration *)

Module ChunkLoop.

(** [ColorEncodingReaderPNG::Decode] with its [for (;;)] loop unrolled
    [fuel] times: [None] when the loop is still running after [fuel]
    iterations. The state of the loop is the list of the chunks from
    [chunk] on; [continue] after a CRC mismatch leaves it as it is. *)
Fixpoint Decode (fuel : nat) (chunks : list Chunk) (metadata : Metadata)
    : option (Status * Metadata) :=
  match fuel with
  | O => None
  | S fuel' =>
      match chunks with
      | [] => Some (StatusOk, metadata)
      | chunk :: chunks' =>
          let type := chunk_type chunk in
          let payload := chunk_payload chunk in
          if ColorEncodingReaderPNG.is_colorimetry_or_metadata type then
            match chunks' with
            | [] => Some (StatusOk, metadata)
            | _ :: _ =>
                if negb (chunk_crc_ok chunk) then Decode fuel' chunks metadata
                else if cstring_eqb type (cstr "eXIf") then
                  match ColorEncodingReaderPNG.DecodeEXIF payload metadata with
                  | (StatusOk, metadata') => Decode fuel' chunks' metadata'
                  | (failure, metadata') => Some (failure, metadata')
                  end
                else
                  let status :=
                    if cstring_eqb type (cstr "iCCP")
                    then ColorEncodingReaderPNG.DecodeICC payload
                    else if cstring_eqb type (cstr "sRGB")
                    then ColorEncodingReaderPNG.DecodeSRGB payload
                    else if cstring_eqb type (cstr "gAMA")
                    then ColorEncodingReaderPNG.DecodeGAMA payload
                    else ColorEncodingReaderPNG.DecodeCHRM payload in
                  match status with
                  | StatusOk => Decode fuel' chunks' metadata
                  | failure => Some (failure, metadata)
                  end
            end
          else Decode fuel' chunks' metadata
      end
  end.

End ChunkLoop.

(** ** codec_png.cc: colour chunks, written and read *)

(** The members of [ColorEncoding] the adapter reads. The enumerations
    of [color_encoding.h] are kept as their integer values. *)
Module ColorEncoding.
Record t : Type := {
  icc : PaddedBytes;
  color_space : Z;
  white_point : Z;
  primaries : Z;
  transfer_function : Z;
  rendering_intent : Z
}.
End ColorEncoding.

(** What the colour chunks need from outside [codec_png.cc]: the
    floating-point operations of the language, the constants and
    functions of [color_encoding.h], the loads and stores of
    [byte_order.h] and LodePNG's zlib coder. The two laws say that a
    32-bit value that is stored is loaded back, and that what zlib
    compresses it decompresses. *)
Class ColorExternals : Type := {
  double : Type;
  double_zero : double;
  double_1E5 : double;
  double_1Em5 : double;
  double_eqb : double -> double -> bool;
  double_mul : double -> double -> double;
  double_round : double -> double;
  double_of_int32 : Z -> double;
  int32_of_double : double -> Z;
  ColorSpace_kRGB : Z;
  WhitePoint_kD65 : Z;
  Primaries_kSRGB : Z;
  TransferFunction_kSRGB : Z;
  IsGray : ColorEncoding.t -> bool;
  GammaFromTransferFunction : Z -> double;
  WhitePointToCIExy : Z -> option (double * double);
  PrimariesToCIExy :
    Z -> option ((double * double) * (double * double) * (double * double));
  StoreBE32 : Z -> PaddedBytes;
  LoadBE32 : PaddedBytes -> Z;
  StoreBE32_length : forall v, length (StoreBE32 v) = 4%nat;
  LoadBE32_StoreBE32 :
    forall v rest, 0 <= v < 2 ^ 32 -> LoadBE32 (StoreBE32 v ++ rest) = v;
  lodepng_zlib_compress : PaddedBytes -> option PaddedBytes;
  lodepng_zlib_decompress : PaddedBytes -> option PaddedBytes;
  lodepng_zlib_decompress_compress :
    forall data out,
      lodepng_zlib_compress data = Some out ->
      lodepng_zlib_decompress out = Some data
}.

(** [ProfileParams], as far as the reader fills it. *)
Module ProfileParams.
Section WithExternals.
Context `{ColorExternals}.

Record t : Type := {
  rendering_intent : Z;
  gamma : double;
  white_point : double * double;
  primaries : (double * double) * (double * double) * (double * double)
}.

End WithExternals.
End ProfileParams.

Module ColorEncodingWriterPNG.
Section WithExternals.
Context `{ColorExternals}.

(** [AddChunk]: [lodepng_chunk_create] appends the chunk, with its CRC,
    to the first group of unknown chunks; it fails only for want of
    memory. *)
Definition AddChunk (type : cstring) (payload : PaddedBytes)
    (unknown_chunks : list Chunk) : Status * list Chunk :=
  (StatusOk,
   unknown_chunks ++
   [{| chunk_type := type; chunk_payload := payload; chunk_crc_ok := true |}]).

Definition AddICC (icc : PaddedBytes) (unknown_chunks : list Chunk)
    : Status * list Chunk :=
  match lodepng_zlib_compress icc with
  | None => (PIK_FAILURE "Failed to compress ICC", unknown_chunks)
  | Some out =>
      let payload := to_u8 (code "1") :: x00 :: x00 :: out in
      AddChunk (cstr "iCCP") payload unknown_chunks
  end.

Definition MaybeAddSRGB (c : ColorEncoding.t) (unknown_chunks : list Chunk)
    : Status * list Chunk :=
  if negb (IsGray c) && negb (ColorEncoding.color_space c =? ColorSpace_kRGB)
  then (StatusOk, unknown_chunks)
  else if negb (ColorEncoding.white_point c =? WhitePoint_kD65)
  then (StatusOk, unknown_chunks)
  else if negb (ColorEncoding.primaries c =? Primaries_kSRGB)
  then (StatusOk, unknown_chunks)
  else if negb (ColorEncoding.transfer_function c =? TransferFunction_kSRGB)
  then (StatusOk, unknown_chunks)
  else AddChunk (cstr "sRGB") [to_u8 (ColorEncoding.rendering_intent c)]
         unknown_chunks.

(** [static_cast<int32_t>(std::round(x * 1E5))], returned as a
    [uint32_t]. *)
Definition U32FromF64 (x : double) : Z :=
  wrap32 (int32_of_double (double_round (double_mul x double_1E5))).

Definition MaybeAddGAMA (c : ColorEncoding.t) (unknown_chunks : list Chunk)
    : Status * list Chunk :=
  let gamma := GammaFromTransferFunction (ColorEncoding.transfer_function c) in
  if double_eqb gamma double_zero then (StatusOk, unknown_chunks)
  else AddChunk (cstr "gAMA") (StoreBE32 (U32FromF64 gamma)) unknown_chunks.

Definition MaybeAddCHRM (c : ColorEncoding.t) (unknown_chunks : list Chunk)
    : Status * list Chunk :=
  match WhitePointToCIExy (ColorEncoding.white_point c) with
  | None => (StatusOk, unknown_chunks)
  | Some white_point =>
      match PrimariesToCIExy (ColorEncoding.primaries c) with
      | None => (StatusOk, unknown_chunks)
      | Some (r, g, b) =>
          let payload :=
            StoreBE32 (U32FromF64 (fst white_point)) ++
            StoreBE32 (U32FromF64 (snd white_point)) ++
            StoreBE32 (U32FromF64 (fst r)) ++
            StoreBE32 (U32FromF64 (snd r)) ++
            StoreBE32 (U32FromF64 (fst g)) ++
            StoreBE32 (U32FromF64 (snd g)) ++
            StoreBE32 (U32FromF64 (fst b)) ++
            StoreBE32 (U32FromF64 (snd b)) in
          AddChunk (cstr "cHRM") payload unknown_chunks
      end
  end.

(** [Encode(c, info)], on the first group of unknown chunks of [info]. *)
Definition Encode (c : ColorEncoding.t) (unknown_chunks : list Chunk)
    : Status * list Chunk :=
  let '(status, unknown_chunks) :=
    match ColorEncoding.icc c with
    | [] => MaybeAddSRGB c unknown_chunks
    | _ => AddICC (ColorEncoding.icc c) unknown_chunks
    end in
  match status with
  | StatusFailure _ => (status, unknown_chunks)
  | StatusOk =>
      let '(status, unknown_chunks) := MaybeAddGAMA c unknown_chunks in
      match status with
      | StatusFailure _ => (status, unknown_chunks)
      | StatusOk => MaybeAddCHRM c unknown_chunks
      end
  end.

End WithExternals.
End ColorEncodingWriterPNG.

(** The reader with its members: the colour chunks fill them. *)
Module ColorEncodingReader.
Section WithExternals.
Context `{ColorExternals}.

Record t : Type := {
  icc_ : PaddedBytes;
  have_pq_ : bool;
  have_srgb_ : bool;
  have_gama_ : bool;
  have_chrm_ : bool;
  params_ : ProfileParams.t
}.

(** [strcmp(payload, "ITUR_2100_PQ_FULL") == 0], on a payload that holds
    a NUL. *)
Definition is_PQ_name (payload : PaddedBytes) : bool :=
  cstring_eqb (c_str payload) (cstr "ITUR_2100_PQ_FULL").

(** [DecodeICC]: the status and the reader. The name is recognised
    before the method is looked at, and a profile that cannot be
    decompressed leaves [icc_] as it was. *)
Definition DecodeICC (payload : PaddedBytes) (reader : t) : Status * t :=
  match payload with
  | [] => (PIK_FAILURE "Empty ICC payload", reader)
  | first :: _ =>
      if u8 first =? 0 then (PIK_FAILURE "Expected ICC name", reader)
      else
        match ColorEncodingReaderPNG.DecodeICC_name 80 payload with
        | inl failure => (failure, reader)
        | inr pos =>
            let reader :=
              if is_PQ_name payload then
                {| icc_ := icc_ reader; have_pq_ := true;
                   have_srgb_ := have_srgb_ reader;
                   have_gama_ := have_gama_ reader;
                   have_chrm_ := have_chrm_ reader;
                   params_ := params_ reader |}
              else reader in
            match pos with
            | [] => (PIK_FAILURE "Not enough bytes for ICC method", reader)
            | method :: pos =>
                if negb (u8 method =? 0)
                then (PIK_FAILURE "Unsupported ICC method", reader)
                else
                  match lodepng_zlib_decompress pos with
                  | Some icc =>
                      (StatusOk,
                       {| icc_ := icc; have_pq_ := have_pq_ reader;
                          have_srgb_ := have_srgb_ reader;
                          have_gama_ := have_gama_ reader;
                          have_chrm_ := have_chrm_ reader;
                          params_ := params_ reader |})
                  | None => (StatusOk, reader)
                  end
            end
        end
  end.

(** [static_cast<int32_t>(x) * 1E-5]. *)
Definition F64FromU32 (x : Z) : double :=
  double_mul (double_of_int32 (if x <? 2 ^ 31 then x else x - 2 ^ 32))
    double_1Em5.

Definition DecodeSRGB (payload : PaddedBytes) (reader : t) : Status * t :=
  if negb (length payload =? 1)%nat then (PIK_FAILURE "Wrong sRGB size", reader)
  else
    (StatusOk,
     {| icc_ := icc_ reader; have_pq_ := have_pq_ reader;
        have_srgb_ := true;
        have_gama_ := have_gama_ reader;
        have_chrm_ := have_chrm_ reader;
        params_ :=
          {| ProfileParams.rendering_intent := u8 (nth 0 payload x00);
             ProfileParams.gamma := ProfileParams.gamma (params_ reader);
             ProfileParams.white_point :=
               ProfileParams.white_point (params_ reader);
             ProfileParams.primaries :=
               ProfileParams.primaries (params_ reader) |} |}).

Definition DecodeGAMA (payload : PaddedBytes) (reader : t) : Status * t :=
  if negb (length payload =? 4)%nat then (PIK_FAILURE "Wrong gAMA size", reader)
  else
    (StatusOk,
     {| icc_ := icc_ reader; have_pq_ := have_pq_ reader;
        have_srgb_ := have_srgb_ reader;
        have_gama_ := true;
        have_chrm_ := have_chrm_ reader;
        params_ :=
          {| ProfileParams.rendering_intent :=
               ProfileParams.rendering_intent (params_ reader);
             ProfileParams.gamma := F64FromU32 (LoadBE32 payload);
             ProfileParams.white_point :=
               ProfileParams.white_point (params_ reader);
             ProfileParams.primaries :=
               ProfileParams.primaries (params_ reader) |} |}).

Definition DecodeCHRM (payload : PaddedBytes) (reader : t) : Status * t :=
  if negb (length payload =? 32)%nat then (PIK_FAILURE "Wrong cHRM size", reader)
  else
    let at_ (offset : nat) := F64FromU32 (LoadBE32 (skipn offset payload)) in
    (StatusOk,
     {| icc_ := icc_ reader; have_pq_ := have_pq_ reader;
        have_srgb_ := have_srgb_ reader;
        have_gama_ := have_gama_ reader;
        have_chrm_ := true;
        params_ :=
          {| ProfileParams.rendering_intent :=
               ProfileParams.rendering_intent (params_ reader);
             ProfileParams.gamma := ProfileParams.gamma (params_ reader);
             ProfileParams.white_point := (at_ 0%nat, at_ 4%nat);
             ProfileParams.primaries :=
               ((at_ 8%nat, at_ 12%nat), (at_ 16%nat, at_ 20%nat),
                (at_ 24%nat, at_ 28%nat)) |} |}).

(** [Decode(bytes, metadata)] with the reader: the chunk loop of
    [ColorEncodingReaderPNG.Decode], which it follows step by step. *)
Fixpoint Decode (chunks : list Chunk) (metadata : Metadata) (reader : t)
    : option (Status * Metadata * t) :=
  match chunks with
  | [] => Some (StatusOk, metadata, reader)
  | chunk :: chunks' =>
      let type := chunk_type chunk in
      let payload := chunk_payload chunk in
      if ColorEncodingReaderPNG.is_colorimetry_or_metadata type then
        match chunks' with
        | [] => Some (StatusOk, metadata, reader)
        | _ :: _ =>
            if negb (chunk_crc_ok chunk) then None
            else if cstring_eqb type (cstr "eXIf") then
              match ColorEncodingReaderPNG.DecodeEXIF payload metadata with
              | (StatusOk, metadata') => Decode chunks' metadata' reader
              | (failure, metadata') => Some (failure, metadata', reader)
              end
            else
              let '(status, reader') :=
                if cstring_eqb type (cstr "iCCP") then DecodeICC payload reader
                else if cstring_eqb type (cstr "sRGB")
                then DecodeSRGB payload reader
                else if cstring_eqb type (cstr "gAMA")
                then DecodeGAMA payload reader
                else DecodeCHRM payload reader in
              match status with
              | StatusOk => Decode chunks' metadata reader'
              | failure => Some (failure, metadata, reader')
              end
        end
      else Decode chunks' metadata reader
  end.

End WithExternals.
End ColorEncodingReader.

(** * Properties *)

(** ** Characters and decimal numbers *)

Lemma code_char_of (z : Z) : 0 <= z < 256 -> code (char_of z) = z.
Proof.
  intros Hz. unfold code, char_of.
  rewrite Z.mod_small by lia.
  rewrite N_ascii_embedding by lia.
  lia.
Qed.

Lemma code_range (c : ascii) : 0 <= code c < 256.
Proof.
  unfold code. pose proof (N_ascii_bounded c). lia.
Qed.

Lemma char_of_code (c : ascii) : char_of (code c) = c.
Proof.
  unfold char_of. pose proof (code_range c).
  rewrite Z.mod_small by lia. unfold code.
  rewrite N2Z.id. apply ascii_N_embedding.
Qed.

Lemma ascii_eqb_eq (a b : ascii) : ascii_eqb a b = true <-> a = b.
Proof. apply Ascii.eqb_eq. Qed.

Lemma ascii_eqb_refl (a : ascii) : ascii_eqb a a = true.
Proof. apply Ascii.eqb_refl. Qed.

Lemma cstring_eqb_eq (a b : cstring) : cstring_eqb a b = true <-> a = b.
Proof.
  revert b. induction a as [|x a IH]; intros [|y b]; simpl; split;
    try congruence; try reflexivity.
  - intros E. apply andb_true_iff in E as [E1 E2].
    apply ascii_eqb_eq in E1. apply IH in E2. congruence.
  - intros E. injection E as -> ->.
    rewrite ascii_eqb_refl. simpl. apply IH. reflexivity.
Qed.

Module StdioFacts.
Import Stdio.

Definition digit (m : Z) : ascii := char_of (48 + m).

Lemma isdigit_digit (m : Z) : 0 <= m < 10 -> isdigit (digit m) = true.
Proof.
  intros Hm. unfold isdigit, digit. rewrite code_char_of by lia.
  apply andb_true_iff. split; lia.
Qed.

Lemma isspace_digit (m : Z) : 0 <= m < 10 -> isspace (digit m) = false.
Proof.
  intros Hm. unfold isspace, digit. rewrite code_char_of by lia.
  apply orb_false_iff. split; [lia|].
  apply andb_false_iff. right. lia.
Qed.

Lemma decimal_digits_acc (fuel : nat) :
  forall n acc, decimal_digits fuel n acc = decimal_digits fuel n [] ++ acc.
Proof.
  induction fuel as [|fuel IH]; intros n acc; simpl; [reflexivity|].
  destruct (n / 10 =? 0); [reflexivity|].
  rewrite (IH _ (_ :: acc)), (IH _ [_]).
  rewrite <- app_assoc. reflexivity.
Qed.

Lemma digits_value_snoc (ds : cstring) (c : ascii) :
  digits_value (ds ++ [c]) = 10 * digits_value ds + (code c - 48).
Proof. unfold digits_value. rewrite fold_left_app. reflexivity. Qed.

(** What [print_lu] prints is the number: digits only, at least one, no
    more than the number needs, and their value is the number. *)
Lemma decimal_digits_spec (fuel : nat) :
  forall n, (0 < fuel)%nat -> 0 <= n < 10 ^ Z.of_nat fuel ->
    let ds := decimal_digits fuel n [] in
    digits_value ds = n /\
    forallb isdigit ds = true /\
    ds <> [] /\
    (forall k : nat, (0 < k)%nat -> n < 10 ^ Z.of_nat k -> (length ds <= k)%nat) /\
    (forall k : nat, 10 ^ Z.of_nat k <= n -> (k < length ds)%nat).
Proof.
  induction fuel as [|fuel IH]; intros n Hfuel Hn.
  - lia.
  - cbn [decimal_digits].
    assert (Hmod : 0 <= n mod 10 < 10) by (apply Z.mod_pos_bound; lia).
    destruct (n / 10 =? 0) eqn:Hq.
    + apply Z.eqb_eq in Hq.
      assert (Hsmall : n = n mod 10)
        by (rewrite (Z.div_mod n 10) at 1 by lia; lia).
      cbv zeta. fold (digit (n mod 10)).
      split; [|split; [|split; [|split]]].
      * unfold digits_value. cbn [fold_left]. unfold digit.
        rewrite code_char_of by lia. lia.
      * cbn [forallb]. rewrite isdigit_digit by lia. reflexivity.
      * discriminate.
      * intros k Hk _. cbn [length]. lia.
      * intros k Hk. cbn [length]. destruct k as [|k]; [lia|]. exfalso.
        assert (10 ^ 1 <= 10 ^ Z.of_nat (S k)) by (apply Z.pow_le_mono_r; lia).
        lia.
    + apply Z.eqb_neq in Hq.
      rewrite decimal_digits_acc.
      assert (Hdiv : 0 <= n / 10 < 10 ^ Z.of_nat fuel).
      { split; [apply Z.div_pos; lia|].
        apply Z.div_lt_upper_bound; [lia|].
        replace (Z.of_nat (S fuel)) with (1 + Z.of_nat fuel) in Hn by lia.
        rewrite Z.pow_add_r in Hn by lia. lia. }
      assert (Hpos : (0 < fuel)%nat).
      { destruct fuel; [|lia]. simpl in Hdiv.
        assert (n / 10 = 0) by lia. contradiction. }
      destruct (IH (n / 10) Hpos Hdiv) as (Hv & Hd & Hne & Hle & Hge).
      cbv zeta. fold (digit (n mod 10)).
      split; [|split; [|split; [|split]]].
      * rewrite digits_value_snoc, Hv. unfold digit.
        rewrite code_char_of by lia.
        rewrite (Z.div_mod n 10) at 3 by lia. lia.
      * rewrite forallb_app, Hd. cbn [forallb].
        rewrite isdigit_digit by lia. reflexivity.
      * intros E. apply app_eq_nil in E as [_ E]. discriminate.
      * intros k Hk Hlt. rewrite length_app. cbn [length].
        destruct k as [|[|k]]; [lia| |].
        -- exfalso. change (10 ^ Z.of_nat 1) with 10 in Hlt.
           apply Hq. apply Z.div_small. lia.
        -- assert ((length (decimal_digits fuel (n / 10) []) <= S k)%nat); [|lia].
           apply Hle; [lia|].
           apply Z.div_lt_upper_bound; [lia|].
           replace (Z.of_nat (S (S k))) with (1 + Z.of_nat (S k)) in Hlt by lia.
           rewrite Z.pow_add_r in Hlt by lia. lia.
      * intros k Hk. rewrite length_app. cbn [length].
        destruct k as [|k]; [lia|].
        assert ((k < length (decimal_digits fuel (n / 10) []))%nat); [|lia].
        apply Hge.
        replace (Z.of_nat (S k)) with (1 + Z.of_nat k) in Hk by lia.
        rewrite Z.pow_add_r in Hk by lia.
        apply Z.div_le_lower_bound; lia.
Qed.

Lemma print_lu_spec (n : Z) :
  0 <= n < 2 ^ 64 ->
  digits_value (print_lu n) = n /\
  forallb isdigit (print_lu n) = true /\
  print_lu n <> [] /\
  (forall k : nat, (0 < k)%nat -> n < 10 ^ Z.of_nat k -> (length (print_lu n) <= k)%nat) /\
  (forall k : nat, 10 ^ Z.of_nat k <= n -> (k < length (print_lu n))%nat).
Proof.
  intros Hn. apply (decimal_digits_spec 20); [lia|]. simpl Z.of_nat.
  assert (2 ^ 64 < 10 ^ 20) by reflexivity. lia.
Qed.

Lemma skip_space_spaces (k : nat) (rest : cstring) :
  skip_space (repeat " "%char k ++ rest) = skip_space rest.
Proof. induction k as [|k IH]; simpl; [reflexivity|exact IH]. Qed.

Lemma skip_space_length (input : cstring) :
  (length (skip_space input) <= length input)%nat.
Proof.
  induction input as [|c input IH]; simpl; [lia|].
  destruct (isspace c); simpl; lia.
Qed.

Lemma take_digits_all (ds rest : cstring) (width : nat) :
  forallb isdigit ds = true ->
  (length ds <= width)%nat ->
  match rest with c :: _ => isdigit c = false | [] => True end ->
  take_digits width (ds ++ rest) = (ds, rest).
Proof.
  revert width. induction ds as [|d ds IH]; intros width Hd Hw Hrest.
  - simpl. destruct width as [|w]; [destruct rest; reflexivity|].
    destruct rest as [|c r]; [reflexivity|].
    simpl. rewrite Hrest. reflexivity.
  - simpl in Hd. apply andb_true_iff in Hd as [Hd1 Hd2].
    destruct width as [|width]; [simpl in Hw; lia|].
    simpl. rewrite Hd1. rewrite IH; [reflexivity|assumption|simpl in Hw; lia|assumption].
Qed.

Lemma take_digits_full (ds rest : cstring) :
  forallb isdigit ds = true ->
  take_digits (length ds) (ds ++ rest) = (ds, rest).
Proof.
  induction ds as [|d ds IH]; intros Hd.
  - simpl. reflexivity.
  - simpl in Hd. apply andb_true_iff in Hd as [Hd1 Hd2].
    simpl. rewrite Hd1, IH by assumption. reflexivity.
Qed.

End StdioFacts.

(** ** Base16 text chunks *)

Lemma u8_range (b : byte) : 0 <= u8 b < 256.
Proof. unfold u8. pose proof (Byte.to_N_bounded b). lia. Qed.

Lemma u8_to_u8 (z : Z) : u8 (to_u8 z) = z mod 256.
Proof.
  unfold u8, to_u8.
  assert (Hz : 0 <= z mod 256 < 256) by (apply Z.mod_pos_bound; lia).
  destruct (Byte.of_N (Z.to_N (z mod 256))) as [b|] eqn:E.
  - apply Byte.to_of_N in E. rewrite E. lia.
  - apply Byte.of_N_None_iff in E. lia.
Qed.

Lemma to_u8_u8 (b : byte) : to_u8 (u8 b) = b.
Proof.
  unfold to_u8. pose proof (u8_range b) as Hb.
  rewrite Z.mod_small by lia. unfold u8. rewrite N2Z.id.
  rewrite Byte.of_to_N. reflexivity.
Qed.

Lemma u8_inj (a b : byte) : u8 a = u8 b -> a = b.
Proof. intros E. rewrite <- (to_u8_u8 a), <- (to_u8_u8 b), E. reflexivity. Qed.

(** The sixteen lowercase hexadecimal digits, as the spec names them. *)
Definition hex_digits : cstring := cstr "0123456789abcdef".

Definition hex_digit (n : Z) : ascii := nth (Z.to_nat n) hex_digits "0"%char.

Fixpoint index_of (c : ascii) (l : cstring) : option Z :=
  match l with
  | [] => None
  | x :: l' =>
      if ascii_eqb c x then Some 0
      else option_map Z.succ (index_of c l')
  end.

(** The value of a lowercase hexadecimal digit; [None] for every other
    character. *)
Definition hex_value (c : ascii) : option Z := index_of c hex_digits.

Definition all_ascii (P : ascii -> bool) : bool :=
  forallb (fun n => P (ascii_of_nat n)) (seq 0 256).

Lemma all_ascii_spec (P : ascii -> bool) :
  all_ascii P = true -> forall c, P c = true.
Proof.
  intros Hall c. unfold all_ascii in Hall.
  rewrite forallb_forall in Hall.
  rewrite <- (ascii_nat_embedding c). apply Hall.
  apply in_seq. pose proof (nat_ascii_bounded c). lia.
Qed.

Definition Status_eqb (a b : Status) : bool :=
  match a, b with
  | StatusOk, StatusOk => true
  | StatusFailure x, StatusFailure y => String.eqb x y
  | _, _ => false
  end.

Lemma Status_eqb_eq (a b : Status) : Status_eqb a b = true -> a = b.
Proof.
  destruct a, b; simpl; try discriminate; try reflexivity.
  intros E. apply String.eqb_eq in E. congruence.
Qed.

(** [DecodeNibble] accepts exactly the lowercase hexadecimal digits, and
    yields their value. *)
Lemma DecodeNibble_spec (c : ascii) :
  MetadataReaderPNG.DecodeNibble c =
  match hex_value c with
  | Some n => (StatusOk, n)
  | None => (PIK_FAILURE "Invalid metadata nibble", 0)
  end.
Proof.
  pose proof (all_ascii_spec (fun c =>
    let '(s, n) := MetadataReaderPNG.DecodeNibble c in
    let '(s', n') := match hex_value c with
                     | Some n => (StatusOk, n)
                     | None => (PIK_FAILURE "Invalid metadata nibble", 0)
                     end in
    Status_eqb s s' && (n =? n')) ltac:(vm_compute; reflexivity) c) as HP.
  cbv beta in HP.
  destruct (MetadataReaderPNG.DecodeNibble c) as [s n].
  destruct (hex_value c) as [m|];
    apply andb_true_iff in HP as [Hs Hn];
    apply Status_eqb_eq in Hs; apply Z.eqb_eq in Hn; congruence.
Qed.

Lemma hex_value_digit (c : ascii) (n : Z) :
  hex_value c = Some n -> 0 <= n < 16 /\ hex_digit n = c.
Proof.
  pose proof (all_ascii_spec (fun c =>
    match hex_value c with
    | Some n => (0 <=? n) && (n <? 16) && ascii_eqb (hex_digit n) c
    | None => true
    end) ltac:(vm_compute; reflexivity) c) as HP.
  cbv beta in HP. intros E. rewrite E in HP.
  apply andb_true_iff in HP as [HP H3]. apply andb_true_iff in HP as [H1 H2].
  apply ascii_eqb_eq in H3. split; [lia|exact H3].
Qed.

Lemma nibble_cases (n : Z) :
  0 <= n < 16 ->
  In n [0; 1; 2; 3; 4; 5; 6; 7; 8; 9; 10; 11; 12; 13; 14; 15].
Proof.
  intros Hn. simpl. lia.
Qed.

Lemma EncodeNibble_hex_digit (n : Z) :
  0 <= n < 16 ->
  MetadataWriterPNG.EncodeNibble n = hex_digit n /\
  hex_value (hex_digit n) = Some n /\
  ascii_eqb (hex_digit n) newline = false.
Proof.
  intros Hn. apply nibble_cases in Hn. simpl in Hn.
  repeat (destruct Hn as [<-|Hn]; [vm_compute; auto|]).
  contradiction.
Qed.

Lemma low_nibble (z : Z) : 0 <= z -> Z.land z 15 = z mod 16.
Proof. intros _. change 15 with (Z.ones 4). rewrite Z.land_ones by lia. reflexivity. Qed.

Lemma high_nibble (z : Z) : Z.shiftr z 4 = z / 16.
Proof. rewrite Z.shiftr_div_pow2 by lia. reflexivity. Qed.

Lemma nibbles_range (b : byte) :
  0 <= Z.land (u8 b) 15 < 16 /\ 0 <= Z.shiftr (u8 b) 4 < 16.
Proof.
  pose proof (u8_range b) as Hb.
  rewrite low_nibble, high_nibble by lia. split.
  - apply Z.mod_pos_bound. lia.
  - split; [apply Z.div_pos; lia|apply Z.div_lt_upper_bound; lia].
Qed.

Lemma byte_of_nibbles (b : byte) :
  to_u8 (Z.shiftl (Z.shiftr (u8 b) 4) 4 + Z.land (u8 b) 15) = b.
Proof.
  pose proof (u8_range b) as Hb.
  rewrite low_nibble, high_nibble by lia.
  rewrite Z.shiftl_mul_pow2 by lia. change (2 ^ 4) with 16.
  replace (u8 b / 16 * 16 + u8 b mod 16) with (u8 b)
    by (rewrite (Z.div_mod (u8 b) 16) at 1 by lia; lia).
  apply to_u8_u8.
Qed.

Lemma nibbles_of_byte (n0 n1 : Z) :
  0 <= n0 < 16 -> 0 <= n1 < 16 ->
  Z.land (u8 (to_u8 (Z.shiftl n1 4 + n0))) 15 = n0 /\
  Z.shiftr (u8 (to_u8 (Z.shiftl n1 4 + n0))) 4 = n1.
Proof.
  intros H0 H1. rewrite u8_to_u8.
  rewrite Z.shiftl_mul_pow2 by lia. change (2 ^ 4) with 16.
  rewrite Z.mod_small by lia.
  rewrite low_nibble, high_nibble by lia. split.
  - rewrite Z.add_comm, Z.mod_add by lia. apply Z.mod_small. lia.
  - rewrite Z.add_comm, Z.div_add by lia. rewrite Z.div_small by lia. lia.
Qed.

(** The lines [EncodeBase16] writes for [bytes], the first of which has
    index [i]: a newline before every 36th byte, and per byte the digit of
    its low nibble, then the digit of its high nibble. *)
Fixpoint Base16Lines (i : Z) (bytes : PaddedBytes) : cstring :=
  match bytes with
  | [] => []
  | b :: bytes' =>
      (if i mod 36 =? 0 then [newline] else []) ++
      hex_digit (Z.land (u8 b) 15) :: hex_digit (Z.shiftr (u8 b) 4) ::
      Base16Lines (i + 1) bytes'
  end.

Lemma EncodeBase16_loop_lines (bytes : PaddedBytes) :
  forall i base16,
    MetadataWriterPNG.EncodeBase16_loop i bytes base16 =
    base16 ++ Base16Lines i bytes.
Proof.
  induction bytes as [|b bytes IH]; intros i base16; simpl.
  - rewrite app_nil_r. reflexivity.
  - rewrite IH.
    destruct (nibbles_range b) as [Hlo Hhi].
    destruct (EncodeNibble_hex_digit _ Hlo) as [-> _].
    destruct (EncodeNibble_hex_digit _ Hhi) as [-> _].
    destruct (i mod 36 =? 0); rewrite <- ?app_assoc; reflexivity.
Qed.

Lemma DecodeNibble_hex_digit (n : Z) :
  0 <= n < 16 -> MetadataReaderPNG.DecodeNibble (hex_digit n) = (StatusOk, n).
Proof.
  intros Hn. rewrite DecodeNibble_spec.
  destruct (EncodeNibble_hex_digit _ Hn) as (_ & -> & _). reflexivity.
Qed.

(** The decoding loop reads back the lines of the encoder. *)
Lemma DecodeBase16_loop_lines (bytes : PaddedBytes) :
  forall i acc tail,
    tail <> [] ->
    MetadataReaderPNG.DecodeBase16_loop (length bytes) i
      (Base16Lines i bytes ++ tail) acc =
    (StatusOk, tail, acc ++ bytes).
Proof.
  induction bytes as [|b bytes IH]; intros i acc tail Htail.
  - simpl. rewrite app_nil_r. reflexivity.
  - destruct (nibbles_range b) as [Hlo Hhi].
    assert (Hlen : forall l : cstring, (1 <= length (l ++ tail))%nat).
    { intros l. rewrite length_app. destruct tail; [contradiction|simpl; lia]. }
    pose proof (Hlen (Base16Lines (i + 1) bytes)) as Hrest.
    assert (Hleb : forall (l : cstring) (k : nat),
               (k < Datatypes.length l)%nat -> (Datatypes.length l <=? k)%nat = false)
      by (intros l k Hk; apply Nat.leb_gt; exact Hk).
    change (Datatypes.length (b :: bytes)) with (S (Datatypes.length bytes)).
    cbn [MetadataReaderPNG.DecodeBase16_loop Base16Lines].
    destruct (i mod 36 =? 0).
    + cbn [app]. rewrite Hleb by (simpl; lia).
      rewrite ascii_eqb_refl. rewrite Hleb by (simpl; lia).
      rewrite !DecodeNibble_hex_digit by assumption.
      rewrite IH by assumption. rewrite byte_of_nibbles, <- app_assoc.
      reflexivity.
    + cbn [app]. rewrite Hleb by (simpl; lia).
      rewrite !DecodeNibble_hex_digit by assumption.
      rewrite IH by assumption. rewrite byte_of_nibbles, <- app_assoc.
      reflexivity.
Qed.

(** Whatever the decoding loop accepts is the encoder's lines for the
    bytes it yields. *)
Lemma DecodeBase16_loop_inv (n : nat) :
  forall i pos acc pos' bytes',
    MetadataReaderPNG.DecodeBase16_loop n i pos acc = (StatusOk, pos', bytes') ->
    exists new,
      bytes' = acc ++ new /\ length new = n /\ pos = Base16Lines i new ++ pos'.
Proof.
  induction n as [|n IH]; intros i pos acc pos' bytes' E.
  - simpl in E. injection E as <- <-. exists []. rewrite app_nil_r. auto.
  - cbn [MetadataReaderPNG.DecodeBase16_loop] in E.
    assert (Hstep : forall line : cstring,
      (if (length line <=? 2)%nat
       then (PIK_FAILURE "Truncated base16 2", line, acc)
       else
         match line with
         | c0 :: c1 :: pos0 =>
             match MetadataReaderPNG.DecodeNibble c0,
                   MetadataReaderPNG.DecodeNibble c1 with
             | (StatusOk, nibble0), (StatusOk, nibble1) =>
                 MetadataReaderPNG.DecodeBase16_loop n (i + 1) pos0
                   (acc ++ [to_u8 (Z.shiftl nibble1 4 + nibble0)])
             | (StatusFailure m, _), _ => (StatusFailure m, line, acc)
             | _, (StatusFailure m, _) => (StatusFailure m, line, acc)
             end
         | _ => (PIK_FAILURE "Truncated base16 2", line, acc)
         end) = (StatusOk, pos', bytes') ->
      exists b new,
        bytes' = acc ++ b :: new /\ length new = n /\
        line = hex_digit (Z.land (u8 b) 15) :: hex_digit (Z.shiftr (u8 b) 4) ::
               Base16Lines (i + 1) new ++ pos').
    { intros line El.
      destruct (length line <=? 2)%nat; [discriminate|].
      destruct line as [|c0 [|c1 pos0]]; try discriminate.
      rewrite !DecodeNibble_spec in El.
      destruct (hex_value c0) as [n0|] eqn:E0; [|discriminate].
      destruct (hex_value c1) as [n1|] eqn:E1; [|discriminate].
      apply hex_value_digit in E0 as [H0 <-].
      apply hex_value_digit in E1 as [H1 <-].
      apply IH in El as (new & -> & Hlen & ->).
      exists (to_u8 (Z.shiftl n1 4 + n0)), new.
      destruct (nibbles_of_byte n0 n1 H0 H1) as [-> ->].
      rewrite <- app_assoc. auto. }
    destruct (i mod 36 =? 0) eqn:Hi.
    + destruct (length pos <=? 1)%nat; [discriminate|].
      destruct pos as [|c pos]; [discriminate|].
      destruct (ascii_eqb c newline) eqn:Hc; [|discriminate].
      apply ascii_eqb_eq in Hc. subst c.
      apply Hstep in E as (b & new & -> & Hlen & ->).
      exists (b :: new). cbn [Base16Lines]. rewrite Hi.
      split; [reflexivity|]. split; [simpl; lia|reflexivity].
    + apply Hstep in E as (b & new & -> & Hlen & ->).
      exists (b :: new). cbn [Base16Lines]. rewrite Hi.
      split; [reflexivity|]. split; [simpl; lia|reflexivity].
Qed.

(** ** The header of a base16 text chunk *)

Module HeaderFacts.
Import Stdio StdioFacts.

Lemma isdigit_not_space_nor_sign (c : ascii) :
  isdigit c = true ->
  isspace c = false /\ forall w r, scan_sign w (c :: r) = (false, w, c :: r).
Proof.
  intros Hd. split.
  - pose proof (all_ascii_spec
        (fun c => negb (isdigit c) || negb (isspace c))
        ltac:(vm_compute; reflexivity) c) as HP.
    cbv beta in HP. rewrite Hd in HP. simpl in HP.
    apply negb_true_iff in HP. exact HP.
  - intros w r.
    pose proof (all_ascii_spec
        (fun c => negb (isdigit c) ||
                  (negb (ascii_eqb c "-") && negb (ascii_eqb c "+")))
        ltac:(vm_compute; reflexivity) c) as HP.
    cbv beta in HP. rewrite Hd in HP. simpl in HP.
    apply andb_true_iff in HP as [Hm Hp].
    apply negb_true_iff in Hm, Hp.
    unfold scan_sign. destruct w as [|w]; [reflexivity|].
    destruct c as [[] [] [] [] [] [] [] []]; try reflexivity;
      (vm_compute in Hm; discriminate) || (vm_compute in Hp; discriminate).
Qed.

Lemma skip_space_stop (c : ascii) (rest : cstring) :
  isspace c = false -> skip_space (c :: rest) = c :: rest.
Proof. intros Hc. simpl. rewrite Hc. reflexivity. Qed.

Lemma run_DSpace (ds : list directive) (sp : cstring) (c : ascii)
    (rest : cstring) (consumed : Z) (st : scan_state) :
  forallb isspace sp = true -> isspace c = false ->
  run_directives (DSpace :: ds) (sp ++ c :: rest) consumed st =
  run_directives ds (c :: rest) (consumed + Z.of_nat (length sp)) st.
Proof.
  intros Hsp Hc. cbn [run_directives].
  assert (E : skip_space (sp ++ c :: rest) = c :: rest).
  { induction sp as [|x sp IH]; [apply skip_space_stop; exact Hc|].
    simpl in Hsp. apply andb_true_iff in Hsp as [Hx Hsp].
    simpl. rewrite Hx. apply IH. exact Hsp. }
  rewrite E. rewrite length_app.
  replace (length sp + length (c :: rest) - length (c :: rest))%nat
    with (length sp) by lia.
  reflexivity.
Qed.

Lemma run_DLiteral (ds : list directive) (c : ascii) (rest : cstring)
    (consumed : Z) (st : scan_state) :
  run_directives (DLiteral c :: ds) (c :: rest) consumed st =
  run_directives ds rest (consumed + 1) st.
Proof. cbn [run_directives]. rewrite ascii_eqb_refl. reflexivity. Qed.

(** [%8lu] on a number of at most [width] digits that something other
    than a digit follows. *)
Lemma run_DULong (ds : list directive) (width : nat) (digits rest : cstring)
    (consumed : Z) (st : scan_state) :
  forallb isdigit digits = true -> digits <> [] ->
  (length digits <= width)%nat ->
  match rest with c :: _ => isdigit c = false | [] => True end ->
  run_directives (DULong width :: ds) (digits ++ rest) consumed st =
  run_directives ds rest (consumed + Z.of_nat (length digits))
    {| assigned := assigned st ++ [digits_value digits]; counts := counts st |}.
Proof.
  intros Hd Hne Hw Hrest. cbn [run_directives]. unfold scan_lu.
  destruct digits as [|d digits]; [contradiction|].
  assert (Hd0 : isdigit d = true) by (simpl in Hd; apply andb_true_iff in Hd; tauto).
  destruct (isdigit_not_space_nor_sign d Hd0) as [Hsp Hsign].
  cbn [app]. rewrite skip_space_stop by exact Hsp. rewrite Hsign.
  change (d :: digits ++ rest) with ((d :: digits) ++ rest).
  rewrite take_digits_all by assumption.
  rewrite length_app.
  replace (length (d :: digits) + length rest - length rest)%nat
    with (length (d :: digits)) by lia.
  reflexivity.
Qed.

(** [%8lu] on a longer number: the first [width] digits only. *)
Lemma run_DULong_cut (ds : list directive) (digits rest : cstring)
    (consumed : Z) (st : scan_state) :
  forallb isdigit digits = true -> digits <> [] ->
  run_directives (DULong (length digits) :: ds) (digits ++ rest) consumed st =
  run_directives ds rest (consumed + Z.of_nat (length digits))
    {| assigned := assigned st ++ [digits_value digits]; counts := counts st |}.
Proof.
  intros Hd Hne. cbn [run_directives]. unfold scan_lu.
  destruct digits as [|d digits]; [contradiction|].
  assert (Hd0 : isdigit d = true) by (simpl in Hd; apply andb_true_iff in Hd; tauto).
  destruct (isdigit_not_space_nor_sign d Hd0) as [Hsp Hsign].
  cbn [app]. rewrite skip_space_stop by exact Hsp. rewrite Hsign.
  change (d :: digits ++ rest) with ((d :: digits) ++ rest).
  rewrite take_digits_full by assumption.
  rewrite length_app.
  replace (length (d :: digits) + length rest - length rest)%nat
    with (length (d :: digits)) by lia.
  reflexivity.
Qed.

(** The two metadata types the writer emits. *)
Definition is_exif_or_iptc (type : cstring) : Prop :=
  type = cstr "exif" \/ type = cstr "iptc".

(** The header [EncodeBase16] prints for [n] bytes, before [snprintf]
    cuts it. *)
Definition header_text (type : cstring) (n : Z) : cstring :=
  newline :: type ++ newline :: print_lu_width 8 n.

Lemma print_lu_width_short (n : Z) :
  0 <= n < 10 ^ 8 ->
  exists k, print_lu_width 8 n = repeat " "%char k ++ print_lu n /\
            (k + length (print_lu n) = 8)%nat.
Proof.
  intros Hn.
  assert (Hn64 : 0 <= n < 2 ^ 64)
    by (assert (10 ^ 8 < 2 ^ 64) by reflexivity; lia).
  destruct (print_lu_spec n Hn64) as (_ & _ & _ & Hle & _).
  specialize (Hle 8%nat ltac:(lia) ltac:(simpl Z.of_nat; lia)).
  exists (8 - length (print_lu n))%nat. split; [reflexivity|lia].
Qed.

(** [sscanf] reads the header of a chunk of fewer than [10^8] bytes: the
    byte count, in the 14 characters of the header. *)
Lemma sscanf_header_short (type : cstring) (n : Z) (rest : cstring) :
  is_exif_or_iptc type -> 0 <= n < 10 ^ 8 ->
  MetadataReaderPNG.sscanf_header
    (header_text type n ++ newline :: rest)
    (MetadataReaderPNG.header_format type) = Some (Some (n, 14)) /\
  length (header_text type n) = 14%nat.
Proof.
  intros Htype Hn.
  assert (Hn64 : 0 <= n < 2 ^ 64)
    by (assert (10 ^ 8 < 2 ^ 64) by reflexivity; lia).
  destruct (print_lu_spec n Hn64) as (Hv & Hd & Hne & _ & _).
  destruct (print_lu_width_short n Hn) as (k & Hk & Hlen).
  unfold header_text. rewrite Hk.
  assert (Hsp : forallb isspace (newline :: repeat " "%char k) = true).
  { simpl. clear. induction k; simpl; auto. }
  assert (Hnl : isdigit newline = false) by reflexivity.
  unfold MetadataReaderPNG.sscanf_header.
  destruct Htype as [-> | ->].
  - split.
    + change (Stdio.parse_format _ (MetadataReaderPNG.header_format (cstr "exif")))
        with (Some (DSpace :: map DLiteral (cstr "exif") ++
                    [DSpace; DULong 8; DCount])).
      cbn [map cstr list_ascii_of_string app filter
           MetadataReaderPNG.is_conversion].
      change (newline :: "e"%char :: ?x) with ([newline] ++ "e"%char :: x).
      rewrite run_DSpace by reflexivity.
      rewrite !run_DLiteral.
      destruct (print_lu n) as [|d ds] eqn:Hp; [contradiction|].
      assert (Hd0 : isdigit d = true)
        by (simpl in Hd; apply andb_true_iff in Hd; tauto).
      destruct (isdigit_not_space_nor_sign d Hd0) as [Hdsp _].
      rewrite <- app_assoc.
      change (newline :: repeat " "%char k ++ (d :: ds) ++ newline :: rest)
        with ((newline :: repeat " "%char k) ++ d :: (ds ++ newline :: rest)).
      rewrite run_DSpace by assumption.
      change (d :: ds ++ newline :: rest) with ((d :: ds) ++ newline :: rest).
      rewrite run_DULong by (try assumption; try discriminate; lia).
      cbn [run_directives assigned counts app].
      rewrite Hv. do 3 f_equal.
      cbn [length]. rewrite repeat_length. cbn [length] in Hlen. lia.
    + cbn [cstr list_ascii_of_string app length]. rewrite !length_app, repeat_length.
      cbn [length]. lia.
  - split.
    + change (Stdio.parse_format _ (MetadataReaderPNG.header_format (cstr "iptc")))
        with (Some (DSpace :: map DLiteral (cstr "iptc") ++
                    [DSpace; DULong 8; DCount])).
      cbn [map cstr list_ascii_of_string app filter
           MetadataReaderPNG.is_conversion].
      change (newline :: "i"%char :: ?x) with ([newline] ++ "i"%char :: x).
      rewrite run_DSpace by reflexivity.
      rewrite !run_DLiteral.
      destruct (print_lu n) as [|d ds] eqn:Hp; [contradiction|].
      assert (Hd0 : isdigit d = true)
        by (simpl in Hd; apply andb_true_iff in Hd; tauto).
      destruct (isdigit_not_space_nor_sign d Hd0) as [Hdsp _].
      rewrite <- app_assoc.
      change (newline :: repeat " "%char k ++ (d :: ds) ++ newline :: rest)
        with ((newline :: repeat " "%char k) ++ d :: (ds ++ newline :: rest)).
      rewrite run_DSpace by assumption.
      change (d :: ds ++ newline :: rest) with ((d :: ds) ++ newline :: rest).
      rewrite run_DULong by (try assumption; try discriminate; lia).
      cbn [run_directives assigned counts app].
      rewrite Hv. do 3 f_equal.
      cbn [length]. rewrite repeat_length. cbn [length] in Hlen. lia.
    + cbn [cstr list_ascii_of_string app length]. rewrite !length_app, repeat_length.
      cbn [length]. lia.
Qed.

End HeaderFacts.

Lemma skipn_app_exact {A : Type} (l1 l2 : list A) (n : nat) :
  length l1 = n -> skipn n (l1 ++ l2) = l2.
Proof.
  intros <-. rewrite skipn_app, skipn_all, Nat.sub_diag. reflexivity.
Qed.

Module Base16Facts.
Import Stdio StdioFacts HeaderFacts.

Lemma Base16Lines_starts_with_newline (bytes : PaddedBytes) :
  exists rest, Base16Lines 0 bytes ++ [newline] = newline :: rest.
Proof.
  destruct bytes as [|b bytes].
  - exists []. reflexivity.
  - cbn [Base16Lines]. change (0 mod 36 =? 0) with true. cbn [app].
    eexists. reflexivity.
Qed.

(** The text chunk [EncodeBase16] writes for fewer than [10^8] bytes
    decodes to the same type and the same bytes. *)
Lemma DecodeBase16_EncodeBase16_chunk (type : cstring) (bytes : PaddedBytes) :
  is_exif_or_iptc type ->
  Z.of_nat (length bytes) < 10 ^ 8 ->
  MetadataReaderPNG.DecodeBase16
    (fst (MetadataWriterPNG.EncodeBase16_chunk type bytes))
    (snd (MetadataWriterPNG.EncodeBase16_chunk type bytes)) =
  Some (StatusOk, type, bytes).
Proof.
  intros Htype Hlen.
  unfold MetadataWriterPNG.EncodeBase16_chunk. cbn [fst snd].
  rewrite EncodeBase16_loop_lines. cbn [app].
  destruct (Base16Lines_starts_with_newline bytes) as [rest Hrest].
  fold (header_text type (Z.of_nat (length bytes))).
  destruct (sscanf_header_short type (Z.of_nat (length bytes)) rest Htype
              ltac:(lia)) as [Hscan Hhdr].
  assert (Hsn : snprintf 30 (header_text type (Z.of_nat (length bytes))) =
                header_text type (Z.of_nat (length bytes))).
  { unfold snprintf. apply firstn_all2. rewrite Hhdr. simpl. lia. }
  rewrite Hsn.
  unfold MetadataReaderPNG.DecodeBase16.
  assert (Hkey : snprintf 30 (cstr "Raw profile type " ++ type) =
                 MetadataReaderPNG.kKey ++ type)
    by (destruct Htype as [-> | ->]; reflexivity).
  rewrite Hkey.
  assert (Hcmp : strncmp_eq (MetadataReaderPNG.kKey ++ type)
                   MetadataReaderPNG.kKey (length MetadataReaderPNG.kKey) = true)
    by (destruct Htype as [-> | ->]; reflexivity).
  rewrite Hcmp. cbn [negb].
  rewrite skipn_app_exact by reflexivity.
  assert (Hmax : (MetadataReaderPNG.kMaxTypeLen <? length type)%nat = false)
    by (destruct Htype as [-> | ->]; reflexivity).
  rewrite Hmax.
  rewrite Hrest, Hscan.
  change (Z.to_nat 14) with 14%nat.
  rewrite skipn_app_exact by exact Hhdr.
  rewrite Nat2Z.id, <- Hrest.
  rewrite DecodeBase16_loop_lines by discriminate.
  cbn [app length Nat.eqb negb]. rewrite ascii_eqb_refl. reflexivity.
Qed.

End Base16Facts.

Module LargeBlob.
Import Stdio StdioFacts HeaderFacts Base16Facts.

(** [sscanf] on the header of a chunk of [10^8] bytes: [%8lu] stops after
    eight of the nine digits, so the count read is [10^7] and the last
    digit is left in front of the lines. *)
Lemma sscanf_header_nine_digits (tail : cstring) :
  MetadataReaderPNG.sscanf_header
    (cstr "
exif
100000000" ++ tail)
    (MetadataReaderPNG.header_format (cstr "exif")) =
  Some (Some (10000000, 14)).
Proof.
  unfold MetadataReaderPNG.sscanf_header.
  change (Stdio.parse_format _ (MetadataReaderPNG.header_format (cstr "exif")))
    with (Some (DSpace :: map DLiteral (cstr "exif") ++
                [DSpace; DULong (length (cstr "10000000")); DCount])).
  change (cstr "
exif
100000000" ++ tail)
    with ([newline] ++ "e"%char :: "x"%char :: "i"%char :: "f"%char ::
          ([newline] ++ "1"%char :: (cstr "0000000" ++ "0"%char :: tail))).
  cbn [map cstr list_ascii_of_string app filter MetadataReaderPNG.is_conversion].
  change (newline :: "e"%char :: ?x) with ([newline] ++ "e"%char :: x).
  rewrite run_DSpace by reflexivity.
  rewrite !run_DLiteral.
  change (newline :: "1"%char :: ?x) with ([newline] ++ "1"%char :: x).
  rewrite run_DSpace by reflexivity.
  change ("1"%char :: "0"%char :: "0"%char :: "0"%char :: "0"%char ::
          "0"%char :: "0"%char :: "0"%char :: "0"%char :: tail)
    with (cstr "10000000" ++ "0"%char :: tail).
  rewrite run_DULong_cut by (reflexivity || discriminate).
  reflexivity.
Qed.

(** A blob of [10^8] bytes does not come back: the decoder reads a count
    of [10^7] and finds a digit where the first line should begin. *)
Lemma DecodeBase16_EncodeBase16_chunk_large (bytes : PaddedBytes) :
  Z.of_nat (length bytes) = 100000000 ->
  MetadataReaderPNG.DecodeBase16
    (fst (MetadataWriterPNG.EncodeBase16_chunk (cstr "exif") bytes))
    (snd (MetadataWriterPNG.EncodeBase16_chunk (cstr "exif") bytes)) =
  Some (PIK_FAILURE "Expected newline", cstr "exif", []).
Proof.
  intros Hlen.
  unfold MetadataWriterPNG.EncodeBase16_chunk. cbn [fst snd].
  rewrite EncodeBase16_loop_lines, Hlen. cbn [app].
  replace (snprintf 30
             (newline :: cstr "exif" ++ newline :: print_lu_width 8 100000000))
    with (cstr "
exif
100000000") by (vm_compute; reflexivity).
  unfold MetadataReaderPNG.DecodeBase16.
  replace (snprintf 30 (cstr "Raw profile type " ++ cstr "exif"))
    with (MetadataReaderPNG.kKey ++ cstr "exif") by reflexivity.
  replace (strncmp_eq (MetadataReaderPNG.kKey ++ cstr "exif")
             MetadataReaderPNG.kKey (length MetadataReaderPNG.kKey))
    with true by reflexivity.
  cbn [negb]. rewrite skipn_app_exact by reflexivity.
  replace (MetadataReaderPNG.kMaxTypeLen <? length (cstr "exif"))%nat
    with false by reflexivity.
  rewrite sscanf_header_nine_digits.
  change (Z.to_nat 14) with 14%nat.
  change (skipn 14 (cstr "
exif
100000000" ++ ?t)) with ("0"%char :: t).
  destruct (Z.to_nat 10000000) as [|m] eqn:Em; [lia|].
  cbn [MetadataReaderPNG.DecodeBase16_loop].
  change (0 mod 36 =? 0) with true. cbv iota.
  assert (Hlong : (length ("0"%char :: Base16Lines 0 bytes ++ [newline]) <=? 1)%nat
                  = false).
  { apply Nat.leb_gt. cbn [length]. rewrite length_app. cbn [length]. lia. }
  rewrite Hlong.
  change (ascii_eqb "0" newline) with false. cbv iota.
  reflexivity.
Qed.

End LargeBlob.

(** ** eXIf chunks *)

Module ExifFacts.
Import ColorEncodingReaderPNG.


Lemma DecodeEXIF_spec (payload : PaddedBytes) (m : Metadata) :
  DecodeEXIF payload m =
  (StatusOk,
   if (length (exif m) <=? length payload)%nat
   then {| exif := payload; iptc := iptc m; xmp := xmp m |}
   else m).
Proof.
  unfold DecodeEXIF.
  destruct (Nat.ltb_spec (length payload) (length (exif m))) as [Hlt|Hge].
  - replace (length (exif m) <=? length payload)%nat with false
      by (symmetry; apply Nat.leb_gt; exact Hlt).
    reflexivity.
  - replace (length (exif m) <=? length payload)%nat with true
      by (symmetry; apply Nat.leb_le; exact Hge).
    reflexivity.
Qed.



End ExifFacts.

(** ** Bits and the compressed-integer coder *)

Lemma length_bits_of_Z (n : nat) : forall v, length (bits_of_Z n v) = n.
Proof. induction n as [|n IH]; intros v; simpl; [reflexivity|]. rewrite IH. reflexivity. Qed.

Lemma Z_of_bits_of_Z (n : nat) :
  forall v, 0 <= v < 2 ^ Z.of_nat n -> Z_of_bits (bits_of_Z n v) = v.
Proof.
  induction n as [|n IH]; intros v Hv.
  - simpl in *. lia.
  - cbn [bits_of_Z Z_of_bits].
    replace (Z.of_nat (S n)) with (1 + Z.of_nat n) in Hv by lia.
    rewrite Z.pow_add_r in Hv by lia. change (2 ^ 1) with 2 in Hv.
    rewrite IH.
    + rewrite (Z.div2_odd v) at 3. lia.
    + rewrite Z.div2_div. split.
      * apply Z.div_pos; lia.
      * apply Z.div_lt_upper_bound; lia.
Qed.

Lemma firstn_app_exact {A : Type} (l1 l2 : list A) (n : nat) :
  length l1 = n -> firstn n (l1 ++ l2) = l1.
Proof.
  intros <-. rewrite firstn_app, Nat.sub_diag, firstn_all. simpl.
  apply app_nil_r.
Qed.

Lemma first_failure_ok (s : Status) : first_failure s StatusOk = s.
Proof. destruct s; reflexivity. Qed.

Module U32CoderFacts.
Import U32Coder.

Lemma Cheaper_fold_in (l : list (nat * Alternative)) :
  forall best c,
    fold_left Cheaper l best = Some c ->
    best = Some c \/ In c l.
Proof.
  induction l as [|x l IH]; intros best c E; simpl in E.
  - auto.
  - apply IH in E as [E|E]; [|right; right; exact E].
    unfold Cheaper in E. destruct best as [b|].
    + destruct (_ <? _)%nat; [injection E as <-; right; left; reflexivity|auto].
    + injection E as <-. right. left. reflexivity.
Qed.

Lemma combine_seq_nth {A : Type} (l : list A) :
  forall start n i a,
    In (i, a) (combine (seq start n) l) ->
    (start <= i < start + n)%nat /\ nth_error l (i - start) = Some a.
Proof.
  induction l as [|x l IH]; intros start n i a Hin.
  - destruct n; simpl in Hin; contradiction.
  - destruct n as [|n]; [simpl in Hin; contradiction|].
    simpl in Hin. destruct Hin as [E|Hin].
    + injection E as <- <-. rewrite Nat.sub_diag. split; [lia|reflexivity].
    + apply IH in Hin as [Hr Hn]. split; [lia|].
      replace (i - start)%nat with (S (i - S start)) by lia. exact Hn.
Qed.

(** What the encoder chooses is an alternative of the table, under a
    selector that fits two bits, and it represents the value. *)
Lemma ChooseEncoding_sound (d : Distribution) (v : Z) (selector : nat)
    (a : Alternative) :
  ChooseEncoding d v = Some (selector, a) ->
  is_u32 v = true /\ (selector < 4)%nat /\ nth_error d selector = Some a /\
  CanRepresent a v = true.
Proof.
  unfold ChooseEncoding. destruct (is_u32 v) eqn:Hu; [|discriminate].
  intros E. apply Cheaper_fold_in in E as [E|E]; [discriminate|].
  unfold Candidates in E. apply filter_In in E as [Hin Hrep].
  apply combine_seq_nth in Hin as [Hr Hn].
  rewrite Nat.sub_0_r in Hn. simpl in Hrep. auto with zarith.
Qed.

Lemma selector_bits (selector : nat) (rest : Bits) :
  (selector < 4)%nat ->
  exists b0 b1,
    bits_of_Z 2 (Z.of_nat selector) ++ rest = b0 :: b1 :: rest /\
    Z.to_nat (Z_of_bits [b0; b1]) = selector.
Proof.
  intros Hs.
  destruct selector as [|[|[|[|?]]]]; try lia;
    do 2 eexists; (split; [reflexivity|reflexivity]).
Qed.

(** Reading what was written gives the value back and leaves what
    follows. *)
Lemma Read_Write (d : Distribution) (v : Z) (bits rest : Bits) :
  Write d v = Some bits ->
  Read d (bits ++ rest) = (StatusOk, v, rest).
Proof.
  unfold Write. destruct (ChooseEncoding d v) as [[selector a]|] eqn:E;
    [|discriminate].
  apply ChooseEncoding_sound in E as (Hu & Hs & Hn & Hrep).
  unfold is_u32 in Hu. apply andb_true_iff in Hu as [Hu1 Hu2].
  destruct a as [value|bit_width offset]; intros Hb;
    match type of Hb with Some ?x = Some _ =>
      assert (Hbits : bits = x) by congruence; subst bits; clear Hb
    end.
  - destruct (selector_bits selector rest Hs) as (b0 & b1 & -> & Hsel).
    unfold Read. rewrite Hsel, Hn.
    simpl in Hrep. apply Z.eqb_eq in Hrep. subst value.
    rewrite Z.mod_small by lia. reflexivity.
  - rewrite <- app_assoc.
    destruct (selector_bits selector (bits_of_Z bit_width (v - offset) ++ rest) Hs)
      as (b0 & b1 & -> & Hsel).
    unfold Read. rewrite Hsel, Hn.
    simpl in Hrep. apply andb_true_iff in Hrep as [Hr1 Hr2].
    replace (length (bits_of_Z bit_width (v - offset) ++ rest) <? bit_width)%nat
      with false
      by (symmetry; apply Nat.ltb_ge; rewrite length_app, length_bits_of_Z; lia).
    rewrite firstn_app_exact by apply length_bits_of_Z.
    rewrite skipn_app_exact by apply length_bits_of_Z.
    rewrite Z_of_bits_of_Z by lia.
    replace (offset + (v - offset)) with v by lia.
    rewrite Z.mod_small by lia. reflexivity.
Qed.

(** The oracle counts exactly the bits the writer writes, and fails
    exactly when the writer does. *)
Lemma CanEncode_Write (d : Distribution) (v : Z) :
  match CanEncode d v, Write d v with
  | Some n, Some bits => n = Z.of_nat (length bits)
  | None, None => True
  | _, _ => False
  end.
Proof.
  unfold CanEncode, Write.
  destruct (ChooseEncoding d v) as [[selector [value|bit_width offset]]|];
    [| |exact I].
  - rewrite length_bits_of_Z. reflexivity.
  - rewrite length_app, !length_bits_of_Z. simpl ValueBits. lia.
Qed.

End U32CoderFacts.

(** ** Running field lists *)

Section VisitFacts.

Context `{Externals}.

Lemma Visit_bind {V : Type} `{Visitor V} {A B : Type} (m : Fields A)
    (f : A -> Fields B) :
  forall v : V,
    Visit (bind m f) v = Visit (f (fst (Visit m v))) (snd (Visit m v)).
Proof.
  induction m as [a|X op k IH]; intros v; simpl.
  - reflexivity.
  - destruct (visit op v) as [x v']. apply IH.
Qed.

Lemma Visit_call {V : Type} `{Visitor V} {X : Type} (op : VisitorOp X) (v : V) :
  Visit (call op) v = visit op v.
Proof. unfold call. simpl. destruct (visit op v). reflexivity. Qed.

Lemma Trace_bind {V : Type} `{Visitor V} {A B : Type} (m : Fields A)
    (f : A -> Fields B) :
  forall v : V,
    Trace (bind m f) v =
    Trace m v ++ Trace (f (fst (Visit m v))) (snd (Visit m v)).
Proof.
  induction m as [a|X op k IH]; intros v; simpl.
  - reflexivity.
  - destruct (visit op v) as [x v']. simpl. rewrite IH. reflexivity.
Qed.

(** *** The writer only appends, and a failure stays *)

Lemma w_U32_effect (distribution field : Z) (w : WriteVisitor) :
  w_depth (w_U32 distribution field w) = w_depth w /\
  w_extension_bits (w_U32 distribution field w) = w_extension_bits w /\
  (exists bits, storage (w_U32 distribution field w) = storage w ++ bits) /\
  (w_ok (w_U32 distribution field w) = StatusOk -> w_ok w = StatusOk).
Proof.
  unfold w_U32. destruct (U32Coder.Write _ _) as [bits|]; simpl.
  - repeat split; eauto.
  - repeat split; [exists []; rewrite app_nil_r; reflexivity|].
    destruct (w_ok w); [reflexivity|discriminate].
Qed.

Lemma WriteVisitor_visit_effect {X : Type} (op : VisitorOp X) (w : WriteVisitor) :
  w_extension_bits (snd (visit op w)) = w_extension_bits w /\
  (exists bits, storage (snd (visit op w)) = storage w ++ bits) /\
  (w_ok (snd (visit op w)) = StatusOk -> w_ok w = StatusOk).
Proof.
  assert (Hnil : exists bits : Bits, storage w = storage w ++ bits)
    by (exists []; rewrite app_nil_r; reflexivity).
  assert (Hfail : forall m, w_ok (w_fail m w) = StatusOk -> w_ok w = StatusOk)
    by (intros m; simpl; destruct (w_ok w); [reflexivity|discriminate]).
  destruct op; cbn [visit WriteVisitor_Visitor WriteVisitor_visit snd];
    try (repeat split; simpl; eauto; fail);
    try (pose proof (w_U32_effect distribution field w); tauto).
  - destruct (valid field).
    + pose proof (w_U32_effect distribution field w); tauto.
    + repeat split; simpl; eauto. apply (Hfail "UnrepresentableFieldValue").
  - match goal with
    | |- context [w_U32 ?d ?f w] => pose proof (w_U32_effect d f w); tauto
    end.
Qed.

Lemma WriteVisitor_effect {A : Type} (p : Fields A) :
  forall w : WriteVisitor,
    w_extension_bits (snd (Visit p w)) = w_extension_bits w /\
    (exists bits, storage (snd (Visit p w)) = storage w ++ bits) /\
    (w_ok (snd (Visit p w)) = StatusOk -> w_ok w = StatusOk).
Proof.
  induction p as [a|X op k IH]; intros w; simpl.
  - repeat split; [exists []; rewrite app_nil_r; reflexivity|auto].
  - pose proof (WriteVisitor_visit_effect op w) as (He & [b1 Hb1] & Hok).
    destruct (visit op w) as [x w']. simpl in He, Hb1, Hok.
    destruct (IH x w') as (He' & [b2 Hb2] & Hok').
    repeat split.
    + congruence.
    + exists (b1 ++ b2). rewrite Hb2, Hb1, app_assoc. reflexivity.
    + auto.
Qed.

End VisitFacts.

(** ** Reading back what was written *)

Section RoundTripRules.

Context `{Externals}.

(** The bits a field list adds to the writer's storage. *)
Definition written {A : Type} (p : Fields A) (w : WriteVisitor) : Bits :=
  skipn (length (storage w)) (storage (snd (Visit p w))).

Lemma written_eq {A : Type} (p : Fields A) (w : WriteVisitor) (bits : Bits) :
  storage (snd (Visit p w)) = storage w ++ bits -> written p w = bits.
Proof. intros E. unfold written. rewrite E. apply skipn_app_exact. reflexivity. Qed.

Lemma storage_written {A : Type} (p : Fields A) (w : WriteVisitor) :
  storage (snd (Visit p w)) = storage w ++ written p w.
Proof.
  destruct (WriteVisitor_effect p w) as (_ & [bits Hb] & _).
  rewrite (written_eq p w bits Hb). exact Hb.
Qed.

Lemma written_bind {A B : Type} (p : Fields A) (k : A -> Fields B)
    (w : WriteVisitor) :
  written (bind p k) w =
  written p w ++ written (k (fst (Visit p w))) (snd (Visit p w)).
Proof.
  apply written_eq. rewrite Visit_bind.
  rewrite storage_written, storage_written, app_assoc. reflexivity.
Qed.

(** The extension bit count a header at this depth carries. *)
Definition ext_count (depth : nat) (ext : Z) : Z :=
  match depth with O => ext | S _ => 0 end.

(** [RoundTrip depth ext payload R pw pr]: when the writer, at nesting
    [depth] and with [ext] extension bits, runs [pw] without failing, then
    the reader running [pr] over the bits written, followed by [payload]
    and anything else, consumes exactly those bits and the payload, does
    not fail, and its result is related to the writer's by [R]. *)
Definition RoundTrip {A B : Type} (depth : nat) (ext : Z) (payload : Bits)
    (R : A -> B -> Prop) (pw : Fields A) (pr : Fields B) : Prop :=
  forall (w : WriteVisitor) (r : ReadVisitor) (rest : Bits),
    w_depth w = depth -> w_extension_bits w = ext ->
    w_ok (snd (Visit pw w)) = StatusOk ->
    reader r = written pw w ++ payload ++ rest ->
    w_depth (snd (Visit pw w)) = depth /\
    snd (Visit pr r) = r_set_reader rest r /\
    R (fst (Visit pw w)) (fst (Visit pr r)).

Lemma r_set_reader_same (r : ReadVisitor) : r_set_reader (reader r) r = r.
Proof. destruct r. reflexivity. Qed.

Lemma r_set_reader_twice (a b : Bits) (r : ReadVisitor) :
  r_set_reader a (r_set_reader b r) = r_set_reader a r.
Proof. reflexivity. Qed.

Lemma RoundTrip_Return {A B : Type} (depth : nat) (ext : Z)
    (R : A -> B -> Prop) (a : A) (b : B) :
  R a b -> RoundTrip depth ext [] R (Return a) (Return b).
Proof.
  intros HR w r rest Hd He Hok Hr. cbn [Visit fst snd].
  rewrite (written_eq (Return a) w []) in Hr
    by (simpl; rewrite app_nil_r; reflexivity).
  simpl in Hr. rewrite <- Hr, r_set_reader_same. auto.
Qed.

Lemma RoundTrip_Return_eq {A B : Type} (depth : nat) (ext : Z) (a : A) (b : B) :
  RoundTrip depth ext [] (fun x y => x = a /\ y = b) (Return a) (Return b).
Proof. apply RoundTrip_Return. auto. Qed.

Lemma RoundTrip_bind {A B A' B' : Type} (depth : nat) (ext : Z) (payload : Bits)
    (R : A -> B -> Prop) (S : A' -> B' -> Prop)
    (pw : Fields A) (pr : Fields B) (kw : A -> Fields A') (kr : B -> Fields B') :
  RoundTrip depth ext [] R pw pr ->
  (forall a b, R a b -> RoundTrip depth ext payload S (kw a) (kr b)) ->
  RoundTrip depth ext payload S (bind pw kw) (bind pr kr).
Proof.
  intros H1 H2 w r rest Hd He Hok Hr.
  rewrite Visit_bind in Hok |- *. rewrite written_bind in Hr.
  rewrite <- app_assoc in Hr.
  assert (Hok1 : w_ok (snd (Visit pw w)) = StatusOk)
    by (apply (WriteVisitor_effect (kw (fst (Visit pw w)))); exact Hok).
  destruct (H1 w r _ Hd He Hok1 Hr) as (Hd1 & Hr1 & HR).
  assert (He1 : w_extension_bits (snd (Visit pw w)) = ext)
    by (rewrite <- He; apply WriteVisitor_effect).
  rewrite (Visit_bind pr kr r).
  specialize (H2 _ _ HR (snd (Visit pw w)) (snd (Visit pr r)) rest Hd1 He1 Hok).
  rewrite Hr1 in H2 |- *.
  destruct (H2 eq_refl) as (Hd2 & Hr2 & HS).
  auto.
Qed.

Lemma RoundTrip_consequence {A B : Type} (depth : nat) (ext : Z) (payload : Bits)
    (R S : A -> B -> Prop) (pw : Fields A) (pr : Fields B) :
  RoundTrip depth ext payload R pw pr ->
  (forall a b, R a b -> S a b) ->
  RoundTrip depth ext payload S pw pr.
Proof.
  intros H1 HRS w r rest Hd He Hok Hr.
  destruct (H1 w r rest Hd He Hok Hr) as (? & ? & ?). auto.
Qed.

(** One operation: what the writer appends and what the reader makes of
    it. *)
Lemma RoundTrip_op {X Y : Type} (depth : nat) (ext : Z) (payload : Bits)
    (R : X -> Y -> Prop) (opw : VisitorOp X) (opr : VisitorOp Y) :
  (forall (w : WriteVisitor) (r : ReadVisitor) (rest : Bits),
     w_depth w = depth -> w_extension_bits w = ext ->
     w_ok (snd (visit opw w)) = StatusOk ->
     exists bits,
       storage (snd (visit opw w)) = storage w ++ bits /\
       w_depth (snd (visit opw w)) = depth /\
       (reader r = bits ++ payload ++ rest ->
        snd (visit opr r) = r_set_reader rest r /\
        R (fst (visit opw w)) (fst (visit opr r)))) ->
  RoundTrip depth ext payload R (call opw) (call opr).
Proof.
  intros Hop w r rest Hd He Hok Hr.
  rewrite Visit_call in Hok |- *. rewrite Visit_call.
  destruct (Hop w r rest Hd He Hok) as (bits & Hs & Hd' & Hrd).
  rewrite (written_eq (call opw) w bits) in Hr
    by (rewrite Visit_call; exact Hs).
  destruct (Hrd Hr). auto.
Qed.

Lemma w_U32_ok (distribution field : Z) (w : WriteVisitor) :
  w_ok (w_U32 distribution field w) = StatusOk ->
  exists bits,
    U32Coder.Write (Distribution_of distribution) field = Some bits /\
    w_U32 distribution field w = w_append bits w.
Proof.
  unfold w_U32. destruct (U32Coder.Write _ _) as [bits|]; [eauto|].
  simpl. destruct (w_ok w); discriminate.
Qed.

Lemma r_U32_read (distribution field : Z) (bits rest : Bits) (r : ReadVisitor) :
  U32Coder.Write (Distribution_of distribution) field = Some bits ->
  reader r = bits ++ rest ->
  r_U32 distribution r = (field, r_set_reader rest r).
Proof.
  intros Hw Hr. unfold r_U32. rewrite Hr.
  rewrite (U32CoderFacts.Read_Write _ _ _ _ Hw).
  destruct r as [rd [|m] ex]; reflexivity.
Qed.

Lemma r_ReadBits_read (bits rest : Bits) (r : ReadVisitor) :
  reader r = bits ++ rest ->
  r_ReadBits (length bits) r = (bits, r_set_reader rest r).
Proof.
  intros Hr. unfold r_ReadBits. rewrite Hr.
  replace (length (bits ++ rest) <? length bits)%nat with false
    by (symmetry; apply Nat.ltb_ge; rewrite length_app; lia).
  rewrite firstn_app_exact, skipn_app_exact by reflexivity.
  reflexivity.
Qed.

Lemma RoundTrip_Bool (depth : nat) (ext : Z) (default default' field field' : bool) :
  RoundTrip depth ext [] (fun a b => a = field /\ b = field)
    (Bool default field) (Bool default' field').
Proof.
  apply RoundTrip_op. intros w r rest Hd He Hok.
  exists [field]. cbn [visit WriteVisitor_Visitor WriteVisitor_visit
                      ReadVisitor_Visitor ReadVisitor_visit fst snd].
  split; [reflexivity|]. split; [exact Hd|]. intros Hr.
  pose proof (r_ReadBits_read [field] rest r Hr) as E. cbn [length] in E.
  rewrite E. auto.
Qed.

Lemma RoundTrip_U32 (depth : nat) (ext : Z)
    (distribution default default' field field' : Z) :
  RoundTrip depth ext [] (fun a b => a = field /\ b = field)
    (U32 distribution default field) (U32 distribution default' field').
Proof.
  apply RoundTrip_op. intros w r rest Hd He Hok.
  cbn [visit WriteVisitor_Visitor WriteVisitor_visit
       ReadVisitor_Visitor ReadVisitor_visit fst snd] in *.
  apply w_U32_ok in Hok as (bits & Hw & ->).
  exists bits. split; [reflexivity|]. split; [exact Hd|]. intros Hr.
  cbn [app] in Hr. rewrite (r_U32_read _ _ _ _ _ Hw Hr). auto.
Qed.

Lemma RoundTrip_Enum (depth : nat) (ext : Z) (valid : Z -> bool)
    (distribution default default' field field' : Z) :
  RoundTrip depth ext [] (fun a b => a = field /\ b = field)
    (Enum distribution valid default field)
    (Enum distribution valid default' field').
Proof.
  apply RoundTrip_op. intros w r rest Hd He Hok.
  cbn [visit WriteVisitor_Visitor WriteVisitor_visit
       ReadVisitor_Visitor ReadVisitor_visit fst snd] in *.
  destruct (valid field) eqn:Hv.
  - apply w_U32_ok in Hok as (bits & Hw & ->).
    exists bits. split; [reflexivity|]. split; [exact Hd|]. intros Hr.
    cbn [app] in Hr. rewrite (r_U32_read _ _ _ _ _ Hw Hr), Hv. auto.
  - simpl in Hok. destruct (w_ok w); discriminate.
Qed.

Lemma RoundTrip_U64 (depth : nat) (ext : Z) (default default' field field' : Z) :
  is_u64 field = true ->
  RoundTrip depth ext [] (fun a b => a = field /\ b = field)
    (U64 default field) (U64 default' field').
Proof.
  intros Hu. apply RoundTrip_op. intros w r rest Hd He Hok.
  cbn [visit WriteVisitor_Visitor WriteVisitor_visit
       ReadVisitor_Visitor ReadVisitor_visit fst snd] in *.
  exists (U64_Write field). split; [reflexivity|]. split; [exact Hd|].
  intros Hr. cbn [app] in Hr.
  unfold r_U64. rewrite Hr, U64_Read_Write by exact Hu. auto.
Qed.

Lemma length_bits_of_bytes (bytes : PaddedBytes) :
  length (bits_of_bytes bytes) = (8 * length bytes)%nat.
Proof.
  induction bytes as [|b bytes IH]; [reflexivity|].
  cbn [bits_of_bytes]. rewrite length_app, length_bits_of_Z, IH. simpl. lia.
Qed.

Lemma bytes_of_bits_of_bytes (bytes : PaddedBytes) :
  bytes_of_bits (length bytes) (bits_of_bytes bytes) = bytes.
Proof.
  induction bytes as [|b bytes IH]; [reflexivity|].
  cbn [length bytes_of_bits bits_of_bytes].
  rewrite firstn_app_exact, skipn_app_exact by apply length_bits_of_Z.
  rewrite IH, Z_of_bits_of_Z by (pose proof (u8_range b); simpl; lia).
  rewrite to_u8_u8. reflexivity.
Qed.

Lemma RoundTrip_Bytes (depth : nat) (ext : Z) (encoding encoding' : BytesEncoding)
    (field field' : PaddedBytes) :
  Z.of_nat (length field) < 2 ^ 64 ->
  RoundTrip depth ext [] (fun a b => a = field /\ b = field)
    (Bytes encoding field) (Bytes encoding' field').
Proof.
  intros Hlen. apply RoundTrip_op. intros w r rest Hd He Hok.
  cbn [visit WriteVisitor_Visitor WriteVisitor_visit
       ReadVisitor_Visitor ReadVisitor_visit fst snd] in *.
  exists (U64_Write (Z.of_nat (length field)) ++ bits_of_bytes field).
  assert (Hu : is_u64 (Z.of_nat (length field)) = true)
    by (unfold is_u64; apply andb_true_iff; split; lia).
  split; [reflexivity|]. split; [exact Hd|]. intros Hr.
  cbn [app] in Hr. rewrite <- app_assoc in Hr.
  unfold r_U64. rewrite Hr, U64_Read_Write by exact Hu.
  rewrite Nat2Z.id.
  pose proof (r_ReadBits_read (bits_of_bytes field) rest
                (r_set_reader (bits_of_bytes field ++ rest) r) eq_refl) as E.
  rewrite length_bits_of_bytes in E. rewrite E.
  rewrite bytes_of_bits_of_bytes. auto.
Qed.

Lemma RoundTrip_Conditional (depth : nat) (ext : Z) (condition : bool) :
  RoundTrip depth ext [] (fun a b => a = condition /\ b = condition)
    (Conditional condition) (Conditional condition).
Proof.
  apply RoundTrip_op. intros w r rest Hd He Hok.
  exists []. cbn [visit WriteVisitor_Visitor WriteVisitor_visit
                  ReadVisitor_Visitor ReadVisitor_visit fst snd].
  split; [rewrite app_nil_r; reflexivity|]. split; [exact Hd|]. intros Hr.
  cbn [app] in Hr. rewrite <- Hr, r_set_reader_same. auto.
Qed.

Lemma RoundTrip_AllDefault {Tw Tr : Type} (depth : nat) (ext : Z)
    (all_default all_default' : bool) (dw fw : Tw) (dr fr : Tr) :
  RoundTrip depth ext []
    (fun a b => a = (all_default, fw) /\
                b = (all_default, if all_default then dr else fr))
    (AllDefault all_default dw fw) (AllDefault all_default' dr fr).
Proof.
  apply RoundTrip_op. intros w r rest Hd He Hok.
  exists [all_default]. cbn [visit WriteVisitor_Visitor WriteVisitor_visit
                            ReadVisitor_Visitor ReadVisitor_visit fst snd].
  split; [reflexivity|]. split; [exact Hd|]. intros Hr.
  pose proof (r_ReadBits_read [all_default] rest r Hr) as E. cbn [length] in E.
  rewrite E. destruct all_default; auto.
Qed.

Lemma RoundTrip_SetSizeWhenReading (depth : nat) (ext : Z) (n n' : nat)
    (field field' : list Z) :
  RoundTrip depth ext [] (fun a b => a = field /\ b = resize n' field')
    (SetSizeWhenReading n field) (SetSizeWhenReading n' field').
Proof.
  apply RoundTrip_op. intros w r rest Hd He Hok.
  exists []. cbn [visit WriteVisitor_Visitor WriteVisitor_visit
                  ReadVisitor_Visitor ReadVisitor_visit fst snd].
  split; [rewrite app_nil_r; reflexivity|]. split; [exact Hd|]. intros Hr.
  cbn [app] in Hr. rewrite <- Hr, r_set_reader_same. auto.
Qed.

Lemma Visit_VisitNested {V : Type} `{Visitor V} {T : Type}
    (VisitFields : T -> Fields (Status * T)) (child : T) (v : V) :
  Visit (VisitNested VisitFields child) v =
  (fst (Visit (VisitFields child) (snd (visit OpBeginNested v))),
   snd (visit OpEndNested
          (snd (Visit (VisitFields child) (snd (visit OpBeginNested v)))))).
Proof.
  unfold VisitNested. cbn [Visit].
  destruct (visit OpBeginNested v) as [[] v1]. rewrite Visit_bind.
  cbn [Visit snd fst].
  destruct (visit OpEndNested _) as [[] v2]. reflexivity.
Qed.

Lemma RoundTrip_VisitNested {Tw Tr : Type} (depth : nat) (ext : Z)
    (R : Status * Tw -> Status * Tr -> Prop)
    (vw : Tw -> Fields (Status * Tw)) (vr : Tr -> Fields (Status * Tr))
    (cw : Tw) (cr : Tr) :
  RoundTrip (S depth) ext [] R (vw cw) (vr cr) ->
  RoundTrip depth ext [] R (VisitNested vw cw) (VisitNested vr cr).
Proof.
  intros Hn w r rest Hd He Hok Hr.
  rewrite !Visit_VisitNested in *.
  cbn [visit WriteVisitor_Visitor WriteVisitor_visit
       ReadVisitor_Visitor ReadVisitor_visit fst snd] in *.
  assert (Hw : written (VisitNested vw cw) w =
               written (vw cw) (w_set_depth (S (w_depth w)) w)).
  { apply written_eq. rewrite Visit_VisitNested.
    cbn [visit WriteVisitor_Visitor WriteVisitor_visit fst snd w_set_depth storage].
    apply (storage_written (vw cw) (w_set_depth (S (w_depth w)) w)). }
  rewrite Hw in Hr.
  destruct (Hn (w_set_depth (S (w_depth w)) w) r rest) as (Hd' & Hr' & HR);
    try assumption.
  - simpl. rewrite Hd. reflexivity.
  - cbn [w_set_depth w_depth]. rewrite Hd'. simpl. auto.
Qed.

Lemma RoundTrip_VisitExtensions {Tw Tr : Type} (depth : nat) (ext : Z)
    (payload : Bits) (getw : Tw -> Z) (setw : Z -> Tw -> Tw) (hw : Tw)
    (getr : Tr -> Z) (setr : Z -> Tr -> Tr) (hr : Tr) :
  Z.of_nat (length payload) = ext_count depth ext ->
  RoundTrip depth ext payload
    (fun a b => a = (StatusOk, setw (getw hw) hw) /\
                b = (StatusOk, setr (ext_count depth ext) hr))
    (VisitExtensions getw setw hw) (VisitExtensions getr setr hr).
Proof.
  intros Hp w r rest Hd He Hok Hr.
  assert (Hcount : match w_depth w with O => w_extension_bits w | S _ => 0 end
                   = ext_count depth ext)
    by (rewrite Hd, He; reflexivity).
  assert (Hvw : Visit (VisitExtensions getw setw hw) w =
                ((StatusOk, setw (getw hw) hw),
                 w_U32 kExtensionBitsDistribution (ext_count depth ext) w)).
  { unfold VisitExtensions, BeginExtensions, EndExtensions, call.
    cbn [bind Visit visit WriteVisitor_Visitor WriteVisitor_visit].
    rewrite Hcount. reflexivity. }
  rewrite Hvw in Hok |- *. cbn [fst snd] in Hok |- *.
  apply w_U32_ok in Hok as (bits & Hwr & Hap).
  rewrite (written_eq _ w bits) in Hr by (rewrite Hvw, Hap; reflexivity).
  rewrite Hap. cbn [w_append w_depth]. split; [exact Hd|].
  pose proof (r_U32_read _ _ _ (payload ++ rest) r Hwr Hr) as Hrd.
  unfold VisitExtensions, BeginExtensions, EndExtensions, call.
  cbn [bind Visit visit ReadVisitor_Visitor ReadVisitor_visit].
  rewrite Hrd. unfold r_EndExtensions.
  cbn [r_extensions r_set_extensions r_set_reader reader].
  rewrite Nat.sub_diag. change (Z.of_nat 0) with 0.
  replace (ext_count depth ext <? 0) with false
    by (symmetry; apply Z.ltb_ge; lia).
  rewrite Z.sub_0_r, <- Hp, Nat2Z.id.
  replace (length (payload ++ rest) <? length payload)%nat with false
    by (symmetry; apply Nat.ltb_ge; rewrite length_app; lia).
  rewrite skipn_app_exact by reflexivity.
  cbn [fst snd]. destruct r; auto.
Qed.

Lemma Visit_bind_assoc {V : Type} `{Visitor V} {A B C : Type} (m : Fields A)
    (f : A -> Fields B) (g : B -> Fields C) (v : V) :
  Visit (bind (bind m f) g) v = Visit (bind m (fun x => bind (f x) g)) v.
Proof. rewrite !Visit_bind. reflexivity. Qed.

Lemma RoundTrip_assoc {A B A' B' A'' B'' : Type} (depth : nat) (ext : Z)
    (payload : Bits) (R : A'' -> B'' -> Prop)
    (mw : Fields A) (fw : A -> Fields A') (gw : A' -> Fields A'')
    (mr : Fields B) (fr : B -> Fields B') (gr : B' -> Fields B'') :
  RoundTrip depth ext payload R
    (bind mw (fun x => bind (fw x) gw)) (bind mr (fun x => bind (fr x) gr)) ->
  RoundTrip depth ext payload R (bind (bind mw fw) gw) (bind (bind mr fr) gr).
Proof.
  intros Hrt w r rest Hd He Hok Hr.
  unfold written in Hr. rewrite Visit_bind_assoc in Hok, Hr |- *.
  rewrite (Visit_bind_assoc mr fr gr r).
  apply Hrt; assumption.
Qed.

Lemma RoundTrip_bind_Return {A B A' B' : Type} (depth : nat) (ext : Z)
    (payload : Bits) (R : A' -> B' -> Prop) (a : A) (b : B)
    (kw : A -> Fields A') (kr : B -> Fields B') :
  RoundTrip depth ext payload R (kw a) (kr b) ->
  RoundTrip depth ext payload R (bind (Return a) kw) (bind (Return b) kr).
Proof. intros Hrt. exact Hrt. Qed.

End RoundTripRules.

(** ** Canonical headers and their round trips *)

Lemma set_nth_same {A : Type} (l : list A) :
  forall i d, (i < length l)%nat -> set_nth i (nth i l d) l = l.
Proof.
  induction l as [|x l IH]; intros i d Hi; simpl in Hi; [lia|].
  destruct i as [|i]; simpl; [reflexivity|].
  rewrite IH by lia. reflexivity.
Qed.

Lemma set_nth_splice {A : Type} (lw : list A) :
  forall (lr : list A) i x,
    length lw = length lr -> (i < length lw)%nat ->
    set_nth i (nth i lw x) (firstn i lw ++ skipn i lr) =
    firstn (S i) lw ++ skipn (S i) lr.
Proof.
  induction lw as [|a lw IH]; intros lr i x Hl Hi; simpl in Hi; [lia|].
  destruct lr as [|b lr]; [discriminate|].
  destruct i as [|i].
  - reflexivity.
  - cbn [firstn skipn nth app set_nth]. f_equal.
    apply IH; simpl in Hl; lia.
Qed.

Lemma nth_splice {A : Type} (lw : list A) :
  forall (lr : list A) i d,
    length lw = length lr -> (i < length lw)%nat ->
    nth i (firstn i lw ++ skipn i lr) d = nth i lr d.
Proof.
  induction lw as [|a lw IH]; intros lr i d Hl Hi; simpl in Hi; [lia|].
  destruct lr as [|b lr]; [discriminate|].
  destruct i as [|i]; [reflexivity|].
  cbn [firstn skipn nth app]. apply IH; simpl in Hl; lia.
Qed.

Lemma list_eqb_Z_eq (a b : list Z) : list_eqb Z.eqb a b = true -> a = b.
Proof.
  revert b. induction a as [|x a IH]; intros [|y b]; simpl; try discriminate;
    [reflexivity|].
  intros E. apply andb_true_iff in E as [E1 E2].
  apply Z.eqb_eq in E1. apply IH in E2. congruence.
Qed.

(** One step of a lock-step walk through two field lists. *)
Ltac rt_with L :=
  eapply RoundTrip_bind; [apply L|]; intros ? ? [-> ->]; cbv zeta.

Ltac rt_step :=
  lazymatch goal with
  | |- RoundTrip _ _ _ _ (bind (Bool _ _) _) _ => rt_with RoundTrip_Bool
  | |- RoundTrip _ _ _ _ (bind (U32 _ _ _) _) _ => rt_with RoundTrip_U32
  | |- RoundTrip _ _ _ _ (bind (Enum _ _ _ _) _) _ => rt_with RoundTrip_Enum
  | |- RoundTrip _ _ _ _ (bind (Conditional _) _) _ =>
      rt_with RoundTrip_Conditional
  | |- RoundTrip _ _ _ _ (bind (AllDefault _ _ _) _) _ =>
      rt_with RoundTrip_AllDefault
  | |- RoundTrip _ _ _ _ (bind (SetSizeWhenReading _ _) _) _ =>
      rt_with RoundTrip_SetSizeWhenReading
  | |- RoundTrip _ _ _ _ (bind (Return _) _) _ =>
      rt_with RoundTrip_Return_eq
  end.

Section HeaderRoundTrips.

Context `{Externals}.

(** *** ProjectiveTransformParams *)

Definition PTP_Canonical (p : ProjectiveTransformParams.t) : Prop :=
  length (ProjectiveTransformParams.corner_coords p) =
  kNumProjectiveTransformParams.

Lemma PTP_loop_RoundTrip (depth : nat) (ext : Z) (n : nat) :
  forall i lw lr,
    length lw = length lr -> (i + n <= length lw)%nat ->
    RoundTrip depth ext []
      (fun a b =>
         a = {| ProjectiveTransformParams.corner_coords := lw |} /\
         b = {| ProjectiveTransformParams.corner_coords :=
                  firstn (i + n) lw ++ skipn (i + n) lr |})
      (ProjectiveTransformParams.VisitFields_loop n i
         {| ProjectiveTransformParams.corner_coords := lw |})
      (ProjectiveTransformParams.VisitFields_loop n i
         {| ProjectiveTransformParams.corner_coords :=
              firstn i lw ++ skipn i lr |}).
Proof.
  induction n as [|n IH]; intros i lw lr Hl Hi.
  - cbn [ProjectiveTransformParams.VisitFields_loop].
    rewrite Nat.add_0_r. apply RoundTrip_Return. auto.
  - cbn [ProjectiveTransformParams.VisitFields_loop].
    eapply RoundTrip_bind; [apply RoundTrip_U32|].
    intros a b [-> ->].
    cbn [ProjectiveTransformParams.corner_coords].
    rewrite set_nth_same, set_nth_splice by lia.
    replace (i + S n)%nat with (S i + n)%nat by lia.
    apply IH; lia.
Qed.

Lemma PTP_RoundTrip (depth : nat) (ext : Z) (p : ProjectiveTransformParams.t) :
  PTP_Canonical p ->
  RoundTrip depth ext [] (fun a b => a = (StatusOk, p) /\ b = (StatusOk, p))
    (ProjectiveTransformParams.VisitFields p)
    (ProjectiveTransformParams.VisitFields ProjectiveTransformParams.Default).
Proof.
  intros Hc. destruct p as [lw]. unfold PTP_Canonical in Hc. simpl in Hc.
  unfold ProjectiveTransformParams.VisitFields.
  eapply RoundTrip_bind.
  - apply (PTP_loop_RoundTrip depth ext kNumProjectiveTransformParams 0 lw
             (repeat 1 kNumProjectiveTransformParams)).
    + rewrite repeat_length. exact Hc.
    + rewrite Hc. simpl. lia.
  - intros a b [-> ->]. apply RoundTrip_Return.
    replace (0 + kNumProjectiveTransformParams)%nat with (length lw)
      by (rewrite Hc; reflexivity).
    rewrite firstn_all, skipn_all2, app_nil_r
      by (rewrite repeat_length, Hc; reflexivity).
    auto.
Qed.

(** *** TileHeader *)

(** A tile header as an encoder leaves it: the flag says whether the
    fields are all default, a transform that is absent holds its defaults,
    and no extension is declared. *)
Definition TileHeader_Canonical (h : TileHeader.t) : Prop :=
  TileHeader.all_default h = TileHeader.AllDefaultFields h /\
  (TileHeader.have_projective_transform h = false ->
   TileHeader.projective_transform_params h = ProjectiveTransformParams.Default) /\
  PTP_Canonical (TileHeader.projective_transform_params h) /\
  TileHeader.extensions h = 0.

Lemma TileHeader_AllDefault_Default (h : TileHeader.t) :
  TileHeader_Canonical h -> TileHeader.AllDefaultFields h = true ->
  h = TileHeader.Default.
Proof.
  intros (Hf & Hpt & _ & He) Had. rewrite Had in Hf.
  unfold TileHeader.AllDefaultFields in Had.
  apply andb_true_iff in Had as [Had _].
  apply andb_true_iff in Had as [Hb _].
  apply negb_true_iff in Hb.
  destruct h as [ad hpt ptp e]. simpl in *. subst.
  rewrite (Hpt eq_refl). reflexivity.
Qed.

(** The header a reader holds after a successful read of what was written
    for [h] with [count] extension bits. *)
Definition TileHeader_read (count : Z) (h : TileHeader.t) : TileHeader.t :=
  if TileHeader.AllDefaultFields h then h else TileHeader.set_extensions count h.

Lemma TileHeader_RoundTrip (depth : nat) (ext : Z) (payload : Bits)
    (h : TileHeader.t) :
  TileHeader_Canonical h ->
  (if TileHeader.AllDefaultFields h then payload = []
   else Z.of_nat (length payload) = ext_count depth ext) ->
  RoundTrip depth ext payload
    (fun a b => a = (StatusOk, h) /\
                b = (StatusOk, TileHeader_read (ext_count depth ext) h))
    (TileHeader.VisitFields h) (TileHeader.VisitFields TileHeader.Default).
Proof.
  intros Hc Hp. pose proof Hc as (Hf & Hpt & Hptp & He).
  unfold TileHeader.VisitFields, TileHeader_read.
  eapply RoundTrip_bind; [apply RoundTrip_AllDefault|].
  intros a b [-> ->]. cbv zeta.
  destruct (TileHeader.AllDefaultFields h) eqn:Had.
  - subst payload. apply RoundTrip_Return.
    rewrite (TileHeader_AllDefault_Default h Hc Had). auto.
  - eapply RoundTrip_bind; [apply RoundTrip_Bool|].
    intros a b [-> ->]. cbv zeta.
    cbn [TileHeader.have_projective_transform
         TileHeader.set_have_projective_transform TileHeader.set_all_default].
    eapply RoundTrip_bind; [apply RoundTrip_Conditional|].
    intros a b [-> ->].
    destruct h as [ad hpt ptp e]. simpl in Hf, Hpt, Hptp, He. subst ad e.
    destruct hpt.
    + eapply RoundTrip_bind.
      * eapply RoundTrip_bind;
          [apply RoundTrip_VisitNested; apply PTP_RoundTrip; exact Hptp|].
        intros a b [-> ->]. apply RoundTrip_Return_eq.
      * intros a b [-> ->]. cbn [IsOk negb].
        eapply RoundTrip_consequence;
          [apply RoundTrip_VisitExtensions; exact Hp|].
        intros a b [-> ->]. auto.
    + eapply RoundTrip_bind; [apply RoundTrip_Return_eq|].
      intros a b [-> ->]. cbn [IsOk negb].
      eapply RoundTrip_consequence;
        [apply RoundTrip_VisitExtensions; exact Hp|].
      intros a b [-> ->]. rewrite (Hpt eq_refl). auto.
Qed.

Lemma TileHeader_read_nested (h : TileHeader.t) :
  TileHeader_Canonical h -> TileHeader_read 0 h = h.
Proof.
  intros (_ & _ & _ & He). unfold TileHeader_read.
  destruct (TileHeader.AllDefaultFields h); [reflexivity|].
  destruct h. simpl in *. subst. reflexivity.
Qed.

(** A nested header: read back as it was written, at any depth below the
    header that holds it. *)
Definition NestedRoundTrip {T : Type} (VisitFields : T -> Fields (Status * T))
    (blank value : T) : Prop :=
  forall depth ext,
    RoundTrip (S depth) ext []
      (fun a b => a = (StatusOk, value) /\ b = (StatusOk, value))
      (VisitFields value) (VisitFields blank).

Lemma TileHeader_NestedRoundTrip (h : TileHeader.t) :
  TileHeader_Canonical h ->
  NestedRoundTrip TileHeader.VisitFields TileHeader.Default h.
Proof.
  intros Hc depth ext.
  eapply RoundTrip_consequence.
  - apply (TileHeader_RoundTrip (S depth) ext [] h Hc).
    destruct (TileHeader.AllDefaultFields h); reflexivity.
  - intros a b [-> ->]. cbn [ext_count].
    rewrite TileHeader_read_nested by exact Hc. auto.
Qed.

Lemma RoundTrip_Nested {T : Type} (depth : nat) (ext : Z)
    (VisitFields : T -> Fields (Status * T)) (blank value : T) :
  NestedRoundTrip VisitFields blank value ->
  RoundTrip depth ext []
    (fun a b => a = (StatusOk, value) /\ b = (StatusOk, value))
    (VisitNested VisitFields value) (VisitNested VisitFields blank).
Proof. intros Hn. apply RoundTrip_VisitNested. apply Hn. Qed.

(** *** Alpha *)

Definition Alpha_Canonical (a : Alpha.t) : Prop :=
  Z.of_nat (length (Alpha.encoded a)) < 2 ^ 64.

Lemma Alpha_NestedRoundTrip (a : Alpha.t) :
  Alpha_Canonical a -> NestedRoundTrip Alpha.VisitFields Alpha.Default a.
Proof.
  intros Hc depth ext. unfold Alpha.VisitFields.
  eapply RoundTrip_bind; [apply RoundTrip_U32|].
  intros x y [-> ->]. cbv zeta.
  eapply RoundTrip_bind; [apply RoundTrip_Bytes; exact Hc|].
  intros x y [-> ->]. cbv zeta.
  apply RoundTrip_Return. destruct a; auto.
Qed.

(** *** GroupHeader *)

Definition GroupHeader_Canonical (h : GroupHeader.t) : Prop :=
  GroupHeader.all_default h = GroupHeader.AllDefaultFields h /\
  (GroupHeader.nonserialized_have_alpha h = false ->
   GroupHeader.alpha h = Alpha.Default) /\
  Alpha_Canonical (GroupHeader.alpha h) /\
  length (GroupHeader.tile_headers h) = kNumTilesPerGroup /\
  Forall TileHeader_Canonical (GroupHeader.tile_headers h) /\
  GroupHeader.extensions h = 0.

Definition GroupHeader_read (count : Z) (h : GroupHeader.t) : GroupHeader.t :=
  if GroupHeader.AllDefaultFields h then h else GroupHeader.set_extensions count h.

Lemma GroupHeader_loop_RoundTrip (depth : nat) (ext : Z) (n : nat) :
  forall i (hw hr : GroupHeader.t),
    Forall TileHeader_Canonical (GroupHeader.tile_headers hw) ->
    (i + n <= length (GroupHeader.tile_headers hw))%nat ->
    RoundTrip depth ext []
      (fun a b =>
         a = (StatusOk, hw) /\
         b = (StatusOk,
              GroupHeader.set_tile_headers
                (firstn (i + n) (GroupHeader.tile_headers hw) ++
                 skipn (i + n)
                   (repeat TileHeader.Default
                      (length (GroupHeader.tile_headers hw)))) hr))
      (GroupHeader.VisitFields_loop n i hw)
      (GroupHeader.VisitFields_loop n i
         (GroupHeader.set_tile_headers
            (firstn i (GroupHeader.tile_headers hw) ++
             skipn i
               (repeat TileHeader.Default
                  (length (GroupHeader.tile_headers hw)))) hr)).
Proof.
  induction n as [|n IH]; intros i hw hr Hc Hi.
  - cbn [GroupHeader.VisitFields_loop].
    rewrite Nat.add_0_r. apply RoundTrip_Return. auto.
  - cbn [GroupHeader.VisitFields_loop].
    cbn [GroupHeader.tile_headers GroupHeader.set_tile_headers].
    rewrite nth_splice by (rewrite ?repeat_length; lia).
    rewrite nth_repeat.
    assert (Hi' : (i < length (GroupHeader.tile_headers hw))%nat) by lia.
    assert (Hci : TileHeader_Canonical
                    (nth i (GroupHeader.tile_headers hw) TileHeader.Default)).
    { rewrite Forall_forall in Hc. apply Hc. apply nth_In. exact Hi'. }
    eapply RoundTrip_bind;
      [apply RoundTrip_Nested; apply TileHeader_NestedRoundTrip; exact Hci|].
    intros a b [-> ->]. cbv zeta. cbn [IsOk negb].
    rewrite set_nth_same by exact Hi'.
    rewrite set_nth_splice by (rewrite ?repeat_length; lia).
    replace (i + S n)%nat with (S i + n)%nat by lia.
    replace (GroupHeader.set_tile_headers (GroupHeader.tile_headers hw) hw)
      with hw by (destruct hw; reflexivity).
    replace (GroupHeader.set_tile_headers
               (firstn (S i) (GroupHeader.tile_headers hw) ++
                skipn (S i)
                  (repeat TileHeader.Default
                     (length (GroupHeader.tile_headers hw))))
               (GroupHeader.set_tile_headers
                  (firstn i (GroupHeader.tile_headers hw) ++
                   skipn i
                     (repeat TileHeader.Default
                        (length (GroupHeader.tile_headers hw)))) hr))
      with (GroupHeader.set_tile_headers
              (firstn (S i) (GroupHeader.tile_headers hw) ++
               skipn (S i)
                 (repeat TileHeader.Default
                    (length (GroupHeader.tile_headers hw)))) hr)
      by reflexivity.
    apply IH; [exact Hc|lia].
Qed.

Lemma forallb_AllDefault_repeat (tiles : list TileHeader.t) :
  Forall TileHeader_Canonical tiles ->
  forallb TileHeader.AllDefaultFields tiles = true ->
  tiles = repeat TileHeader.Default (length tiles).
Proof.
  induction tiles as [|t tiles IH]; intros Hc Ha; [reflexivity|].
  inversion Hc as [|? ? Ht Hts]; subst.
  simpl in Ha. apply andb_true_iff in Ha as [Ha1 Ha2].
  simpl. rewrite <- IH by assumption.
  rewrite (TileHeader_AllDefault_Default t Ht Ha1). reflexivity.
Qed.

Lemma GroupHeader_AllDefault_Defaults (h : GroupHeader.t) :
  GroupHeader_Canonical h -> GroupHeader.AllDefaultFields h = true ->
  h = GroupHeader.Defaults h.
Proof.
  intros (Hf & Ha & _ & Hl & Ht & He) Had. rewrite Had in Hf.
  unfold GroupHeader.AllDefaultFields in Had.
  apply andb_true_iff in Had as [Had _].
  apply andb_true_iff in Had as [Had _].
  apply andb_true_iff in Had as [Hal Hti].
  apply forallb_AllDefault_repeat in Hti; [|exact Ht].
  unfold Alpha.AllDefaultFields in Hal.
  apply andb_true_iff in Hal as [Hb Hen]. apply Z.eqb_eq in Hb.
  destruct h as [ad nha [bpa enc] tiles e]. simpl in *. subst.
  destruct enc; [|discriminate].
  unfold GroupHeader.Defaults, GroupHeader.Default,
    GroupHeader.set_nonserialized_have_alpha. simpl.
  rewrite Hti at 1. rewrite Hl. reflexivity.
Qed.

Lemma GroupHeader_RoundTrip (depth : nat) (ext : Z) (payload : Bits)
    (h : GroupHeader.t) :
  GroupHeader_Canonical h ->
  (if GroupHeader.AllDefaultFields h then payload = []
   else Z.of_nat (length payload) = ext_count depth ext) ->
  RoundTrip depth ext payload
    (fun a b => a = (StatusOk, h) /\
                b = (StatusOk, GroupHeader_read (ext_count depth ext) h))
    (GroupHeader.VisitFields h)
    (GroupHeader.VisitFields (GroupHeader.Defaults h)).
Proof.
  intros Hc Hp. pose proof Hc as (Hf & Ha & Hac & Hl & Ht & He).
  unfold GroupHeader.VisitFields, GroupHeader_read.
  eapply RoundTrip_bind; [apply RoundTrip_AllDefault|].
  intros a b [-> ->]. cbv zeta.
  destruct (GroupHeader.AllDefaultFields h) eqn:Had.
  - subst payload. apply RoundTrip_Return.
    assert (E2 : GroupHeader.set_all_default true
                   (GroupHeader.Defaults (GroupHeader.Defaults h)) =
                 GroupHeader.Defaults h) by reflexivity.
    rewrite E2, <- (GroupHeader_AllDefault_Defaults h Hc Had).
    destruct h. simpl in Hf. subst. auto.
  - destruct h as [ad nha al tiles e]. simpl in Hf, Ha, Hac, Hl, Ht, He.
    subst ad e.
    cbn [GroupHeader.nonserialized_have_alpha GroupHeader.set_all_default
         GroupHeader.Defaults GroupHeader.set_nonserialized_have_alpha
         GroupHeader.Default GroupHeader.alpha GroupHeader.all_default
         GroupHeader.tile_headers GroupHeader.extensions].
    eapply RoundTrip_bind; [apply RoundTrip_Conditional|].
    intros a b [-> ->].
    eapply RoundTrip_bind
      with (R := fun a b =>
        a = (StatusOk,
             {| GroupHeader.all_default := false;
                GroupHeader.nonserialized_have_alpha := nha;
                GroupHeader.alpha := al;
                GroupHeader.tile_headers := tiles;
                GroupHeader.extensions := 0 |}) /\
        b = (StatusOk,
             GroupHeader.set_tile_headers
               (firstn 0 tiles ++ skipn 0 (repeat TileHeader.Default (length tiles)))
               {| GroupHeader.all_default := false;
                  GroupHeader.nonserialized_have_alpha := nha;
                  GroupHeader.alpha := al;
                  GroupHeader.tile_headers := [];
                  GroupHeader.extensions := 0 |})).
    + destruct nha.
      * eapply RoundTrip_bind;
          [apply RoundTrip_Nested; apply Alpha_NestedRoundTrip; exact Hac|].
        intros a b [-> ->]. apply RoundTrip_Return.
        cbn [firstn skipn app GroupHeader.set_tile_headers GroupHeader.set_alpha
             GroupHeader.all_default GroupHeader.nonserialized_have_alpha
             GroupHeader.alpha GroupHeader.tile_headers GroupHeader.extensions].
        rewrite Hl. auto.
      * apply RoundTrip_Return.
        cbn [firstn skipn app GroupHeader.set_tile_headers
             GroupHeader.all_default GroupHeader.nonserialized_have_alpha
             GroupHeader.alpha GroupHeader.tile_headers GroupHeader.extensions].
        rewrite Hl, (Ha eq_refl). auto.
    + intros a b [-> ->]. cbn [IsOk negb].
      eapply RoundTrip_bind.
      * rewrite <- Hl.
        apply (GroupHeader_loop_RoundTrip depth ext (length tiles) 0
                 {| GroupHeader.all_default := false;
                    GroupHeader.nonserialized_have_alpha := nha;
                    GroupHeader.alpha := al;
                    GroupHeader.tile_headers := tiles;
                    GroupHeader.extensions := 0 |});
          [exact Ht|simpl; lia].
      * intros a b [-> ->]. cbn [IsOk negb].
        eapply RoundTrip_consequence;
          [apply RoundTrip_VisitExtensions; exact Hp|].
        intros a b [-> ->].
        cbn [GroupHeader.tile_headers Nat.add].
        rewrite firstn_all, skipn_all2, app_nil_r
          by (rewrite repeat_length; reflexivity).
        auto.
Qed.

(** *** FrameInfo, Preview, Animation *)

Definition FrameInfo_Canonical (h : FrameInfo.t) : Prop :=
  FrameInfo.all_default h = FrameInfo.AllDefaultFields h /\
  (FrameInfo.have_timecode h = false -> FrameInfo.timecode h = 0).

Lemma FrameInfo_NestedRoundTrip (h : FrameInfo.t) :
  FrameInfo_Canonical h ->
  NestedRoundTrip FrameInfo.VisitFields FrameInfo.Default h.
Proof.
  intros [Hf Ht] depth ext. unfold FrameInfo.VisitFields.
  rt_step.
  destruct h as [ad du ht tc kf]. simpl in Hf, Ht.
  destruct (FrameInfo.AllDefaultFields _) eqn:Had.
  - apply RoundTrip_Return. subst ad.
    unfold FrameInfo.AllDefaultFields in Had. simpl in Had.
    apply andb_true_iff in Had as [Had Hk].
    apply andb_true_iff in Had as [Had Hc].
    apply andb_true_iff in Had as [Hd Hh].
    apply Z.eqb_eq in Hd, Hc. apply negb_true_iff in Hh, Hk. subst.
    auto.
  - cbn [FrameInfo.duration FrameInfo.set_all_default FrameInfo.set_duration
         FrameInfo.have_timecode FrameInfo.set_have_timecode FrameInfo.timecode
         FrameInfo.set_timecode FrameInfo.is_keyframe FrameInfo.set_is_keyframe
         FrameInfo.all_default FrameInfo.Default].
    rt_step.
    cbn [FrameInfo.duration FrameInfo.set_all_default FrameInfo.set_duration
         FrameInfo.have_timecode FrameInfo.set_have_timecode FrameInfo.timecode
         FrameInfo.set_timecode FrameInfo.is_keyframe FrameInfo.set_is_keyframe
         FrameInfo.all_default FrameInfo.Default].
    rt_step.
    cbn [FrameInfo.duration FrameInfo.set_all_default FrameInfo.set_duration
         FrameInfo.have_timecode FrameInfo.set_have_timecode FrameInfo.timecode
         FrameInfo.set_timecode FrameInfo.is_keyframe FrameInfo.set_is_keyframe
         FrameInfo.all_default FrameInfo.Default].
    rt_step. subst ad.
    destruct ht.
    + eapply RoundTrip_bind.
      * rt_step. apply RoundTrip_Return_eq.
      * intros a b [-> ->].
        cbn [FrameInfo.duration FrameInfo.set_all_default FrameInfo.set_duration
             FrameInfo.have_timecode FrameInfo.set_have_timecode FrameInfo.timecode
             FrameInfo.set_timecode FrameInfo.is_keyframe FrameInfo.set_is_keyframe
             FrameInfo.all_default FrameInfo.Default].
        rt_step. apply RoundTrip_Return. auto.
    + rt_step.
      cbn [FrameInfo.duration FrameInfo.set_all_default FrameInfo.set_duration
           FrameInfo.have_timecode FrameInfo.set_have_timecode FrameInfo.timecode
           FrameInfo.set_timecode FrameInfo.is_keyframe FrameInfo.set_is_keyframe
           FrameInfo.all_default FrameInfo.Default].
      rt_step. apply RoundTrip_Return. rewrite (Ht eq_refl). auto.
Qed.

Definition Preview_Canonical (h : Preview.t) : Prop :=
  Preview.all_default h = Preview.AllDefaultFields h.

Lemma Preview_NestedRoundTrip (h : Preview.t) :
  Preview_Canonical h -> NestedRoundTrip Preview.VisitFields Preview.Default h.
Proof.
  intros Hf depth ext. unfold Preview.VisitFields.
  rt_step.
  destruct h as [ad sb xs ys]. unfold Preview_Canonical in Hf. simpl in Hf.
  destruct (Preview.AllDefaultFields _) eqn:Had.
  - apply RoundTrip_Return. subst ad.
    unfold Preview.AllDefaultFields in Had. simpl in Had.
    apply andb_true_iff in Had as [Had Hy].
    apply andb_true_iff in Had as [Hs Hx].
    apply Z.eqb_eq in Hs, Hx, Hy. subst. auto.
  - cbn [Preview.size_bits Preview.xsize Preview.ysize Preview.set_all_default
         Preview.set_size_bits Preview.set_xsize Preview.set_ysize
         Preview.all_default Preview.Default].
    do 3 (rt_step;
          cbn [Preview.size_bits Preview.xsize Preview.ysize
               Preview.set_all_default Preview.set_size_bits Preview.set_xsize
               Preview.set_ysize Preview.all_default Preview.Default]).
    apply RoundTrip_Return. subst. auto.
Qed.

Definition Animation_Canonical (h : Animation.t) : Prop :=
  Animation.all_default h = Animation.AllDefaultFields h.

Lemma Animation_NestedRoundTrip (h : Animation.t) :
  Animation_Canonical h ->
  NestedRoundTrip Animation.VisitFields Animation.Default h.
Proof.
  intros Hf depth ext. unfold Animation.VisitFields.
  rt_step.
  destruct h as [ad nl tn td]. unfold Animation_Canonical in Hf. simpl in Hf.
  destruct (Animation.AllDefaultFields _) eqn:Had.
  - apply RoundTrip_Return. subst ad.
    unfold Animation.AllDefaultFields in Had. simpl in Had.
    apply andb_true_iff in Had as [Had Hy].
    apply andb_true_iff in Had as [Hs Hx].
    apply Z.eqb_eq in Hs, Hx, Hy. subst. auto.
  - cbn [Animation.num_loops Animation.ticks_numerator Animation.ticks_denominator
         Animation.set_all_default Animation.set_num_loops
         Animation.set_ticks_numerator Animation.set_ticks_denominator
         Animation.all_default Animation.Default].
    do 3 (rt_step;
          cbn [Animation.num_loops Animation.ticks_numerator
               Animation.ticks_denominator Animation.set_all_default
               Animation.set_num_loops Animation.set_ticks_numerator
               Animation.set_ticks_denominator Animation.all_default
               Animation.Default]).
    apply RoundTrip_Return. subst. auto.
Qed.

End HeaderRoundTrips.

(** *** PassHeader and FileHeader *)

Ltac pass_cbn :=
  cbn [PassHeader.size PassHeader.has_alpha PassHeader.is_last PassHeader.frame PassHeader.encoding PassHeader.lossless_grayscale PassHeader.lossless_16_bits PassHeader.resampling_factor2 PassHeader.flags PassHeader.gaborish PassHeader.predict_lf PassHeader.predict_hf PassHeader.have_adaptive_reconstruction PassHeader.epf_params PassHeader.nonserialized_num_groups PassHeader.group_sizes PassHeader.extensions PassHeader.set_size PassHeader.set_has_alpha PassHeader.set_is_last PassHeader.set_frame PassHeader.set_encoding PassHeader.set_lossless_grayscale PassHeader.set_lossless_16_bits PassHeader.set_resampling_factor2 PassHeader.set_flags PassHeader.set_gaborish PassHeader.set_predict_lf PassHeader.set_predict_hf PassHeader.set_have_adaptive_reconstruction PassHeader.set_epf_params PassHeader.set_nonserialized_num_groups PassHeader.set_group_sizes PassHeader.set_extensions PassHeader.Default IsOk negb fst snd].

Ltac file_cbn :=
  cbn [FileHeader.signature FileHeader.xsize_minus_1 FileHeader.ysize_minus_1 FileHeader.metadata FileHeader.preview FileHeader.animation FileHeader.extensions FileHeader.set_signature FileHeader.set_xsize_minus_1 FileHeader.set_ysize_minus_1 FileHeader.set_metadata FileHeader.set_preview FileHeader.set_animation FileHeader.set_extensions FileHeader.Default IsOk negb fst snd].

(** Uses what is known about the branch taken. *)
Ltac use_cases :=
  repeat match goal with
  | H : ?x = ?x -> _ |- _ => specialize (H eq_refl)
  | H : true = false -> _ |- _ => clear H
  | H : false = true -> _ |- _ => clear H
  | H : _ /\ _ |- _ => destruct H
  end; subst.

Ltac rt_destruct c :=
  let E := fresh "E" in
  destruct c eqn:E;
  repeat match goal with
  | H : context [c] |- _ =>
      lazymatch H with
      | E => fail
      | _ => rewrite E in H
      end
  end;
  use_cases.

Lemma length_resize (n : nat) (l : list Z) : length (resize n l) = n.
Proof.
  unfold resize. rewrite length_app, length_firstn, repeat_length. lia.
Qed.

Section PassAndFile.

Context `{Externals}.

Lemma VisitGroupSizes_RoundTrip (depth : nat) (ext : Z) (lw : list Z) :
  forall lr,
    length lr = length lw ->
    RoundTrip depth ext [] (fun a b => a = lw /\ b = lw)
      (PassHeader.VisitGroupSizes lw) (PassHeader.VisitGroupSizes lr).
Proof.
  induction lw as [|x lw IH]; intros [|y lr] Hl; try discriminate.
  - apply RoundTrip_Return. auto.
  - cbn [PassHeader.VisitGroupSizes].
    rt_step.
    eapply RoundTrip_bind; [apply IH; simpl in Hl; lia|].
    intros a b [-> ->]. apply RoundTrip_Return. auto.
Qed.

(** A pass header as an encoder leaves it: what the field list does not
    visit for this [encoding] holds its defaults, the table of contents
    has one entry per group, and no extension is declared. *)
Definition PassHeader_Canonical (h : PassHeader.t) : Prop :=
  is_u64 (PassHeader.size h) = true /\
  (PassHeader.is_last h = false -> PassHeader.frame h = FrameInfo.Default) /\
  FrameInfo_Canonical (PassHeader.frame h) /\
  ((PassHeader.encoding h =? ImageEncoding.kPasses) = false ->
   PassHeader.flags h = 0 /\ PassHeader.gaborish h = k750 /\
   PassHeader.predict_lf h = true /\ PassHeader.predict_hf h = true /\
   PassHeader.have_adaptive_reconstruction h = false) /\
  (PassHeader.have_adaptive_reconstruction h = false ->
   PassHeader.epf_params h = EpfParams_Default) /\
  ((PassHeader.encoding h =? ImageEncoding.kProgressive) = true ->
   PassHeader.resampling_factor2 h = 2 /\ PassHeader.group_sizes h = []) /\
  ((PassHeader.encoding h =? ImageEncoding.kProgressive) = false ->
   length (PassHeader.group_sizes h) = PassHeader.nonserialized_num_groups h) /\
  ((PassHeader.encoding h =? ImageEncoding.kLossless) = false ->
   PassHeader.lossless_grayscale h = false /\
   PassHeader.lossless_16_bits h = false) /\
  PassHeader.extensions h = 0.

(** The header a decoder starts from: freshly constructed, with the
    caller's number of groups. *)
Definition PassHeader_Blank (h : PassHeader.t) : PassHeader.t :=
  PassHeader.set_nonserialized_num_groups
    (PassHeader.nonserialized_num_groups h) PassHeader.Default.

Ltac pass_step :=
  pass_cbn;
  first
    [ rt_step
    | lazymatch goal with
      | |- RoundTrip _ _ _ _ (bind (U64 _ _) _) _ =>
          eapply RoundTrip_bind; [apply RoundTrip_U64; assumption|];
          intros ? ? [-> ->]; cbv zeta
      | |- RoundTrip _ _ _ _ (bind (VisitNested FrameInfo.VisitFields _) _) _ =>
          eapply RoundTrip_bind;
          [apply RoundTrip_Nested; apply FrameInfo_NestedRoundTrip; assumption|];
          intros ? ? [-> ->]; cbv zeta
      | |- RoundTrip _ _ _ _ (bind (VisitNested EpfParams_VisitFields _) _) _ =>
          eapply RoundTrip_bind; [apply RoundTrip_Nested; assumption|];
          intros ? ? [-> ->]; cbv zeta
      | |- RoundTrip _ _ _ _ (bind (PassHeader.VisitGroupSizes _) _) _ =>
          eapply RoundTrip_bind;
          [apply VisitGroupSizes_RoundTrip; rewrite length_resize; congruence|];
          intros ? ? [-> ->]; cbv zeta
      | |- RoundTrip _ _ _ _ (bind (if negb ?c then _ else _) _) _ =>
          rt_destruct c
      | |- RoundTrip _ _ _ _ (bind (if ?c then _ else _) _) _ =>
          rt_destruct c
      | |- RoundTrip _ _ _ _ (if negb ?c then _ else _) _ =>
          rt_destruct c
      | |- RoundTrip _ _ _ _ (if ?c then _ else _) _ =>
          rt_destruct c
      | |- RoundTrip _ _ _ _ (bind (bind _ _) _) _ =>
          apply RoundTrip_assoc
      end ].

Lemma PassHeader_RoundTrip (depth : nat) (ext : Z) (payload : Bits)
    (h : PassHeader.t) :
  PassHeader_Canonical h ->
  ((PassHeader.encoding h =? ImageEncoding.kPasses) = true ->
   PassHeader.have_adaptive_reconstruction h = true ->
   NestedRoundTrip EpfParams_VisitFields EpfParams_Default
     (PassHeader.epf_params h)) ->
  Z.of_nat (length payload) = ext_count depth ext ->
  RoundTrip depth ext payload
    (fun a b => a = (StatusOk, h) /\
                b = (StatusOk,
                     PassHeader.set_extensions (ext_count depth ext) h))
    (PassHeader.VisitFields h) (PassHeader.VisitFields (PassHeader_Blank h)).
Proof.
  intros Hc Hepf Hp.
  destruct Hc as (Hsize & Hframe & Hfc & Hpasses & Har & Hprog & Hgs & Hll & He).
  destruct h as [size has_alpha is_last frame encoding lg l16 rf2 flags gab
                 plf phf har epf nsng gs e].
  unfold PassHeader_Blank, PassHeader.VisitFields.
  cbn [PassHeader.size PassHeader.has_alpha PassHeader.is_last PassHeader.frame PassHeader.encoding PassHeader.lossless_grayscale PassHeader.lossless_16_bits PassHeader.resampling_factor2 PassHeader.flags PassHeader.gaborish PassHeader.predict_lf PassHeader.predict_hf PassHeader.have_adaptive_reconstruction PassHeader.epf_params PassHeader.nonserialized_num_groups PassHeader.group_sizes PassHeader.extensions PassHeader.set_size PassHeader.set_has_alpha PassHeader.set_is_last PassHeader.set_frame PassHeader.set_encoding PassHeader.set_lossless_grayscale PassHeader.set_lossless_16_bits PassHeader.set_resampling_factor2 PassHeader.set_flags PassHeader.set_gaborish PassHeader.set_predict_lf PassHeader.set_predict_hf PassHeader.set_have_adaptive_reconstruction PassHeader.set_epf_params PassHeader.set_nonserialized_num_groups PassHeader.set_group_sizes PassHeader.set_extensions PassHeader.Default] in *.
  subst e.
  repeat pass_step.
  all: pass_cbn.
  all: try (eapply RoundTrip_consequence;
            [apply RoundTrip_VisitExtensions; exact Hp|];
            intros ? ? [-> ->]; pass_cbn; auto).
Qed.

Definition FileHeader_Canonical (h : FileHeader.t) : Prop :=
  FileHeader.signature h = FileHeader.kSignature /\
  Preview_Canonical (FileHeader.preview h) /\
  Animation_Canonical (FileHeader.animation h) /\
  FileHeader.extensions h = 0.

Ltac file_step :=
  file_cbn;
  first
    [ rt_step
    | lazymatch goal with
      | |- RoundTrip _ _ _ _ (bind (VisitNested Metadata_VisitFields _) _) _ =>
          eapply RoundTrip_bind; [apply RoundTrip_Nested; assumption|];
          intros ? ? [-> ->]; cbv zeta
      | |- RoundTrip _ _ _ _ (bind (VisitNested Preview.VisitFields _) _) _ =>
          eapply RoundTrip_bind;
          [apply RoundTrip_Nested; apply Preview_NestedRoundTrip; assumption|];
          intros ? ? [-> ->]; cbv zeta
      | |- RoundTrip _ _ _ _ (bind (VisitNested Animation.VisitFields _) _) _ =>
          eapply RoundTrip_bind;
          [apply RoundTrip_Nested; apply Animation_NestedRoundTrip; assumption|];
          intros ? ? [-> ->]; cbv zeta
      end ].

Lemma FileHeader_RoundTrip (depth : nat) (ext : Z) (payload : Bits)
    (h : FileHeader.t) :
  FileHeader_Canonical h ->
  NestedRoundTrip Metadata_VisitFields Metadata_Default (FileHeader.metadata h) ->
  Z.of_nat (length payload) = ext_count depth ext ->
  RoundTrip depth ext payload
    (fun a b => a = (StatusOk, h) /\
                b = (StatusOk,
                     FileHeader.set_extensions (ext_count depth ext) h))
    (FileHeader.VisitFields h) (FileHeader.VisitFields FileHeader.Default).
Proof.
  intros (Hsig & Hpc & Hac & He) Hm Hp.
  destruct h as [sig xs ys md pv an e].
  unfold FileHeader.VisitFields.
  cbn [FileHeader.signature FileHeader.xsize_minus_1 FileHeader.ysize_minus_1 FileHeader.metadata FileHeader.preview FileHeader.animation FileHeader.extensions FileHeader.set_signature FileHeader.set_xsize_minus_1 FileHeader.set_ysize_minus_1 FileHeader.set_metadata FileHeader.set_preview FileHeader.set_animation FileHeader.set_extensions FileHeader.Default] in *.
  subst sig e.
  file_step. file_cbn.
  rewrite Z.eqb_refl. cbn [negb].
  repeat file_step.
  file_cbn.
  eapply RoundTrip_consequence;
    [apply RoundTrip_VisitExtensions; exact Hp|].
  intros ? ? [-> ->]. file_cbn. auto.
Qed.

End PassAndFile.

(** ** A stream that ends inside the extension region *)

Section TruncatedRules.

Context `{Externals}.





End TruncatedRules.



Section TruncatedHeaders.

Context `{Externals}.







End TruncatedHeaders.

(** ** The oracle and the writer *)

Section AgreeRules.

Context `{Externals}.

(** [Agree depth p]: on the field list [p], at nesting [depth] and with no
    extension bits, the oracle and the writer return the same value, fail
    together, and the oracle counts exactly the bits the writer appends. *)
Definition Agree {A : Type} (depth : nat) (p : Fields A) : Prop :=
  forall (c : CanEncodeVisitor) (w : WriteVisitor),
    c_depth c = depth -> w_depth w = depth -> w_extension_bits w = 0 ->
    c_ok c = w_ok w ->
    fst (Visit p c) = fst (Visit p w) /\
    c_depth (snd (Visit p c)) = depth /\
    w_depth (snd (Visit p w)) = depth /\
    c_begin (snd (Visit p c)) = c_begin c /\
    c_ok (snd (Visit p c)) = w_ok (snd (Visit p w)) /\
    encoded_bits (snd (Visit p c)) =
      encoded_bits c + Z.of_nat (length (written p w)) /\
    (c_extension_bits c = 0 -> c_extension_bits (snd (Visit p c)) = 0).

Lemma Agree_Return {A : Type} (depth : nat) (a : A) : Agree depth (Return a).
Proof.
  intros c w Hc Hw He Hok. cbn [Visit fst snd].
  rewrite (written_eq (Return a) w []) by (simpl; rewrite app_nil_r; reflexivity).
  simpl. repeat split; auto. lia.
Qed.

Lemma Agree_bind {A B : Type} (depth : nat) (p : Fields A) (k : A -> Fields B) :
  Agree depth p -> (forall a, Agree depth (k a)) -> Agree depth (bind p k).
Proof.
  intros Hp Hk c w Hc Hw He Hok.
  rewrite written_bind, !Visit_bind.
  destruct (Hp c w Hc Hw He Hok) as (Ha & Hc1 & Hw1 & Hb1 & Hok1 & Hn1 & Hx1).
  assert (He1 : w_extension_bits (snd (Visit p w)) = 0)
    by (rewrite <- He; apply WriteVisitor_effect).
  rewrite Ha.
  destruct (Hk (fst (Visit p w)) _ _ Hc1 Hw1 He1 Hok1)
    as (Ha2 & Hc2 & Hw2 & Hb2 & Hok2 & Hn2 & Hx2).
  rewrite length_app.
  repeat split; auto; try congruence. lia.
Qed.

(** The operations that neither open nor close anything. *)
Definition plain {X : Type} (op : VisitorOp X) : bool :=
  match op with
  | OpBeginExtensions _ | OpEndExtensions | OpBeginNested | OpEndNested => false
  | _ => true
  end.

Lemma Agree_U32_state (distribution field : Z) (c : CanEncodeVisitor)
    (w : WriteVisitor) :
  c_ok c = w_ok w ->
  c_depth (c_U32 distribution field c) = c_depth c /\
  w_depth (w_U32 distribution field w) = w_depth w /\
  c_begin (c_U32 distribution field c) = c_begin c /\
  c_ok (c_U32 distribution field c) = w_ok (w_U32 distribution field w) /\
  (exists bits,
     storage (w_U32 distribution field w) = storage w ++ bits /\
     encoded_bits (c_U32 distribution field c) =
       encoded_bits c + Z.of_nat (length bits)) /\
  c_extension_bits (c_U32 distribution field c) = c_extension_bits c.
Proof.
  intros Hok. unfold c_U32, w_U32.
  pose proof (U32CoderFacts.CanEncode_Write (Distribution_of distribution) field)
    as Hcw.
  destruct (U32Coder.CanEncode _ _) as [n|], (U32Coder.Write _ _) as [bits|];
    try contradiction; simpl.
  - repeat split; auto. exists bits. split; [reflexivity|lia].
  - rewrite Hok. repeat split; auto.
    exists []. rewrite app_nil_r. split; [reflexivity|simpl; lia].
Qed.

Lemma Agree_op {X : Type} (depth : nat) (op : VisitorOp X) :
  plain op = true -> Agree depth (call op).
Proof.
  intros Hplain c w Hc Hw He Hok.
  rewrite !Visit_call.
  assert (Hgoal :
    fst (visit op c) = fst (visit op w) /\
    c_depth (snd (visit op c)) = c_depth c /\
    w_depth (snd (visit op w)) = w_depth w /\
    c_begin (snd (visit op c)) = c_begin c /\
    c_ok (snd (visit op c)) = w_ok (snd (visit op w)) /\
    (exists bits,
       storage (snd (visit op w)) = storage w ++ bits /\
       encoded_bits (snd (visit op c)) = encoded_bits c + Z.of_nat (length bits)) /\
    c_extension_bits (snd (visit op c)) = c_extension_bits c).
  { destruct op; try discriminate;
      cbn [visit CanEncodeVisitor_Visitor CanEncodeVisitor_visit
           WriteVisitor_Visitor WriteVisitor_visit fst snd].
    - repeat split; auto. exists [field]. split; [reflexivity|reflexivity].
    - pose proof (Agree_U32_state distribution field c w Hok). tauto.
    - repeat split; auto. exists (U64_Write field). split; reflexivity.
    - destruct (valid field).
      + pose proof (Agree_U32_state distribution field c w Hok). tauto.
      + simpl. rewrite Hok. repeat split; auto.
        exists []. rewrite app_nil_r. split; [reflexivity|simpl; lia].
    - repeat split; auto.
      exists (U64_Write (Z.of_nat (length field)) ++ bits_of_bytes field).
      split; [reflexivity|]. cbn [c_add encoded_bits].
      rewrite length_app, length_bits_of_bytes. lia.
    - repeat split; auto.
      exists []. rewrite app_nil_r. split; [reflexivity|simpl; lia].
    - repeat split; auto. exists [all_default]. split; reflexivity.
    - repeat split; auto.
      exists []. rewrite app_nil_r. split; [reflexivity|simpl; lia]. }
  destruct Hgoal as (Ha & Hc1 & Hw1 & Hb & Hok1 & (bits & Hs & Hn) & Hx).
  rewrite (written_eq (call op) w bits) by (rewrite Visit_call; exact Hs).
  repeat split; auto; congruence.
Qed.

Lemma Agree_VisitNested {T : Type} (depth : nat)
    (VisitFields : T -> Fields (Status * T)) (child : T) :
  Agree (S depth) (VisitFields child) ->
  Agree depth (VisitNested VisitFields child).
Proof.
  intros Hn c w Hc Hw He Hok.
  assert (Hwr : written (VisitNested VisitFields child) w =
                written (VisitFields child) (w_set_depth (S (w_depth w)) w)).
  { apply written_eq. rewrite Visit_VisitNested.
    cbn [visit WriteVisitor_Visitor WriteVisitor_visit fst snd w_set_depth storage].
    apply (storage_written (VisitFields child) (w_set_depth (S (w_depth w)) w)). }
  rewrite Hwr, !Visit_VisitNested.
  cbn [visit WriteVisitor_Visitor WriteVisitor_visit
       CanEncodeVisitor_Visitor CanEncodeVisitor_visit fst snd].
  destruct (Hn (c_set_depth (S (c_depth c)) c) (w_set_depth (S (w_depth w)) w))
    as (Ha & Hc1 & Hw1 & Hb & Hok1 & Hn1 & Hx); simpl; try congruence.
  cbn [c_set_depth w_set_depth c_depth w_depth c_begin c_ok w_ok encoded_bits
       c_extension_bits].
  rewrite Hc1, Hw1. simpl in Hb, Hn1, Hx.
  repeat split; auto.
Qed.

Lemma Agree_VisitExtensions {T : Type} (depth : nat) (get : T -> Z)
    (set : Z -> T -> T) (h : T) :
  Agree depth (VisitExtensions get set h).
Proof.
  intros c w Hc Hw He Hok.
  assert (Hcount : match w_depth w with O => w_extension_bits w | S _ => 0 end = 0)
    by (rewrite He; destruct (w_depth w); reflexivity).
  assert (Hvw : Visit (VisitExtensions get set h) w =
                ((StatusOk, set (get h) h), w_U32 kExtensionBitsDistribution 0 w)).
  { unfold VisitExtensions, BeginExtensions, EndExtensions, call.
    cbn [bind Visit visit WriteVisitor_Visitor WriteVisitor_visit].
    rewrite Hcount. reflexivity. }
  assert (Hvc : Visit (VisitExtensions get set h) c =
                ((StatusOk, set (get h) h),
                 c_U32 kExtensionBitsDistribution 0
                   {| encoded_bits := encoded_bits c; c_ok := c_ok c;
                      c_extension_bits :=
                        match c_depth c with
                        | O => 0
                        | S _ => c_extension_bits c
                        end;
                      c_depth := c_depth c; c_begin := c_begin c |})).
  { unfold VisitExtensions, BeginExtensions, EndExtensions, call.
    cbn [bind Visit visit CanEncodeVisitor_Visitor CanEncodeVisitor_visit].
    unfold c_EndExtensions. cbn [c_begin encoded_bits c_ok c_depth
                                 c_extension_bits].
    rewrite Z.sub_diag. reflexivity. }
  rewrite Hvw, Hvc. cbn [fst snd].
  match goal with
  | |- context [c_U32 ?d ?f ?c0] =>
      destruct (Agree_U32_state d f c0 w Hok)
        as (Hc1 & Hw1 & Hb & Hok1 & (bits & Hs & Hn) & Hx)
  end.
  rewrite (written_eq _ w bits) by (rewrite Hvw; exact Hs).
  cbn [c_depth c_begin encoded_bits c_extension_bits] in Hc1, Hb, Hn, Hx.
  repeat split; auto; try congruence.
  rewrite Hx. destruct (c_depth c); auto.
Qed.

End AgreeRules.

Ltac agree_step :=
  cbv zeta;
  lazymatch goal with
  | |- Agree _ (bind _ _) => apply Agree_bind; [|intros ?]
  | |- Agree _ (Return _) => apply Agree_Return
  | |- Agree _ (if ?c then _ else _) => destruct c
  | |- Agree _ (match ?x with (_, _) => _ end) => destruct x
  | |- Agree _ (VisitExtensions _ _ _) => apply Agree_VisitExtensions
  | |- Agree _ (Bool _ _) => apply Agree_op; reflexivity
  | |- Agree _ (U32 _ _ _) => apply Agree_op; reflexivity
  | |- Agree _ (U64 _ _) => apply Agree_op; reflexivity
  | |- Agree _ (Enum _ _ _ _) => apply Agree_op; reflexivity
  | |- Agree _ (Bytes _ _) => apply Agree_op; reflexivity
  | |- Agree _ (Conditional _) => apply Agree_op; reflexivity
  | |- Agree _ (AllDefault _ _ _) => apply Agree_op; reflexivity
  | |- Agree _ (SetSizeWhenReading _ _) => apply Agree_op; reflexivity
  end.

Section HeadersAgree.

Context `{Externals}.

Lemma PTP_loop_Agree (depth : nat) (n : nat) :
  forall i p, Agree depth (ProjectiveTransformParams.VisitFields_loop n i p).
Proof.
  induction n as [|n IH]; intros i p;
    cbn [ProjectiveTransformParams.VisitFields_loop].
  - apply Agree_Return.
  - agree_step; [agree_step|apply IH].
Qed.

Lemma PTP_Agree (depth : nat) (p : ProjectiveTransformParams.t) :
  Agree depth (ProjectiveTransformParams.VisitFields p).
Proof.
  unfold ProjectiveTransformParams.VisitFields.
  agree_step; [apply PTP_loop_Agree|agree_step].
Qed.

Lemma TileHeader_Agree (depth : nat) (h : TileHeader.t) :
  Agree depth (TileHeader.VisitFields h).
Proof.
  unfold TileHeader.VisitFields.
  repeat first
    [ agree_step
    | apply Agree_VisitNested; apply PTP_Agree ].
Qed.

Lemma Alpha_Agree (depth : nat) (a : Alpha.t) : Agree depth (Alpha.VisitFields a).
Proof. unfold Alpha.VisitFields. repeat agree_step. Qed.

Lemma GroupHeader_loop_Agree (depth : nat) (n : nat) :
  forall i h, Agree depth (GroupHeader.VisitFields_loop n i h).
Proof.
  induction n as [|n IH]; intros i h; cbn [GroupHeader.VisitFields_loop].
  - apply Agree_Return.
  - repeat first
      [ apply IH
      | agree_step
      | apply Agree_VisitNested; apply TileHeader_Agree ].
Qed.

Lemma GroupHeader_Agree (depth : nat) (h : GroupHeader.t) :
  Agree depth (GroupHeader.VisitFields h).
Proof.
  unfold GroupHeader.VisitFields.
  repeat first
    [ apply GroupHeader_loop_Agree
    | agree_step
    | apply Agree_VisitNested; apply Alpha_Agree ].
Qed.

Lemma FrameInfo_Agree (depth : nat) (h : FrameInfo.t) :
  Agree depth (FrameInfo.VisitFields h).
Proof. unfold FrameInfo.VisitFields. repeat agree_step. Qed.

Lemma Preview_Agree (depth : nat) (h : Preview.t) :
  Agree depth (Preview.VisitFields h).
Proof. unfold Preview.VisitFields. repeat agree_step. Qed.

Lemma Animation_Agree (depth : nat) (h : Animation.t) :
  Agree depth (Animation.VisitFields h).
Proof. unfold Animation.VisitFields. repeat agree_step. Qed.

Lemma VisitGroupSizes_Agree (depth : nat) (l : list Z) :
  Agree depth (PassHeader.VisitGroupSizes l).
Proof.
  induction l as [|x l IH]; cbn [PassHeader.VisitGroupSizes].
  - apply Agree_Return.
  - repeat first [apply IH | agree_step].
Qed.

(** The nested headers whose field lists are not at hand agree when
    theirs do. *)
Lemma PassHeader_Agree (depth : nat) (h : PassHeader.t) :
  (forall e, Agree (S depth) (EpfParams_VisitFields e)) ->
  Agree depth (PassHeader.VisitFields h).
Proof.
  intros Hepf. unfold PassHeader.VisitFields.
  repeat first
    [ apply VisitGroupSizes_Agree
    | agree_step
    | apply Agree_VisitNested; apply FrameInfo_Agree
    | apply Agree_VisitNested; apply Hepf ].
Qed.

Lemma FileHeader_Agree (depth : nat) (h : FileHeader.t) :
  (forall m, Agree (S depth) (Metadata_VisitFields m)) ->
  Agree depth (FileHeader.VisitFields h).
Proof.
  intros Hm. unfold FileHeader.VisitFields.
  repeat first
    [ agree_step
    | apply Agree_VisitNested; apply Hm
    | apply Agree_VisitNested; apply Preview_Agree
    | apply Agree_VisitNested; apply Animation_Agree ].
Qed.

End HeadersAgree.

(** ** An instance of the collaborators

    Everything above holds for any constants, any unpacking of the
    distribution descriptors, any lawful 64-bit coder and any nested
    [EpfParams] and [Metadata] field lists. The examples below run the
    headers on this instance: a descriptor above [kU32RawBits] stands for
    raw bits, [kU32Direct3Plus4] for the values 0, 1, 2 and two bits for 3
    to 6, and any other descriptor holds one alternative per byte, a byte
    from 0x80 on being a literal and a smaller one a bit width. *)

Module Example.

Definition RawBits : Z := 0xFFFFFFDF.
Definition Direct3Plus4 : Z := 0x51828180.
Definition Direct2348 : Z := 0x88848382.

Definition alternative_of_byte (b : Z) : U32Coder.Alternative :=
  if 0x80 <=? b then U32Coder.Literal (b - 0x80)
  else U32Coder.Stored (Z.to_nat b) 0.

Definition Distributions (d : Z) : U32Coder.Distribution :=
  if RawBits <? d then [U32Coder.Stored (Z.to_nat (d - RawBits)) 0]
  else if d =? Direct3Plus4 then
    [U32Coder.Literal 0; U32Coder.Literal 1; U32Coder.Literal 2;
     U32Coder.Stored 2 3]
  else
    map (fun i => alternative_of_byte (Z.shiftr d (8 * i) mod 256)) [0; 1; 2; 3].

Definition Write64 (v : Z) : Bits := bits_of_Z 64 v.

Definition Read64 (bits : Bits) : option (Z * Bits) :=
  if (length bits <? 64)%nat then None
  else Some (Z_of_bits (firstn 64 bits), skipn 64 bits).

Lemma Read64_Write64 (v : Z) (rest : Bits) :
  is_u64 v = true -> Read64 (Write64 v ++ rest) = Some (v, rest).
Proof.
  intros Hv. unfold is_u64 in Hv. apply andb_true_iff in Hv as [H0 H1].
  unfold Read64, Write64.
  replace (length (bits_of_Z 64 v ++ rest) <? 64)%nat with false
    by (symmetry; apply Nat.ltb_ge; rewrite length_app, length_bits_of_Z; lia).
  rewrite firstn_app_exact, skipn_app_exact by apply length_bits_of_Z.
  rewrite Z_of_bits_of_Z by (simpl Z.of_nat; lia).
  reflexivity.
Qed.

(** A nested header of one field, standing for [EpfParams]. *)
Definition EpfFields (sigma : Z) : Fields (Status * Z) :=
  (x <- U32 0x20100880 0 sigma ;; Return (StatusOk, x))%fields.

(** A field list for [Metadata]: its three blobs. *)
Definition MetadataFields (m : Metadata) : Fields (Status * Metadata) :=
  (e <- Bytes kRaw (exif m) ;;
   i <- Bytes kRaw (iptc m) ;;
   x <- Bytes kRaw (xmp m) ;;
   Return (StatusOk, {| exif := e; iptc := i; xmp := x |}))%fields.

#[export] Instance externals : Externals := {|
  kU32RawBits := RawBits;
  kU32Direct3Plus4 := Direct3Plus4;
  kU32Direct2348 := Direct2348;
  Distribution_of := Distributions;
  kExtensionBitsDistribution := 0x20100880;
  U64_Write := Write64;
  U64_Read := Read64;
  U64_Read_Write := Read64_Write64;
  kNumTilesPerGroup := 4;
  GaborishStrength_valid := fun v => (0 <=? v) && (v <? 4);
  k750 := 1;
  EpfParams := Z;
  EpfParams_Default := 0;
  EpfParams_VisitFields := EpfFields;
  Metadata_Default := {| exif := []; iptc := []; xmp := [] |};
  Metadata_VisitFields := MetadataFields
|}.

End Example.

(** ** The entry points *)

Section EntryPointFacts.

Context `{Externals}.

Lemma final_status_ok (s ok : Status) :
  final_status s ok = StatusOk -> s = StatusOk /\ ok = StatusOk.
Proof. destruct s; simpl; [auto|discriminate]. Qed.

(** Reading at the top level what was written at the top level, with
    [payload] in the extension region. *)
Lemma ReadFields_WriteFields {T : Type} (VisitFields : T -> Fields (Status * T))
    (h blank expected : T) (ext : Z) (payload : Bits) :
  RoundTrip 0 ext payload
    (fun a b => a = (StatusOk, h) /\ b = (StatusOk, expected))
    (VisitFields h) (VisitFields blank) ->
  fst (WriteFields VisitFields h ext []) = StatusOk ->
  forall rest,
    ReadFields VisitFields
      (snd (WriteFields VisitFields h ext []) ++ payload ++ rest) blank =
    (StatusOk, expected, rest).
Proof.
  intros Hrt Hw rest. unfold WriteFields, ReadFields in *.
  set (w0 := {| storage := []; w_ok := StatusOk;
                w_extension_bits := ext; w_depth := O |}) in *.
  pose proof (storage_written (VisitFields h) w0) as Hs.
  destruct (Visit (VisitFields h) w0) as [[s hw] w1] eqn:Ew.
  cbn [fst snd] in Hw, Hs |- *.
  apply final_status_ok in Hw as [-> Hok].
  simpl in Hs. rewrite Hs.
  set (r0 := {| reader := written (VisitFields h) w0 ++ payload ++ rest;
                r_ok := StatusOk; r_extensions := [] |}).
  destruct (Hrt w0 r0 rest eq_refl eq_refl) as (_ & Hr & Ha & Hb).
  - rewrite Ew. exact Hok.
  - reflexivity.
  - destruct (Visit (VisitFields blank) r0) as [[s' h'] r1].
    cbn [fst snd] in Hr, Hb. subst r1. injection Hb as -> ->.
    reflexivity.
Qed.

(** The oracle's count is the length of what the writer writes, its
    status the writer's, and it reports no extension bits. *)
Lemma CanEncodeFields_WriteFields {T : Type}
    (VisitFields : T -> Fields (Status * T)) (h : T) :
  Agree 0 (VisitFields h) ->
  CanEncodeFields VisitFields h =
  (fst (WriteFields VisitFields h 0 []), 0,
   Z.of_nat (length (snd (WriteFields VisitFields h 0 [])))).
Proof.
  intros Hag. unfold CanEncodeFields, WriteFields.
  set (c0 := {| encoded_bits := 0; c_ok := StatusOk; c_extension_bits := 0;
                c_depth := O; c_begin := [] |}).
  set (w0 := {| storage := []; w_ok := StatusOk;
                w_extension_bits := 0; w_depth := O |}).
  destruct (Hag c0 w0 eq_refl eq_refl eq_refl eq_refl)
    as (Ha & _ & _ & _ & Hok & Hn & Hx).
  pose proof (storage_written (VisitFields h) w0) as Hs.
  destruct (Visit (VisitFields h) c0) as [[sc hc] c1].
  destruct (Visit (VisitFields h) w0) as [[sw hw] w1].
  cbn [fst snd] in *. injection Ha as -> ->.
  rewrite Hok, Hn, (Hx eq_refl), Hs. reflexivity.
Qed.

(** *** What the encoder visits *)

(** A field the encoder visits, with the table and the value it hands to
    the compressed-integer coder. *)
Inductive FieldVisit : Type :=
| VisitU32 (distribution value : Z)
| VisitEnum (distribution : Z) (valid : Z -> bool) (value : Z)
| VisitOther.

Definition field_visit {X : Type} (op : VisitorOp X) : FieldVisit :=
  match op with
  | OpU32 distribution _ field => VisitU32 distribution field
  | OpEnum distribution valid _ field => VisitEnum distribution valid field
  | _ => VisitOther
  end.

(** What an encoding visitor answers: the field as it is. *)
Definition encoder_answer {X : Type} (op : VisitorOp X) : X :=
  match op in VisitorOp X return X with
  | OpBool _ field => field
  | OpU32 _ _ field => field
  | OpU64 _ field => field
  | OpEnum _ _ _ field => field
  | OpBytes _ field => field
  | OpConditional condition => condition
  | OpAllDefault all_default _ fields => (all_default, fields)
  | OpBeginExtensions field => field
  | OpEndExtensions => StatusOk
  | OpSetSizeWhenReading _ field => field
  | OpBeginNested => tt
  | OpEndNested => tt
  end.

(** The fields an encoder visits on a field list, in order. *)
Fixpoint EncoderVisits {A : Type} (p : Fields A) : list FieldVisit :=
  match p with
  | Return _ => []
  | Call op k => field_visit op :: EncoderVisits (k (encoder_answer op))
  end.

(** Whether some alternative of the field's table represents its value
    (and, for an enum, the value is one of the enum's). *)
Definition Representable (f : FieldVisit) : bool :=
  match f with
  | VisitU32 distribution value =>
      match U32Coder.ChooseEncoding (Distribution_of distribution) value with
      | Some _ => true
      | None => false
      end
  | VisitEnum distribution valid value =>
      valid value &&
      match U32Coder.ChooseEncoding (Distribution_of distribution) value with
      | Some _ => true
      | None => false
      end
  | VisitOther => true
  end.

Lemma c_U32_ok (distribution field : Z) (c : CanEncodeVisitor) :
  c_ok (c_U32 distribution field c) = StatusOk -> c_ok c = StatusOk.
Proof.
  unfold c_U32. destruct (U32Coder.CanEncode _ _); simpl; [auto|].
  destruct (c_ok c); [reflexivity|discriminate].
Qed.

Lemma c_U32_representable (distribution field : Z) (c : CanEncodeVisitor) :
  c_ok (c_U32 distribution field c) = StatusOk ->
  Representable (VisitU32 distribution field) = true.
Proof.
  unfold c_U32, U32Coder.CanEncode, Representable.
  destruct (U32Coder.ChooseEncoding _ _) as [[s a]|]; [reflexivity|].
  simpl. destruct (c_ok c); discriminate.
Qed.

Lemma CanEncodeVisitor_visit_ok {X : Type} (op : VisitorOp X)
    (c : CanEncodeVisitor) :
  fst (visit op c) = encoder_answer op /\
  (c_ok (snd (visit op c)) = StatusOk ->
   c_ok c = StatusOk /\ Representable (field_visit op) = true).
Proof.
  destruct op;
    cbn [visit CanEncodeVisitor_Visitor CanEncodeVisitor_visit fst snd
         encoder_answer field_visit];
    (split; [reflexivity|]); try (simpl; auto; fail).
  - intros Hok. split; [eapply c_U32_ok|eapply c_U32_representable]; exact Hok.
  - destruct (valid field) eqn:Hv.
    + intros Hok. split; [eapply c_U32_ok; exact Hok|].
      apply c_U32_representable in Hok. simpl in *. rewrite Hv. exact Hok.
    + simpl. destruct (c_ok c); discriminate.
  - unfold c_EndExtensions. destruct (c_begin c); [auto|].
    intros Hok. apply c_U32_ok in Hok. auto.
Qed.

(** When the oracle accepts a field list, every field it visited is
    representable; so it fails as soon as one is not. *)
Lemma CanEncodeVisitor_accepts {A : Type} (p : Fields A) :
  forall c : CanEncodeVisitor,
    c_ok (snd (Visit p c)) = StatusOk ->
    c_ok c = StatusOk /\ forallb Representable (EncoderVisits p) = true.
Proof.
  induction p as [a|X op k IH]; intros c Hok; cbn [Visit EncoderVisits forallb] in *.
  - auto.
  - destruct (CanEncodeVisitor_visit_ok op c) as [Ha Hstep].
    destruct (visit op c) as [x c1]. cbn [fst snd] in Ha, Hstep. subst x.
    apply IH in Hok as [Hok1 Hall]. apply Hstep in Hok1 as [Hok0 Hrep].
    rewrite Hrep, Hall. auto.
Qed.

Lemma CanEncodeFields_fails {T : Type} (VisitFields : T -> Fields (Status * T))
    (h : T) :
  forallb Representable (EncoderVisits (VisitFields h)) = false ->
  IsOk (fst (fst (CanEncodeFields VisitFields h))) = false.
Proof.
  intros Hrep. unfold CanEncodeFields.
  match goal with
  | |- context [Visit (VisitFields h) ?c0] =>
      pose proof (CanEncodeVisitor_accepts (VisitFields h) c0) as Hacc;
      destruct (Visit (VisitFields h) c0) as [[s h'] c1]
  end.
  cbn [fst snd] in *.
  destruct s; [|reflexivity]. simpl.
  destruct (c_ok c1); [|reflexivity].
  destruct (Hacc eq_refl) as [_ Hall]. congruence.
Qed.

(** *** Headers whose fields are all default *)

Lemma WriteTileHeader_AllDefault (h : TileHeader.t) (ext : Z) (storage0 : Bits) :
  TileHeader.AllDefaultFields h = true ->
  WriteTileHeader h ext storage0 = (StatusOk, storage0 ++ [true]).
Proof.
  intros Had. unfold WriteTileHeader, WriteFields, TileHeader.VisitFields.
  cbn [bind AllDefault call Visit visit WriteVisitor_Visitor WriteVisitor_visit].
  rewrite Had. reflexivity.
Qed.

Lemma WriteGroupHeader_AllDefault (h : GroupHeader.t) (ext : Z) (storage0 : Bits) :
  GroupHeader.AllDefaultFields h = true ->
  WriteGroupHeader h ext storage0 = (StatusOk, storage0 ++ [true]).
Proof.
  intros Had. unfold WriteGroupHeader, WriteFields, GroupHeader.VisitFields.
  cbn [bind AllDefault call Visit visit WriteVisitor_Visitor WriteVisitor_visit].
  rewrite Had. reflexivity.
Qed.

Lemma TileHeader_Default_AllDefault :
  TileHeader.AllDefaultFields TileHeader.Default = true.
Proof. reflexivity. Qed.

Lemma GroupHeader_Default_AllDefault (have_alpha : bool) :
  GroupHeader.AllDefaultFields
    (GroupHeader.set_nonserialized_have_alpha have_alpha GroupHeader.Default) = true.
Proof.
  unfold GroupHeader.AllDefaultFields. simpl.
  rewrite repeat_length, Nat.eqb_refl.
  assert (E : forallb TileHeader.AllDefaultFields
                (repeat TileHeader.Default kNumTilesPerGroup) = true).
  { induction kNumTilesPerGroup as [|n IH]; [reflexivity|].
    simpl. exact IH. }
  rewrite E. reflexivity.
Qed.

(** A pass header writes its size, [has_alpha] and [is_last] before
    anything else, whatever it holds: at least two bits. *)
Lemma WritePassHeader_two_bits (h : PassHeader.t) (ext : Z) :
  exists rest,
    written (PassHeader.VisitFields h)
      {| storage := []; w_ok := StatusOk; w_extension_bits := ext; w_depth := O |} =
    U64_Write (PassHeader.size h) ++
    PassHeader.has_alpha h :: PassHeader.is_last h :: rest.
Proof.
  unfold PassHeader.VisitFields, U64, Bool.
  rewrite written_bind.
  rewrite (written_eq (call (OpU64 0 (PassHeader.size h))) _ (U64_Write (PassHeader.size h)))
    by reflexivity.
  rewrite !(Visit_call (V := WriteVisitor)).
  cbn [visit WriteVisitor_Visitor WriteVisitor_visit fst snd]. cbv zeta.
  rewrite written_bind.
  rewrite (written_eq (call (OpBool false _)) _ [PassHeader.has_alpha h]) by reflexivity.
  rewrite !(Visit_call (V := WriteVisitor)).
  cbn [visit WriteVisitor_Visitor WriteVisitor_visit fst snd]. cbv zeta.
  rewrite written_bind.
  rewrite (written_eq (call (OpBool true _)) _ [PassHeader.is_last h]) by reflexivity.
  eexists. cbn [app]. reflexivity.
Qed.

Lemma U32Coder_Write_length (d : U32Coder.Distribution) (v : Z) (bits : Bits) :
  U32Coder.Write d v = Some bits -> (2 <= length bits)%nat.
Proof.
  intros E. pose proof (U32CoderFacts.CanEncode_Write d v) as H0.
  rewrite E in H0. unfold U32Coder.CanEncode in H0.
  destruct (U32Coder.ChooseEncoding d v) as [[selector a]|]; [|contradiction].
  lia.
Qed.

Lemma written_U32_first {A : Type} (distribution default field : Z)
    (k : Z -> Fields A) (w : WriteVisitor) :
  w_ok (snd (Visit (bind (call (OpU32 distribution default field)) k) w)) =
  StatusOk ->
  exists sig rest,
    U32Coder.Write (Distribution_of distribution) field = Some sig /\
    written (bind (call (OpU32 distribution default field)) k) w = sig ++ rest /\
    (2 <= length sig)%nat.
Proof.
  rewrite written_bind, Visit_bind, !(Visit_call (V := WriteVisitor)).
  cbn [visit WriteVisitor_Visitor WriteVisitor_visit fst snd].
  intros Hok.
  apply (WriteVisitor_effect (k field)) in Hok.
  destruct (w_U32_ok _ _ _ Hok) as (sig & Hsig & Hw).
  exists sig. eexists. split; [exact Hsig|]. split.
  - rewrite (written_eq (call (OpU32 _ _ _)) w sig); [reflexivity|].
    rewrite Visit_call.
    cbn [visit WriteVisitor_Visitor WriteVisitor_visit snd].
    rewrite Hw. reflexivity.
  - eapply U32Coder_Write_length. exact Hsig.
Qed.

(** A file header that is written without failure begins with its
    signature field: two bits at least. *)
Lemma WriteFileHeader_signature_first (h : FileHeader.t) (ext : Z) :
  fst (WriteFileHeader h ext []) = StatusOk ->
  exists sig rest,
    U32Coder.Write (Distribution_of (wrap32 (kU32RawBits + 32)))
      (FileHeader.signature h) = Some sig /\
    snd (WriteFileHeader h ext []) = sig ++ rest /\
    (2 <= length sig)%nat.
Proof.
  unfold WriteFileHeader, WriteFields.
  set (w0 := {| storage := []; w_ok := StatusOk; w_extension_bits := ext;
                w_depth := O |}).
  pose proof (storage_written (FileHeader.VisitFields h) w0) as Hs.
  pose proof (written_U32_first (A := Status * FileHeader.t)
                (wrap32 (kU32RawBits + 32))
                FileHeader.kSignature (FileHeader.signature h)) as Hfirst.
  destruct (Visit (FileHeader.VisitFields h) w0) as [[s h'] w2] eqn:Ev.
  cbn [fst snd] in *. intros Hok. apply final_status_ok in Hok as [_ Hok].
  unfold FileHeader.VisitFields, U32 in Ev, Hs.
  match type of Ev with
  | Visit (bind _ ?k) _ = _ => specialize (Hfirst k w0)
  end.
  rewrite Ev in Hfirst. destruct (Hfirst Hok) as (sig & rest & Hsig & Hw & Hl).
  exists sig, rest. split; [exact Hsig|]. split; [|exact Hl].
  rewrite Hs, Hw. reflexivity.
Qed.

End EntryPointFacts.

Section TruncatedEntry.

Context `{Externals}.


End TruncatedEntry.

(** ** The order of the visitor's operations *)

(** A trace that leaves the nesting depth where it found it, seen from
    inside a nested header: none of its events is the enclosing header's. *)
Definition Inner (t : list Event) : Prop :=
  forall (d : nat) (rest : list Event),
    own_events (S d) (t ++ rest) = own_events (S d) rest.

(** A trace with [n] calls of [AllDefault] at the header's own level. *)
Definition Own (n : nat) (t : list Event) : Prop :=
  forall rest : list Event,
    count_event EvAllDefault (own_events 0 (t ++ rest)) =
    (n + count_event EvAllDefault (own_events 0 rest))%nat.

Definition nests (e : Event) : bool :=
  match e with
  | EvBeginNested | EvEndNested => true
  | _ => false
  end.

Lemma Inner_nil : Inner [].
Proof. intros d rest. reflexivity. Qed.

Lemma Inner_app (t1 t2 : list Event) : Inner t1 -> Inner t2 -> Inner (t1 ++ t2).
Proof.
  intros H1 H2 d rest. rewrite <- app_assoc, H1, H2. reflexivity.
Qed.

Lemma Inner_event (e : Event) : nests e = false -> Inner [e].
Proof. intros He d rest. destruct e; try discriminate; reflexivity. Qed.

Lemma Inner_nested (t : list Event) :
  Inner t -> Inner (EvBeginNested :: t ++ [EvEndNested]).
Proof.
  intros Ht d rest. cbn [app own_events].
  rewrite <- app_assoc, Ht. reflexivity.
Qed.

Lemma Own_nil : Own 0 [].
Proof. intros rest. reflexivity. Qed.

Lemma Own_app (n1 n2 : nat) (t1 t2 : list Event) :
  Own n1 t1 -> Own n2 t2 -> Own (n1 + n2) (t1 ++ t2).
Proof.
  intros H1 H2 rest. rewrite <- app_assoc, H1, H2. lia.
Qed.

Lemma Own_AllDefault : Own 1 [EvAllDefault].
Proof. intros rest. reflexivity. Qed.

Lemma Own_event (e : Event) :
  nests e = false -> Event_eqb EvAllDefault e = false -> Own 0 [e].
Proof.
  intros He Hne rest. destruct e; try discriminate; reflexivity.
Qed.

Lemma Own_nested (t : list Event) :
  Inner t -> Own 0 (EvBeginNested :: t ++ [EvEndNested]).
Proof.
  intros Ht rest. cbn [app own_events].
  rewrite <- app_assoc, Ht. reflexivity.
Qed.

Lemma Own_count (n : nat) (t : list Event) :
  Own n t -> count_event EvAllDefault (own_events 0 t) = n.
Proof.
  intros Ht. specialize (Ht []). rewrite app_nil_r in Ht. rewrite Ht.
  unfold count_event. cbn [own_events filter length]. apply Nat.add_0_r.
Qed.

(** The same for field lists, under every visitor. *)
Definition InnerFields {A : Type} (p : Fields A) : Prop :=
  forall (V : Type) (HV : Visitor V) (v : V), Inner (Trace p v).

Definition OwnFields {A : Type} (n : nat) (p : Fields A) : Prop :=
  forall (V : Type) (HV : Visitor V) (v : V), Own n (Trace p v).

Lemma Trace_call {V : Type} `{Visitor V} {X : Type} (op : VisitorOp X) (v : V) :
  Trace (call op) v = [event_of op].
Proof. unfold call. simpl. destruct (visit op v). reflexivity. Qed.

Lemma Trace_VisitNested {V : Type} `{Visitor V} {T : Type}
    (VisitFields : T -> Fields (Status * T)) (child : T) (v : V) :
  Trace (VisitNested VisitFields child) v =
  EvBeginNested ::
    Trace (VisitFields child) (snd (visit OpBeginNested v)) ++ [EvEndNested].
Proof.
  unfold VisitNested. cbn [Trace event_of].
  destruct (visit OpBeginNested v) as [u v1]. cbn [snd].
  rewrite Trace_bind. cbn [Trace event_of].
  destruct (visit OpEndNested _). reflexivity.
Qed.

Lemma InnerFields_Return {A : Type} (a : A) : InnerFields (Return a).
Proof. intros V HV v. apply Inner_nil. Qed.

Lemma InnerFields_bind {A B : Type} (m : Fields A) (f : A -> Fields B) :
  InnerFields m -> (forall a, InnerFields (f a)) -> InnerFields (bind m f).
Proof.
  intros Hm Hf V HV v. rewrite Trace_bind. apply Inner_app; [apply Hm|apply Hf].
Qed.

Lemma InnerFields_call {X : Type} (op : VisitorOp X) :
  nests (event_of op) = false -> InnerFields (call op).
Proof. intros Hop V HV v. rewrite Trace_call. apply Inner_event, Hop. Qed.

Lemma InnerFields_VisitNested {T : Type} (VisitFields : T -> Fields (Status * T))
    (child : T) :
  InnerFields (VisitFields child) -> InnerFields (VisitNested VisitFields child).
Proof.
  intros Hc V HV v. rewrite Trace_VisitNested. apply Inner_nested, Hc.
Qed.

Lemma OwnFields_Return {A : Type} (a : A) : OwnFields 0 (Return a).
Proof. intros V HV v. apply Own_nil. Qed.

Lemma OwnFields_bind {A B : Type} (n1 n2 : nat) (m : Fields A)
    (f : A -> Fields B) :
  OwnFields n1 m -> (forall a, OwnFields n2 (f a)) ->
  OwnFields (n1 + n2) (bind m f).
Proof.
  intros Hm Hf V HV v. rewrite Trace_bind. apply Own_app; [apply Hm|apply Hf].
Qed.

Lemma OwnFields_call {X : Type} (op : VisitorOp X) :
  nests (event_of op) = false -> Event_eqb EvAllDefault (event_of op) = false ->
  OwnFields 0 (call op).
Proof. intros Hop Hne V HV v. rewrite Trace_call. apply Own_event; assumption. Qed.

Lemma OwnFields_AllDefault {T : Type} (all_default : bool) (defaults fields : T) :
  OwnFields 1 (AllDefault all_default defaults fields).
Proof. intros V HV v. unfold AllDefault. rewrite Trace_call. apply Own_AllDefault. Qed.

Lemma OwnFields_VisitNested {T : Type} (VisitFields : T -> Fields (Status * T))
    (child : T) :
  InnerFields (VisitFields child) -> OwnFields 0 (VisitNested VisitFields child).
Proof.
  intros Hc V HV v. rewrite Trace_VisitNested. apply Own_nested, Hc.
Qed.

Ltac inner_step :=
  first
    [ apply InnerFields_Return
    | apply InnerFields_call; reflexivity
    | apply InnerFields_bind; [|intros ?]
    | match goal with
      | |- InnerFields (if ?c then _ else _) => destruct c
      | |- InnerFields (let '(_, _) := ?x in _) => destruct x
      | |- InnerFields (match ?x with _ => _ end) => destruct x
      end ].

Ltac own_step :=
  first
    [ apply OwnFields_Return
    | apply OwnFields_call; reflexivity
    | apply (OwnFields_bind 0 0); [|intros ?]
    | match goal with
      | |- OwnFields _ (if ?c then _ else _) => destruct c
      | |- OwnFields _ (let '(_, _) := ?x in _) => destruct x
      | |- OwnFields _ (match ?x with _ => _ end) => destruct x
      end ].

Section HeaderTraces.

Context `{Externals}.

Lemma VisitExtensions_Inner {T : Type} (get : T -> Z) (set : Z -> T -> T) (h : T) :
  InnerFields (VisitExtensions get set h).
Proof.
  unfold VisitExtensions, BeginExtensions, EndExtensions. repeat inner_step.
Qed.

Lemma VisitExtensions_Own {T : Type} (get : T -> Z) (set : Z -> T -> T) (h : T) :
  OwnFields 0 (VisitExtensions get set h).
Proof.
  unfold VisitExtensions, BeginExtensions, EndExtensions. repeat own_step.
Qed.

Lemma PTP_loop_Inner (n i : nat) (p : ProjectiveTransformParams.t) :
  InnerFields (ProjectiveTransformParams.VisitFields_loop n i p).
Proof.
  revert i p. induction n as [|n IH]; intros i p;
    cbn [ProjectiveTransformParams.VisitFields_loop].
  - apply InnerFields_Return.
  - unfold U32. inner_step; [inner_step|]. apply IH.
Qed.

Lemma PTP_Inner (p : ProjectiveTransformParams.t) :
  InnerFields (ProjectiveTransformParams.VisitFields p).
Proof.
  unfold ProjectiveTransformParams.VisitFields.
  inner_step; [apply PTP_loop_Inner|]. inner_step.
Qed.

Ltac inner_auto :=
  repeat first
    [ apply InnerFields_VisitNested
    | apply VisitExtensions_Inner
    | apply PTP_Inner
    | inner_step ].

Ltac own_auto :=
  repeat first
    [ apply OwnFields_VisitNested
    | apply VisitExtensions_Own
    | apply PTP_Inner
    | own_step ].

(** A tile header calls [AllDefault] first, and once. *)
Lemma TileHeader_Own (h : TileHeader.t) : OwnFields 1 (TileHeader.VisitFields h).
Proof.
  unfold TileHeader.VisitFields.
  apply (OwnFields_bind 1 0); [apply OwnFields_AllDefault|].
  intros [all_default h']. cbv zeta. unfold Bool, Conditional.
  destruct all_default; own_auto.
Qed.

Lemma TileHeader_Inner (h : TileHeader.t) : InnerFields (TileHeader.VisitFields h).
Proof.
  unfold TileHeader.VisitFields, AllDefault, Bool, Conditional.
  inner_step; [inner_step|]. destruct a as [all_default h']. cbv zeta.
  destruct all_default; inner_auto.
Qed.

Lemma Alpha_Inner (a : Alpha.t) : InnerFields (Alpha.VisitFields a).
Proof. unfold Alpha.VisitFields, U32, Bytes. inner_auto. Qed.

Lemma GroupHeader_loop_Own (n i : nat) (h : GroupHeader.t) :
  OwnFields 0 (GroupHeader.VisitFields_loop n i h).
Proof.
  revert i h. induction n as [|n IH]; intros i h;
    cbn [GroupHeader.VisitFields_loop].
  - apply OwnFields_Return.
  - apply (OwnFields_bind 0 0).
    + apply OwnFields_VisitNested, TileHeader_Inner.
    + intros [s tile]. cbv zeta. destruct (negb (IsOk s)).
      * apply OwnFields_Return.
      * apply IH.
Qed.

(** A group header calls [AllDefault] on itself first, and once; the
    calls of its tile headers are theirs. *)
Lemma GroupHeader_Own (h : GroupHeader.t) : OwnFields 1 (GroupHeader.VisitFields h).
Proof.
  unfold GroupHeader.VisitFields.
  apply (OwnFields_bind 1 0); [apply OwnFields_AllDefault|].
  intros [all_default h']. cbv zeta. unfold Conditional.
  destruct all_default; [apply OwnFields_Return|].
  apply (OwnFields_bind 0 0); [own_auto|]. intros c.
  apply (OwnFields_bind 0 0).
  - destruct c; [|apply OwnFields_Return].
    apply (OwnFields_bind 0 0);
      [apply OwnFields_VisitNested, Alpha_Inner|].
    intros [s a]. apply OwnFields_Return.
  - intros [s h1]. destruct (negb (IsOk s)); [apply OwnFields_Return|].
    apply (OwnFields_bind 0 0); [apply GroupHeader_loop_Own|].
    intros [s2 h2]. destruct (negb (IsOk s2)); [apply OwnFields_Return|].
    apply VisitExtensions_Own.
Qed.

Lemma FrameInfo_Own (h : FrameInfo.t) : OwnFields 1 (FrameInfo.VisitFields h).
Proof.
  unfold FrameInfo.VisitFields.
  apply (OwnFields_bind 1 0); [apply OwnFields_AllDefault|].
  intros [all_default h']. cbv zeta. unfold Bool, Conditional, U32.
  destruct all_default; own_auto.
Qed.

Lemma Preview_Own (h : Preview.t) : OwnFields 1 (Preview.VisitFields h).
Proof.
  unfold Preview.VisitFields.
  apply (OwnFields_bind 1 0); [apply OwnFields_AllDefault|].
  intros [all_default h']. cbv zeta. unfold U32.
  destruct all_default; own_auto.
Qed.

Lemma Animation_Own (h : Animation.t) : OwnFields 1 (Animation.VisitFields h).
Proof.
  unfold Animation.VisitFields.
  apply (OwnFields_bind 1 0); [apply OwnFields_AllDefault|].
  intros [all_default h']. cbv zeta. unfold U32.
  destruct all_default; own_auto.
Qed.

(** The first operation of each field list. *)
Lemma Trace_first {V : Type} `{Visitor V} {X A : Type} (op : VisitorOp X)
    (k : X -> Fields A) (v : V) :
  exists t, Trace (bind (call op) k) v = event_of op :: t.
Proof.
  rewrite Trace_bind, Trace_call. eexists. reflexivity.
Qed.

End HeaderTraces.

(** ** The instance's nested field lists *)

Module ExampleFacts.

#[local] Existing Instance Example.externals.


Lemma MetadataFields_NestedRoundTrip (m : Metadata) :
  Z.of_nat (length (exif m)) < 2 ^ 64 ->
  Z.of_nat (length (iptc m)) < 2 ^ 64 ->
  Z.of_nat (length (xmp m)) < 2 ^ 64 ->
  NestedRoundTrip Example.MetadataFields
    {| exif := []; iptc := []; xmp := [] |} m.
Proof.
  intros He Hi Hx depth ext. unfold Example.MetadataFields.
  eapply RoundTrip_bind; [apply RoundTrip_Bytes; exact He|].
  intros a b [-> ->].
  eapply RoundTrip_bind; [apply RoundTrip_Bytes; exact Hi|].
  intros a b [-> ->].
  eapply RoundTrip_bind; [apply RoundTrip_Bytes; exact Hx|].
  intros a b [-> ->].
  apply RoundTrip_Return. destruct m; auto.
Qed.

Lemma EpfFields_Agree (depth : nat) (sigma : Z) :
  Agree depth (Example.EpfFields sigma).
Proof. unfold Example.EpfFields. repeat agree_step. Qed.

Lemma MetadataFields_Agree (depth : nat) (m : Metadata) :
  Agree depth (Example.MetadataFields m).
Proof. unfold Example.MetadataFields. repeat agree_step. Qed.

End ExampleFacts.

(** ** Example headers, on the instance above *)

Module HeaderExamples.

#[local] Existing Instance Example.externals.

Definition coords (first last : Z) : ProjectiveTransformParams.t :=
  {| ProjectiveTransformParams.corner_coords := [first; 1; 1; 1; 1; 1; 1; last] |}.

(** A tile header with a projective transform. *)
Definition transformed : TileHeader.t :=
  {| TileHeader.all_default := false;
     TileHeader.have_projective_transform := true;
     TileHeader.projective_transform_params := coords 2 255;
     TileHeader.extensions := 0 |}.

(** A tile header without a projective transform whose first coordinate
    is [first] all the same. *)
Definition untransformed (first : Z) : TileHeader.t :=
  {| TileHeader.all_default := false;
     TileHeader.have_projective_transform := false;
     TileHeader.projective_transform_params := coords first 1;
     TileHeader.extensions := 0 |}.

(** A tile header with a projective transform and a coordinate that does
    not fit the eight raw bits of its table. *)
Definition too_wide : TileHeader.t :=
  {| TileHeader.all_default := false;
     TileHeader.have_projective_transform := true;
     TileHeader.projective_transform_params := coords 300 1;
     TileHeader.extensions := 0 |}.

(** A file header of a 1920 x 1080 image with two bytes of EXIF. *)
Definition full_hd : FileHeader.t :=
  {| FileHeader.signature := FileHeader.kSignature;
     FileHeader.xsize_minus_1 := 1919;
     FileHeader.ysize_minus_1 := 1079;
     FileHeader.metadata :=
       {| exif := [Byte.x01; Byte.x02]; iptc := []; xmp := [] |};
     FileHeader.preview := Preview.Default;
     FileHeader.animation := Animation.Default;
     FileHeader.extensions := 0 |}.

(** A file header with the largest width that can be stored. *)
Definition widest : FileHeader.t :=
  FileHeader.set_xsize_minus_1 4294967295 full_hd.

(** A stream that starts with a 32-bit field of value 5. *)
Definition wrong_signature : Bits := bits_of_Z 2 0 ++ bits_of_Z 32 5 ++ [true].



Definition writer (extension_bits : Z) : WriteVisitor :=
  {| storage := []; w_ok := StatusOk; w_extension_bits := extension_bits;
     w_depth := O |}.

End HeaderExamples.

(** ** The PNG adapter: metadata blobs *)

Module PngExamples.

Definition chunk_of (type : string) (payload : PaddedBytes) : Chunk :=
  {| chunk_type := cstr type; chunk_payload := payload; chunk_crc_ok := true |}.

Definition no_metadata : Metadata := {| exif := []; iptc := []; xmp := [] |}.

(** Four eXIf chunks of 2, 3, 3 and 1 bytes between a header and the end
    chunk. *)
Definition exif_chunks : list Chunk :=
  [chunk_of "IHDR" [];
   chunk_of "eXIf" [x01; x02];
   chunk_of "eXIf" [x03; x04; x05];
   chunk_of "eXIf" [x06; x07; x08];
   chunk_of "eXIf" [x09]].

Definition exif_kept : Metadata :=
  {| exif := [x06; x07; x08]; iptc := []; xmp := [] |}.

Definition one_line : cstring :=
  cstr "
exif
       2
10ba
".

End PngExamples.

(** C8, at the input where the code departs from it: the text chunk
    [EncodeBase16] writes for an EXIF blob of 100000000 bytes is refused by
    [DecodeBase16]. The writer prints the byte count with [%8lu], which
    pads to eight characters and prints nine here; the reader scans it with
    [%8lu], which stops after eight, reads 10000000 and then meets the
    ninth digit where the first line should begin. *)
Theorem EncodeBase16_large_blob_is_not_read_back :
  MetadataReaderPNG.DecodeBase16
    (fst (MetadataWriterPNG.EncodeBase16_chunk (cstr "exif")
            (repeat x00 (Z.to_nat 100000000))))
    (snd (MetadataWriterPNG.EncodeBase16_chunk (cstr "exif")
            (repeat x00 (Z.to_nat 100000000)))) =
  Some (PIK_FAILURE "Expected newline", cstr "exif", []).
Proof.
  apply LargeBlob.DecodeBase16_EncodeBase16_chunk_large.
  rewrite repeat_length. apply Z2Nat.id. lia.
Qed.

(** Below [10^8] bytes the base16 text chunk of an EXIF or IPTC blob is
    read back: [DecodeBase16] of what [EncodeBase16] writes yields the
    same type and exactly the same bytes. *)
Theorem DecodeBase16_EncodeBase16 (type : cstring) (bytes : PaddedBytes) :
  type = cstr "exif" \/ type = cstr "iptc" ->
  Z.of_nat (length bytes) < 10 ^ 8 ->
  MetadataReaderPNG.DecodeBase16
    (fst (MetadataWriterPNG.EncodeBase16_chunk type bytes))
    (snd (MetadataWriterPNG.EncodeBase16_chunk type bytes)) =
  Some (StatusOk, type, bytes).
Proof. apply Base16Facts.DecodeBase16_EncodeBase16_chunk. Qed.

Lemma DecodeBase16_EncodeBase16_witness :
  MetadataReaderPNG.DecodeBase16
    (fst (MetadataWriterPNG.EncodeBase16_chunk (cstr "iptc") [x10; xab; xff]))
    (snd (MetadataWriterPNG.EncodeBase16_chunk (cstr "iptc") [x10; xab; xff])) =
  Some (StatusOk, cstr "iptc", [x10; xab; xff]).
Proof.
  apply (DecodeBase16_EncodeBase16 (cstr "iptc") [x10; xab; xff]).
  - right. reflexivity.
  - reflexivity.
Defined.

(** The adapter-level scenario of the spec: an eXIf chunk of 128 bytes and
    a "Raw profile type iptc" text chunk encoding 40 bytes leave a
    metadata whose EXIF blob has 128 bytes and whose IPTC blob has 40, and
    they are the bytes of the chunks. *)
Theorem Decode_exif_128_iptc_40 (payload bytes : PaddedBytes) (last : Chunk) :
  length payload = 128%nat -> length bytes = 40%nat ->
  exists m1 m2,
    MetadataReaderPNG.Decode
      {| text := [MetadataWriterPNG.EncodeBase16_chunk (cstr "iptc") bytes];
         itext := [] |} PngExamples.no_metadata = Some (StatusOk, m1) /\
    ColorEncodingReaderPNG.Decode
      [PngExamples.chunk_of "eXIf" payload; last] m1 = Some (StatusOk, m2) /\
    exif m2 = payload /\ iptc m2 = bytes /\
    length (exif m2) = 128%nat /\ length (iptc m2) = 40%nat.
Proof.
  intros Hp Hb.
  exists {| exif := []; iptc := bytes; xmp := [] |},
         {| exif := payload; iptc := bytes; xmp := [] |}.
  split; [|split].
  - unfold MetadataReaderPNG.Decode.
    cbn [text itext MetadataReaderPNG.Decode_itext MetadataReaderPNG.Decode_text].
    pose proof (Base16Facts.DecodeBase16_EncodeBase16_chunk (cstr "iptc") bytes
                  (or_intror eq_refl)) as E.
    destruct (MetadataWriterPNG.EncodeBase16_chunk (cstr "iptc") bytes)
      as [key value].
    cbn [fst snd] in E. rewrite E by (rewrite Hb; reflexivity).
    reflexivity.
  - cbn [ColorEncodingReaderPNG.Decode PngExamples.chunk_of chunk_type
         chunk_payload chunk_crc_ok].
    change (ColorEncodingReaderPNG.is_colorimetry_or_metadata (cstr "eXIf"))
      with true.
    change (cstring_eqb (cstr "eXIf") (cstr "eXIf")) with true.
    cbv iota. cbn [negb].
    rewrite ExifFacts.DecodeEXIF_spec. cbn [exif length Nat.leb iptc xmp].
    destruct (ColorEncodingReaderPNG.is_colorimetry_or_metadata (chunk_type last));
      reflexivity.
  - cbn [exif iptc]. auto.
Qed.

Lemma Decode_exif_128_iptc_40_witness :
  exists m1 m2,
    MetadataReaderPNG.Decode
      {| text := [MetadataWriterPNG.EncodeBase16_chunk (cstr "iptc")
                    (repeat x2a 40)];
         itext := [] |} PngExamples.no_metadata = Some (StatusOk, m1) /\
    ColorEncodingReaderPNG.Decode
      [PngExamples.chunk_of "eXIf" (repeat x4d 128);
       PngExamples.chunk_of "IEND" []] m1 = Some (StatusOk, m2) /\
    exif m2 = repeat x4d 128 /\ iptc m2 = repeat x2a 40 /\
    length (exif m2) = 128%nat /\ length (iptc m2) = 40%nat.
Proof.
  apply (Decode_exif_128_iptc_40 (repeat x4d 128) (repeat x2a 40)
           (PngExamples.chunk_of "IEND" [])); reflexivity.
Defined.

(** C10: the base16 coder stores each byte low nibble first, in lowercase
    hexadecimal digits. The lines [EncodeBase16] builds are, per byte, the
    digit of [b & 0x0F] then the digit of [b >> 4]; [DecodeNibble] accepts
    the sixteen lowercase digits and nothing else, uppercase digits
    included; the decoding loop rebuilds a byte as
    [(second nibble << 4) + first nibble]; and whenever [DecodeBase16]
    succeeds, the text after the header is exactly the lowercase lines of
    the bytes it returns, so any other character makes it fail. *)
Theorem base16_low_nibble_first :
  (forall bytes,
     MetadataWriterPNG.EncodeBase16_loop 0 bytes [] = Base16Lines 0 bytes) /\
  (forall b,
     MetadataWriterPNG.EncodeBase16_loop 0 [b] [] =
     [newline; hex_digit (Z.land (u8 b) 15); hex_digit (Z.shiftr (u8 b) 4)]) /\
  (forall c,
     MetadataReaderPNG.DecodeNibble c =
     match hex_value c with
     | Some n => (StatusOk, n)
     | None => (PIK_FAILURE "Invalid metadata nibble", 0)
     end) /\
  map hex_value (cstr "ABCDEF") = [None; None; None; None; None; None] /\
  (forall c0 c1 tail,
     tail <> [] ->
     MetadataReaderPNG.DecodeBase16_loop 1 0 (newline :: c0 :: c1 :: tail) [] =
     match hex_value c0, hex_value c1 with
     | Some nibble0, Some nibble1 =>
         (StatusOk, tail, [to_u8 (Z.shiftl nibble1 4 + nibble0)])
     | _, _ =>
         (PIK_FAILURE "Invalid metadata nibble", c0 :: c1 :: tail, [])
     end) /\
  (forall key encoded type bytes,
     MetadataReaderPNG.DecodeBase16 key encoded = Some (StatusOk, type, bytes) ->
     exists header_len,
       skipn header_len encoded = Base16Lines 0 bytes ++ [newline]).
Proof.
  split; [|split; [|split; [|split; [|split]]]].
  - intros bytes. rewrite EncodeBase16_loop_lines. reflexivity.
  - intros b. rewrite EncodeBase16_loop_lines. reflexivity.
  - apply DecodeNibble_spec.
  - reflexivity.
  - intros c0 c1 tail Htail.
    cbn [MetadataReaderPNG.DecodeBase16_loop].
    change (0 mod 36 =? 0) with true. cbv iota.
    assert (H1 : (length (newline :: c0 :: c1 :: tail) <=? 1)%nat = false)
      by reflexivity.
    assert (H2 : (length (c0 :: c1 :: tail) <=? 2)%nat = false)
      by (destruct tail; [contradiction|reflexivity]).
    rewrite H1, ascii_eqb_refl, H2, !DecodeNibble_spec.
    destruct (hex_value c0), (hex_value c1); reflexivity.
  - intros key encoded type bytes E.
    unfold MetadataReaderPNG.DecodeBase16 in E.
    destruct (negb _); [discriminate|].
    destruct (_ <? _)%nat; [discriminate|].
    destruct (MetadataReaderPNG.sscanf_header _ _) as [[[n header_len]|]|];
      try discriminate.
    destruct (MetadataReaderPNG.DecodeBase16_loop _ _ _ _) as [[s pos] out] eqn:El.
    destruct s; [|discriminate].
    apply DecodeBase16_loop_inv in El as (new & -> & _ & Hpos).
    destruct (negb _) eqn:Hl; [discriminate|].
    apply negb_false_iff, Nat.eqb_eq in Hl.
    destruct pos as [|c [|c' pos]]; try discriminate.
    destruct (ascii_eqb c newline) eqn:Hc; [|discriminate].
    injection E as <- <-.
    exists (Z.to_nat header_len). rewrite Hpos.
    apply ascii_eqb_eq in Hc. subst c. reflexivity.
Qed.

Lemma base16_low_nibble_first_witness :
  exists header_len,
    skipn header_len PngExamples.one_line =
    Base16Lines 0 [x01; xab] ++ [newline].
Proof.
  apply (proj2 (proj2 (proj2 (proj2 (proj2 base16_low_nibble_first))))
           (cstr "Raw profile type exif") PngExamples.one_line
           (cstr "exif") [x01; xab]).
  reflexivity.
Defined.

(** * The headers *)

Lemma TileHeader_read_canonical `{Externals} (h : TileHeader.t) :
  TileHeader_Canonical h -> TileHeader_read 0 h = h.
Proof.
  intros (_ & _ & _ & He). unfold TileHeader_read.
  destruct (TileHeader.AllDefaultFields h); [reflexivity|].
  destruct h; simpl in *. subst. reflexivity.
Qed.

Lemma GroupHeader_read_canonical `{Externals} (h : GroupHeader.t) :
  GroupHeader_Canonical h -> GroupHeader_read 0 h = h.
Proof.
  intros (_ & _ & _ & _ & _ & He). unfold GroupHeader_read.
  destruct (GroupHeader.AllDefaultFields h); [reflexivity|].
  destruct h; simpl in *. subst. reflexivity.
Qed.

Lemma PassHeader_set_extensions_canonical `{Externals} (h : PassHeader.t) :
  PassHeader.extensions h = 0 -> PassHeader.set_extensions 0 h = h.
Proof. intros He. destruct h; simpl in *. subst. reflexivity. Qed.

Lemma FileHeader_set_extensions_canonical `{Externals} (h : FileHeader.t) :
  FileHeader.extensions h = 0 -> FileHeader.set_extensions 0 h = h.
Proof. intros He. destruct h; simpl in *. subst. reflexivity. Qed.

Lemma if_same_payload (b : bool) (payload : Bits) (n : Z) :
  payload = [] -> n = 0 ->
  if b then payload = [] else Z.of_nat (length payload) = n.
Proof. intros -> ->. destruct b; reflexivity. Qed.

(** C1 (as amended): a header that is written without failure and holds
    nothing the field list leaves out -- its [all_default] flag says
    whether its fields are all default, the fields behind a false
    condition are at their defaults, its arrays have their declared
    lengths, its extension count is zero and its nested [EpfParams] and
    [Metadata] round-trip -- is read back from what was written, field by
    field, by a decoder that starts from a fresh header with the same
    non-serialized context; the decoder stops at the end of the header. *)
Theorem header_round_trip `{Externals} :
  (forall (h : TileHeader.t) (rest : Bits),
     TileHeader_Canonical h ->
     fst (WriteTileHeader h 0 []) = StatusOk ->
     ReadTileHeader (snd (WriteTileHeader h 0 []) ++ rest) TileHeader.Default =
     (StatusOk, h, rest)) /\
  (forall (h : GroupHeader.t) (rest : Bits),
     GroupHeader_Canonical h ->
     fst (WriteGroupHeader h 0 []) = StatusOk ->
     ReadGroupHeader (snd (WriteGroupHeader h 0 []) ++ rest)
       (GroupHeader.Defaults h) =
     (StatusOk, h, rest)) /\
  (forall (h : PassHeader.t) (rest : Bits),
     PassHeader_Canonical h ->
     ((PassHeader.encoding h =? ImageEncoding.kPasses) = true ->
      PassHeader.have_adaptive_reconstruction h = true ->
      NestedRoundTrip EpfParams_VisitFields EpfParams_Default
        (PassHeader.epf_params h)) ->
     fst (WritePassHeader h 0 []) = StatusOk ->
     ReadPassHeader (snd (WritePassHeader h 0 []) ++ rest) (PassHeader_Blank h) =
     (StatusOk, h, rest)) /\
  (forall (h : FileHeader.t) (rest : Bits),
     FileHeader_Canonical h ->
     NestedRoundTrip Metadata_VisitFields Metadata_Default
       (FileHeader.metadata h) ->
     fst (WriteFileHeader h 0 []) = StatusOk ->
     ReadFileHeader (snd (WriteFileHeader h 0 []) ++ rest) FileHeader.Default =
     (StatusOk, h, rest)).
Proof.
  repeat split.
  - intros h rest Hc Hw.
    apply (ReadFields_WriteFields TileHeader.VisitFields h TileHeader.Default
             h 0 [] ) with (rest := rest) in Hw; [exact Hw|].
    eapply RoundTrip_consequence;
      [apply (TileHeader_RoundTrip 0 0 [] h Hc);
       apply if_same_payload; reflexivity|].
    intros a b [-> ->]. cbn [ext_count].
    rewrite (TileHeader_read_canonical h Hc). auto.
  - intros h rest Hc Hw.
    apply (ReadFields_WriteFields GroupHeader.VisitFields h
             (GroupHeader.Defaults h) h 0 []) with (rest := rest) in Hw;
      [exact Hw|].
    eapply RoundTrip_consequence;
      [apply (GroupHeader_RoundTrip 0 0 [] h Hc);
       apply if_same_payload; reflexivity|].
    intros a b [-> ->]. cbn [ext_count].
    rewrite (GroupHeader_read_canonical h Hc). auto.
  - intros h rest Hc Hepf Hw.
    apply (ReadFields_WriteFields PassHeader.VisitFields h (PassHeader_Blank h)
             h 0 []) with (rest := rest) in Hw; [exact Hw|].
    assert (He : PassHeader.extensions h = 0) by apply Hc.
    eapply RoundTrip_consequence;
      [apply (PassHeader_RoundTrip 0 0 [] h Hc Hepf); reflexivity|].
    intros a b [-> ->]. cbn [ext_count].
    rewrite (PassHeader_set_extensions_canonical h He). auto.
  - intros h rest Hc Hm Hw.
    apply (ReadFields_WriteFields FileHeader.VisitFields h FileHeader.Default
             h 0 []) with (rest := rest) in Hw; [exact Hw|].
    assert (He : FileHeader.extensions h = 0) by apply Hc.
    eapply RoundTrip_consequence;
      [apply (FileHeader_RoundTrip 0 0 [] h Hc Hm); reflexivity|].
    intros a b [-> ->]. cbn [ext_count].
    rewrite (FileHeader_set_extensions_canonical h He). auto.
Qed.

(** C2: under every visitor -- the decoder among them -- when the value
    the visitor leaves in the signature field is not [kSignature], the
    field list of [FileHeader] returns a signature-mismatch failure right
    after that one [U32] operation: no other operation is performed, the
    header is as it was but for its signature, and the visitor is as that
    operation left it. So [ReadFileHeader] fails with that error on every
    stream whose first field decodes to another value, with every other
    field of the header untouched. *)
Theorem signature_mismatch_is_immediate `{Externals} :
  (forall (V : Type) (HV : Visitor V) (h : FileHeader.t) (v : V),
     let r := visit (OpU32 (wrap32 (kU32RawBits + 32)) FileHeader.kSignature
                       (FileHeader.signature h)) v in
     (fst r =? FileHeader.kSignature) = false ->
     Visit (FileHeader.VisitFields h) v =
     ((PIK_FAILURE "Signature mismatch", FileHeader.set_signature (fst r) h),
      snd r) /\
     Trace (FileHeader.VisitFields h) v = [EvU32]) /\
  (forall (bits : Bits) (h : FileHeader.t),
     let r := r_U32 (wrap32 (kU32RawBits + 32))
                {| reader := bits; r_ok := StatusOk; r_extensions := [] |} in
     (fst r =? FileHeader.kSignature) = false ->
     ReadFileHeader bits h =
     (PIK_FAILURE "Signature mismatch", FileHeader.set_signature (fst r) h,
      reader (snd r))).
Proof.
  assert (Hgen : forall (V : Type) (HV : Visitor V) (h : FileHeader.t) (v : V),
     let r := visit (OpU32 (wrap32 (kU32RawBits + 32)) FileHeader.kSignature
                       (FileHeader.signature h)) v in
     (fst r =? FileHeader.kSignature) = false ->
     Visit (FileHeader.VisitFields h) v =
     ((PIK_FAILURE "Signature mismatch", FileHeader.set_signature (fst r) h),
      snd r) /\
     Trace (FileHeader.VisitFields h) v = [EvU32]).
  { intros V HV h v r Hne. subst r.
    unfold FileHeader.VisitFields, U32.
    rewrite Visit_bind, Trace_bind, Trace_call, Visit_call.
    destruct (visit _ v) as [sig v1]. cbn [fst snd] in *. cbv zeta.
    destruct h as [s0 xs ys md pv an e].
    cbn [FileHeader.signature FileHeader.set_signature] in *.
    rewrite Hne. cbn [negb Visit Trace event_of app]. auto. }
  split; [exact Hgen|].
  intros bits h r Hne. unfold ReadFileHeader, ReadFields.
  destruct (Hgen ReadVisitor _ h
              {| reader := bits; r_ok := StatusOk; r_extensions := [] |} Hne)
    as [Hv _].
  rewrite Hv. reflexivity.
Qed.

(** C3 (as amended): a tile header or a group header whose fields are all
    default -- a freshly constructed one in particular -- is written as
    the single bit 1. A pass header and a file header have no such
    elision: whatever it holds, a pass header is written as its size, its
    [has_alpha] and [is_last] bits and more, and a file header that is
    written without failure begins with its signature field, two bits at
    least. *)
Theorem all_default_is_one_bit `{Externals} :
  (forall (h : TileHeader.t) (ext : Z) (storage0 : Bits),
     TileHeader.AllDefaultFields h = true ->
     WriteTileHeader h ext storage0 = (StatusOk, storage0 ++ [true])) /\
  (forall (h : GroupHeader.t) (ext : Z) (storage0 : Bits),
     GroupHeader.AllDefaultFields h = true ->
     WriteGroupHeader h ext storage0 = (StatusOk, storage0 ++ [true])) /\
  TileHeader.AllDefaultFields TileHeader.Default = true /\
  (forall have_alpha : bool,
     GroupHeader.AllDefaultFields
       (GroupHeader.set_nonserialized_have_alpha have_alpha GroupHeader.Default) =
     true) /\
  (forall (h : PassHeader.t) (ext : Z),
     exists rest,
       snd (WritePassHeader h ext []) =
       U64_Write (PassHeader.size h) ++
       PassHeader.has_alpha h :: PassHeader.is_last h :: rest) /\
  (forall (h : FileHeader.t) (ext : Z),
     fst (WriteFileHeader h ext []) = StatusOk ->
     exists sig rest,
       U32Coder.Write (Distribution_of (wrap32 (kU32RawBits + 32)))
         (FileHeader.signature h) = Some sig /\
       snd (WriteFileHeader h ext []) = sig ++ rest /\
       (2 <= length sig)%nat).
Proof.
  split; [exact WriteTileHeader_AllDefault|].
  split; [exact WriteGroupHeader_AllDefault|].
  split; [exact TileHeader_Default_AllDefault|].
  split; [exact GroupHeader_Default_AllDefault|].
  split; [|exact WriteFileHeader_signature_first].
  intros h ext. destruct (WritePassHeader_two_bits h ext) as [rest Hr].
  exists rest. rewrite <- Hr. unfold WritePassHeader, WriteFields.
  match goal with
  | |- context [Visit ?p ?w] =>
      pose proof (storage_written p w) as Hs; destruct (Visit p w) as [[s h'] w1]
  end.
  exact Hs.
Qed.

(** C4 (as amended): under every visitor, the field lists of [TileHeader]
    and [GroupHeader] begin with [AllDefault] and perform it exactly once
    for the header itself (the calls made for nested headers are theirs);
    so do those of the nested [FrameInfo], [Preview] and [Animation]. The
    field list of [PassHeader] begins with the [U64] of its size and that
    of [FileHeader] with the [U32] of its signature, followed by the [U32]
    of its width: neither calls [AllDefault] before its fields. *)
Theorem AllDefault_comes_first_and_once `{Externals} (V : Type) (HV : Visitor V)
    (v : V) :
  (forall h : TileHeader.t,
     (exists t, Trace (TileHeader.VisitFields h) v = EvAllDefault :: t) /\
     count_event EvAllDefault
       (own_events 0 (Trace (TileHeader.VisitFields h) v)) = 1%nat) /\
  (forall h : GroupHeader.t,
     (exists t, Trace (GroupHeader.VisitFields h) v = EvAllDefault :: t) /\
     count_event EvAllDefault
       (own_events 0 (Trace (GroupHeader.VisitFields h) v)) = 1%nat) /\
  (forall h : FrameInfo.t,
     (exists t, Trace (FrameInfo.VisitFields h) v = EvAllDefault :: t) /\
     count_event EvAllDefault
       (own_events 0 (Trace (FrameInfo.VisitFields h) v)) = 1%nat) /\
  (forall h : Preview.t,
     (exists t, Trace (Preview.VisitFields h) v = EvAllDefault :: t) /\
     count_event EvAllDefault
       (own_events 0 (Trace (Preview.VisitFields h) v)) = 1%nat) /\
  (forall h : Animation.t,
     (exists t, Trace (Animation.VisitFields h) v = EvAllDefault :: t) /\
     count_event EvAllDefault
       (own_events 0 (Trace (Animation.VisitFields h) v)) = 1%nat) /\
  (forall h : PassHeader.t,
     exists t, Trace (PassHeader.VisitFields h) v = EvU64 :: t) /\
  (forall h : FileHeader.t,
     Trace (FileHeader.VisitFields h) v = [EvU32] \/
     exists t, Trace (FileHeader.VisitFields h) v = EvU32 :: EvU32 :: t).
Proof.
  repeat split.
  - apply (Trace_first (OpAllDefault _ _ _)).
  - apply Own_count, TileHeader_Own.
  - apply (Trace_first (OpAllDefault _ _ _)).
  - apply Own_count, GroupHeader_Own.
  - apply (Trace_first (OpAllDefault _ _ _)).
  - apply Own_count, FrameInfo_Own.
  - apply (Trace_first (OpAllDefault _ _ _)).
  - apply Own_count, Preview_Own.
  - apply (Trace_first (OpAllDefault _ _ _)).
  - apply Own_count, Animation_Own.
  - intros h. apply (Trace_first (OpU64 _ _)).
  - intros h. unfold FileHeader.VisitFields, U32.
    rewrite Trace_bind, Trace_call. cbv zeta. cbn [event_of app].
    destruct (negb _).
    + left. reflexivity.
    + right. rewrite Trace_bind, Trace_call. cbn [event_of app].
      eexists. reflexivity.
Qed.


(** C6 (as amended): the oracle fails when a field that the encoder
    visits holds a value that no alternative of its table represents (a
    field behind a false condition is not visited and is not checked);
    and, failing or not, it reports the status of the writer, no extension
    bits, and as [total_bits] the exact number of bits the writer
    produces. *)
Theorem CanEncode_agrees_with_Write `{Externals} :
  (forall h : TileHeader.t,
     forallb Representable (EncoderVisits (TileHeader.VisitFields h)) = false ->
     IsOk (fst (fst (CanEncodeTileHeader h))) = false) /\
  (forall h : GroupHeader.t,
     forallb Representable (EncoderVisits (GroupHeader.VisitFields h)) = false ->
     IsOk (fst (fst (CanEncodeGroupHeader h))) = false) /\
  (forall h : PassHeader.t,
     forallb Representable (EncoderVisits (PassHeader.VisitFields h)) = false ->
     IsOk (fst (fst (CanEncodePassHeader h))) = false) /\
  (forall h : FileHeader.t,
     forallb Representable (EncoderVisits (FileHeader.VisitFields h)) = false ->
     IsOk (fst (fst (CanEncodeFileHeader h))) = false) /\
  (forall h : TileHeader.t,
     CanEncodeTileHeader h =
     (fst (WriteTileHeader h 0 []), 0,
      Z.of_nat (length (snd (WriteTileHeader h 0 []))))) /\
  (forall h : GroupHeader.t,
     CanEncodeGroupHeader h =
     (fst (WriteGroupHeader h 0 []), 0,
      Z.of_nat (length (snd (WriteGroupHeader h 0 []))))) /\
  (forall h : PassHeader.t,
     (forall e, Agree 1 (EpfParams_VisitFields e)) ->
     CanEncodePassHeader h =
     (fst (WritePassHeader h 0 []), 0,
      Z.of_nat (length (snd (WritePassHeader h 0 []))))) /\
  (forall h : FileHeader.t,
     (forall m, Agree 1 (Metadata_VisitFields m)) ->
     CanEncodeFileHeader h =
     (fst (WriteFileHeader h 0 []), 0,
      Z.of_nat (length (snd (WriteFileHeader h 0 []))))).
Proof.
  repeat split.
  - intros h. apply CanEncodeFields_fails.
  - intros h. apply CanEncodeFields_fails.
  - intros h. apply CanEncodeFields_fails.
  - intros h. apply CanEncodeFields_fails.
  - intros h. apply CanEncodeFields_WriteFields, TileHeader_Agree.
  - intros h. apply CanEncodeFields_WriteFields, GroupHeader_Agree.
  - intros h He. apply CanEncodeFields_WriteFields, PassHeader_Agree, He.
  - intros h Hm. apply CanEncodeFields_WriteFields, FileHeader_Agree, Hm.
Qed.

(** The examples below run on the instance of the collaborators. *)
#[local] Existing Instance Example.externals.

(** C7: the width and height are the stored values plus one in 32-bit
    arithmetic: one for a stored zero, and zero for the largest stored
    value, which the field's table admits (32 raw bits) and which is
    written and read back as it is. *)
Theorem xsize_wraps_to_zero :
  (forall h : FileHeader.t,
     FileHeader.xsize h = (FileHeader.xsize_minus_1 h + 1) mod 2 ^ 32 /\
     FileHeader.ysize h = (FileHeader.ysize_minus_1 h + 1) mod 2 ^ 32) /\
  FileHeader.xsize (FileHeader.set_xsize_minus_1 0 HeaderExamples.full_hd) = 1 /\
  FileHeader.ysize (FileHeader.set_ysize_minus_1 0 HeaderExamples.full_hd) = 1 /\
  FileHeader.xsize HeaderExamples.widest = 0 /\
  fst (WriteFileHeader HeaderExamples.widest 0 []) = StatusOk /\
  ReadFileHeader (snd (WriteFileHeader HeaderExamples.widest 0 []))
    FileHeader.Default =
  (StatusOk, HeaderExamples.widest, []).
Proof.
  split; [intros h; split; reflexivity|].
  repeat split; vm_compute; reflexivity.
Qed.

(** A tile header with a projective transform, and a file header with
    metadata, are read back from what was written. *)
Lemma header_round_trip_witness :
  (TileHeader_Canonical HeaderExamples.transformed /\
   fst (WriteTileHeader HeaderExamples.transformed 0 []) = StatusOk /\
   ReadTileHeader
     (snd (WriteTileHeader HeaderExamples.transformed 0 []) ++ [true; true])
     TileHeader.Default =
   (StatusOk, HeaderExamples.transformed, [true; true])) /\
  (FileHeader_Canonical HeaderExamples.full_hd /\
   fst (WriteFileHeader HeaderExamples.full_hd 0 []) = StatusOk /\
   ReadFileHeader
     (snd (WriteFileHeader HeaderExamples.full_hd 0 []) ++ [true; true])
     FileHeader.Default =
   (StatusOk, HeaderExamples.full_hd, [true; true])).
Proof.
  destruct (@header_round_trip Example.externals) as (Ht & _ & _ & Hf).
  assert (Hc : TileHeader_Canonical HeaderExamples.transformed).
  { repeat split; try reflexivity. intros E. discriminate E. }
  assert (Hw : fst (WriteTileHeader HeaderExamples.transformed 0 []) = StatusOk)
    by (vm_compute; reflexivity).
  assert (Hc' : FileHeader_Canonical HeaderExamples.full_hd)
    by (repeat split; reflexivity).
  assert (Hw' : fst (WriteFileHeader HeaderExamples.full_hd 0 []) = StatusOk)
    by (vm_compute; reflexivity).
  split.
  - split; [exact Hc|]. split; [exact Hw|]. apply Ht; [exact Hc|exact Hw].
  - split; [exact Hc'|]. split; [exact Hw'|].
    apply Hf; [exact Hc'| |exact Hw'].
    apply ExampleFacts.MetadataFields_NestedRoundTrip; vm_compute; reflexivity.
Defined.

(** A tile header without a projective transform whose first coordinate is
    2: every field is representable and it is written without failure, but
    the coordinates are not written and the decoder leaves the default 1. *)
Lemma round_trip_loses_unvisited_fields :
  forallb
    (fun c =>
       match U32Coder.CanEncode (Distribution_of (wrap32 (kU32RawBits + 8))) c with
       | Some _ => true
       | None => false
       end)
    (ProjectiveTransformParams.corner_coords
       (TileHeader.projective_transform_params (HeaderExamples.untransformed 2))) =
  true /\
  WriteTileHeader (HeaderExamples.untransformed 2) 0 [] =
  (StatusOk, [false; false; false; false]) /\
  ReadTileHeader [false; false; false; false] TileHeader.Default =
  (StatusOk, HeaderExamples.untransformed 1, []) /\
  nth 0 (ProjectiveTransformParams.corner_coords
           (TileHeader.projective_transform_params
              (HeaderExamples.untransformed 2))) 0 = 2 /\
  nth 0 (ProjectiveTransformParams.corner_coords
           (TileHeader.projective_transform_params
              (HeaderExamples.untransformed 1))) 0 = 1.
Proof. repeat split; vm_compute; reflexivity. Qed.

(** A stream whose first field is 5. *)
Lemma signature_mismatch_is_immediate_witness :
  ReadFileHeader HeaderExamples.wrong_signature FileHeader.Default =
  (PIK_FAILURE "Signature mismatch",
   FileHeader.set_signature 5 FileHeader.Default, [true]).
Proof.
  apply (proj2 (@signature_mismatch_is_immediate Example.externals)
           HeaderExamples.wrong_signature FileHeader.Default).
  vm_compute. reflexivity.
Defined.

(** The freshly constructed tile header is one bit. *)
Lemma all_default_is_one_bit_witness :
  TileHeader.AllDefaultFields TileHeader.Default = true /\
  WriteTileHeader TileHeader.Default 0 [] = (StatusOk, [true]).
Proof.
  split; [reflexivity|].
  apply (proj1 (@all_default_is_one_bit Example.externals)
           TileHeader.Default 0 []).
  reflexivity.
Defined.

(** The freshly constructed pass header and file header are written
    without failure, as 88 and 252 bits. *)
Lemma default_pass_and_file_headers_are_long :
  fst (WritePassHeader PassHeader.Default 0 []) = StatusOk /\
  length (snd (WritePassHeader PassHeader.Default 0 [])) = 88%nat /\
  fst (WriteFileHeader FileHeader.Default 0 []) = StatusOk /\
  length (snd (WriteFileHeader FileHeader.Default 0 [])) = 252%nat.
Proof. repeat split; vm_compute; reflexivity. Qed.

(** The encoder never calls [AllDefault] for a pass header or a file
    header themselves; their first operations are those of the size and
    of the signature. *)
Lemma pass_and_file_headers_call_no_AllDefault :
  count_event EvAllDefault
    (own_events 0
       (Trace (PassHeader.VisitFields PassHeader.Default)
          (HeaderExamples.writer 0))) = 0%nat /\
  count_event EvAllDefault
    (own_events 0
       (Trace (FileHeader.VisitFields FileHeader.Default)
          (HeaderExamples.writer 0))) = 0%nat /\
  firstn 3 (Trace (PassHeader.VisitFields PassHeader.Default)
              (HeaderExamples.writer 0)) = [EvU64; EvBool; EvBool] /\
  firstn 3 (Trace (FileHeader.VisitFields FileHeader.Default)
              (HeaderExamples.writer 0)) = [EvU32; EvU32; EvU32].
Proof. repeat split; vm_compute; reflexivity. Qed.



(** The oracle fails on a visited coordinate of 300, and counts the 272
    bits of the file header. *)
Lemma CanEncode_agrees_with_Write_witness :
  (forallb Representable
     (EncoderVisits (TileHeader.VisitFields HeaderExamples.too_wide)) = false /\
   IsOk (fst (fst (CanEncodeTileHeader HeaderExamples.too_wide))) = false) /\
  CanEncodeFileHeader HeaderExamples.full_hd = (StatusOk, 0, 272) /\
  WriteFileHeader HeaderExamples.full_hd 0 [] =
  (StatusOk, snd (WriteFileHeader HeaderExamples.full_hd 0 [])) /\
  length (snd (WriteFileHeader HeaderExamples.full_hd 0 [])) = 272%nat.
Proof.
  destruct (@CanEncode_agrees_with_Write Example.externals)
    as (Ht & _ & _ & _ & _ & _ & _ & Hf).
  assert (Hrep : forallb Representable
            (EncoderVisits (TileHeader.VisitFields HeaderExamples.too_wide)) =
          false) by (vm_compute; reflexivity).
  split; [split; [exact Hrep|apply Ht; exact Hrep]|].
  split; [|split; vm_compute; reflexivity].
  rewrite (Hf HeaderExamples.full_hd
             (fun m => ExampleFacts.MetadataFields_Agree 1 m)).
  vm_compute. reflexivity.
Defined.

(** A tile header without a projective transform whose first coordinate is
    300: no alternative of the coordinate's table represents it, and the
    oracle succeeds, with the four bits that the writer produces. *)
Lemma CanEncode_ignores_unvisited_fields :
  nth 0 (ProjectiveTransformParams.corner_coords
           (TileHeader.projective_transform_params
              (HeaderExamples.untransformed 300))) 0 = 300 /\
  U32Coder.CanEncode (Distribution_of (wrap32 (kU32RawBits + 8))) 300 = None /\
  CanEncodeTileHeader (HeaderExamples.untransformed 300) = (StatusOk, 0, 4) /\
  WriteTileHeader (HeaderExamples.untransformed 300) 0 [] =
  (StatusOk, [false; false; false; false]).
Proof. repeat split; vm_compute; reflexivity. Qed.

(** * More of codec_png.cc *)

(** ** The metadata reader and writer as a pair *)

Module MetadataFacts.
Import HeaderFacts Base16Facts.

Definition kXmpKey : cstring := cstr "XML:com.adobe.xmp".

(** The types [Decode] stores a blob for. *)
Definition stored_type (type : cstring) : bool :=
  cstring_eqb type (cstr "exif") || cstring_eqb type (cstr "iptc") ||
  cstring_eqb type (cstr "xmp").

(** No byte of the blob is NUL. *)
Definition no_nul (b : PaddedBytes) : bool :=
  forallb (fun x => negb (u8 x =? 0)) b.

Lemma u8_zero (x : byte) : u8 x = 0 -> x = x00.
Proof. intros E. apply u8_inj. rewrite E. reflexivity. Qed.

(** [c_str] keeps the bytes before the first NUL. *)
Lemma c_str_prefix (pre post : PaddedBytes) :
  no_nul pre = true ->
  bytes_of_cstring (c_str (pre ++ x00 :: post)) = pre.
Proof.
  unfold bytes_of_cstring. induction pre as [|x pre IH]; intros Hpre.
  - reflexivity.
  - simpl in Hpre. apply andb_true_iff in Hpre as [Hx Hpre].
    apply negb_true_iff, Z.eqb_neq in Hx.
    cbn [app c_str].
    destruct x; try (exfalso; apply Hx; reflexivity);
      cbn [map]; rewrite byte_of_ascii_of_byte, (IH Hpre); reflexivity.
Qed.

Lemma c_str_no_nul (b : PaddedBytes) :
  no_nul b = true -> bytes_of_cstring (c_str b) = b.
Proof.
  unfold bytes_of_cstring. induction b as [|x b IH]; intros Hb.
  - reflexivity.
  - simpl in Hb. apply andb_true_iff in Hb as [Hx Hb].
    apply negb_true_iff, Z.eqb_neq in Hx.
    cbn [c_str].
    destruct x; try (exfalso; apply Hx; reflexivity);
      cbn [map]; rewrite byte_of_ascii_of_byte, (IH Hb); reflexivity.
Qed.

Lemma Decode_text_app (a b : list (cstring * cstring)) :
  forall m,
    MetadataReaderPNG.Decode_text (a ++ b) m =
    match MetadataReaderPNG.Decode_text a m with
    | Some m' => MetadataReaderPNG.Decode_text b m'
    | None => None
    end.
Proof.
  induction a as [|[key value] a IH]; intros m; cbn [app MetadataReaderPNG.Decode_text].
  - reflexivity.
  - destruct (MetadataReaderPNG.DecodeBase16 key value) as [[[[|msg] type] bytes]|];
      [|apply IH|reflexivity].
    destruct (cstring_eqb type (cstr "exif")); [apply IH|].
    destruct (cstring_eqb type (cstr "iptc")); [apply IH|].
    destruct (cstring_eqb type (cstr "xmp")); apply IH.
Qed.

Lemma Decode_itext_app (a b : list (cstring * cstring)) :
  forall m,
    MetadataReaderPNG.Decode_itext (a ++ b) m =
    MetadataReaderPNG.Decode_itext b (MetadataReaderPNG.Decode_itext a m).
Proof.
  induction a as [|[key value] a IH]; intros m; cbn [app MetadataReaderPNG.Decode_itext].
  - reflexivity.
  - apply IH.
Qed.

(** One text chunk of the writer, read by the loop of the reader. *)
Lemma Decode_text_chunk (type : cstring) (bytes : PaddedBytes) (m : Metadata) :
  is_exif_or_iptc type -> Z.of_nat (length bytes) < 10 ^ 8 ->
  MetadataReaderPNG.Decode_text
    [MetadataWriterPNG.EncodeBase16_chunk type bytes] m =
  Some (if cstring_eqb type (cstr "exif")
        then {| exif := bytes; iptc := iptc m; xmp := xmp m |}
        else {| exif := exif m; iptc := bytes; xmp := xmp m |}).
Proof.
  intros Htype Hlen.
  pose proof (DecodeBase16_EncodeBase16_chunk type bytes Htype Hlen) as E.
  destruct (MetadataWriterPNG.EncodeBase16_chunk type bytes) as [key value].
  cbn [fst snd] in E. cbn [MetadataReaderPNG.Decode_text]. rewrite E.
  destruct Htype as [-> | ->]; reflexivity.
Qed.

(** What [Encode] adds to the text chunks and to the international text
    chunks. *)
Definition text_of (m : Metadata) : list (cstring * cstring) :=
  match exif m with
  | [] => []
  | _ => [MetadataWriterPNG.EncodeBase16_chunk (cstr "exif") (exif m)]
  end ++
  match iptc m with
  | [] => []
  | _ => [MetadataWriterPNG.EncodeBase16_chunk (cstr "iptc") (iptc m)]
  end.

Definition itext_of (m : Metadata) : list (cstring * cstring) :=
  match xmp m with
  | [] => []
  | _ => [(kXmpKey, c_str (xmp m))]
  end.

Lemma Encode_adds (m : Metadata) (info : LodePNGInfo) :
  MetadataWriterPNG.Encode m info =
  (StatusOk,
   {| text := text info ++ text_of m; itext := itext info ++ itext_of m |}).
Proof.
  unfold MetadataWriterPNG.Encode, MetadataWriterPNG.EncodeBase16, text_of,
    itext_of.
  destruct (MetadataWriterPNG.EncodeBase16_chunk (cstr "exif") (exif m))
    as [k1 v1].
  destruct (MetadataWriterPNG.EncodeBase16_chunk (cstr "iptc") (iptc m))
    as [k2 v2].
  destruct info as [t it].
  destruct (exif m), (iptc m), (xmp m);
    unfold MetadataWriterPNG.lodepng_add_text,
      MetadataWriterPNG.lodepng_add_itext;
    cbn [snd text itext app];
    rewrite ?app_nil_r, <- ?app_assoc; reflexivity.
Qed.

(** The blob a field ends with: what was written, or what the decoder
    started with when nothing was written. *)
Definition kept (written before : PaddedBytes) : PaddedBytes :=
  match written with
  | [] => before
  | _ => written
  end.

Lemma Decode_text_of (m m0 : Metadata) :
  Z.of_nat (length (exif m)) < 10 ^ 8 ->
  Z.of_nat (length (iptc m)) < 10 ^ 8 ->
  MetadataReaderPNG.Decode_text (text_of m) m0 =
  Some {| exif := kept (exif m) (exif m0);
          iptc := kept (iptc m) (iptc m0);
          xmp := xmp m0 |}.
Proof.
  intros He Hi. unfold text_of. rewrite Decode_text_app.
  assert (E1 : MetadataReaderPNG.Decode_text
                 match exif m with
                 | [] => []
                 | _ => [MetadataWriterPNG.EncodeBase16_chunk (cstr "exif") (exif m)]
                 end m0 =
               Some {| exif := kept (exif m) (exif m0); iptc := iptc m0;
                       xmp := xmp m0 |}).
  { destruct (exif m) as [|x e] eqn:Ee.
    - destruct m0; reflexivity.
    - rewrite Decode_text_chunk by (try (left; reflexivity); exact He).
      reflexivity. }
  rewrite E1.
  destruct (iptc m) as [|x i] eqn:Ei.
  - reflexivity.
  - rewrite Decode_text_chunk by (try (right; reflexivity); exact Hi).
    reflexivity.
Qed.

Lemma Decode_itext_of (m m0 : Metadata) :
  MetadataReaderPNG.Decode_itext (itext_of m) m0 =
  {| exif := exif m0; iptc := iptc m0;
     xmp := match xmp m with
            | [] => xmp m0
            | _ => bytes_of_cstring (c_str (xmp m))
            end |}.
Proof.
  unfold itext_of. destruct (xmp m); [destruct m0; reflexivity|].
  reflexivity.
Qed.

End MetadataFacts.

(** ** More on the base16 coder *)

Module Base16More.
Import Stdio StdioFacts HeaderFacts Base16Facts.

(** What [DecodeBase16] accepts: the key is "Raw profile type " and a
    type of at most 20 characters, the header yields a byte count, and the
    text after the header is the encoder's lines for as many bytes. *)
Lemma DecodeBase16_inv (key encoded type : cstring) (bytes : PaddedBytes) :
  MetadataReaderPNG.DecodeBase16 key encoded = Some (StatusOk, type, bytes) ->
  firstn (length MetadataReaderPNG.kKey) key = MetadataReaderPNG.kKey /\
  type = skipn (length MetadataReaderPNG.kKey) key /\
  (length type <= MetadataReaderPNG.kMaxTypeLen)%nat /\
  exists bytes_to_decode header_len,
    MetadataReaderPNG.sscanf_header encoded
      (MetadataReaderPNG.header_format type) =
    Some (Some (bytes_to_decode, header_len)) /\
    length bytes = Z.to_nat bytes_to_decode /\
    skipn (Z.to_nat header_len) encoded = Base16Lines 0 bytes ++ [newline].
Proof.
  intros E. unfold MetadataReaderPNG.DecodeBase16 in E.
  destruct (strncmp_eq key MetadataReaderPNG.kKey _) eqn:Hk;
    cbn [negb] in E; [|discriminate].
  destruct (_ <? _)%nat eqn:Hmax; [discriminate|].
  apply Nat.ltb_ge in Hmax.
  destruct (MetadataReaderPNG.sscanf_header _ _) as [[[n header_len]|]|] eqn:Hs;
    try discriminate.
  destruct (MetadataReaderPNG.DecodeBase16_loop _ _ _ _) as [[s pos] out] eqn:El.
  destruct s; [|discriminate].
  apply DecodeBase16_loop_inv in El as (new & -> & Hn & Hpos).
  destruct (negb _) eqn:Hl; [discriminate|].
  apply negb_false_iff, Nat.eqb_eq in Hl.
  destruct pos as [|c [|c' pos]]; try discriminate.
  destruct (ascii_eqb c newline) eqn:Hc; [|discriminate].
  apply ascii_eqb_eq in Hc. subst c.
  assert (Ht : type = skipn (length MetadataReaderPNG.kKey) key) by congruence.
  assert (Hb : bytes = new) by (cbn [app] in E; congruence).
  subst bytes. rewrite <- Ht in *.
  split.
  - unfold strncmp_eq in Hk. apply cstring_eqb_eq in Hk. exact Hk.
  - split; [reflexivity|]. split; [exact Hmax|].
    exists n, header_len. split; [exact Hs|]. split; [exact Hn|exact Hpos].
Qed.

Lemma DivCeil_step (i : Z) :
  0 <= i ->
  MetadataWriterPNG.DivCeil (i + 1) 36 =
  MetadataWriterPNG.DivCeil i 36 + (if i mod 36 =? 0 then 1 else 0).
Proof.
  intros Hi. unfold MetadataWriterPNG.DivCeil.
  pose proof (Z.div_mod i 36 ltac:(lia)) as Hdm.
  pose proof (Z.mod_pos_bound i 36 ltac:(lia)) as Hm.
  destruct (i mod 36 =? 0) eqn:E.
  - apply Z.eqb_eq in E.
    replace (i + 1 + 36 - 1) with (i / 36 * 36 + 36) by lia.
    replace (i + 36 - 1) with (i / 36 * 36 + 35) by lia.
    rewrite !Z.div_add_l by lia.
    change (36 / 36) with 1. change (35 / 36) with 0. lia.
  - apply Z.eqb_neq in E.
    replace (i + 1 + 36 - 1) with ((i / 36 + 1) * 36 + (i mod 36)) by lia.
    replace (i + 36 - 1) with ((i / 36 + 1) * 36 + (i mod 36 - 1)) by lia.
    rewrite !Z.div_add_l by lia.
    rewrite (Z.div_small (i mod 36)) by lia.
    rewrite (Z.div_small (i mod 36 - 1)) by lia. lia.
Qed.

(** The lines of [n] bytes from index [i] on: two digits per byte and a
    newline before every 36th. *)
Lemma length_Base16Lines (bytes : PaddedBytes) :
  forall i, 0 <= i ->
    Z.of_nat (length (Base16Lines i bytes)) =
    2 * Z.of_nat (length bytes) +
    MetadataWriterPNG.DivCeil (i + Z.of_nat (length bytes)) 36 -
    MetadataWriterPNG.DivCeil i 36.
Proof.
  induction bytes as [|b bytes IH]; intros i Hi.
  - cbn [Base16Lines length]. rewrite Z.add_0_r. lia.
  - cbn [Base16Lines]. rewrite length_app. cbn [length].
    rewrite !Nat2Z.inj_add, !Nat2Z.inj_succ, IH by lia.
    replace (i + Z.succ (Z.of_nat (length bytes)))
      with (i + 1 + Z.of_nat (length bytes)) by lia.
    rewrite (DivCeil_step i Hi).
    destruct (i mod 36 =? 0); cbn [length]; lia.
Qed.

Lemma length_Base16Lines_lower (bytes : PaddedBytes) (i : Z) :
  (2 * length bytes <= length (Base16Lines i bytes))%nat.
Proof.
  revert i. induction bytes as [|b bytes IH]; intros i.
  - simpl. lia.
  - cbn [Base16Lines]. rewrite length_app. cbn [length].
    specialize (IH (i + 1)). lia.
Qed.

(** The number of decimal digits of a [size_t]. *)
Lemma length_print_lu (n : Z) :
  0 <= n < 2 ^ 64 -> (1 <= length (print_lu n) <= 20)%nat.
Proof.
  intros Hn. destruct (print_lu_spec n Hn) as (_ & _ & Hne & Hle & _).
  split.
  - destruct (print_lu n); [contradiction|simpl; lia].
  - apply Hle; [lia|]. simpl Z.of_nat.
    assert (2 ^ 64 < 10 ^ 20) by reflexivity. lia.
Qed.

Lemma length_print_lu_width (n : Z) :
  0 <= n < 2 ^ 64 -> (8 <= length (print_lu_width 8 n) <= 20)%nat.
Proof.
  intros Hn. pose proof (length_print_lu n Hn) as Hl.
  unfold print_lu_width. rewrite length_app, repeat_length. lia.
Qed.

(** A format without a percent sign holds no conversion. *)
Lemma parse_format_plain (text : cstring) :
  forallb (fun c => negb (ascii_eqb c "%")) text = true ->
  forall (fuel : nat) (tail : cstring) (ds : list directive),
    (length text < fuel)%nat ->
    parse_format (fuel - length text) tail = Some ds ->
    exists pre,
      parse_format fuel (text ++ tail) = Some (pre ++ ds) /\
      filter MetadataReaderPNG.is_conversion pre = [].
Proof.
  induction text as [|c text IH]; intros Hp fuel tail ds Hf Ht.
  - exists []. cbn [app length] in *. rewrite Nat.sub_0_r in Ht. auto.
  - cbn [forallb] in Hp. apply andb_true_iff in Hp as [Hc Hp].
    apply negb_true_iff in Hc.
    destruct fuel as [|fuel]; [simpl in Hf; lia|].
    cbn [length] in Hf, Ht.
    replace (S fuel - S (length text))%nat with (fuel - length text)%nat in Ht
      by lia.
    destruct (IH Hp fuel tail ds ltac:(lia) Ht) as (pre & Hpre & Hfil).
    exists ((if isspace c then DSpace else DLiteral c) :: pre).
    split.
    + cbn [app parse_format].
      destruct c as [[] [] [] [] [] [] [] []];
        try (vm_compute in Hc; discriminate);
        rewrite Hpre; reflexivity.
    + cbn [filter]. destruct (isspace c); cbn [MetadataReaderPNG.is_conversion];
        exact Hfil.
Qed.

End Base16More.

Module FormatFacts.
Import Stdio StdioFacts HeaderFacts Base16Facts Base16More.

Definition no_percent (text : cstring) : bool :=
  forallb (fun c => negb (ascii_eqb c "%")) text.

Lemma snprintf_fits (size : nat) (text : cstring) :
  (length text < size)%nat -> snprintf size text = text.
Proof. intros Hl. unfold snprintf. apply firstn_all2. lia. Qed.

Lemma header_format_fits (type : cstring) :
  (length type <= MetadataReaderPNG.kMaxTypeLen)%nat ->
  MetadataReaderPNG.header_format type =
  newline :: type ++ newline :: cstr "%8lu%n".
Proof.
  intros Hl. unfold MetadataReaderPNG.header_format.
  apply snprintf_fits. cbn [length]. rewrite length_app. cbn [length cstr].
  unfold MetadataReaderPNG.kMaxTypeLen in *. simpl. lia.
Qed.

(** The conversions of the format built for a type without a percent
    sign: [%8lu] and [%n], the two the arguments of [sscanf] are for. *)
Lemma header_format_conversions (type : cstring) :
  (length type <= MetadataReaderPNG.kMaxTypeLen)%nat ->
  no_percent type = true ->
  exists ds,
    parse_format (S (length (MetadataReaderPNG.header_format type)))
      (MetadataReaderPNG.header_format type) = Some ds /\
    filter MetadataReaderPNG.is_conversion ds = [DULong 8; DCount].
Proof.
  intros Hl Hp. rewrite header_format_fits by exact Hl.
  destruct (parse_format_plain (newline :: type)
              ltac:(cbn [forallb]; exact Hp)
              (S (length (newline :: type ++ newline :: cstr "%8lu%n")))
              (newline :: cstr "%8lu%n") [DSpace; DULong 8; DCount])
    as (pre & Hpre & Hfil).
  - cbn [length]. rewrite length_app. cbn [length]. lia.
  - cbn [length]. rewrite length_app. cbn [length cstr list_ascii_of_string].
    replace (S (S (length type + 7)) - S (length type))%nat with 8%nat by lia.
    reflexivity.
  - exists (pre ++ [DSpace; DULong 8; DCount]). split.
    + exact Hpre.
    + rewrite filter_app, Hfil. reflexivity.
Qed.

Lemma strncmp_eq_prefix (prefix rest : cstring) :
  strncmp_eq (prefix ++ rest) prefix (length prefix) = true.
Proof.
  unfold strncmp_eq. rewrite firstn_app, Nat.sub_diag, firstn_all.
  cbn [firstn]. rewrite app_nil_r. apply cstring_eqb_eq. reflexivity.
Qed.

Lemma DecodeBase16_defined (type encoded : cstring) :
  no_percent type = true ->
  exists result,
    MetadataReaderPNG.DecodeBase16 (MetadataReaderPNG.kKey ++ type) encoded =
    Some result.
Proof.
  intros Hp. unfold MetadataReaderPNG.DecodeBase16.
  rewrite strncmp_eq_prefix. cbn [negb].
  rewrite skipn_app_exact by reflexivity.
  destruct (_ <? _)%nat eqn:Hmax; [eexists; reflexivity|].
  apply Nat.ltb_ge in Hmax.
  destruct (header_format_conversions type Hmax Hp) as (ds & Hds & Hfil).
  unfold MetadataReaderPNG.sscanf_header. rewrite Hds, Hfil.
  destruct (assigned _) as [|a [|a' l]]; try (eexists; reflexivity).
  destruct (counts _) as [|c [|c' l]]; try (eexists; reflexivity).
  destruct (MetadataReaderPNG.DecodeBase16_loop _ _ _ _) as [[s pos] out].
  destruct s; [|eexists; reflexivity].
  destruct (negb _); [eexists; reflexivity|].
  destruct pos as [|x pos]; [eexists; reflexivity|].
  destruct (ascii_eqb x newline); eexists; reflexivity.
Qed.

Lemma no_percent_app (a b : cstring) :
  no_percent (a ++ b) = no_percent a && no_percent b.
Proof. apply forallb_app. Qed.

(** One iteration of the loop of [Decode] over the text chunks, on a chunk
    that is skipped. *)
Lemma Decode_text_skips (key value : cstring) (chunks : list (cstring * cstring))
    (m : Metadata) :
  strncmp_eq key MetadataReaderPNG.kKey (length MetadataReaderPNG.kKey) = false \/
  (no_percent key = true /\
   (MetadataFacts.stored_type
      (skipn (length MetadataReaderPNG.kKey) key) = false \/
    exists message type bytes,
      MetadataReaderPNG.DecodeBase16 key value =
      Some (StatusFailure message, type, bytes))) ->
  match MetadataReaderPNG.DecodeBase16 key value with
  | None => None
  | Some (StatusOk, type, bytes) =>
      if cstring_eqb type (cstr "exif") then
        MetadataReaderPNG.Decode_text chunks
          {| exif := bytes; iptc := iptc m; xmp := xmp m |}
      else if cstring_eqb type (cstr "iptc") then
        MetadataReaderPNG.Decode_text chunks
          {| exif := exif m; iptc := bytes; xmp := xmp m |}
      else if cstring_eqb type (cstr "xmp") then
        MetadataReaderPNG.Decode_text chunks
          {| exif := exif m; iptc := iptc m; xmp := bytes_of_cstring value |}
      else MetadataReaderPNG.Decode_text chunks m
  | Some (StatusFailure _, _, _) => MetadataReaderPNG.Decode_text chunks m
  end = MetadataReaderPNG.Decode_text chunks m.
Proof.
  intros Hc.
  destruct (strncmp_eq key MetadataReaderPNG.kKey
              (length MetadataReaderPNG.kKey)) eqn:Hk.
  - destruct Hc as [Hc|[Hp Hc]]; [discriminate|].
    assert (Hkey : key = MetadataReaderPNG.kKey ++
                         skipn (length MetadataReaderPNG.kKey) key).
    { unfold strncmp_eq in Hk. apply cstring_eqb_eq in Hk.
      rewrite firstn_all in Hk.
      rewrite <- (firstn_skipn (length MetadataReaderPNG.kKey) key) at 1.
      rewrite Hk. reflexivity. }
    assert (Hpt : no_percent (skipn (length MetadataReaderPNG.kKey) key) = true).
    { rewrite Hkey, no_percent_app in Hp.
      apply andb_true_iff in Hp as [_ Hp]. exact Hp. }
    destruct (DecodeBase16_defined _ value Hpt) as [[[s type] bytes] Hr].
    rewrite <- Hkey in Hr. rewrite Hr.
    destruct s as [|message]; [|reflexivity].
    destruct Hc as [Hc|(message & type' & bytes' & Hc)]; [|congruence].
    apply DecodeBase16_inv in Hr as (_ & -> & _).
    unfold MetadataFacts.stored_type in Hc.
    apply orb_false_iff in Hc as [Hc Hx].
    apply orb_false_iff in Hc as [He Hi].
    rewrite He, Hi, Hx. reflexivity.
  - unfold MetadataReaderPNG.DecodeBase16. rewrite Hk. reflexivity.
Qed.

End FormatFacts.

(** ** The chunk loop *)

Module ChunkFacts.

Definition recognised (c : Chunk) : bool :=
  ColorEncodingReaderPNG.is_colorimetry_or_metadata (chunk_type c).

(** No chunk the loop decodes has a CRC mismatch. *)
Definition crc_ok_where_checked (chunks : list Chunk) : bool :=
  forallb (fun c => negb (recognised c) || chunk_crc_ok c) chunks.

(** When the unrolled loop returns, it returns the result of [Decode]. *)
Lemma loop_agrees (fuel : nat) :
  forall chunks m r,
    ChunkLoop.Decode fuel chunks m = Some r ->
    ColorEncodingReaderPNG.Decode chunks m = Some r.
Proof.
  induction fuel as [|fuel IH]; intros chunks m r E; [discriminate|].
  destruct chunks as [|chunk chunks']; [exact E|].
  cbn [ChunkLoop.Decode] in E. cbn [ColorEncodingReaderPNG.Decode].
  destruct (ColorEncodingReaderPNG.is_colorimetry_or_metadata _) eqn:Hrec;
    [|apply IH; exact E].
  destruct chunks' as [|next rest]; [exact E|].
  destruct (chunk_crc_ok chunk) eqn:Hcrc; cbn [negb] in *.
  - destruct (cstring_eqb (chunk_type chunk) (cstr "eXIf")).
    + destruct (ColorEncodingReaderPNG.DecodeEXIF _ _) as [[|msg] m'];
        [apply IH; exact E|exact E].
    + match goal with
      | |- context [match ?s with StatusOk => _ | StatusFailure _ => _ end] =>
          destruct s; [apply IH; exact E|exact E]
      end.
  - apply IH in E. cbn [ColorEncodingReaderPNG.Decode] in E.
    rewrite Hrec, Hcrc in E. exact E.
Qed.

(** Without a CRC mismatch the loop returns after one iteration per chunk
    at most, and one more. *)
Lemma loop_returns (chunks : list Chunk) :
  forall m,
    crc_ok_where_checked chunks = true ->
    ChunkLoop.Decode (S (length chunks)) chunks m =
    ColorEncodingReaderPNG.Decode chunks m /\
    exists r, ColorEncodingReaderPNG.Decode chunks m = Some r.
Proof.
  induction chunks as [|chunk chunks' IH]; intros m Hcrc.
  - split; [reflexivity|eexists; reflexivity].
  - cbn [crc_ok_where_checked forallb] in Hcrc.
    apply andb_true_iff in Hcrc as [Hc Hrest].
    fold (crc_ok_where_checked chunks') in Hrest.
    change (length (chunk :: chunks')) with (S (length chunks')).
    cbn [ChunkLoop.Decode ColorEncodingReaderPNG.Decode].
    unfold recognised in Hc.
    destruct (ColorEncodingReaderPNG.is_colorimetry_or_metadata _) eqn:Hrec;
      [|apply IH; exact Hrest].
    cbn [negb orb] in Hc. rewrite Hc. cbn [negb].
    destruct chunks' as [|next rest]; [split; [reflexivity|eexists; reflexivity]|].
    destruct (cstring_eqb (chunk_type chunk) (cstr "eXIf")).
    + destruct (ColorEncodingReaderPNG.DecodeEXIF _ _) as [[|msg] m'];
        [apply IH; exact Hrest|split; [reflexivity|eexists; reflexivity]].
    + match goal with
      | |- context [match ?s with StatusOk => _ | StatusFailure _ => _ end] =>
          destruct s;
          [apply IH; exact Hrest|split; [reflexivity|eexists; reflexivity]]
      end.
Qed.

(** On a recognised chunk with a CRC mismatch that is not the last chunk,
    every iteration leaves the loop where it was. *)
Lemma loop_hangs (fuel : nat) (chunk next : Chunk) (rest : list Chunk)
    (m : Metadata) :
  recognised chunk = true -> chunk_crc_ok chunk = false ->
  ChunkLoop.Decode fuel (chunk :: next :: rest) m = None.
Proof.
  intros Hrec Hcrc. unfold recognised in Hrec.
  induction fuel as [|fuel IH]; [reflexivity|].
  cbn [ChunkLoop.Decode]. rewrite Hrec, Hcrc. cbn [negb]. exact IH.
Qed.

(** Only the chunks of the five types count, and never the last chunk. *)
Lemma Decode_filter (chunks : list Chunk) :
  forall (last last' : Chunk) (m : Metadata),
    ColorEncodingReaderPNG.Decode (chunks ++ [last]) m =
    ColorEncodingReaderPNG.Decode (filter recognised chunks ++ [last']) m.
Proof.
  induction chunks as [|chunk chunks' IH]; intros last last' m.
  - cbn [app filter ColorEncodingReaderPNG.Decode].
    destruct (ColorEncodingReaderPNG.is_colorimetry_or_metadata (chunk_type last)),
             (ColorEncodingReaderPNG.is_colorimetry_or_metadata (chunk_type last'));
      reflexivity.
  - cbn [app filter]. unfold recognised at 1.
    destruct (ColorEncodingReaderPNG.is_colorimetry_or_metadata (chunk_type chunk))
      eqn:Hrec.
    + cbn [app ColorEncodingReaderPNG.Decode]. rewrite Hrec.
      destruct (chunks' ++ [last]) as [|x l] eqn:E1;
        [destruct chunks'; discriminate|].
      destruct (filter recognised chunks' ++ [last']) as [|x' l'] eqn:E2;
        [destruct (filter recognised chunks'); discriminate|].
      rewrite <- E1, <- E2.
      destruct (negb (chunk_crc_ok chunk)); [reflexivity|].
      destruct (cstring_eqb (chunk_type chunk) (cstr "eXIf")).
      * destruct (ColorEncodingReaderPNG.DecodeEXIF _ _) as [[|msg] m'];
          [apply IH|reflexivity].
      * match goal with
        | |- context [match ?s with StatusOk => _ | StatusFailure _ => _ end] =>
            destruct s; [apply IH|reflexivity]
        end.
    + cbn [ColorEncodingReaderPNG.Decode]. rewrite Hrec. apply IH.
Qed.

(** The scan of the ICC profile name. *)
Lemma DecodeICC_name_inr (left : nat) :
  forall pos after,
    ColorEncodingReaderPNG.DecodeICC_name left pos = inr after <->
    exists name,
      pos = name ++ x00 :: after /\ MetadataFacts.no_nul name = true /\
      (length name < left)%nat.
Proof.
  induction left as [|left IH]; intros pos after.
  - cbn. split; [discriminate|]. intros (name & _ & _ & Hl). lia.
  - destruct pos as [|x pos].
    + cbn [ColorEncodingReaderPNG.DecodeICC_name].
      split; [discriminate|]. intros (name & E & _). destruct name; discriminate.
    + assert (E0 : ColorEncodingReaderPNG.DecodeICC_name (S left) (x :: pos) =
                   if u8 x =? 0 then inr pos
                   else ColorEncodingReaderPNG.DecodeICC_name left pos)
        by (destruct x; reflexivity).
      rewrite E0. destruct (u8 x =? 0) eqn:Hx.
      * apply Z.eqb_eq, MetadataFacts.u8_zero in Hx. subst x. split.
        -- intros E. exists []. cbn [app length]. injection E as ->.
           split; [reflexivity|]. split; [reflexivity|lia].
        -- intros (name & E & Hn & _). destruct name as [|y name].
           ++ cbn [app] in E. injection E as ->. reflexivity.
           ++ cbn [app] in E. injection E as <- _. discriminate Hn.
      * rewrite IH. split.
        -- intros (name & -> & Hn & Hl). exists (x :: name).
           split; [reflexivity|]. split; [|simpl; lia].
           cbn [MetadataFacts.no_nul forallb]. rewrite Hx. exact Hn.
        -- intros (name & E & Hn & Hl). destruct name as [|y name].
           ++ cbn [app] in E. injection E as -> _. discriminate Hx.
           ++ cbn [app] in E. injection E as <- ->. exists name.
              cbn [MetadataFacts.no_nul forallb] in Hn.
              apply andb_true_iff in Hn as [_ Hn].
              split; [reflexivity|]. split; [exact Hn|simpl in Hl; lia].
Qed.

(** [DecodeICC] with its two tests for a NUL byte written as tests. *)
Lemma DecodeICC_unfold (y : byte) (p : PaddedBytes) :
  ColorEncodingReaderPNG.DecodeICC (y :: p) =
  if u8 y =? 0 then PIK_FAILURE "Expected ICC name"
  else match ColorEncodingReaderPNG.DecodeICC_name 80 (y :: p) with
       | inl failure => failure
       | inr [] => PIK_FAILURE "Not enough bytes for ICC method"
       | inr (z :: _) =>
           if u8 z =? 0 then StatusOk
           else PIK_FAILURE "Unsupported ICC method"
       end.
Proof.
  assert (HG : forall R : Status + PaddedBytes,
             match R with
             | inl failure => failure
             | inr [] => PIK_FAILURE "Not enough bytes for ICC method"
             | inr (x00 :: _) => StatusOk
             | inr (_ :: _) => PIK_FAILURE "Unsupported ICC method"
             end =
             match R with
             | inl failure => failure
             | inr [] => PIK_FAILURE "Not enough bytes for ICC method"
             | inr (z :: _) =>
                 if u8 z =? 0 then StatusOk
                 else PIK_FAILURE "Unsupported ICC method"
             end).
  { intros [failure|[|z after]]; try reflexivity. destruct z; reflexivity. }
  unfold ColorEncodingReaderPNG.DecodeICC.
  generalize (ColorEncodingReaderPNG.DecodeICC_name 80 (y :: p)) as R.
  intros R. specialize (HG R).
  destruct y; try reflexivity; exact HG.
Qed.

End ChunkFacts.

(** ** The eXIf chunks of a walk *)

Module ExifWalk.
Import ColorEncodingReaderPNG ExifFacts.









End ExifWalk.

(** ** Colour types *)

Module ColorTypeFacts.

Lemma CheckGray_loop_spec (mode : LodePNGColorMode) (left : nat) :
  forall i,
    CheckGray_loop left i mode = true <->
    forall k, (i <= k < i + left)%nat ->
      palette_at mode (k * 4) = palette_at mode (k * 4 + 1) /\
      palette_at mode (k * 4) = palette_at mode (k * 4 + 2).
Proof.
  induction left as [|left IH]; intros i; cbn [CheckGray_loop].
  - split; [intros _ k Hk; lia|reflexivity].
  - destruct (palette_at mode (i * 4) =? palette_at mode (i * 4 + 1)) eqn:E1;
      destruct (palette_at mode (i * 4) =? palette_at mode (i * 4 + 2)) eqn:E2;
      cbn [negb orb].
    + apply Z.eqb_eq in E1, E2. rewrite IH. split.
      * intros H k Hk. destruct (Nat.eq_dec k i) as [->|Hne]; [auto|].
        apply H. lia.
      * intros H k Hk. apply H. lia.
    + apply Z.eqb_neq in E2. split; [discriminate|].
      intros H. exfalso. apply E2. apply (H i). lia.
    + apply Z.eqb_neq in E1. split; [discriminate|].
      intros H. exfalso. apply E1. apply (H i). lia.
    + apply Z.eqb_neq in E1. split; [discriminate|].
      intros H. exfalso. apply E1. apply (H i). lia.
Qed.

Lemma CheckAlpha_loop_spec (mode : LodePNGColorMode) (left : nat) :
  forall i,
    CheckAlpha_loop left i mode = true <->
    exists k, (i <= k < i + left)%nat /\ palette_at mode (k * 4 + 3) <> 255.
Proof.
  induction left as [|left IH]; intros i; cbn [CheckAlpha_loop].
  - split; [discriminate|]. intros (k & Hk & _). lia.
  - destruct (palette_at mode (i * 4 + 3) =? 255) eqn:E; cbn [negb].
    + apply Z.eqb_eq in E. rewrite IH. split.
      * intros (k & Hk & Ha). exists k. split; [lia|exact Ha].
      * intros (k & Hk & Ha). exists k. split; [|exact Ha].
        destruct (Nat.eq_dec k i) as [->|Hne]; [contradiction|lia].
    + apply Z.eqb_neq in E. split; [|reflexivity].
      intros _. exists i. split; [lia|exact E].
Qed.

End ColorTypeFacts.

(** ** Colour chunks *)

Module ColorFacts.
Section WithExternals.
Context `{ColorExternals}.

Import ChunkFacts.

(** The reader with its members returns the statuses of the reader
    without. *)
Lemma DecodeICC_status (payload : PaddedBytes) (reader : ColorEncodingReader.t) :
  fst (ColorEncodingReader.DecodeICC payload reader) =
  ColorEncodingReaderPNG.DecodeICC payload.
Proof.
  destruct payload as [|y p]; [reflexivity|].
  rewrite DecodeICC_unfold. unfold ColorEncodingReader.DecodeICC.
  destruct (u8 y =? 0); [reflexivity|].
  destruct (ColorEncodingReaderPNG.DecodeICC_name 80 (y :: p))
    as [failure|[|z after]]; try reflexivity.
  destruct (u8 z =? 0); cbn [negb]; [|reflexivity].
  destruct (lodepng_zlib_decompress after); reflexivity.
Qed.

Lemma Decode_status (chunks : list Chunk) :
  forall (m : Metadata) (reader : ColorEncodingReader.t),
    option_map (fun r => (fst (fst r), snd (fst r)))
      (ColorEncodingReader.Decode chunks m reader) =
    ColorEncodingReaderPNG.Decode chunks m.
Proof.
  induction chunks as [|chunk chunks' IH]; intros m reader; [reflexivity|].
  cbn [ColorEncodingReader.Decode ColorEncodingReaderPNG.Decode].
  destruct (ColorEncodingReaderPNG.is_colorimetry_or_metadata _); [|apply IH].
  destruct chunks' as [|next rest]; [reflexivity|].
  destruct (negb (chunk_crc_ok chunk)); [reflexivity|].
  destruct (cstring_eqb (chunk_type chunk) (cstr "eXIf")).
  - destruct (ColorEncodingReaderPNG.DecodeEXIF _ _) as [[|msg] m'];
      [apply IH|reflexivity].
  - destruct (cstring_eqb (chunk_type chunk) (cstr "iCCP")).
    + pose proof (DecodeICC_status (chunk_payload chunk) reader) as E.
      destruct (ColorEncodingReader.DecodeICC _ _) as [s r']. cbn [fst] in E.
      rewrite <- E. destruct s; [apply IH|reflexivity].
    + destruct (cstring_eqb (chunk_type chunk) (cstr "sRGB")).
      * unfold ColorEncodingReader.DecodeSRGB, ColorEncodingReaderPNG.DecodeSRGB.
        destruct (negb _); [reflexivity|apply IH].
      * destruct (cstring_eqb (chunk_type chunk) (cstr "gAMA")).
        -- unfold ColorEncodingReader.DecodeGAMA, ColorEncodingReaderPNG.DecodeGAMA.
           destruct (negb _); [reflexivity|apply IH].
        -- unfold ColorEncodingReader.DecodeCHRM, ColorEncodingReaderPNG.DecodeCHRM.
           destruct (negb _); [reflexivity|apply IH].
Qed.

(** Chunks of other types leave everything as it is. *)
Lemma Decode_unrecognised (chunks : list Chunk) (m : Metadata)
    (reader : ColorEncodingReader.t) :
  forallb (fun c => negb (recognised c)) chunks = true ->
  ColorEncodingReader.Decode chunks m reader = Some (StatusOk, m, reader).
Proof.
  induction chunks as [|chunk chunks' IH]; intros Hu; [reflexivity|].
  cbn [forallb] in Hu. apply andb_true_iff in Hu as [Hc Hu].
  apply negb_true_iff in Hc. unfold recognised in Hc.
  cbn [ColorEncodingReader.Decode]. rewrite Hc. apply IH. exact Hu.
Qed.

(** The chunk the writer makes for a type and a payload. *)
Definition written (type : string) (payload : PaddedBytes) : Chunk :=
  {| chunk_type := cstr type; chunk_payload := payload; chunk_crc_ok := true |}.

Lemma Decode_iCCP (payload : PaddedBytes) (next : Chunk) (rest : list Chunk)
    (m : Metadata) (reader : ColorEncodingReader.t) :
  ColorEncodingReader.Decode (written "iCCP" payload :: next :: rest) m reader =
  match ColorEncodingReader.DecodeICC payload reader with
  | (StatusOk, reader') => ColorEncodingReader.Decode (next :: rest) m reader'
  | (failure, reader') => Some (failure, m, reader')
  end.
Proof.
  cbn [ColorEncodingReader.Decode written chunk_type chunk_payload chunk_crc_ok].
  change (ColorEncodingReaderPNG.is_colorimetry_or_metadata (cstr "iCCP"))
    with true.
  change (cstring_eqb (cstr "iCCP") (cstr "eXIf")) with false.
  change (cstring_eqb (cstr "iCCP") (cstr "iCCP")) with true.
  cbv iota. cbn [negb].
  destruct (ColorEncodingReader.DecodeICC payload reader) as [[|msg] r'];
    reflexivity.
Qed.

Lemma Decode_sRGB (payload : PaddedBytes) (next : Chunk) (rest : list Chunk)
    (m : Metadata) (reader : ColorEncodingReader.t) :
  ColorEncodingReader.Decode (written "sRGB" payload :: next :: rest) m reader =
  match ColorEncodingReader.DecodeSRGB payload reader with
  | (StatusOk, reader') => ColorEncodingReader.Decode (next :: rest) m reader'
  | (failure, reader') => Some (failure, m, reader')
  end.
Proof.
  cbn [ColorEncodingReader.Decode written chunk_type chunk_payload chunk_crc_ok].
  change (ColorEncodingReaderPNG.is_colorimetry_or_metadata (cstr "sRGB"))
    with true.
  change (cstring_eqb (cstr "sRGB") (cstr "eXIf")) with false.
  change (cstring_eqb (cstr "sRGB") (cstr "iCCP")) with false.
  change (cstring_eqb (cstr "sRGB") (cstr "sRGB")) with true.
  cbv iota. cbn [negb].
  destruct (ColorEncodingReader.DecodeSRGB payload reader) as [[|msg] r'];
    reflexivity.
Qed.

Lemma Decode_gAMA (payload : PaddedBytes) (next : Chunk) (rest : list Chunk)
    (m : Metadata) (reader : ColorEncodingReader.t) :
  ColorEncodingReader.Decode (written "gAMA" payload :: next :: rest) m reader =
  match ColorEncodingReader.DecodeGAMA payload reader with
  | (StatusOk, reader') => ColorEncodingReader.Decode (next :: rest) m reader'
  | (failure, reader') => Some (failure, m, reader')
  end.
Proof.
  cbn [ColorEncodingReader.Decode written chunk_type chunk_payload chunk_crc_ok].
  change (ColorEncodingReaderPNG.is_colorimetry_or_metadata (cstr "gAMA"))
    with true.
  change (cstring_eqb (cstr "gAMA") (cstr "eXIf")) with false.
  change (cstring_eqb (cstr "gAMA") (cstr "iCCP")) with false.
  change (cstring_eqb (cstr "gAMA") (cstr "sRGB")) with false.
  change (cstring_eqb (cstr "gAMA") (cstr "gAMA")) with true.
  cbv iota. cbn [negb].
  destruct (ColorEncodingReader.DecodeGAMA payload reader) as [[|msg] r'];
    reflexivity.
Qed.

Lemma Decode_cHRM (payload : PaddedBytes) (next : Chunk) (rest : list Chunk)
    (m : Metadata) (reader : ColorEncodingReader.t) :
  ColorEncodingReader.Decode (written "cHRM" payload :: next :: rest) m reader =
  match ColorEncodingReader.DecodeCHRM payload reader with
  | (StatusOk, reader') => ColorEncodingReader.Decode (next :: rest) m reader'
  | (failure, reader') => Some (failure, m, reader')
  end.
Proof.
  cbn [ColorEncodingReader.Decode written chunk_type chunk_payload chunk_crc_ok].
  change (ColorEncodingReaderPNG.is_colorimetry_or_metadata (cstr "cHRM"))
    with true.
  change (cstring_eqb (cstr "cHRM") (cstr "eXIf")) with false.
  change (cstring_eqb (cstr "cHRM") (cstr "iCCP")) with false.
  change (cstring_eqb (cstr "cHRM") (cstr "sRGB")) with false.
  change (cstring_eqb (cstr "cHRM") (cstr "gAMA")) with false.
  cbv iota. cbn [negb].
  destruct (ColorEncodingReader.DecodeCHRM payload reader) as [[|msg] r'];
    reflexivity.
Qed.

(** The payload [AddICC] builds is read back to the profile. *)
Lemma DecodeICC_AddICC (icc out : PaddedBytes) (reader : ColorEncodingReader.t) :
  lodepng_zlib_compress icc = Some out ->
  ColorEncodingReader.DecodeICC (to_u8 (code "1") :: x00 :: x00 :: out) reader =
  (StatusOk,
   {| ColorEncodingReader.icc_ := icc;
      ColorEncodingReader.have_pq_ := ColorEncodingReader.have_pq_ reader;
      ColorEncodingReader.have_srgb_ := ColorEncodingReader.have_srgb_ reader;
      ColorEncodingReader.have_gama_ := ColorEncodingReader.have_gama_ reader;
      ColorEncodingReader.have_chrm_ := ColorEncodingReader.have_chrm_ reader;
      ColorEncodingReader.params_ := ColorEncodingReader.params_ reader |}).
Proof.
  intros Hc. apply lodepng_zlib_decompress_compress in Hc.
  unfold ColorEncodingReader.DecodeICC.
  change (to_u8 (code "1")) with x31.
  change (u8 x31 =? 0) with false. cbv iota.
  change (ColorEncodingReaderPNG.DecodeICC_name 80 (x31 :: x00 :: x00 :: out))
    with (@inr Status PaddedBytes (x00 :: out)).
  cbv iota.
  change (ColorEncodingReader.is_PQ_name (x31 :: x00 :: x00 :: out)) with false.
  cbv iota. change (u8 x00 =? 0) with true. cbn [negb]. rewrite Hc. reflexivity.
Qed.

Lemma U32FromF64_range (x : double) :
  0 <= ColorEncodingWriterPNG.U32FromF64 x < 2 ^ 32.
Proof.
  unfold ColorEncodingWriterPNG.U32FromF64, wrap32.
  apply Z.mod_pos_bound. reflexivity.
Qed.

End WithExternals.
End ColorFacts.

Module ColorRoundTrip.
Section WithExternals.
Context `{ColorExternals}.

Import ChunkFacts ColorFacts.

(** Whether [MaybeAddSRGB] adds the chunk. *)
Definition is_sRGB (c : ColorEncoding.t) : bool :=
  negb (negb (IsGray c) && negb (ColorEncoding.color_space c =? ColorSpace_kRGB)) &&
  (ColorEncoding.white_point c =? WhitePoint_kD65) &&
  (ColorEncoding.primaries c =? Primaries_kSRGB) &&
  (ColorEncoding.transfer_function c =? TransferFunction_kSRGB).

(** A value that went through a chunk: [F64FromU32(U32FromF64(x))]. *)
Definition through (x : double) : double :=
  ColorEncodingReader.F64FromU32 (ColorEncodingWriterPNG.U32FromF64 x).

Definition through2 (p : double * double) : double * double :=
  (through (fst p), through (snd p)).

Definition set_icc (icc : PaddedBytes) (r : ColorEncodingReader.t)
    : ColorEncodingReader.t :=
  {| ColorEncodingReader.icc_ := icc;
     ColorEncodingReader.have_pq_ := ColorEncodingReader.have_pq_ r;
     ColorEncodingReader.have_srgb_ := ColorEncodingReader.have_srgb_ r;
     ColorEncodingReader.have_gama_ := ColorEncodingReader.have_gama_ r;
     ColorEncodingReader.have_chrm_ := ColorEncodingReader.have_chrm_ r;
     ColorEncodingReader.params_ := ColorEncodingReader.params_ r |}.

Definition set_srgb (intent : Z) (r : ColorEncodingReader.t)
    : ColorEncodingReader.t :=
  {| ColorEncodingReader.icc_ := ColorEncodingReader.icc_ r;
     ColorEncodingReader.have_pq_ := ColorEncodingReader.have_pq_ r;
     ColorEncodingReader.have_srgb_ := true;
     ColorEncodingReader.have_gama_ := ColorEncodingReader.have_gama_ r;
     ColorEncodingReader.have_chrm_ := ColorEncodingReader.have_chrm_ r;
     ColorEncodingReader.params_ :=
       {| ProfileParams.rendering_intent := intent;
          ProfileParams.gamma :=
            ProfileParams.gamma (ColorEncodingReader.params_ r);
          ProfileParams.white_point :=
            ProfileParams.white_point (ColorEncodingReader.params_ r);
          ProfileParams.primaries :=
            ProfileParams.primaries (ColorEncodingReader.params_ r) |} |}.

Definition set_gama (gamma : double) (r : ColorEncodingReader.t)
    : ColorEncodingReader.t :=
  {| ColorEncodingReader.icc_ := ColorEncodingReader.icc_ r;
     ColorEncodingReader.have_pq_ := ColorEncodingReader.have_pq_ r;
     ColorEncodingReader.have_srgb_ := ColorEncodingReader.have_srgb_ r;
     ColorEncodingReader.have_gama_ := true;
     ColorEncodingReader.have_chrm_ := ColorEncodingReader.have_chrm_ r;
     ColorEncodingReader.params_ :=
       {| ProfileParams.rendering_intent :=
            ProfileParams.rendering_intent (ColorEncodingReader.params_ r);
          ProfileParams.gamma := gamma;
          ProfileParams.white_point :=
            ProfileParams.white_point (ColorEncodingReader.params_ r);
          ProfileParams.primaries :=
            ProfileParams.primaries (ColorEncodingReader.params_ r) |} |}.

Definition set_chrm (white_point : double * double)
    (primaries : (double * double) * (double * double) * (double * double))
    (r : ColorEncodingReader.t) : ColorEncodingReader.t :=
  {| ColorEncodingReader.icc_ := ColorEncodingReader.icc_ r;
     ColorEncodingReader.have_pq_ := ColorEncodingReader.have_pq_ r;
     ColorEncodingReader.have_srgb_ := ColorEncodingReader.have_srgb_ r;
     ColorEncodingReader.have_gama_ := ColorEncodingReader.have_gama_ r;
     ColorEncodingReader.have_chrm_ := true;
     ColorEncodingReader.params_ :=
       {| ProfileParams.rendering_intent :=
            ProfileParams.rendering_intent (ColorEncodingReader.params_ r);
          ProfileParams.gamma :=
            ProfileParams.gamma (ColorEncodingReader.params_ r);
          ProfileParams.white_point := white_point;
          ProfileParams.primaries := primaries |} |}.

(** The reader after it has read the chunks [Encode] writes for [c]. *)
Definition ReadBack (c : ColorEncoding.t) (r : ColorEncodingReader.t)
    : ColorEncodingReader.t :=
  let r :=
    match ColorEncoding.icc c with
    | [] =>
        if is_sRGB c
        then set_srgb (ColorEncoding.rendering_intent c mod 256) r
        else r
    | _ => set_icc (ColorEncoding.icc c) r
    end in
  let r :=
    let gamma := GammaFromTransferFunction (ColorEncoding.transfer_function c) in
    if double_eqb gamma double_zero then r else set_gama (through gamma) r in
  match WhitePointToCIExy (ColorEncoding.white_point c),
        PrimariesToCIExy (ColorEncoding.primaries c) with
  | Some white_point, Some (red, green, blue) =>
      set_chrm (through2 white_point)
        (through2 red, through2 green, through2 blue) r
  | _, _ => r
  end.

Lemma MaybeAddSRGB_is_sRGB (c : ColorEncoding.t) (chunks : list Chunk) :
  ColorEncodingWriterPNG.MaybeAddSRGB c chunks =
  (StatusOk,
   chunks ++
   if is_sRGB c
   then [written "sRGB" [to_u8 (ColorEncoding.rendering_intent c)]]
   else []).
Proof.
  unfold ColorEncodingWriterPNG.MaybeAddSRGB, is_sRGB,
    ColorEncodingWriterPNG.AddChunk.
  destruct (negb (IsGray c) && _); cbn [negb andb];
    [rewrite app_nil_r; reflexivity|].
  destruct (ColorEncoding.white_point c =? WhitePoint_kD65); cbn [negb andb];
    [|rewrite app_nil_r; reflexivity].
  destruct (ColorEncoding.primaries c =? Primaries_kSRGB); cbn [negb andb];
    [|rewrite app_nil_r; reflexivity].
  destruct (ColorEncoding.transfer_function c =? TransferFunction_kSRGB);
    cbn [negb andb]; [reflexivity|rewrite app_nil_r; reflexivity].
Qed.

(** The chunks of the writer, one list per step. *)
Definition first_chunk (c : ColorEncoding.t) : list Chunk :=
  match ColorEncoding.icc c with
  | [] =>
      if is_sRGB c
      then [written "sRGB" [to_u8 (ColorEncoding.rendering_intent c)]]
      else []
  | _ =>
      match lodepng_zlib_compress (ColorEncoding.icc c) with
      | Some out => [written "iCCP" (to_u8 (code "1") :: x00 :: x00 :: out)]
      | None => []
      end
  end.

Definition gAMA_chunk (c : ColorEncoding.t) : list Chunk :=
  let gamma := GammaFromTransferFunction (ColorEncoding.transfer_function c) in
  if double_eqb gamma double_zero then []
  else [written "gAMA" (StoreBE32 (ColorEncodingWriterPNG.U32FromF64 gamma))].

Definition cHRM_payload (white_point : double * double)
    (primaries : (double * double) * (double * double) * (double * double))
    : PaddedBytes :=
  let '(r, g, b) := primaries in
  StoreBE32 (ColorEncodingWriterPNG.U32FromF64 (fst white_point)) ++
  StoreBE32 (ColorEncodingWriterPNG.U32FromF64 (snd white_point)) ++
  StoreBE32 (ColorEncodingWriterPNG.U32FromF64 (fst r)) ++
  StoreBE32 (ColorEncodingWriterPNG.U32FromF64 (snd r)) ++
  StoreBE32 (ColorEncodingWriterPNG.U32FromF64 (fst g)) ++
  StoreBE32 (ColorEncodingWriterPNG.U32FromF64 (snd g)) ++
  StoreBE32 (ColorEncodingWriterPNG.U32FromF64 (fst b)) ++
  StoreBE32 (ColorEncodingWriterPNG.U32FromF64 (snd b)).

Definition cHRM_chunk (c : ColorEncoding.t) : list Chunk :=
  match WhitePointToCIExy (ColorEncoding.white_point c),
        PrimariesToCIExy (ColorEncoding.primaries c) with
  | Some white_point, Some primaries =>
      [written "cHRM" (cHRM_payload white_point primaries)]
  | _, _ => []
  end.

(** [Encode] fails only when the profile cannot be compressed, and then
    adds nothing; otherwise it adds the chunks of its three steps. *)
Lemma Encode_chunks (c : ColorEncoding.t) (chunks : list Chunk) :
  ColorEncodingWriterPNG.Encode c chunks =
  match ColorEncoding.icc c, lodepng_zlib_compress (ColorEncoding.icc c) with
  | _ :: _, None => (PIK_FAILURE "Failed to compress ICC", chunks)
  | _, _ => (StatusOk, chunks ++ first_chunk c ++ gAMA_chunk c ++ cHRM_chunk c)
  end.
Proof.
  unfold ColorEncodingWriterPNG.Encode.
  assert (Hrest : forall l,
            (let '(status, unknown_chunks) :=
               ColorEncodingWriterPNG.MaybeAddGAMA c l in
             match status with
             | StatusFailure _ => (status, unknown_chunks)
             | StatusOk => ColorEncodingWriterPNG.MaybeAddCHRM c unknown_chunks
             end) = (StatusOk, l ++ gAMA_chunk c ++ cHRM_chunk c)).
  { intros l. unfold ColorEncodingWriterPNG.MaybeAddGAMA, gAMA_chunk,
      ColorEncodingWriterPNG.MaybeAddCHRM, cHRM_chunk, cHRM_payload,
      ColorEncodingWriterPNG.AddChunk.
    destruct (double_eqb _ _);
      destruct (WhitePointToCIExy _) as [wp|];
      try destruct (PrimariesToCIExy _) as [[[r g] b]|];
      cbn [app]; rewrite ?app_nil_r, <- ?app_assoc; reflexivity. }
  unfold first_chunk.
  destruct (ColorEncoding.icc c) as [|x icc] eqn:Ei.
  - rewrite MaybeAddSRGB_is_sRGB. rewrite Hrest.
    rewrite <- app_assoc.
    destruct (lodepng_zlib_compress []); reflexivity.
  - unfold ColorEncodingWriterPNG.AddICC, ColorEncodingWriterPNG.AddChunk.
    destruct (lodepng_zlib_compress (x :: icc)) as [out|]; [|reflexivity].
    rewrite Hrest. rewrite <- app_assoc. reflexivity.
Qed.

Lemma LoadBE32_at (before : PaddedBytes) (v : Z) (after : PaddedBytes)
    (offset : nat) :
  length before = offset -> 0 <= v < 2 ^ 32 ->
  LoadBE32 (skipn offset (before ++ StoreBE32 v ++ after)) = v.
Proof.
  intros Hl Hv. rewrite skipn_app_exact by exact Hl.
  apply LoadBE32_StoreBE32. exact Hv.
Qed.

Lemma DecodeGAMA_written (x : double) (r : ColorEncodingReader.t) :
  ColorEncodingReader.DecodeGAMA
    (StoreBE32 (ColorEncodingWriterPNG.U32FromF64 x)) r =
  (StatusOk, set_gama (through x) r).
Proof.
  unfold ColorEncodingReader.DecodeGAMA. rewrite StoreBE32_length.
  cbn [Nat.eqb negb]. unfold set_gama, through.
  rewrite <- (app_nil_r (StoreBE32 _)) at 1.
  rewrite LoadBE32_StoreBE32 by apply U32FromF64_range. reflexivity.
Qed.

Lemma DecodeCHRM_written (white_point : double * double)
    (primaries : (double * double) * (double * double) * (double * double))
    (r : ColorEncodingReader.t) :
  ColorEncodingReader.DecodeCHRM (cHRM_payload white_point primaries) r =
  (StatusOk,
   let '(red, green, blue) := primaries in
   set_chrm (through2 white_point)
     (through2 red, through2 green, through2 blue) r).
Proof.
  destruct primaries as [[red green] blue].
  unfold ColorEncodingReader.DecodeCHRM, cHRM_payload.
  rewrite !length_app, !StoreBE32_length. cbn [Nat.add Nat.eqb negb].
  unfold set_chrm, through2, through.
  set (S0 := StoreBE32 (ColorEncodingWriterPNG.U32FromF64 (fst white_point))).
  set (S1 := StoreBE32 (ColorEncodingWriterPNG.U32FromF64 (snd white_point))).
  set (S2 := StoreBE32 (ColorEncodingWriterPNG.U32FromF64 (fst red))).
  set (S3 := StoreBE32 (ColorEncodingWriterPNG.U32FromF64 (snd red))).
  set (S4 := StoreBE32 (ColorEncodingWriterPNG.U32FromF64 (fst green))).
  set (S5 := StoreBE32 (ColorEncodingWriterPNG.U32FromF64 (snd green))).
  set (S6 := StoreBE32 (ColorEncodingWriterPNG.U32FromF64 (fst blue))).
  set (S7 := StoreBE32 (ColorEncodingWriterPNG.U32FromF64 (snd blue))).
  assert (L : forall x, length (StoreBE32 (ColorEncodingWriterPNG.U32FromF64 x)) = 4%nat)
    by (intros x; apply StoreBE32_length).
  assert (E0 : LoadBE32 (skipn 0 (S0 ++ S1 ++ S2 ++ S3 ++ S4 ++ S5 ++ S6 ++ S7)) =
               ColorEncodingWriterPNG.U32FromF64 (fst white_point))
    by (apply (LoadBE32_at []); [reflexivity|apply U32FromF64_range]).
  assert (E1 : LoadBE32 (skipn 4 (S0 ++ S1 ++ S2 ++ S3 ++ S4 ++ S5 ++ S6 ++ S7)) =
               ColorEncodingWriterPNG.U32FromF64 (snd white_point))
    by (apply (LoadBE32_at S0); [apply L|apply U32FromF64_range]).
  assert (E2 : LoadBE32 (skipn 8 (S0 ++ S1 ++ S2 ++ S3 ++ S4 ++ S5 ++ S6 ++ S7)) =
               ColorEncodingWriterPNG.U32FromF64 (fst red)).
  { rewrite (app_assoc S0). apply LoadBE32_at; [|apply U32FromF64_range].
    rewrite length_app. unfold S0, S1. rewrite !L. reflexivity. }
  assert (E3 : LoadBE32 (skipn 12 (S0 ++ S1 ++ S2 ++ S3 ++ S4 ++ S5 ++ S6 ++ S7)) =
               ColorEncodingWriterPNG.U32FromF64 (snd red)).
  { rewrite (app_assoc S0), (app_assoc (S0 ++ S1)).
    apply LoadBE32_at; [|apply U32FromF64_range].
    rewrite !length_app. unfold S0, S1, S2. rewrite !L. reflexivity. }
  assert (E4 : LoadBE32 (skipn 16 (S0 ++ S1 ++ S2 ++ S3 ++ S4 ++ S5 ++ S6 ++ S7)) =
               ColorEncodingWriterPNG.U32FromF64 (fst green)).
  { rewrite (app_assoc S0), (app_assoc (S0 ++ S1)),
      (app_assoc ((S0 ++ S1) ++ S2)).
    apply LoadBE32_at; [|apply U32FromF64_range].
    rewrite !length_app. unfold S0, S1, S2, S3. rewrite !L. reflexivity. }
  assert (E5 : LoadBE32 (skipn 20 (S0 ++ S1 ++ S2 ++ S3 ++ S4 ++ S5 ++ S6 ++ S7)) =
               ColorEncodingWriterPNG.U32FromF64 (snd green)).
  { rewrite (app_assoc S0), (app_assoc (S0 ++ S1)),
      (app_assoc ((S0 ++ S1) ++ S2)), (app_assoc (((S0 ++ S1) ++ S2) ++ S3)).
    apply LoadBE32_at; [|apply U32FromF64_range].
    rewrite !length_app. unfold S0, S1, S2, S3, S4. rewrite !L. reflexivity. }
  assert (E6 : LoadBE32 (skipn 24 (S0 ++ S1 ++ S2 ++ S3 ++ S4 ++ S5 ++ S6 ++ S7)) =
               ColorEncodingWriterPNG.U32FromF64 (fst blue)).
  { rewrite (app_assoc S0), (app_assoc (S0 ++ S1)),
      (app_assoc ((S0 ++ S1) ++ S2)), (app_assoc (((S0 ++ S1) ++ S2) ++ S3)),
      (app_assoc ((((S0 ++ S1) ++ S2) ++ S3) ++ S4)).
    apply LoadBE32_at; [|apply U32FromF64_range].
    rewrite !length_app. unfold S0, S1, S2, S3, S4, S5. rewrite !L. reflexivity. }
  assert (E7 : LoadBE32 (skipn 28 (S0 ++ S1 ++ S2 ++ S3 ++ S4 ++ S5 ++ S6 ++ S7)) =
               ColorEncodingWriterPNG.U32FromF64 (snd blue)).
  { rewrite (app_assoc S0), (app_assoc (S0 ++ S1)),
      (app_assoc ((S0 ++ S1) ++ S2)), (app_assoc (((S0 ++ S1) ++ S2) ++ S3)),
      (app_assoc ((((S0 ++ S1) ++ S2) ++ S3) ++ S4)),
      (app_assoc (((((S0 ++ S1) ++ S2) ++ S3) ++ S4) ++ S5)).
    rewrite <- (app_nil_r S7).
    apply LoadBE32_at; [|apply U32FromF64_range].
    rewrite !length_app. unfold S0, S1, S2, S3, S4, S5, S6. rewrite !L.
    reflexivity. }
  cbv zeta. rewrite E0, E1, E2, E3, E4, E5, E6, E7. reflexivity.
Qed.

Lemma DecodeSRGB_written (intent : Z) (r : ColorEncodingReader.t) :
  ColorEncodingReader.DecodeSRGB [to_u8 intent] r =
  (StatusOk, set_srgb (intent mod 256) r).
Proof.
  unfold ColorEncodingReader.DecodeSRGB, set_srgb.
  cbn [length Nat.eqb negb nth]. rewrite u8_to_u8. reflexivity.
Qed.

(** The chunks of the writer, read by the loop of the reader. *)
Lemma Decode_written (c : ColorEncoding.t) (next : Chunk) (rest : list Chunk)
    (m : Metadata) (r : ColorEncodingReader.t) :
  (ColorEncoding.icc c <> [] ->
   lodepng_zlib_compress (ColorEncoding.icc c) <> None) ->
  forallb (fun c => negb (recognised c)) (next :: rest) = true ->
  ColorEncodingReader.Decode
    (first_chunk c ++ gAMA_chunk c ++ cHRM_chunk c ++ next :: rest) m r =
  Some (StatusOk, m, ReadBack c r).
Proof.
  intros Hicc Hu. unfold first_chunk, gAMA_chunk, cHRM_chunk, ReadBack.
  destruct (ColorEncoding.icc c) as [|x icc] eqn:Ei.
  - destruct (is_sRGB c);
      destruct (double_eqb _ _);
      destruct (WhitePointToCIExy _) as [wp|];
      try destruct (PrimariesToCIExy _) as [[[red green] blue]|];
      cbn [app];
      rewrite ?Decode_sRGB, ?DecodeSRGB_written;
      rewrite ?Decode_gAMA, ?DecodeGAMA_written;
      rewrite ?Decode_cHRM, ?DecodeCHRM_written;
      apply Decode_unrecognised; exact Hu.
  - destruct (lodepng_zlib_compress (x :: icc)) as [out|] eqn:Hc;
      [|exfalso; apply Hicc; [discriminate|reflexivity]].
    destruct (double_eqb _ _);
      destruct (WhitePointToCIExy _) as [wp|];
      try destruct (PrimariesToCIExy _) as [[[red green] blue]|];
      cbn [app];
      rewrite Decode_iCCP, (DecodeICC_AddICC _ _ _ Hc);
      rewrite ?Decode_gAMA, ?DecodeGAMA_written;
      rewrite ?Decode_cHRM, ?DecodeCHRM_written;
      apply Decode_unrecognised; exact Hu.
Qed.

End WithExternals.
End ColorRoundTrip.

(** ** An instance of what the colour chunks need

    The examples of the colour chunks run on this instance: numbers are
    integers, a 32-bit value is stored most significant byte first, and
    the zlib coder keeps the data behind a two-byte header. *)

Module ColorExample.

Definition Store (v : Z) : PaddedBytes :=
  [to_u8 (v / 2 ^ 24); to_u8 (v / 2 ^ 16); to_u8 (v / 2 ^ 8); to_u8 v].

Definition Load (bytes : PaddedBytes) : Z :=
  match bytes with
  | b0 :: b1 :: b2 :: b3 :: _ =>
      u8 b0 * 2 ^ 24 + u8 b1 * 2 ^ 16 + u8 b2 * 2 ^ 8 + u8 b3
  | _ => 0
  end.

Lemma Load_Store (v : Z) (rest : PaddedBytes) :
  0 <= v < 2 ^ 32 -> Load (Store v ++ rest) = v.
Proof.
  intros Hv. unfold Load, Store. cbn [app]. rewrite !u8_to_u8.
  change (2 ^ 32) with 4294967296 in Hv.
  change (2 ^ 24) with 16777216. change (2 ^ 16) with 65536.
  change (2 ^ 8) with 256.
  Z.to_euclidean_division_equations. lia.
Qed.

Definition compress (data : PaddedBytes) : option PaddedBytes :=
  Some (x78 :: x9c :: data).

Definition decompress (data : PaddedBytes) : option PaddedBytes :=
  match data with
  | x78 :: x9c :: data => Some data
  | _ => None
  end.

Lemma decompress_compress (data out : PaddedBytes) :
  compress data = Some out -> decompress out = Some data.
Proof. unfold compress. intros E. injection E as <-. reflexivity. Qed.

#[export] Instance externals : ColorExternals := {|
  double := Z;
  double_zero := 0;
  double_1E5 := 100000;
  double_1Em5 := 1;
  double_eqb := Z.eqb;
  double_mul := Z.mul;
  double_round := fun x => x;
  double_of_int32 := fun x => x;
  int32_of_double := fun x => x / 100000;
  ColorSpace_kRGB := 0;
  WhitePoint_kD65 := 1;
  Primaries_kSRGB := 1;
  TransferFunction_kSRGB := 2;
  IsGray := fun c => ColorEncoding.color_space c =? 1;
  GammaFromTransferFunction := fun tf => if tf =? 2 then 0 else 45455;
  WhitePointToCIExy := fun wp => if wp =? 1 then Some (31270, 32900) else None;
  PrimariesToCIExy :=
    fun p =>
      if p =? 1
      then Some ((64000, 33000), (30000, 60000), (15000, 6000))
      else None;
  StoreBE32 := Store;
  LoadBE32 := Load;
  StoreBE32_length := fun v => eq_refl;
  LoadBE32_StoreBE32 := Load_Store;
  lodepng_zlib_compress := compress;
  lodepng_zlib_decompress := decompress;
  lodepng_zlib_decompress_compress := decompress_compress
|}.

(** An encoding with a profile, and the sRGB encoding without one. *)
Definition with_profile : ColorEncoding.t :=
  {| ColorEncoding.icc := [x00; x00; x02; x0c];
     ColorEncoding.color_space := 0;
     ColorEncoding.white_point := 1;
     ColorEncoding.primaries := 1;
     ColorEncoding.transfer_function := 2;
     ColorEncoding.rendering_intent := 1 |}.

Definition plain_sRGB : ColorEncoding.t :=
  {| ColorEncoding.icc := [];
     ColorEncoding.color_space := 0;
     ColorEncoding.white_point := 1;
     ColorEncoding.primaries := 1;
     ColorEncoding.transfer_function := 2;
     ColorEncoding.rendering_intent := 1 |}.

Definition blank : ColorEncodingReader.t :=
  {| ColorEncodingReader.icc_ := [];
     ColorEncodingReader.have_pq_ := false;
     ColorEncodingReader.have_srgb_ := false;
     ColorEncodingReader.have_gama_ := false;
     ColorEncodingReader.have_chrm_ := false;
     ColorEncodingReader.params_ :=
       {| ProfileParams.rendering_intent := 0;
          ProfileParams.gamma := 0;
          ProfileParams.white_point := (0, 0);
          ProfileParams.primaries := ((0, 0), (0, 0), (0, 0)) |} |}.

Definition IEND : Chunk :=
  {| chunk_type := cstr "IEND"; chunk_payload := []; chunk_crc_ok := true |}.

End ColorExample.

(** * More of headers.h *)

(** ** The operations of a header at its own level *)

(** The events of [t] at the header's own level are [l]. *)
Definition OwnIs (l t : list Event) : Prop :=
  forall rest : list Event, own_events 0 (t ++ rest) = l ++ own_events 0 rest.

Lemma OwnIs_nil : OwnIs [] [].
Proof. intros rest. reflexivity. Qed.

Lemma OwnIs_app (l1 l2 t1 t2 : list Event) :
  OwnIs l1 t1 -> OwnIs l2 t2 -> OwnIs (l1 ++ l2) (t1 ++ t2).
Proof.
  intros H1 H2 rest. rewrite <- !app_assoc, H1, H2. reflexivity.
Qed.

Lemma OwnIs_event (e : Event) : nests e = false -> OwnIs [e] [e].
Proof. intros He rest. destruct e; try discriminate; reflexivity. Qed.

Lemma OwnIs_nested (t : list Event) :
  Inner t -> OwnIs [] (EvBeginNested :: t ++ [EvEndNested]).
Proof.
  intros Ht rest. cbn [app own_events].
  rewrite <- app_assoc, Ht. reflexivity.
Qed.

Lemma OwnIs_own_events (l t : list Event) : OwnIs l t -> own_events 0 t = l.
Proof.
  intros Ht. specialize (Ht []). rewrite !app_nil_r in Ht. exact Ht.
Qed.

(** Under every visitor the own events of the field list are [l]. *)
Definition OwnExact {A : Type} (l : list Event) (p : Fields A) : Prop :=
  forall (V : Type) (HV : Visitor V) (v : V), OwnIs l (Trace p v).

(** Under every visitor the own events of the field list are one of
    [ls]. *)
Definition OwnIn {A : Type} (ls : list (list Event)) (p : Fields A) : Prop :=
  forall (V : Type) (HV : Visitor V) (v : V),
    exists l, In l ls /\ OwnIs l (Trace p v).

Lemma OwnExact_Return {A : Type} (a : A) : OwnExact [] (Return a).
Proof. intros V HV v. apply OwnIs_nil. Qed.

Lemma OwnExact_call {X : Type} (op : VisitorOp X) :
  nests (event_of op) = false -> OwnExact [event_of op] (call op).
Proof. intros Hop V HV v. rewrite Trace_call. apply OwnIs_event, Hop. Qed.

Lemma OwnExact_bind {A B : Type} (l1 l2 : list Event) (m : Fields A)
    (f : A -> Fields B) :
  OwnExact l1 m -> (forall a, OwnExact l2 (f a)) -> OwnExact (l1 ++ l2) (bind m f).
Proof.
  intros Hm Hf V HV v. rewrite Trace_bind. apply OwnIs_app; [apply Hm|apply Hf].
Qed.

Lemma OwnExact_VisitNested {T : Type} (VisitFields : T -> Fields (Status * T))
    (child : T) :
  InnerFields (VisitFields child) -> OwnExact [] (VisitNested VisitFields child).
Proof.
  intros Hc V HV v. rewrite Trace_VisitNested. apply OwnIs_nested, Hc.
Qed.

Lemma OwnIn_exact {A : Type} (l : list Event) (ls : list (list Event))
    (p : Fields A) :
  In l ls -> OwnExact l p -> OwnIn ls p.
Proof. intros Hin Hp V HV v. exists l. split; [exact Hin|apply Hp]. Qed.

Lemma OwnIn_bind {A B : Type} (l1 : list Event) (ls : list (list Event))
    (m : Fields A) (f : A -> Fields B) :
  OwnExact l1 m -> (forall a, OwnIn ls (f a)) ->
  OwnIn (map (app l1) ls) (bind m f).
Proof.
  intros Hm Hf V HV v. rewrite Trace_bind.
  destruct (Hf (fst (Visit m v)) V HV (snd (Visit m v))) as (l & Hin & Hl).
  exists (l1 ++ l). split; [apply in_map; exact Hin|].
  apply OwnIs_app; [apply Hm|exact Hl].
Qed.

Lemma OwnIn_weaken {A : Type} (ls ls' : list (list Event)) (p : Fields A) :
  OwnIn ls p -> incl ls ls' -> OwnIn ls' p.
Proof.
  intros Hp Hincl V HV v. destruct (Hp V HV v) as (l & Hin & Hl).
  exists l. split; [apply Hincl; exact Hin|exact Hl].
Qed.

(** ** The status a field list returns *)

(** Under every visitor of the class [C] the field list returns true. *)
Definition Ok (C : forall V : Type, Visitor V -> Prop) {T : Type}
    (p : Fields (Status * T)) : Prop :=
  forall (V : Type) (HV : Visitor V), C V HV ->
    forall v : V, fst (fst (Visit p v)) = StatusOk.

(** The visitors whose [EndExtensions] returns true. *)
Definition EndExtensionsOk (V : Type) (HV : Visitor V) : Prop :=
  forall v : V, fst (visit OpEndExtensions v) = StatusOk.

Definition AnyVisitor (V : Type) (HV : Visitor V) : Prop := True.

Lemma Ok_Return (C : forall V : Type, Visitor V -> Prop) {T : Type} (h : T) :
  Ok C (Return (StatusOk, h)).
Proof. intros V HV HC v. reflexivity. Qed.

Lemma Ok_bind (C : forall V : Type, Visitor V -> Prop) {A T : Type}
    (m : Fields A) (f : A -> Fields (Status * T)) :
  (forall a, Ok C (f a)) -> Ok C (bind m f).
Proof. intros Hf V HV HC v. rewrite Visit_bind. apply Hf. exact HC. Qed.

Lemma Ok_bind_status (C : forall V : Type, Visitor V -> Prop) {T' T : Type}
    (m : Fields (Status * T')) (f : Status * T' -> Fields (Status * T)) :
  Ok C m -> (forall h, Ok C (f (StatusOk, h))) -> Ok C (bind m f).
Proof.
  intros Hm Hf V HV HC v. rewrite Visit_bind.
  specialize (Hm V HV HC v).
  destruct (Visit m v) as [[s h] v1]. cbn [fst snd] in *. subst s.
  apply Hf. exact HC.
Qed.

Lemma Ok_VisitNested (C : forall V : Type, Visitor V -> Prop) {T : Type}
    (VisitFields : T -> Fields (Status * T)) (child : T) :
  Ok C (VisitFields child) -> Ok C (VisitNested VisitFields child).
Proof.
  intros Hc V HV HC v. rewrite Visit_VisitNested. cbn [fst].
  apply Hc. exact HC.
Qed.

Lemma Ok_weaken {T : Type} (C : forall V : Type, Visitor V -> Prop)
    (p : Fields (Status * T)) :
  Ok AnyVisitor p -> Ok C p.
Proof. intros Hp V HV _ v. apply Hp. exact I. Qed.

Lemma Ok_VisitExtensions {T : Type} (get : T -> Z) (set : Z -> T -> T) (h : T) :
  Ok EndExtensionsOk (VisitExtensions get set h).
Proof.
  intros V HV HC v. unfold VisitExtensions, BeginExtensions, EndExtensions.
  rewrite !Visit_bind, !Visit_call. cbn [Visit fst snd]. apply HC.
Qed.

Section HeaderLayout.

Context `{Externals}.

Lemma VisitExtensions_OwnExact {T : Type} (get : T -> Z) (set : Z -> T -> T)
    (h : T) :
  OwnExact [EvBeginExtensions; EvEndExtensions] (VisitExtensions get set h).
Proof.
  unfold VisitExtensions, BeginExtensions, EndExtensions.
  apply (OwnExact_bind [EvBeginExtensions] [EvEndExtensions]);
    [apply (OwnExact_call (OpBeginExtensions _)); reflexivity|].
  intros e. cbv zeta.
  apply (OwnExact_bind [EvEndExtensions] []);
    [apply (OwnExact_call OpEndExtensions); reflexivity|].
  intros s. apply OwnExact_Return.
Qed.

(** The end of a header that has an extension region: nothing when a
    nested header failed, else the two operations of the region. *)
Lemma end_OwnIn {T : Type} (s : Status) (get : T -> Z) (set : Z -> T -> T)
    (h : T) :
  OwnIn [[]; [EvBeginExtensions; EvEndExtensions]]
    (if negb (IsOk s) then Return (s, h) else VisitExtensions get set h).
Proof.
  destruct (negb (IsOk s)).
  - apply (OwnIn_exact []); [left; reflexivity|apply OwnExact_Return].
  - apply (OwnIn_exact [EvBeginExtensions; EvEndExtensions]);
      [right; left; reflexivity|apply VisitExtensions_OwnExact].
Qed.

Lemma TileHeader_OwnIn (h : TileHeader.t) :
  OwnIn [[EvAllDefault];
         [EvAllDefault; EvBool; EvConditional];
         [EvAllDefault; EvBool; EvConditional;
          EvBeginExtensions; EvEndExtensions]]
    (TileHeader.VisitFields h).
Proof.
  unfold TileHeader.VisitFields.
  apply (OwnIn_bind [EvAllDefault]
           [[]; [EvBool; EvConditional];
            [EvBool; EvConditional; EvBeginExtensions; EvEndExtensions]]);
    [apply (OwnExact_call (OpAllDefault _ _ _)); reflexivity|].
  intros [all_default h']. cbv zeta.
  destruct all_default.
  { apply (OwnIn_exact []); [left; reflexivity|apply OwnExact_Return]. }
  eapply OwnIn_weaken;
    [|intros l Hl; right; exact Hl].
  apply (OwnIn_bind [EvBool]
           [[EvConditional];
            [EvConditional; EvBeginExtensions; EvEndExtensions]]);
    [apply (OwnExact_call (OpBool _ _)); reflexivity|].
  intros b. cbv zeta.
  apply (OwnIn_bind [EvConditional]
           [[]; [EvBeginExtensions; EvEndExtensions]]);
    [apply (OwnExact_call (OpConditional _)); reflexivity|].
  intros c.
  apply (OwnIn_bind [] [[]; [EvBeginExtensions; EvEndExtensions]]).
  - destruct c; [|apply OwnExact_Return].
    apply (OwnExact_bind [] []);
      [apply OwnExact_VisitNested, PTP_Inner|].
    intros [s p]. apply OwnExact_Return.
  - intros [s h1]. apply end_OwnIn.
Qed.

Lemma GroupHeader_loop_OwnExact (n i : nat) (h : GroupHeader.t) :
  OwnExact [] (GroupHeader.VisitFields_loop n i h).
Proof.
  revert i h. induction n as [|n IH]; intros i h;
    cbn [GroupHeader.VisitFields_loop].
  - apply OwnExact_Return.
  - apply (OwnExact_bind [] []);
      [apply OwnExact_VisitNested, TileHeader_Inner|].
    intros [s tile]. cbv zeta.
    destruct (negb (IsOk s)); [apply OwnExact_Return|apply IH].
Qed.

Lemma GroupHeader_OwnIn (h : GroupHeader.t) :
  OwnIn [[EvAllDefault];
         [EvAllDefault; EvConditional];
         [EvAllDefault; EvConditional; EvBeginExtensions; EvEndExtensions]]
    (GroupHeader.VisitFields h).
Proof.
  unfold GroupHeader.VisitFields.
  apply (OwnIn_bind [EvAllDefault]
           [[]; [EvConditional];
            [EvConditional; EvBeginExtensions; EvEndExtensions]]);
    [apply (OwnExact_call (OpAllDefault _ _ _)); reflexivity|].
  intros [all_default h']. cbv zeta.
  destruct all_default.
  { apply (OwnIn_exact []); [left; reflexivity|apply OwnExact_Return]. }
  eapply OwnIn_weaken;
    [|intros l Hl; right; exact Hl].
  apply (OwnIn_bind [EvConditional]
           [[]; [EvBeginExtensions; EvEndExtensions]]);
    [apply (OwnExact_call (OpConditional _)); reflexivity|].
  intros c.
  apply (OwnIn_bind [] [[]; [EvBeginExtensions; EvEndExtensions]]).
  - destruct c; [|apply OwnExact_Return].
    apply (OwnExact_bind [] []);
      [apply OwnExact_VisitNested, Alpha_Inner|].
    intros [s a]. apply OwnExact_Return.
  - intros [s h1].
    destruct (negb (IsOk s)).
    { apply (OwnIn_exact []); [left; reflexivity|apply OwnExact_Return]. }
    apply (OwnIn_bind [] [[]; [EvBeginExtensions; EvEndExtensions]]);
      [apply GroupHeader_loop_OwnExact|].
    intros [s2 h2]. apply end_OwnIn.
Qed.

(** *** Statuses *)

Lemma PTP_Ok (p : ProjectiveTransformParams.t) :
  Ok AnyVisitor (ProjectiveTransformParams.VisitFields p).
Proof.
  unfold ProjectiveTransformParams.VisitFields.
  apply Ok_bind. intros p'. apply Ok_Return.
Qed.

Lemma Alpha_Ok (a : Alpha.t) : Ok AnyVisitor (Alpha.VisitFields a).
Proof.
  unfold Alpha.VisitFields.
  apply Ok_bind. intros b. cbv zeta. apply Ok_bind. intros e. apply Ok_Return.
Qed.

Ltac ok_flat :=
  repeat first
    [ apply Ok_Return
    | apply Ok_bind; intros ?; cbv zeta
    | match goal with
      | |- Ok _ (if ?c then _ else _) => destruct c
      | |- Ok _ (let '(_, _) := ?x in _) => destruct x
      | |- Ok _ (match ?x with _ => _ end) => destruct x
      end ].

Lemma FrameInfo_Ok (h : FrameInfo.t) : Ok AnyVisitor (FrameInfo.VisitFields h).
Proof. unfold FrameInfo.VisitFields. ok_flat. Qed.

Lemma Preview_Ok (h : Preview.t) : Ok AnyVisitor (Preview.VisitFields h).
Proof. unfold Preview.VisitFields. ok_flat. Qed.

Lemma Animation_Ok (h : Animation.t) : Ok AnyVisitor (Animation.VisitFields h).
Proof. unfold Animation.VisitFields. ok_flat. Qed.

Lemma end_Ok {T : Type} (get : T -> Z) (set : Z -> T -> T) (h : T) :
  Ok EndExtensionsOk
    (if negb (IsOk StatusOk) then Return (StatusOk, h)
     else VisitExtensions get set h).
Proof. cbn [IsOk negb]. apply Ok_VisitExtensions. Qed.

Lemma TileHeader_Ok (h : TileHeader.t) :
  Ok EndExtensionsOk (TileHeader.VisitFields h).
Proof.
  unfold TileHeader.VisitFields.
  apply Ok_bind. intros [all_default h']. cbv zeta.
  destruct all_default; [apply Ok_Return|].
  apply Ok_bind. intros b. cbv zeta.
  apply Ok_bind. intros c.
  apply Ok_bind_status.
  - destruct c; [|apply Ok_Return].
    apply Ok_bind_status.
    + apply Ok_VisitNested, Ok_weaken, PTP_Ok.
    + intros p. apply Ok_Return.
  - intros h1. apply end_Ok.
Qed.

Lemma GroupHeader_loop_Ok (n i : nat) (h : GroupHeader.t) :
  Ok EndExtensionsOk (GroupHeader.VisitFields_loop n i h).
Proof.
  revert i h. induction n as [|n IH]; intros i h;
    cbn [GroupHeader.VisitFields_loop].
  - apply Ok_Return.
  - apply Ok_bind_status.
    + apply Ok_VisitNested, TileHeader_Ok.
    + intros tile. cbv zeta. cbn [IsOk negb]. apply IH.
Qed.

Lemma GroupHeader_Ok (h : GroupHeader.t) :
  Ok EndExtensionsOk (GroupHeader.VisitFields h).
Proof.
  unfold GroupHeader.VisitFields.
  apply Ok_bind. intros [all_default h']. cbv zeta.
  destruct all_default; [apply Ok_Return|].
  apply Ok_bind. intros c.
  apply Ok_bind_status.
  - destruct c; [|apply Ok_Return].
    apply Ok_bind_status.
    + apply Ok_VisitNested, Ok_weaken, Alpha_Ok.
    + intros a. apply Ok_Return.
  - intros h1. cbn [IsOk negb].
    apply Ok_bind_status; [apply GroupHeader_loop_Ok|].
    intros h2. apply end_Ok.
Qed.

End HeaderLayout.

(** * Further properties of codec_png.cc and headers.h *)

(** [MetadataWriterPNG::Encode] followed by [MetadataReaderPNG::Decode]:
    every blob that is not empty is read back as it was written, provided
    EXIF and IPTC have fewer than [10^8] bytes and XMP holds no NUL byte; a
    blob that is empty is not written, so the decoder keeps what its
    metadata held before. *)
Theorem Decode_Encode_metadata (m m0 : Metadata) :
  Z.of_nat (length (exif m)) < 10 ^ 8 ->
  Z.of_nat (length (iptc m)) < 10 ^ 8 ->
  MetadataFacts.no_nul (xmp m) = true ->
  fst (MetadataWriterPNG.Encode m {| text := []; itext := [] |}) = StatusOk /\
  MetadataReaderPNG.Decode
    (snd (MetadataWriterPNG.Encode m {| text := []; itext := [] |})) m0 =
  Some (StatusOk,
        {| exif := MetadataFacts.kept (exif m) (exif m0);
           iptc := MetadataFacts.kept (iptc m) (iptc m0);
           xmp := MetadataFacts.kept (xmp m) (xmp m0) |}).
Proof.
  intros He Hi Hx. rewrite MetadataFacts.Encode_adds. cbn [fst snd app].
  split; [reflexivity|].
  unfold MetadataReaderPNG.Decode. cbn [text itext].
  change (@nil (cstring * cstring) ++ ?l) with l.
  rewrite MetadataFacts.Decode_itext_of.
  rewrite MetadataFacts.Decode_text_of by assumption.
  cbn [exif iptc xmp]. unfold MetadataFacts.kept at 3.
  destruct (xmp m) as [|x b] eqn:E; [reflexivity|].
  rewrite MetadataFacts.c_str_no_nul by exact Hx. reflexivity.
Qed.

Lemma Decode_Encode_metadata_witness :
  MetadataReaderPNG.Decode
    (snd (MetadataWriterPNG.Encode
            {| exif := [x4d; x4d; x00; x2a]; iptc := []; xmp := [x3c; x78; x3e] |}
            {| text := []; itext := [] |}))
    {| exif := []; iptc := [x1c]; xmp := [] |} =
  Some (StatusOk,
        {| exif := [x4d; x4d; x00; x2a]; iptc := [x1c]; xmp := [x3c; x78; x3e] |}).
Proof.
  apply (Decode_Encode_metadata
           {| exif := [x4d; x4d; x00; x2a]; iptc := []; xmp := [x3c; x78; x3e] |}
           {| exif := []; iptc := [x1c]; xmp := [] |});
    reflexivity.
Defined.

(** An XMP blob with a NUL byte is cut there: [Encode] hands LodePNG the
    C string of the blob, and [Decode] reads back the bytes before the
    first NUL only. *)
Theorem Encode_cuts_xmp_at_NUL (m m0 : Metadata) (pre post : PaddedBytes) :
  xmp m = pre ++ x00 :: post ->
  MetadataFacts.no_nul pre = true ->
  Z.of_nat (length (exif m)) < 10 ^ 8 ->
  Z.of_nat (length (iptc m)) < 10 ^ 8 ->
  MetadataReaderPNG.Decode
    (snd (MetadataWriterPNG.Encode m {| text := []; itext := [] |})) m0 =
  Some (StatusOk,
        {| exif := MetadataFacts.kept (exif m) (exif m0);
           iptc := MetadataFacts.kept (iptc m) (iptc m0);
           xmp := pre |}).
Proof.
  intros Hx Hpre He Hi. rewrite MetadataFacts.Encode_adds. cbn [snd app].
  unfold MetadataReaderPNG.Decode. cbn [text itext].
  change (@nil (cstring * cstring) ++ ?l) with l.
  rewrite MetadataFacts.Decode_itext_of.
  rewrite MetadataFacts.Decode_text_of by assumption.
  cbn [exif iptc xmp]. rewrite Hx.
  rewrite MetadataFacts.c_str_prefix by exact Hpre.
  destruct pre; reflexivity.
Qed.

Lemma Encode_cuts_xmp_at_NUL_witness :
  MetadataReaderPNG.Decode
    (snd (MetadataWriterPNG.Encode
            {| exif := []; iptc := []; xmp := [x3c; x78; x00; x3e] |}
            {| text := []; itext := [] |}))
    {| exif := []; iptc := []; xmp := [] |} =
  Some (StatusOk, {| exif := []; iptc := []; xmp := [x3c; x78] |}).
Proof.
  apply (Encode_cuts_xmp_at_NUL
           {| exif := []; iptc := []; xmp := [x3c; x78; x00; x3e] |}
           {| exif := []; iptc := []; xmp := [] |} [x3c; x78] [x3e]);
    reflexivity.
Defined.

(** [MetadataReaderPNG::Decode] never fails and skips what it does not
    store. International text chunks whose key does not contain
    "XML:com.adobe.xmp" and text chunks whose key does not begin with
    "Raw profile type " are skipped; so is, among the keys that hold no
    percent sign (the rest of the key becomes part of the format of
    [sscanf]), a text chunk whose type is none of exif, iptc and xmp, even
    when its text is well formed, and a text chunk that [DecodeBase16]
    refuses. The metadata is left as it was. *)
Theorem Decode_skips_unreadable_chunks (info : LodePNGInfo) (m : Metadata) :
  (forall key value, In (key, value) (text info) ->
     strncmp_eq key MetadataReaderPNG.kKey (length MetadataReaderPNG.kKey) = false \/
     (FormatFacts.no_percent key = true /\
      (MetadataFacts.stored_type
         (skipn (length MetadataReaderPNG.kKey) key) = false \/
       exists message type bytes,
         MetadataReaderPNG.DecodeBase16 key value =
         Some (StatusFailure message, type, bytes)))) ->
  (forall key value, In (key, value) (itext info) ->
     strstr key MetadataFacts.kXmpKey = false) ->
  MetadataReaderPNG.Decode info m = Some (StatusOk, m).
Proof.
  intros Ht Hi. unfold MetadataReaderPNG.Decode.
  assert (E1 : MetadataReaderPNG.Decode_itext (itext info) m = m).
  { revert Hi. generalize (itext info) as l.
    induction l as [|[key value] l IH]; intros Hi; [reflexivity|].
    cbn [MetadataReaderPNG.Decode_itext].
    fold MetadataFacts.kXmpKey.
    rewrite (Hi key value (or_introl eq_refl)).
    apply IH. intros k v Hin. apply (Hi k v). right. exact Hin. }
  rewrite E1.
  assert (E2 : MetadataReaderPNG.Decode_text (text info) m = Some m).
  { revert Ht. generalize (text info) as l.
    induction l as [|[key value] l IH]; intros Ht; [reflexivity|].
    cbn [MetadataReaderPNG.Decode_text].
    rewrite (FormatFacts.Decode_text_skips key value l m
               (Ht key value (or_introl eq_refl))).
    apply IH. intros k v Hin. apply (Ht k v). right. exact Hin. }
  rewrite E2. reflexivity.
Qed.

Lemma Decode_skips_unreadable_chunks_witness :
  MetadataReaderPNG.Decode
    {| text := [(cstr "Comment", cstr "made with care");
                (cstr "Raw profile type exif",
                 newline :: cstr "exif" ++ newline :: cstr "       1" ++
                 newline :: cstr "4D" ++ [newline]);
                (cstr "Raw profile type icc",
                 newline :: cstr "icc" ++ newline :: cstr "       1" ++
                 newline :: cstr "4d" ++ [newline])];
       itext := [(cstr "Title", cstr "a title")] |}
    {| exif := [x01]; iptc := []; xmp := [] |} =
  Some (StatusOk, {| exif := [x01]; iptc := []; xmp := [] |}).
Proof.
  apply (Decode_skips_unreadable_chunks
           {| text := [(cstr "Comment", cstr "made with care");
                       (cstr "Raw profile type exif",
                        newline :: cstr "exif" ++ newline :: cstr "       1" ++
                        newline :: cstr "4D" ++ [newline]);
                       (cstr "Raw profile type icc",
                        newline :: cstr "icc" ++ newline :: cstr "       1" ++
                        newline :: cstr "4d" ++ [newline])];
              itext := [(cstr "Title", cstr "a title")] |}).
  - intros key value [E|[E|[E|[]]]]; injection E as <- <-.
    + left. reflexivity.
    + right. split; [reflexivity|]. right.
      eexists _, _, _. vm_compute. reflexivity.
    + right. split; [reflexivity|]. left. reflexivity.
  - intros key value [E|[]]. injection E as <- <-. reflexivity.
Defined.

(** Among the text chunks the last one of a type wins, whatever its size:
    a "Raw profile type exif" chunk of the writer appended to the text
    chunks replaces the EXIF blob the chunks before it left, be it
    larger (an eXIf chunk, by contrast, replaces the blob only when it is
    at least as large). *)
Theorem Decode_last_text_chunk_wins (chunks its : list (cstring * cstring))
    (bytes : PaddedBytes) (m0 m1 : Metadata) :
  Z.of_nat (length bytes) < 10 ^ 8 ->
  MetadataReaderPNG.Decode {| text := chunks; itext := its |} m0 =
  Some (StatusOk, m1) ->
  MetadataReaderPNG.Decode
    {| text := chunks ++ [MetadataWriterPNG.EncodeBase16_chunk (cstr "exif") bytes];
       itext := its |} m0 =
  Some (StatusOk, {| exif := bytes; iptc := iptc m1; xmp := xmp m1 |}).
Proof.
  intros Hlen. unfold MetadataReaderPNG.Decode. cbn [text itext].
  rewrite MetadataFacts.Decode_text_app.
  destruct (MetadataReaderPNG.Decode_text chunks _) as [m'|]; [|discriminate].
  intros E. assert (m' = m1) by congruence. subst m'.
  rewrite MetadataFacts.Decode_text_chunk
    by (try (left; reflexivity); exact Hlen).
  reflexivity.
Qed.

Lemma Decode_last_text_chunk_wins_witness :
  MetadataReaderPNG.Decode
    {| text := [MetadataWriterPNG.EncodeBase16_chunk (cstr "exif") [x01; x02; x03]] ++
               [MetadataWriterPNG.EncodeBase16_chunk (cstr "exif") [x09]];
       itext := [] |}
    {| exif := []; iptc := []; xmp := [] |} =
  Some (StatusOk, {| exif := [x09]; iptc := []; xmp := [] |}).
Proof.
  apply (Decode_last_text_chunk_wins
           [MetadataWriterPNG.EncodeBase16_chunk (cstr "exif") [x01; x02; x03]]
           [] [x09] {| exif := []; iptc := []; xmp := [] |}
           {| exif := [x01; x02; x03]; iptc := []; xmp := [] |}).
  - reflexivity.
  - vm_compute. reflexivity.
Defined.

(** A "Raw profile type xmp" text chunk: when [DecodeBase16] accepts it,
    [Decode] stores as XMP the characters of the whole text, header and
    hexadecimal lines, and not the bytes they encode; the blob is more
    than twice as long as the bytes. *)
Theorem Decode_raw_profile_xmp_keeps_the_text (key value : cstring)
    (bytes : PaddedBytes) (m : Metadata) :
  MetadataReaderPNG.DecodeBase16 key value = Some (StatusOk, cstr "xmp", bytes) ->
  MetadataReaderPNG.Decode {| text := [(key, value)]; itext := [] |} m =
  Some (StatusOk,
        {| exif := exif m; iptc := iptc m; xmp := bytes_of_cstring value |}) /\
  (2 * length bytes < length (bytes_of_cstring value))%nat.
Proof.
  intros E. split.
  - unfold MetadataReaderPNG.Decode.
    cbn [text itext MetadataReaderPNG.Decode_itext MetadataReaderPNG.Decode_text].
    rewrite E. reflexivity.
  - apply Base16More.DecodeBase16_inv in E
      as (_ & _ & _ & n & header_len & _ & _ & Hskip).
    unfold bytes_of_cstring. rewrite length_map.
    pose proof (Base16More.length_Base16Lines_lower bytes 0) as Hl.
    assert (Hv : length (skipn (Z.to_nat header_len) value) =
                 (length (Base16Lines 0 bytes) + 1)%nat)
      by (rewrite Hskip, length_app; reflexivity).
    rewrite length_skipn in Hv. lia.
Qed.

Lemma Decode_raw_profile_xmp_keeps_the_text_witness :
  MetadataReaderPNG.Decode
    {| text := [(cstr "Raw profile type xmp",
                 newline :: cstr "xmp" ++ newline :: cstr "       2" ++
                 newline :: cstr "c387" ++ [newline])];
       itext := [] |}
    {| exif := []; iptc := []; xmp := [] |} =
  Some (StatusOk,
        {| exif := []; iptc := [];
           xmp := bytes_of_cstring
                    (newline :: cstr "xmp" ++ newline :: cstr "       2" ++
                     newline :: cstr "c387" ++ [newline]) |}) /\
  (2 * length [x3c; x78] <
   length (bytes_of_cstring
             (newline :: cstr "xmp" ++ newline :: cstr "       2" ++
              newline :: cstr "c387" ++ [newline])))%nat.
Proof.
  apply (Decode_raw_profile_xmp_keeps_the_text
           (cstr "Raw profile type xmp")
           (newline :: cstr "xmp" ++ newline :: cstr "       2" ++
            newline :: cstr "c387" ++ [newline])
           [x3c; x78] {| exif := []; iptc := []; xmp := [] |}).
  vm_compute. reflexivity.
Defined.

(** The assertion of [EncodeBase16] holds: the text it builds has exactly
    [2 * size + DivCeil(size, 36) + 1] characters, the size it reserved. *)
Theorem EncodeBase16_length_is_base16_size (bytes : PaddedBytes) :
  Z.of_nat (length (MetadataWriterPNG.EncodeBase16_loop 0 bytes [] ++ [newline])) =
  MetadataWriterPNG.base16_size bytes.
Proof.
  rewrite EncodeBase16_loop_lines. cbn [app].
  rewrite length_app. cbn [length].
  rewrite Nat2Z.inj_add, (Base16More.length_Base16Lines bytes 0) by lia.
  unfold MetadataWriterPNG.base16_size. cbn [Z.add].
  change (MetadataWriterPNG.DivCeil 0 36) with 0. simpl Z.of_nat. lia.
Qed.

(** The two nibble coders are inverse to each other: [DecodeNibble]
    yields a value below 16 for every character (its assertion holds),
    reads back what [EncodeNibble] writes for a value below 16, and
    [EncodeNibble] writes back every character [DecodeNibble] accepts. *)
Theorem DecodeNibble_EncodeNibble :
  (forall c, 0 <= snd (MetadataReaderPNG.DecodeNibble c) < 16) /\
  (forall nibble, 0 <= nibble < 16 ->
     MetadataReaderPNG.DecodeNibble (MetadataWriterPNG.EncodeNibble nibble) =
     (StatusOk, nibble)) /\
  (forall c nibble,
     MetadataReaderPNG.DecodeNibble c = (StatusOk, nibble) ->
     MetadataWriterPNG.EncodeNibble nibble = c).
Proof.
  split; [|split].
  - intros c. rewrite DecodeNibble_spec.
    destruct (hex_value c) as [n|] eqn:E; cbn [snd]; [|lia].
    apply hex_value_digit in E. lia.
  - intros n Hn. destruct (EncodeNibble_hex_digit n Hn) as (-> & _ & _).
    apply DecodeNibble_hex_digit. exact Hn.
  - intros c n E. rewrite DecodeNibble_spec in E.
    destruct (hex_value c) as [k|] eqn:Ek; [|discriminate].
    assert (k = n) by congruence. subst k.
    apply hex_value_digit in Ek as [Hn Hc].
    destruct (EncodeNibble_hex_digit n Hn) as (-> & _ & _). exact Hc.
Qed.

Lemma DecodeNibble_EncodeNibble_witness :
  MetadataReaderPNG.DecodeNibble (MetadataWriterPNG.EncodeNibble 11) =
  (StatusOk, 11) /\
  MetadataWriterPNG.EncodeNibble 11 = "b"%char.
Proof.
  split.
  - apply (proj1 (proj2 DecodeNibble_EncodeNibble) 11). lia.
  - apply (proj2 (proj2 DecodeNibble_EncodeNibble) "b"%char 11). reflexivity.
Defined.

(** What [DecodeBase16] accepts, for a key that holds no percent sign
    (the rest of the key becomes part of the format of [sscanf]): the key
    is "Raw profile type " followed by the type, of at most 20 characters;
    the header of the text yields the byte count; exactly that many bytes
    are returned; and behind the header the text is the base16 lines of
    these bytes and one newline, with nothing after it. *)
Theorem DecodeBase16_accepts_only_well_formed (key encoded type : cstring)
    (bytes : PaddedBytes) :
  FormatFacts.no_percent key = true ->
  MetadataReaderPNG.DecodeBase16 key encoded = Some (StatusOk, type, bytes) ->
  key = MetadataReaderPNG.kKey ++ type /\
  (length type <= 20)%nat /\
  exists bytes_to_decode header_len,
    MetadataReaderPNG.sscanf_header encoded
      (MetadataReaderPNG.header_format type) =
    Some (Some (bytes_to_decode, header_len)) /\
    Z.of_nat (length bytes) = Z.max 0 bytes_to_decode /\
    encoded = firstn (Z.to_nat header_len) encoded ++
              Base16Lines 0 bytes ++ [newline].
Proof.
  intros _ E. apply Base16More.DecodeBase16_inv in E
    as (Hk & Ht & Hl & n & header_len & Hs & Hn & Hskip).
  split; [|split; [exact Hl|]].
  - rewrite <- (firstn_skipn (length MetadataReaderPNG.kKey) key) at 1.
    rewrite Hk, <- Ht. reflexivity.
  - exists n, header_len. split; [exact Hs|]. split; [lia|].
    rewrite <- Hskip. symmetry. apply firstn_skipn.
Qed.

Lemma DecodeBase16_accepts_only_well_formed_witness :
  cstr "Raw profile type exif" = MetadataReaderPNG.kKey ++ cstr "exif" /\
  (length (cstr "exif") <= 20)%nat /\
  exists bytes_to_decode header_len,
    MetadataReaderPNG.sscanf_header PngExamples.one_line
      (MetadataReaderPNG.header_format (cstr "exif")) =
    Some (Some (bytes_to_decode, header_len)) /\
    Z.of_nat (length [x01; xab]) = Z.max 0 bytes_to_decode /\
    PngExamples.one_line =
    firstn (Z.to_nat header_len) PngExamples.one_line ++
    Base16Lines 0 [x01; xab] ++ [newline].
Proof.
  apply (DecodeBase16_accepts_only_well_formed
           (cstr "Raw profile type exif") PngExamples.one_line
           (cstr "exif") [x01; xab]).
  - reflexivity.
  - vm_compute. reflexivity.
Defined.

(** No [snprintf] of the metadata coder cuts its text. For the types the
    writer uses and every blob size below [2^64], the key and the header
    of [EncodeBase16] fit their 30 characters, so the chunk is the whole
    key and the whole header followed by the base16 lines; and the format
    [DecodeBase16] builds for a type of at most 20 characters fits its
    buffer. *)
Theorem metadata_buffers_are_large_enough :
  (forall (type : cstring) (bytes : PaddedBytes),
     type = cstr "exif" \/ type = cstr "iptc" ->
     Z.of_nat (length bytes) < 2 ^ 64 ->
     MetadataWriterPNG.EncodeBase16_chunk type bytes =
     (MetadataReaderPNG.kKey ++ type,
      (newline :: type ++ newline ::
       Stdio.print_lu_width 8 (Z.of_nat (length bytes))) ++
      MetadataWriterPNG.EncodeBase16_loop 0 bytes [] ++ [newline])) /\
  (forall type : cstring,
     (length type <= 20)%nat ->
     MetadataReaderPNG.header_format type =
     newline :: type ++ newline :: cstr "%8lu%n").
Proof.
  split; [|exact FormatFacts.header_format_fits].
  intros type bytes Htype Hlen.
  unfold MetadataWriterPNG.EncodeBase16_chunk.
  pose proof (Base16More.length_print_lu_width (Z.of_nat (length bytes))
                ltac:(lia)) as Hw.
  rewrite !FormatFacts.snprintf_fits.
  - reflexivity.
  - cbn [length]. rewrite length_app. cbn [length].
    destruct Htype as [-> | ->]; cbn [length cstr list_ascii_of_string]; lia.
  - destruct Htype as [-> | ->]; cbn; lia.
Qed.

Lemma metadata_buffers_are_large_enough_witness :
  MetadataWriterPNG.EncodeBase16_chunk (cstr "iptc") [x1c; x02] =
  (MetadataReaderPNG.kKey ++ cstr "iptc",
   (newline :: cstr "iptc" ++ newline ::
    Stdio.print_lu_width 8 (Z.of_nat (length [x1c; x02]))) ++
   MetadataWriterPNG.EncodeBase16_loop 0 [x1c; x02] [] ++ [newline]) /\
  MetadataReaderPNG.header_format (cstr "iptc") =
  newline :: cstr "iptc" ++ newline :: cstr "%8lu%n".
Proof.
  split.
  - apply (proj1 metadata_buffers_are_large_enough (cstr "iptc") [x1c; x02]).
    + right. reflexivity.
    + reflexivity.
  - apply (proj2 metadata_buffers_are_large_enough (cstr "iptc")).
    simpl. lia.
Defined.

(** The type of a text chunk's key becomes part of the format of
    [sscanf]. When it holds no percent sign (and is not too long), the
    format has the two conversions [%8lu] and [%n] that the two arguments
    are for, and [DecodeBase16] returns. A key such as
    "Raw profile type %n" makes a format with a third conversion, for
    which [sscanf] is passed no argument. *)
Theorem DecodeBase16_format_conversions :
  (forall type : cstring,
     (length type <= 20)%nat -> FormatFacts.no_percent type = true ->
     exists ds,
       Stdio.parse_format
         (S (length (MetadataReaderPNG.header_format type)))
         (MetadataReaderPNG.header_format type) = Some ds /\
       filter MetadataReaderPNG.is_conversion ds =
       [Stdio.DULong 8; Stdio.DCount]) /\
  (forall type encoded : cstring,
     FormatFacts.no_percent type = true ->
     exists result,
       MetadataReaderPNG.DecodeBase16 (MetadataReaderPNG.kKey ++ type) encoded =
       Some result) /\
  (exists ds,
     Stdio.parse_format
       (S (length (MetadataReaderPNG.header_format (cstr "%n"))))
       (MetadataReaderPNG.header_format (cstr "%n")) = Some ds /\
     filter MetadataReaderPNG.is_conversion ds =
     [Stdio.DCount; Stdio.DULong 8; Stdio.DCount]) /\
  (forall encoded : cstring,
     MetadataReaderPNG.DecodeBase16 (cstr "Raw profile type %n") encoded = None).
Proof.
  split; [exact FormatFacts.header_format_conversions|].
  split; [exact FormatFacts.DecodeBase16_defined|].
  split.
  - eexists. split; vm_compute; reflexivity.
  - intros encoded. reflexivity.
Qed.

Lemma DecodeBase16_format_conversions_witness :
  exists result,
    MetadataReaderPNG.DecodeBase16
      (MetadataReaderPNG.kKey ++ cstr "icc") (cstr "no header") =
    Some result.
Proof.
  apply (proj1 (proj2 DecodeBase16_format_conversions) (cstr "icc")
           (cstr "no header")).
  reflexivity.
Defined.

(** [ColorEncodingReaderPNG::Decode], iteration by iteration. When no
    chunk of the five types has a CRC mismatch, the loop returns after at
    most one iteration per chunk and one more. On a chunk of one of the
    five types whose CRC does not match and which another chunk follows,
    [continue] repeats the iteration on the same chunk: the loop is still
    running after any number of iterations. Whenever the loop returns, it
    returns what [Decode] is modelled to return. *)
Theorem Decode_loop_returns_unless_CRC_mismatch :
  (forall (chunks : list Chunk) (m : Metadata),
     ChunkFacts.crc_ok_where_checked chunks = true ->
     exists r,
       ChunkLoop.Decode (S (length chunks)) chunks m = Some r /\
       ColorEncodingReaderPNG.Decode chunks m = Some r) /\
  (forall (fuel : nat) (chunk next : Chunk) (rest : list Chunk) (m : Metadata),
     ChunkFacts.recognised chunk = true -> chunk_crc_ok chunk = false ->
     ChunkLoop.Decode fuel (chunk :: next :: rest) m = None) /\
  (forall (fuel : nat) (chunks : list Chunk) (m : Metadata) r,
     ChunkLoop.Decode fuel chunks m = Some r ->
     ColorEncodingReaderPNG.Decode chunks m = Some r).
Proof.
  split; [|split].
  - intros chunks m Hcrc.
    destruct (ChunkFacts.loop_returns chunks m Hcrc) as [E [r Hr]].
    exists r. rewrite E. auto.
  - intros fuel chunk next rest m. apply ChunkFacts.loop_hangs.
  - intros fuel. apply ChunkFacts.loop_agrees.
Qed.

Lemma Decode_loop_returns_unless_CRC_mismatch_witness :
  (exists r,
     ChunkLoop.Decode (S (length PngExamples.exif_chunks))
       PngExamples.exif_chunks PngExamples.no_metadata = Some r /\
     ColorEncodingReaderPNG.Decode PngExamples.exif_chunks
       PngExamples.no_metadata = Some r) /\
  ChunkLoop.Decode 1000
    [{| chunk_type := cstr "gAMA"; chunk_payload := [x00; x00; xb1; x8f];
        chunk_crc_ok := false |};
     PngExamples.chunk_of "IEND" []] PngExamples.no_metadata = None.
Proof.
  destruct Decode_loop_returns_unless_CRC_mismatch as (Hret & Hhang & _).
  split.
  - apply Hret. reflexivity.
  - apply Hhang; reflexivity.
Defined.

(** The result of [ColorEncodingReaderPNG::Decode] depends on the chunks
    of the five types eXIf, iCCP, sRGB, gAMA and cHRM only, and never on
    the last chunk of the buffer, which counts as truncated when it is of
    one of these types. *)
Theorem Decode_reads_five_types_and_never_the_last_chunk
    (chunks : list Chunk) (last last' : Chunk) (m : Metadata) :
  ColorEncodingReaderPNG.Decode (chunks ++ [last]) m =
  ColorEncodingReaderPNG.Decode
    (filter ChunkFacts.recognised chunks ++ [last']) m.
Proof. apply ChunkFacts.Decode_filter. Qed.

(** [DecodeICC] accepts exactly the payloads that begin with a profile
    name of 1 to 79 bytes other than NUL, a NUL, and the compression
    method 0; whether the profile behind them can be decompressed does not
    matter. *)
Theorem DecodeICC_accepts (payload : PaddedBytes) :
  ColorEncodingReaderPNG.DecodeICC payload = StatusOk <->
  exists name rest,
    payload = name ++ x00 :: x00 :: rest /\
    MetadataFacts.no_nul name = true /\
    (1 <= length name <= 79)%nat.
Proof.
  destruct payload as [|y p].
  - split; [discriminate|].
    intros (name & rest & E & _). destruct name; discriminate.
  - rewrite ChunkFacts.DecodeICC_unfold.
    destruct (u8 y =? 0) eqn:Hy.
    + split; [discriminate|].
      intros (name & rest & E & Hn & Hl).
      destruct name as [|x name]; [simpl in Hl; lia|].
      cbn [app] in E. injection E as <- _.
      cbn [MetadataFacts.no_nul forallb] in Hn. rewrite Hy in Hn.
      discriminate Hn.
    + destruct (ColorEncodingReaderPNG.DecodeICC_name 80 (y :: p))
        as [failure|after] eqn:En.
      * split.
        -- intros ->.
           assert (Hno : forall left pos,
                     ColorEncodingReaderPNG.DecodeICC_name left pos <> inl StatusOk).
           { clear. induction left as [|left IH]; intros pos; [discriminate|].
             destruct pos as [|x pos]; [discriminate|].
             cbn [ColorEncodingReaderPNG.DecodeICC_name].
             destruct x; try apply IH; discriminate. }
           exfalso. exact (Hno _ _ En).
        -- intros (name & rest & E & Hn & Hl).
           assert (Hr : ColorEncodingReaderPNG.DecodeICC_name 80 (y :: p) =
                        inr (x00 :: rest)).
           { apply ChunkFacts.DecodeICC_name_inr. exists name.
             split; [exact E|]. split; [exact Hn|lia]. }
           congruence.
      * apply ChunkFacts.DecodeICC_name_inr in En as (name & E & Hn & Hl).
        destruct after as [|z after].
        -- split; [discriminate|].
           intros (name' & rest & E' & Hn' & Hl').
           assert (Hr : ColorEncodingReaderPNG.DecodeICC_name 80 (y :: p) =
                        inr (x00 :: rest)).
           { apply ChunkFacts.DecodeICC_name_inr. exists name'.
             split; [exact E'|]. split; [exact Hn'|lia]. }
           assert (Hr' : ColorEncodingReaderPNG.DecodeICC_name 80 (y :: p) =
                         inr []).
           { apply ChunkFacts.DecodeICC_name_inr. exists name.
             split; [exact E|]. split; [exact Hn|exact Hl]. }
           congruence.
        -- destruct (u8 z =? 0) eqn:Hz.
           ++ apply Z.eqb_eq, MetadataFacts.u8_zero in Hz. subst z.
              split; [intros _|reflexivity].
              exists name, after. split; [exact E|]. split; [exact Hn|].
              destruct name as [|x name]; [|simpl in *; lia].
              cbn [app] in E. injection E as -> _. discriminate Hy.
           ++ split; [discriminate|].
              intros (name' & rest & E' & Hn' & Hl').
              assert (Hr : ColorEncodingReaderPNG.DecodeICC_name 80 (y :: p) =
                           inr (x00 :: rest)).
              { apply ChunkFacts.DecodeICC_name_inr. exists name'.
                split; [exact E'|]. split; [exact Hn'|lia]. }
              assert (Hr' : ColorEncodingReaderPNG.DecodeICC_name 80 (y :: p) =
                            inr (z :: after)).
              { apply ChunkFacts.DecodeICC_name_inr. exists name.
                split; [exact E|]. split; [exact Hn|exact Hl]. }
              assert (z = x00) by congruence. subst z. discriminate Hz.
Qed.

Lemma DecodeICC_accepts_witness :
  ColorEncodingReaderPNG.DecodeICC [x73; x52; x47; x42; x00; x00; x78; x9c] =
  StatusOk.
Proof.
  apply (proj2 (DecodeICC_accepts [x73; x52; x47; x42; x00; x00; x78; x9c])).
  exists [x73; x52; x47; x42], [x78; x9c].
  split; [reflexivity|]. split; [reflexivity|simpl; lia].
Defined.

(** [MakeType] and the two checks are inverse to each other. The colour
    type [MakeType] makes is never a palette, [CheckGray] and [CheckAlpha]
    read back the two flags it was made from, and for a file that is
    grey or RGB, with or without alpha and without a colour key,
    [MakeType] of what the checks report is the colour type of the file.
    Moreover [CheckAlpha] succeeds whenever [CheckGray] does. *)
Theorem MakeType_inverts_CheckGray_and_CheckAlpha :
  (forall (is_gray has_alpha : bool) (pal : PaddedBytes) (size : nat),
     let mode := {| colortype := MakeType is_gray has_alpha; palette := pal;
                    palettesize := size; key_defined := 0 |} in
     CheckGray mode = (StatusOk, is_gray) /\
     CheckAlpha mode = (StatusOk, has_alpha)) /\
  (forall is_gray has_alpha : bool,
     In (MakeType is_gray has_alpha) [LCT_GREY; LCT_GREY_ALPHA; LCT_RGB; LCT_RGBA]) /\
  (forall mode : LodePNGColorMode,
     In (colortype mode) [LCT_GREY; LCT_GREY_ALPHA; LCT_RGB; LCT_RGBA] ->
     key_defined mode = 0 ->
     MakeType (snd (CheckGray mode)) (snd (CheckAlpha mode)) = colortype mode) /\
  (forall mode : LodePNGColorMode,
     fst (CheckGray mode) = StatusOk -> fst (CheckAlpha mode) = StatusOk).
Proof.
  split; [|split; [|split]].
  - intros [] [] pal size; split; reflexivity.
  - intros [] []; simpl; auto.
  - intros [ct pal size key] Hin Hkey. cbn [colortype key_defined] in *.
    subst key. unfold CheckGray, CheckAlpha. cbn [colortype key_defined].
    change (negb (0 =? 0)) with false. cbv iota.
    destruct Hin as [<-|[<-|[<-|[<-|[]]]]]; reflexivity.
  - intros [ct pal size key]. unfold CheckGray, CheckAlpha.
    cbn [colortype key_defined].
    destruct (negb (key =? 0)); [reflexivity|].
    destruct ct; cbn [fst]; auto.
Qed.

Lemma MakeType_inverts_CheckGray_and_CheckAlpha_witness :
  MakeType
    (snd (CheckGray {| colortype := LCT_GREY_ALPHA; palette := [];
                       palettesize := 0; key_defined := 0 |}))
    (snd (CheckAlpha {| colortype := LCT_GREY_ALPHA; palette := [];
                        palettesize := 0; key_defined := 0 |})) =
  LCT_GREY_ALPHA.
Proof.
  apply (proj1 (proj2 (proj2 MakeType_inverts_CheckGray_and_CheckAlpha))
           {| colortype := LCT_GREY_ALPHA; palette := [];
              palettesize := 0; key_defined := 0 |}).
  - simpl. auto.
  - reflexivity.
Defined.

(** A palette image is grey exactly when every palette entry has equal
    red, green and blue, and has alpha exactly when some entry has an
    alpha other than 255 (so an image with an empty palette is grey and
    has no alpha). With a colour key [CheckAlpha] reports alpha and
    succeeds whatever the colour type is, an unexpected one included. *)
Theorem palette_is_gray_and_has_alpha (mode : LodePNGColorMode) :
  (colortype mode = LCT_PALETTE ->
   fst (CheckGray mode) = StatusOk /\
   (snd (CheckGray mode) = true <->
    forall i, (i < palettesize mode)%nat ->
      palette_at mode (i * 4) = palette_at mode (i * 4 + 1) /\
      palette_at mode (i * 4) = palette_at mode (i * 4 + 2))) /\
  (colortype mode = LCT_PALETTE -> key_defined mode = 0 ->
   fst (CheckAlpha mode) = StatusOk /\
   (snd (CheckAlpha mode) = true <->
    exists i, (i < palettesize mode)%nat /\
      palette_at mode (i * 4 + 3) <> 255)) /\
  (key_defined mode <> 0 -> CheckAlpha mode = (StatusOk, true)).
Proof.
  split; [|split].
  - intros Hct. unfold CheckGray. rewrite Hct. cbn [fst snd].
    split; [reflexivity|].
    rewrite ColorTypeFacts.CheckGray_loop_spec. split.
    + intros H i Hi. apply H. lia.
    + intros H k Hk. apply H. lia.
  - intros Hct Hkey. unfold CheckAlpha. rewrite Hct, Hkey.
    change (negb (0 =? 0)) with false. cbn [fst snd].
    split; [reflexivity|].
    rewrite ColorTypeFacts.CheckAlpha_loop_spec. split.
    + intros (k & Hk & Ha). exists k. split; [lia|exact Ha].
    + intros (k & Hk & Ha). exists k. split; [lia|exact Ha].
  - intros Hkey. unfold CheckAlpha.
    apply Z.eqb_neq in Hkey. rewrite Hkey. reflexivity.
Qed.

Lemma palette_is_gray_and_has_alpha_witness :
  (snd (CheckGray {| colortype := LCT_PALETTE;
                     palette := [x10; x10; x10; xff; x80; x80; x80; x7f];
                     palettesize := 2; key_defined := 0 |}) = true <->
   forall i, (i < 2)%nat ->
     palette_at {| colortype := LCT_PALETTE;
                   palette := [x10; x10; x10; xff; x80; x80; x80; x7f];
                   palettesize := 2; key_defined := 0 |} (i * 4) =
     palette_at {| colortype := LCT_PALETTE;
                   palette := [x10; x10; x10; xff; x80; x80; x80; x7f];
                   palettesize := 2; key_defined := 0 |} (i * 4 + 1) /\
     palette_at {| colortype := LCT_PALETTE;
                   palette := [x10; x10; x10; xff; x80; x80; x80; x7f];
                   palettesize := 2; key_defined := 0 |} (i * 4) =
     palette_at {| colortype := LCT_PALETTE;
                   palette := [x10; x10; x10; xff; x80; x80; x80; x7f];
                   palettesize := 2; key_defined := 0 |} (i * 4 + 2)) /\
  CheckAlpha {| colortype := LCT_unexpected; palette := [];
                palettesize := 0; key_defined := 1 |} = (StatusOk, true).
Proof.
  split.
  - apply (proj1 (palette_is_gray_and_has_alpha
                    {| colortype := LCT_PALETTE;
                       palette := [x10; x10; x10; xff; x80; x80; x80; x7f];
                       palettesize := 2; key_defined := 0 |})).
    reflexivity.
  - apply (proj2 (proj2 (palette_is_gray_and_has_alpha
                           {| colortype := LCT_unexpected; palette := [];
                              palettesize := 0; key_defined := 1 |}))).
    discriminate.
Defined.

(** What [ColorEncodingWriterPNG::Encode] adds. It fails only when there
    is a profile that cannot be compressed, and then adds nothing.
    Otherwise it adds, in this order: an iCCP chunk exactly when there is
    a profile, an sRGB chunk only when there is none, possibly a gAMA
    chunk and possibly a cHRM chunk -- never both iCCP and sRGB -- each
    with a payload of the size its decoder asks for. *)
Theorem ColorEncodingWriter_Encode_adds `{ColorExternals}
    (c : ColorEncoding.t) (unknown_chunks : list Chunk) :
  (ColorEncoding.icc c <> [] ->
   lodepng_zlib_compress (ColorEncoding.icc c) = None ->
   ColorEncodingWriterPNG.Encode c unknown_chunks =
   (PIK_FAILURE "Failed to compress ICC", unknown_chunks)) /\
  (ColorEncoding.icc c = [] \/
   lodepng_zlib_compress (ColorEncoding.icc c) <> None ->
   exists (added : list Chunk) (srgb gama chrm : bool),
     ColorEncodingWriterPNG.Encode c unknown_chunks =
     (StatusOk, unknown_chunks ++ added) /\
     map chunk_type added =
     (match ColorEncoding.icc c with
      | [] => if srgb then [cstr "sRGB"] else []
      | _ => [cstr "iCCP"]
      end) ++
     (if gama then [cstr "gAMA"] else []) ++
     (if chrm then [cstr "cHRM"] else []) /\
     forallb chunk_crc_ok added = true /\
     forall chunk, In chunk added ->
       (if cstring_eqb (chunk_type chunk) (cstr "iCCP")
        then ColorEncodingReaderPNG.DecodeICC (chunk_payload chunk)
        else if cstring_eqb (chunk_type chunk) (cstr "sRGB")
        then ColorEncodingReaderPNG.DecodeSRGB (chunk_payload chunk)
        else if cstring_eqb (chunk_type chunk) (cstr "gAMA")
        then ColorEncodingReaderPNG.DecodeGAMA (chunk_payload chunk)
        else ColorEncodingReaderPNG.DecodeCHRM (chunk_payload chunk)) =
       StatusOk).
Proof.
  rewrite ColorRoundTrip.Encode_chunks. split.
  - intros Hne Hc. rewrite Hc. destruct (ColorEncoding.icc c); [contradiction|].
    reflexivity.
  - intros Hok.
    exists (ColorRoundTrip.first_chunk c ++ ColorRoundTrip.gAMA_chunk c ++
            ColorRoundTrip.cHRM_chunk c),
      (ColorRoundTrip.is_sRGB c),
      (negb (double_eqb
               (GammaFromTransferFunction (ColorEncoding.transfer_function c))
               double_zero)),
      (match WhitePointToCIExy (ColorEncoding.white_point c),
             PrimariesToCIExy (ColorEncoding.primaries c) with
       | Some _, Some _ => true
       | _, _ => false
       end).
    assert (Hc : match ColorEncoding.icc c with
                 | [] => True
                 | _ => exists out,
                          lodepng_zlib_compress (ColorEncoding.icc c) = Some out
                 end).
    { destruct (ColorEncoding.icc c) as [|x icc]; [exact I|].
      destruct Hok as [Hok|Hok]; [discriminate|].
      destruct (lodepng_zlib_compress (x :: icc)) as [out|];
        [eexists; reflexivity|contradiction]. }
    unfold ColorRoundTrip.first_chunk, ColorRoundTrip.gAMA_chunk,
      ColorRoundTrip.cHRM_chunk.
    destruct (ColorEncoding.icc c) as [|x icc].
    + destruct (lodepng_zlib_compress []);
        (split; [reflexivity|]);
        destruct (ColorRoundTrip.is_sRGB c);
        destruct (double_eqb _ _);
        destruct (WhitePointToCIExy _) as [wp|];
        try destruct (PrimariesToCIExy _) as [[[red green] blue]|];
        cbn [app map negb ColorFacts.written chunk_type forallb chunk_crc_ok andb];
        (split; [reflexivity|]); (split; [reflexivity|]);
        intros chunk Hin; cbn [In] in Hin;
        repeat (destruct Hin as [<-|Hin]; [| ]);
        try contradiction;
        cbn [ColorFacts.written chunk_type chunk_payload];
        try reflexivity;
        try (unfold ColorEncodingReaderPNG.DecodeGAMA;
             rewrite StoreBE32_length; reflexivity);
        try (unfold ColorEncodingReaderPNG.DecodeCHRM, ColorRoundTrip.cHRM_payload;
             rewrite !length_app, !StoreBE32_length; reflexivity).
    + destruct Hc as [out Hc]. rewrite Hc.
      (split; [reflexivity|]);
        destruct (double_eqb _ _);
        destruct (WhitePointToCIExy _) as [wp|];
        try destruct (PrimariesToCIExy _) as [[[red green] blue]|];
        cbn [app map negb ColorFacts.written chunk_type forallb chunk_crc_ok andb];
        (split; [reflexivity|]); (split; [reflexivity|]);
        intros chunk Hin; cbn [In] in Hin;
        repeat (destruct Hin as [<-|Hin]; [| ]);
        try contradiction;
        cbn [ColorFacts.written chunk_type chunk_payload];
        try reflexivity;
        try (unfold ColorEncodingReaderPNG.DecodeGAMA;
             rewrite StoreBE32_length; reflexivity);
        try (unfold ColorEncodingReaderPNG.DecodeCHRM, ColorRoundTrip.cHRM_payload;
             rewrite !length_app, !StoreBE32_length; reflexivity).
Qed.

Lemma ColorEncodingWriter_Encode_adds_witness :
  exists (added : list Chunk) (srgb gama chrm : bool),
    ColorEncodingWriterPNG.Encode (H := ColorExample.externals)
      ColorExample.with_profile [] = (StatusOk, [] ++ added) /\
    map chunk_type added =
    [cstr "iCCP"] ++ (if gama then [cstr "gAMA"] else []) ++
    (if chrm then [cstr "cHRM"] else []) /\
    forallb chunk_crc_ok added = true /\
    forall chunk, In chunk added ->
      (if cstring_eqb (chunk_type chunk) (cstr "iCCP")
       then ColorEncodingReaderPNG.DecodeICC (chunk_payload chunk)
       else if cstring_eqb (chunk_type chunk) (cstr "sRGB")
       then ColorEncodingReaderPNG.DecodeSRGB (chunk_payload chunk)
       else if cstring_eqb (chunk_type chunk) (cstr "gAMA")
       then ColorEncodingReaderPNG.DecodeGAMA (chunk_payload chunk)
       else ColorEncodingReaderPNG.DecodeCHRM (chunk_payload chunk)) =
      StatusOk.
Proof.
  apply (proj2 (@ColorEncodingWriter_Encode_adds ColorExample.externals
                  ColorExample.with_profile [])).
  right. discriminate.
Defined.

(** A profile goes through the PNG: when [Encode] has written the colour
    chunks of an encoding with an ICC profile, [Decode] on these chunks,
    followed by chunks of other types, succeeds, leaves the metadata as it
    was and stores in the reader the profile that was written; it sets
    neither [have_srgb_] nor [have_pq_]. *)
Theorem ICC_profile_is_read_back `{ColorExternals}
    (c : ColorEncoding.t) (chunks : list Chunk) (next : Chunk)
    (rest : list Chunk) (m : Metadata) (reader : ColorEncodingReader.t) :
  ColorEncoding.icc c <> [] ->
  ColorEncodingWriterPNG.Encode c [] = (StatusOk, chunks) ->
  forallb (fun chunk => negb (ChunkFacts.recognised chunk)) (next :: rest) = true ->
  exists reader',
    ColorEncodingReader.Decode (chunks ++ next :: rest) m reader =
    Some (StatusOk, m, reader') /\
    ColorEncodingReader.icc_ reader' = ColorEncoding.icc c /\
    ColorEncodingReader.have_srgb_ reader' = ColorEncodingReader.have_srgb_ reader /\
    ColorEncodingReader.have_pq_ reader' = ColorEncodingReader.have_pq_ reader.
Proof.
  intros Hne Henc Hu. rewrite ColorRoundTrip.Encode_chunks in Henc.
  assert (Hc : lodepng_zlib_compress (ColorEncoding.icc c) <> None).
  { intros E. rewrite E in Henc.
    destruct (ColorEncoding.icc c); [contradiction|discriminate]. }
  assert (Hchunks : chunks = ColorRoundTrip.first_chunk c ++
                             ColorRoundTrip.gAMA_chunk c ++
                             ColorRoundTrip.cHRM_chunk c).
  { destruct (ColorEncoding.icc c) as [|x icc]; [contradiction|].
    destruct (lodepng_zlib_compress (x :: icc)); [|contradiction].
    cbn [app] in Henc. congruence. }
  subst chunks. exists (ColorRoundTrip.ReadBack c reader).
  rewrite <- !app_assoc.
  rewrite (ColorRoundTrip.Decode_written c next rest m reader (fun _ => Hc) Hu).
  split; [reflexivity|].
  unfold ColorRoundTrip.ReadBack.
  destruct (ColorEncoding.icc c) as [|x icc]; [contradiction|].
  destruct (double_eqb _ _);
    destruct (WhitePointToCIExy _) as [wp|];
    try destruct (PrimariesToCIExy _) as [[[red green] blue]|];
    repeat split; reflexivity.
Qed.

Lemma ICC_profile_is_read_back_witness :
  exists reader',
    ColorEncodingReader.Decode (H := ColorExample.externals)
      (snd (ColorEncodingWriterPNG.Encode (H := ColorExample.externals)
              ColorExample.with_profile []) ++ ColorExample.IEND :: [])
      PngExamples.no_metadata ColorExample.blank =
    Some (StatusOk, PngExamples.no_metadata, reader') /\
    ColorEncodingReader.icc_ reader' = [x00; x00; x02; x0c] /\
    ColorEncodingReader.have_srgb_ reader' = false /\
    ColorEncodingReader.have_pq_ reader' = false.
Proof.
  apply (@ICC_profile_is_read_back ColorExample.externals
           ColorExample.with_profile
           (snd (ColorEncodingWriterPNG.Encode (H := ColorExample.externals)
                   ColorExample.with_profile []))
           ColorExample.IEND [] PngExamples.no_metadata ColorExample.blank).
  - discriminate.
  - reflexivity.
  - reflexivity.
Defined.

(** Without a profile: [Decode] on the chunks [Encode] has written,
    followed by chunks of other types, succeeds and leaves the metadata
    and the stored profile as they were. When the encoding is sRGB the
    reader has [have_srgb_] set and the rendering intent that was
    written, as a byte; when the transfer function has a gamma the reader
    has [have_gama_] set and the gamma as it comes back from its 32-bit
    encoding. *)
Theorem sRGB_and_gamma_are_read_back `{ColorExternals}
    (c : ColorEncoding.t) (chunks : list Chunk) (next : Chunk)
    (rest : list Chunk) (m : Metadata) (reader : ColorEncodingReader.t) :
  ColorEncoding.icc c = [] ->
  ColorEncodingWriterPNG.Encode c [] = (StatusOk, chunks) ->
  forallb (fun chunk => negb (ChunkFacts.recognised chunk)) (next :: rest) = true ->
  exists reader',
    ColorEncodingReader.Decode (chunks ++ next :: rest) m reader =
    Some (StatusOk, m, reader') /\
    ColorEncodingReader.icc_ reader' = ColorEncodingReader.icc_ reader /\
    (ColorRoundTrip.is_sRGB c = true ->
     ColorEncodingReader.have_srgb_ reader' = true /\
     ProfileParams.rendering_intent (ColorEncodingReader.params_ reader') =
     ColorEncoding.rendering_intent c mod 256) /\
    (ColorRoundTrip.is_sRGB c = false ->
     ColorEncodingReader.have_srgb_ reader' =
     ColorEncodingReader.have_srgb_ reader) /\
    (double_eqb (GammaFromTransferFunction (ColorEncoding.transfer_function c))
       double_zero = false ->
     ColorEncodingReader.have_gama_ reader' = true /\
     ProfileParams.gamma (ColorEncodingReader.params_ reader') =
     ColorEncodingReader.F64FromU32
       (ColorEncodingWriterPNG.U32FromF64
          (GammaFromTransferFunction (ColorEncoding.transfer_function c)))).
Proof.
  intros Hicc Henc Hu. rewrite ColorRoundTrip.Encode_chunks in Henc.
  assert (Hchunks : chunks = ColorRoundTrip.first_chunk c ++
                             ColorRoundTrip.gAMA_chunk c ++
                             ColorRoundTrip.cHRM_chunk c).
  { rewrite Hicc in Henc. cbn [app] in Henc.
    destruct (lodepng_zlib_compress []); congruence. }
  subst chunks. exists (ColorRoundTrip.ReadBack c reader).
  rewrite <- !app_assoc.
  rewrite (ColorRoundTrip.Decode_written c next rest m reader
             ltac:(intros Hne; contradiction) Hu).
  split; [reflexivity|].
  unfold ColorRoundTrip.ReadBack. rewrite Hicc.
  destruct (ColorRoundTrip.is_sRGB c);
    destruct (double_eqb _ _);
    destruct (WhitePointToCIExy _) as [wp|];
    try destruct (PrimariesToCIExy _) as [[[red green] blue]|];
    repeat split; try reflexivity; intros; try discriminate.
Qed.

Lemma sRGB_and_gamma_are_read_back_witness :
  exists reader',
    ColorEncodingReader.Decode (H := ColorExample.externals)
      (snd (ColorEncodingWriterPNG.Encode (H := ColorExample.externals)
              ColorExample.plain_sRGB []) ++ ColorExample.IEND :: [])
      PngExamples.no_metadata ColorExample.blank =
    Some (StatusOk, PngExamples.no_metadata, reader') /\
    ColorEncodingReader.icc_ reader' = [] /\
    ColorEncodingReader.have_srgb_ reader' = true /\
    ProfileParams.rendering_intent (ColorEncodingReader.params_ reader') = 1.
Proof.
  destruct (@sRGB_and_gamma_are_read_back ColorExample.externals
              ColorExample.plain_sRGB
              (snd (ColorEncodingWriterPNG.Encode (H := ColorExample.externals)
                      ColorExample.plain_sRGB []))
              ColorExample.IEND [] PngExamples.no_metadata ColorExample.blank
              eq_refl eq_refl eq_refl)
    as (reader' & Hd & Hi & Hs & _).
  exists reader'. split; [exact Hd|]. split; [exact Hi|].
  exact (Hs eq_refl).
Defined.

(** ** headers.h *)

(** Whatever the visitor, the operations a [TileHeader] performs for
    itself (those of nested headers left out) are [AllDefault] alone, or
    [AllDefault], [Bool], [Conditional], or these three followed by
    [BeginExtensions], [EndExtensions]. Those of a [GroupHeader] are
    [AllDefault] alone, or [AllDefault], [Conditional], or these two
    followed by [BeginExtensions], [EndExtensions]. Nothing else is
    performed, and nothing in another order. *)
Theorem TileHeader_and_GroupHeader_own_operations `{Externals}
    (V : Type) (HV : Visitor V) (v : V) (t : TileHeader.t) (g : GroupHeader.t) :
  In (own_events 0 (Trace (TileHeader.VisitFields t) v))
     [[EvAllDefault];
      [EvAllDefault; EvBool; EvConditional];
      [EvAllDefault; EvBool; EvConditional;
       EvBeginExtensions; EvEndExtensions]] /\
  In (own_events 0 (Trace (GroupHeader.VisitFields g) v))
     [[EvAllDefault];
      [EvAllDefault; EvConditional];
      [EvAllDefault; EvConditional; EvBeginExtensions; EvEndExtensions]].
Proof.
  split.
  - destruct (TileHeader_OwnIn t V HV v) as (l & Hin & Hl).
    rewrite (OwnIs_own_events _ _ Hl). exact Hin.
  - destruct (GroupHeader_OwnIn g V HV v) as (l & Hin & Hl).
    rewrite (OwnIs_own_events _ _ Hl). exact Hin.
Qed.

(** Under a visitor whose [EndExtensions] returns true in every state,
    the field lists of [TileHeader] and of [GroupHeader] return true for
    every header and from every state of the visitor: the nested
    projective transform, alpha and tile headers add no failure of their
    own, so that a failure of these two headers is a failure of an
    [EndExtensions]. *)
Theorem TileHeader_and_GroupHeader_fail_only_in_EndExtensions `{Externals}
    (V : Type) (HV : Visitor V) :
  (forall v : V, fst (visit OpEndExtensions v) = StatusOk) ->
  forall (v : V) (t : TileHeader.t) (g : GroupHeader.t),
    fst (fst (Visit (TileHeader.VisitFields t) v)) = StatusOk /\
    fst (fst (Visit (GroupHeader.VisitFields g) v)) = StatusOk.
Proof.
  intros Hend v t g. split.
  - apply (TileHeader_Ok t V HV Hend v).
  - apply (GroupHeader_Ok g V HV Hend v).
Qed.

Lemma TileHeader_and_GroupHeader_fail_only_in_EndExtensions_witness :
  fst (fst (Visit (TileHeader.VisitFields (H := Example.externals)
                     HeaderExamples.transformed)
              (HeaderExamples.writer 0))) = StatusOk /\
  fst (fst (Visit (GroupHeader.VisitFields (H := Example.externals)
                     (GroupHeader.Default (H := Example.externals)))
              (HeaderExamples.writer 0))) = StatusOk.
Proof.
  apply (@TileHeader_and_GroupHeader_fail_only_in_EndExtensions
           Example.externals WriteVisitor WriteVisitor_Visitor
           (fun v => eq_refl) (HeaderExamples.writer 0)
           HeaderExamples.transformed
           (GroupHeader.Default (H := Example.externals))).
Defined.

(** * The eXIf chunks of a PNG *)



